(** * SkySheet-Minifizer: a shallow embedding of [minify_files.py]

    The program is a batch file minifier: it detects the encoding of a file,
    copies it to a backup folder, minifies its content (JSON by parsing and
    re-serialising, anything else by regular-expression whitespace removal)
    and writes the result under the [.skysheet] extension.

    Conventions of the embedding.
    - A Python [str] is a sequence of Unicode code points: [list N].
    - [bytes] are [list byte].
    - The program is modelled as it runs on a POSIX platform
      ([os.path] is [posixpath], [os.linesep] is a line feed, file names are
      case sensitive).
    - The file system is a finite map from path strings to nodes; two paths
      name the same node exactly when they are the same string (no symbolic
      or hard links).
    - Library calls ([re.sub], [str.strip], [json.loads], [json.dumps],
      the codecs, [os.path.*], [shutil.copy2], [os.makedirs], [os.walk])
      are modelled after CPython 3.11.
    - [float], [float.__repr__] and [str.lower] are parameters.
    - The command line driver is run on the arguments after the name of
      the program; its own messages are kept in a log apart from the trace.
    - The recursion of the JSON parser and of [os.walk] is bounded by fuel;
      Part II shows that the fuel given is never used up
      ([scan_once_enough], [walk_run]). *)

From Stdlib Require Import ZArith NArith List Bool Lia String Ascii SpecFloat.
From Stdlib.Strings Require Import Byte.
From stdpp Require Import gmap list.

Import ListNotations.
Local Open Scope N_scope.

(* ===================================================================== *)
(** * Part I. The embedding *)
(* ===================================================================== *)

(** ** Strings *)

Abbreviation str := (list N).

Fixpoint str_of (s : string) : str :=
  match s with
  | EmptyString => []
  | String a s' => N_of_ascii a :: str_of s'
  end.

(** Code points used by the program. *)
Definition TAB : N := 9.
Definition LF : N := 10.
Definition CR : N := 13.
Definition SP : N := 32.
Definition DQUOTE : N := 34.
Definition BSLASH : N := 92.
Definition SLASH : N := 47.
Definition DOT : N := 46.

Definition mem (c : N) (cs : str) : bool := existsb (N.eqb c) cs.

Definition str_eqb (a b : str) : bool := bool_decide (a = b).

Definition starts_with_char (c : N) (s : str) : bool :=
  match s with
  | x :: _ => x =? c
  | [] => false
  end.

Definition ends_with_char (c : N) (s : str) : bool := starts_with_char c (rev s).

(** [str.isspace] on one code point, which is also the class [\s] of [re]
    for [str] patterns: the code points CPython lists as white space. *)
Definition isspace (c : N) : bool :=
  ((9 <=? c) && (c <=? 13)) || ((28 <=? c) && (c <=? 32))
  || (c =? 133) || (c =? 160) || (c =? 5760)
  || ((8192 <=? c) && (c <=? 8202))
  || (c =? 8232) || (c =? 8233) || (c =? 8239) || (c =? 8287) || (c =? 12288).

(** Length of the longest prefix of [s] whose characters are all in [p]. *)
Fixpoint span (p : N -> bool) (s : str) : nat :=
  match s with
  | c :: s' => if p c then S (span p s') else 0%nat
  | [] => 0%nat
  end.

(** [s.lstrip()], [s.rstrip()], [s.strip()] without argument. *)
Definition lstrip (s : str) : str := drop (span isspace s) s.
Definition rstrip (s : str) : str := rev (lstrip (rev s)).
Definition strip (s : str) : str := rstrip (lstrip s).

(** ** Regular expressions

    The three patterns of [minify_text] are sequences of character classes,
    each taken once or repeated greedily at least [n] times, with an optional
    capturing group around an item.  The matcher is the backtracking matcher
    of [re] restricted to that fragment. *)

Inductive quant :=
  | Once
  | AtLeast (n : nat).   (* x* is AtLeast 0, x+ is AtLeast 1, x{2,} is AtLeast 2 *)

Record item := Item {
  in_class : N -> bool;
  rep : quant;
  captured : bool
}.

Abbreviation pattern := (list item).

(** Try [f (m + d)], [f (m + d - 1)], ..., [f m]: a greedy repetition gives
    characters back one at a time. *)
Fixpoint first_down {A} (f : nat -> option A) (m d : nat) : option (nat * A) :=
  match f (m + d)%nat with
  | Some r => Some ((m + d)%nat, r)
  | None => match d with
            | O => None
            | S d' => first_down f m d'
            end
  end.

Definition add_group (cap : bool) (g : str) (r : list str * str) : list str * str :=
  if cap then (g :: fst r, snd r) else r.

(** Match [p] at the start of [s]: the captured groups and the rest of [s]
    after the match. *)
Fixpoint match_here (p : pattern) (s : str) : option (list str * str) :=
  match p with
  | [] => Some ([], s)
  | it :: p' =>
      match rep it with
      | Once =>
          match s with
          | c :: s' =>
              if in_class it c
              then add_group (captured it) [c] <$> match_here p' s'
              else None
          | [] => None
          end
      | AtLeast m =>
          let n := span (in_class it) s in
          if (m <=? n)%nat then
            match first_down (fun k => match_here p' (drop k s)) m (n - m) with
            | Some (k, r) => Some (add_group (captured it) (take k s) r)
            | None => None
            end
          else None
      end
  end.

(** Replacement templates: literal characters and group references. *)
Inductive tpl :=
  | TLit (c : N)
  | TGroup (i : nat).     (* \1 is TGroup 1 *)

Definition expand (t : list tpl) (groups : list str) : str :=
  flat_map (fun x => match x with
                     | TLit c => [c]
                     | TGroup i => nth (pred i) groups []
                     end) t.

(** [re.sub]: scan left to right, replace each leftmost match, go on after
    it.  [skip] counts the characters still covered by the last match.  An
    empty match is replaced too and the scan moves one character on. *)
Fixpoint sub_scan (p : pattern) (t : list tpl) (skip : nat) (s : str) : str :=
  match s with
  | [] =>
      match skip with
      | O => match match_here p [] with
             | Some (g, _) => expand t g
             | None => []
             end
      | S _ => []
      end
  | c :: s' =>
      match skip with
      | S k => sub_scan p t k s'
      | O =>
          match match_here p s with
          | Some (g, rest) =>
              match (length s - length rest)%nat with
              | O => expand t g ++ c :: sub_scan p t 0 s'
              | S k => expand t g ++ sub_scan p t k s'
              end
          | None => c :: sub_scan p t 0 s'
          end
      end
  end.

Definition re_sub (p : pattern) (t : list tpl) (s : str) : str := sub_scan p t 0 s.

(** ** [minify_text] *)

(** [[\r\n\t]+] *)
Definition re_newlines : pattern :=
  [Item (fun c => mem c [CR; LF; TAB]) (AtLeast 1) false].

(** [ {2,}] *)
Definition re_spaces : pattern :=
  [Item (N.eqb SP) (AtLeast 2) false].

Definition is_punct (c : N) : bool := mem c (str_of "{}[]:,").

(** [\s*([\{\}\[\]:,])\s*] *)
Definition re_punct : pattern :=
  [Item isspace (AtLeast 0) false; Item is_punct Once true; Item isspace (AtLeast 0) false].

Definition minify_text (content : str) : str :=
  let content := re_sub re_newlines [TLit SP] content in
  let content := re_sub re_spaces [TLit SP] content in
  let content := re_sub re_punct [TGroup 1] content in
  strip content.

(** ** The text minifier as the specification words it

    Each step is written independently of the regular expressions. *)

(** The maximal runs of [s]: consecutive blocks whose characters are all in
    the class (flag [true]) or all outside it (flag [false]). *)
Fixpoint runs (cls : N -> bool) (s : str) : list (bool * str) :=
  match s with
  | [] => []
  | c :: s' =>
      match runs cls s' with
      | (b, r) :: rs =>
          if Bool.eqb b (cls c) then (b, c :: r) :: rs
          else (cls c, [c]) :: (b, r) :: rs
      | [] => [(cls c, [c])]
      end
  end.

Definition is_newline (c : N) : bool := (c =? CR) || (c =? LF) || (c =? TAB).

(** Step 1: every maximal run of CR, LF or TAB becomes one space. *)
Definition spec_newlines_to_space (s : str) : str :=
  concat (map (fun br : bool * str => if fst br then [SP] else snd br) (runs is_newline s)).

(** Step 2: every run of two or more spaces becomes one space. *)
Definition spec_collapse_spaces (s : str) : str :=
  concat (map (fun br : bool * str =>
                 if fst br && (2 <=? length (snd br))%nat then [SP] else snd br)
              (runs (N.eqb SP) s)).

Definition starts_with_punct (s : str) : bool :=
  match s with
  | c :: _ => is_punct c
  | [] => false
  end.

(** Step 3: a white-space character goes when the white space it stands in
    comes right after a punctuation character ([after_punct]) or right
    before one. *)
Fixpoint spec_strip_around_punct (after_punct : bool) (s : str) : str :=
  match s with
  | [] => []
  | c :: s' =>
      if isspace c then
        if after_punct || starts_with_punct (lstrip s')
        then spec_strip_around_punct after_punct s'
        else c :: spec_strip_around_punct false s'
      else c :: spec_strip_around_punct (is_punct c) s'
  end.

(** Step 4: trim white space at both ends. *)
Definition spec_trim (s : str) : str := strip s.

Definition spec_minify_text (s : str) : str :=
  spec_trim (spec_strip_around_punct false (spec_collapse_spaces (spec_newlines_to_space s))).

Definition hello_input : str :=
  str_of "Hello" ++ [LF; LF; TAB] ++ str_of "World   {foo}".

(** ** JSON values

    What [json.loads] builds: [None], [bool], [int] (unbounded), [float]
    (an IEEE 754 datum), [str], [list] and [dict].  A [dict] keeps its keys
    in insertion order, so it is an association list without repeated keys. *)

#[local] Set Warnings "-register-all".

Inductive json :=
  | JNull
  | JBool (b : bool)
  | JInt (z : Z)
  | JFloat (f : spec_float)
  | JStr (s : str)
  | JList (l : list json)
  | JDict (d : list (str * json)).

(** [d[k] = v]: a key already present keeps its place and takes the new
    value; a new key goes last. *)
Fixpoint dict_set (d : list (str * json)) (k : str) (v : json) : list (str * json) :=
  match d with
  | [] => [(k, v)]
  | (k', v') :: d' =>
      if str_eqb k' k then (k', v) :: d' else (k', v') :: dict_set d' k v
  end.

(** [dict(pairs)] *)
Definition dict_of_pairs (pairs : list (str * json)) : list (str * json) :=
  fold_left (fun d kv => dict_set d (fst kv) (snd kv)) pairs [].

(** ** Characters of the JSON grammar *)

Definition MINUS : N := 45.
Definition PLUS : N := 43.
Definition COMMA : N := 44.
Definition COLON : N := 58.
Definition LBRACE : N := 123.
Definition RBRACE : N := 125.
Definition LBRACKET : N := 91.
Definition RBRACKET : N := 93.
Definition ZERO : N := 48.
Definition LOWER_U : N := 117.

Definition is_digit (c : N) : bool := (48 <=? c) && (c <=? 57).

(** [WHITESPACE.match(s, end).end()] with [WHITESPACE = [ \t\n\r]*]. *)
Definition json_ws (c : N) : bool := mem c [SP; TAB; LF; CR].
Definition skip_ws (s : str) : str := drop (span json_ws s) s.

(** ** Integers as text: [int(text)] and [int.__repr__] *)

Definition digit_val (c : N) : Z := Z.of_N (c - 48).

Definition int_of_digits (ds : str) : Z :=
  fold_left (fun acc c => (10 * acc + digit_val c)%Z) ds 0%Z.

Definition parse_int (text : str) : Z :=
  match text with
  | c :: ds => if c =? MINUS then (- int_of_digits ds)%Z else int_of_digits text
  | [] => 0%Z
  end.

Fixpoint digits_from (fuel : nat) (n : N) (acc : str) : str :=
  match fuel with
  | O => acc
  | S fuel' =>
      let acc' := (48 + n mod 10) :: acc in
      if n <? 10 then acc' else digits_from fuel' (n / 10) acc'
  end.

(** The decimal digits of [n]; a number has no more decimal digits than
    binary ones. *)
Definition digits_of (n : N) : str := digits_from (S (N.size_nat n)) n [].

Definition int_repr (z : Z) : str :=
  if (z <? 0)%Z then MINUS :: digits_of (Z.abs_N z) else digits_of (Z.abs_N z).

(** ** The number token

    [NUMBER_RE]: an optional minus sign and either a single 0 or a digit
    1-9 followed by digits (group [integer]); then optionally a dot and one
    or more digits (group [frac]); then optionally e or E, an optional sign
    and one or more digits (group [exp]).  Digits are the ASCII digits, as
    the scanner CPython uses matches them. *)

Definition scan_integer (s : str) : option (str * str) :=
  let '(sign, s1) :=
    match s with
    | c :: s' => if c =? MINUS then ([MINUS], s') else ([], s)
    | [] => ([], s)
    end in
  match s1 with
  | c :: s2 =>
      if c =? ZERO then Some (sign ++ [c], s2)
      else if is_digit c
           then Some (sign ++ c :: take (span is_digit s2) s2, drop (span is_digit s2) s2)
           else None
  | [] => None
  end.

Definition scan_frac (s : str) : str * str :=
  match s with
  | c :: s' =>
      if (c =? DOT) && (1 <=? span is_digit s')%nat
      then (c :: take (span is_digit s') s', drop (span is_digit s') s')
      else ([], s)
  | [] => ([], s)
  end.

Definition scan_exp (s : str) : str * str :=
  match s with
  | c :: s1 =>
      if mem c (str_of "eE") then
        let '(sign, s2) :=
          match s1 with
          | d :: s2 => if mem d (str_of "-+") then ([d], s2) else ([], s1)
          | [] => ([], s1)
          end in
        if (1 <=? span is_digit s2)%nat
        then (c :: sign ++ take (span is_digit s2) s2, drop (span is_digit s2) s2)
        else ([], s)
      else ([], s)
  | [] => ([], s)
  end.

(** [match_number]: the groups [integer], [frac], [exp] and what follows. *)
Definition match_number (s : str) : option (str * str * str * str) :=
  match scan_integer s with
  | Some (integer, s1) =>
      let '(frac, s2) := scan_frac s1 in
      let '(exp, s3) := scan_exp s2 in
      Some (integer, frac, exp, s3)
  | None => None
  end.

(** ** String literals: [scanstring] *)

Definition hex_val (c : N) : option N :=
  if is_digit c then Some (c - 48)
  else if (97 <=? c) && (c <=? 102) then Some (c - 87)
  else if (65 <=? c) && (c <=? 70) then Some (c - 55)
  else None.

(** [_decode_uXXXX]: four hexadecimal digits. *)
Definition hex4 (a b c d : N) : option N :=
  match hex_val a, hex_val b, hex_val c, hex_val d with
  | Some x, Some y, Some z, Some w => Some (((x * 16 + y) * 16 + z) * 16 + w)
  | _, _, _, _ => None
  end.

(** The table [BACKSLASH]. *)
Definition backslash_table (esc : N) : option N :=
  if esc =? DQUOTE then Some DQUOTE
  else if esc =? BSLASH then Some BSLASH
  else if esc =? SLASH then Some SLASH
  else if esc =? 98 then Some 8      (* b *)
  else if esc =? 102 then Some 12    (* f *)
  else if esc =? 110 then Some LF    (* n *)
  else if esc =? 114 then Some CR    (* r *)
  else if esc =? 116 then Some TAB   (* t *)
  else None.

Definition is_high_surrogate (u : N) : bool := (55296 <=? u) && (u <=? 56319).
Definition is_low_surrogate (u : N) : bool := (56320 <=? u) && (u <=? 57343).

Definition join_surrogates (hi lo : N) : N :=
  65536 + N.lor (N.shiftl (hi - 55296) 10) (lo - 56320).

Definition push_char (c : N) (r : option (str * str)) : option (str * str) :=
  match r with
  | Some (text, rest) => Some (c :: text, rest)
  | None => None
  end.

(** [scanstring(s, end)] in strict mode; [s] starts right after the opening
    quote.  The decoded string and what follows the closing quote. *)
Fixpoint scanstring (s : str) : option (str * str) :=
  match s with
  | [] => None                                   (* unterminated string *)
  | c :: s1 =>
      if c =? DQUOTE then Some ([], s1)
      else if c =? BSLASH then
        match s1 with
        | [] => None                             (* unterminated string *)
        | esc :: s2 =>
            if esc =? LOWER_U then
              match s2 with
              | h1 :: h2 :: h3 :: h4 :: s3 =>
                  match hex4 h1 h2 h3 h4 with
                  | None => None                 (* invalid \uXXXX escape *)
                  | Some uni =>
                      if is_high_surrogate uni then
                        match s3 with
                        | b :: u :: s4 =>
                            if (b =? BSLASH) && (u =? LOWER_U) then
                              match s4 with
                              | k1 :: k2 :: k3 :: k4 :: s5 =>
                                  match hex4 k1 k2 k3 k4 with
                                  | None => None
                                  | Some uni2 =>
                                      if is_low_surrogate uni2
                                      then push_char (join_surrogates uni uni2) (scanstring s5)
                                      else push_char uni (scanstring s3)
                                  end
                              | _ => None
                              end
                            else push_char uni (scanstring s3)
                        | _ => push_char uni (scanstring s3)
                        end
                      else push_char uni (scanstring s3)
                  end
              | _ => None                        (* invalid \uXXXX escape *)
              end
            else
              match backslash_table esc with
              | Some ch => push_char ch (scanstring s2)
              | None => None                     (* invalid \escape *)
              end
        end
      else if c <? 32 then None                  (* invalid control character *)
      else push_char c (scanstring s1)
  end.

(** ** String literals: [encode_basestring_ascii] *)

Definition hex_digit (n : N) : N := if n <? 10 then 48 + n else 87 + n.

(** ['\\u{0:04x}'.format(n)] *)
Definition u_escape (n : N) : str :=
  [BSLASH; LOWER_U; hex_digit (n / 4096 mod 16); hex_digit (n / 256 mod 16);
   hex_digit (n / 16 mod 16); hex_digit (n mod 16)].

Definition escape_char (c : N) : str :=
  if c =? DQUOTE then [BSLASH; DQUOTE]
  else if c =? BSLASH then [BSLASH; BSLASH]
  else if (32 <=? c) && (c <=? 126) then [c]
  else if c =? 8 then [BSLASH; 98]
  else if c =? 12 then [BSLASH; 102]
  else if c =? LF then [BSLASH; 110]
  else if c =? CR then [BSLASH; 114]
  else if c =? TAB then [BSLASH; 116]
  else if c <? 65536 then u_escape c
  else
    let n := c - 65536 in
    u_escape (N.lor 55296 (N.land (N.shiftr n 10) 1023))
    ++ u_escape (N.lor 56320 (N.land n 1023)).

Definition encode_basestring_ascii (s : str) : str :=
  DQUOTE :: flat_map escape_char s ++ [DQUOTE].

(** [separator.join(parts)] *)
Fixpoint join_with (sep : str) (parts : list str) : str :=
  match parts with
  | [] => []
  | [x] => x
  | x :: rest => x ++ sep ++ join_with sep rest
  end.

(** ** Codecs: [bytes.decode] and [str.encode], strict *)

Definition byte_val (b : byte) : N := Byte.to_N b.
Definition byte_of (n : N) : byte := default Byte.x00 (Byte.of_N n).

Definition is_cont (x : N) : bool := (128 <=? x) && (x <=? 191).

(** UTF-8: shortest forms only, no surrogates, nothing above U+10FFFF. *)
Fixpoint decode_utf8 (bs : list byte) : option str :=
  match bs with
  | [] => Some []
  | b0 :: r0 =>
      let x0 := byte_val b0 in
      if x0 <? 128 then cons x0 <$> decode_utf8 r0
      else if (194 <=? x0) && (x0 <=? 223) then
        match r0 with
        | b1 :: r1 =>
            let x1 := byte_val b1 in
            if is_cont x1
            then cons ((x0 - 192) * 64 + (x1 - 128)) <$> decode_utf8 r1
            else None
        | _ => None
        end
      else if (224 <=? x0) && (x0 <=? 239) then
        match r0 with
        | b1 :: b2 :: r2 =>
            let x1 := byte_val b1 in
            let x2 := byte_val b2 in
            if ((if x0 =? 224 then 160 else 128) <=? x1)
               && (x1 <=? (if x0 =? 237 then 159 else 191))
               && is_cont x2
            then cons ((x0 - 224) * 4096 + (x1 - 128) * 64 + (x2 - 128)) <$> decode_utf8 r2
            else None
        | _ => None
        end
      else if (240 <=? x0) && (x0 <=? 244) then
        match r0 with
        | b1 :: b2 :: b3 :: r3 =>
            let x1 := byte_val b1 in
            let x2 := byte_val b2 in
            let x3 := byte_val b3 in
            if ((if x0 =? 240 then 144 else 128) <=? x1)
               && (x1 <=? (if x0 =? 244 then 143 else 191))
               && is_cont x2 && is_cont x3
            then cons ((x0 - 240) * 262144 + (x1 - 128) * 4096 + (x2 - 128) * 64 + (x3 - 128))
                   <$> decode_utf8 r3
            else None
        | _ => None
        end
      else None
  end.

Definition is_surrogate (c : N) : bool := (55296 <=? c) && (c <=? 57343).

Definition encode_utf8_char (c : N) : option (list byte) :=
  if c <? 128 then Some [byte_of c]
  else if c <? 2048 then Some [byte_of (192 + c / 64); byte_of (128 + c mod 64)]
  else if c <? 65536 then
    if is_surrogate c then None
    else Some [byte_of (224 + c / 4096); byte_of (128 + c / 64 mod 64); byte_of (128 + c mod 64)]
  else if c <? 1114112 then
    Some [byte_of (240 + c / 262144); byte_of (128 + c / 4096 mod 64);
          byte_of (128 + c / 64 mod 64); byte_of (128 + c mod 64)]
  else None.

Fixpoint encode_with (f : N -> option (list byte)) (s : str) : option (list byte) :=
  match s with
  | [] => Some []
  | c :: s' =>
      match f c, encode_with f s' with
      | Some b, Some bs => Some (b ++ bs)
      | _, _ => None
      end
  end.

(** UTF-16 little endian, without byte order mark. *)
Fixpoint decode_utf16le (bs : list byte) : option str :=
  match bs with
  | [] => Some []
  | lo :: hi :: r =>
      let u := byte_val lo + 256 * byte_val hi in
      if is_high_surrogate u then
        match r with
        | lo2 :: hi2 :: r2 =>
            let u2 := byte_val lo2 + 256 * byte_val hi2 in
            if is_low_surrogate u2
            then cons (join_surrogates u u2) <$> decode_utf16le r2
            else None
        | _ => None
        end
      else if is_low_surrogate u then None
      else cons u <$> decode_utf16le r
  | _ => None
  end.

Definition encode_utf16le_char (c : N) : option (list byte) :=
  if c <? 65536 then
    if is_surrogate c then None
    else Some [byte_of (c mod 256); byte_of (c / 256)]
  else if c <? 1114112 then
    let n := c - 65536 in
    let hi := 55296 + n / 1024 in
    let lo := 56320 + n mod 1024 in
    Some [byte_of (hi mod 256); byte_of (hi / 256); byte_of (lo mod 256); byte_of (lo / 256)]
  else None.

Inductive encoding := UTF8 | UTF16LE.

Definition decode (enc : encoding) (bs : list byte) : option str :=
  match enc with
  | UTF8 => decode_utf8 bs
  | UTF16LE => decode_utf16le bs
  end.

Definition encode (enc : encoding) (s : str) : option (list byte) :=
  match enc with
  | UTF8 => encode_with encode_utf8_char s
  | UTF16LE => encode_with encode_utf16le_char s
  end.

(** Text mode with [newline=None]: on reading, CR LF and CR become LF.  On
    writing LF becomes [os.linesep], which is LF itself here. *)
Fixpoint universal_newlines (s : str) : str :=
  match s with
  | [] => []
  | c :: s' =>
      if c =? CR then
        LF :: match s' with
              | d :: s'' => if d =? LF then universal_newlines s'' else universal_newlines s'
              | [] => []
              end
      else c :: universal_newlines s'
  end.

(** ** Paths: [posixpath] *)

(** [p.rfind(c)]: the last index of [c] in [p], or -1. *)
Fixpoint rfind (c : N) (p : str) : Z :=
  match p with
  | [] => (-1)%Z
  | x :: p' =>
      let r := rfind c p' in
      if (0 <=? r)%Z then (r + 1)%Z else if x =? c then 0%Z else (-1)%Z
  end.

Definition all_slashes (p : str) : bool := forallb (N.eqb SLASH) p.

(** [h.rstrip('/')] *)
Definition rstrip_slash (h : str) : str :=
  rev (drop (span (N.eqb SLASH) (rev h)) (rev h)).

Definition basename (p : str) : str :=
  let i := (rfind SLASH p + 1)%Z in
  drop (Z.to_nat i) p.

Definition dirname (p : str) : str :=
  let i := (rfind SLASH p + 1)%Z in
  let head := take (Z.to_nat i) p in
  if negb (str_eqb head []) && negb (all_slashes head) then rstrip_slash head else head.

(** [os.path.join(a, b)] *)
Definition join (a b : str) : str :=
  if starts_with_char SLASH b then b
  else if str_eqb a [] || ends_with_char SLASH a then a ++ b
  else a ++ [SLASH] ++ b.

(** [os.path.splitext(p)]: leading dots of the last component belong to the
    root. *)
Definition splitext (p : str) : str * str :=
  let sepIndex := rfind SLASH p in
  let dotIndex := rfind DOT p in
  if (sepIndex <? dotIndex)%Z then
    let filenameIndex := (sepIndex + 1)%Z in
    let leading := take (Z.to_nat (dotIndex - filenameIndex)) (drop (Z.to_nat filenameIndex) p) in
    if existsb (fun x => negb (x =? DOT)) leading
    then (take (Z.to_nat dotIndex) p, drop (Z.to_nat dotIndex) p)
    else (p, [])
  else (p, []).

(** [s.endswith(suffix)] *)
Definition endswith (s suffix : str) : bool :=
  str_eqb (drop (length s - length suffix) s) suffix
  && (length suffix <=? length s)%nat.

(** ** The world: a file system and what the program printed and did *)

Inductive node :=
  | File (data : list byte)
  | Dir.

Inductive exn :=
  | UnicodeDecodeError
  | UnicodeEncodeError
  | FileNotFoundError
  | IsADirectoryError
  | FileExistsError
  | SameFileError
  | RecursionError.

(** One constructor for each [print] of the program; the text of an
    exception is not modelled. *)
Inductive message :=
  | EncodingWarning (file_path : str)         (* [WARNING] Encoding detection failed ... *)
  | JsonError                                  (* [JSON ERROR] Invalid JSON structure: ... *)
  | FileNotFound (file_path : str)             (* [ERROR] File not found: ... *)
  | Success (filename new_filename : str)      (* [SUCCESS] Minified: ... *)
  | SuccessEncoding (enc : encoding)
  | SuccessBackup (backup_path : str)
  | CriticalError (filename : str)             (* [CRITICAL ERROR] Processing ... *)
  | ErrorType (e : exn)
  | ErrorLine (line : nat)
  | ErrorDetails (e : exn)
  | ProcessingDirectory (directory : str).

(** The calls that touch the file system, in the order they are made. *)
Inductive event :=
  | Printed (m : message)
  | Probe (file_path : str) (enc : encoding)       (* detect_encoding: open and read *)
  | MakeDirs (path : str)                          (* os.makedirs(path, exist_ok=True) *)
  | Copy2 (src dst : str)                          (* shutil.copy2(src, dst) *)
  | ReadFile (file_path : str) (enc : encoding)    (* read_file *)
  | WriteFile (file_path : str) (enc : encoding)   (* write_file *)
  | Listed (top : str) (listing : option (list str * list str))
                                                   (* os.walk lists a directory *)
  | Processed (file_path : str) (ok : bool).       (* process_file returned to the walker *)

Record world := World {
  files : gmap str node;
  trace : list event
}.

(** A computation returns or raises; a raised exception carries the line of
    [process_file] it passed through. *)
Inductive outcome (A : Type) :=
  | Ok (a : A)
  | Raised (e : exn) (line : nat).
Arguments Ok {A} a.
Arguments Raised {A} e line.

Definition M (A : Type) : Type := world -> outcome A * world.

Definition ret {A} (a : A) : M A := fun w => (Ok a, w).

Definition bind {A B} (m : M A) (k : A -> M B) : M B :=
  fun w =>
    match m w with
    | (Ok a, w') => k a w'
    | (Raised e line, w') => (Raised e line, w')
    end.

Notation "'let*' x := m 'in' k" := (bind m (fun x => k))
  (at level 10, x name, m at level 100, k at level 200).
Notation "m ;; k" := (bind m (fun _ => k))
  (at level 100, k at level 200, right associativity).

Definition raise {A} (e : exn) : M A := fun w => (Raised e 0, w).

(** The statement at [line] of [process_file]. *)
Definition at_line {A} (line : nat) (m : M A) : M A :=
  fun w =>
    match m w with
    | (Raised e _, w') => (Raised e line, w')
    | r => r
    end.

(** [try: m except <handles>: h] *)
Definition try_except {A} (m : M A) (handles : exn -> bool) (h : exn -> nat -> M A) : M A :=
  fun w =>
    match m w with
    | (Raised e line, w') => if handles e then h e line w' else (Raised e line, w')
    | r => r
    end.

Definition emit (e : event) : M unit :=
  fun w => (Ok tt, World (files w) (trace w ++ [e])).

Definition print (m : message) : M unit := emit (Printed m).

Definition set_node (p : str) (n : node) : M unit :=
  fun w => (Ok tt, World (<[p := n]> (files w)) (trace w)).

Definition lookup_node (p : str) : M (option node) :=
  fun w => (Ok (files w !! p), w).

(** [os.path.isfile], [os.path.isdir] *)
Definition isfile (p : str) : M bool :=
  let* n := lookup_node p in ret (match n with Some (File _) => true | _ => false end).

Definition isdir (p : str) : M bool :=
  let* n := lookup_node p in ret (match n with Some Dir => true | _ => false end).

(** [open(p, 'rb').read()] *)
Definition read_bytes (p : str) : M (list byte) :=
  let* n := lookup_node p in
  match n with
  | Some (File data) => ret data
  | Some Dir => raise IsADirectoryError
  | None => raise FileNotFoundError
  end.

(** [open(p, 'r', encoding=enc).read()] *)
Definition read_text (p : str) (enc : encoding) : M str :=
  let* data := read_bytes p in
  match decode enc data with
  | Some text => ret (universal_newlines text)
  | None => raise UnicodeDecodeError
  end.

(** [open(p, 'wb')]: the file is created or truncated. *)
Definition open_for_writing (p : str) : M unit :=
  let* n := lookup_node p in
  match n with
  | Some Dir => raise IsADirectoryError
  | _ => set_node p (File [])
  end.

(** [os.makedirs(path, exist_ok=True)].  The program calls it on the
    [backup] folder next to a file it has just seen, so the parent is
    there and only the leaf is ever created. *)
Definition makedirs (path : str) : M unit :=
  emit (MakeDirs path) ;;
  let* n := lookup_node path in
  match n with
  | Some Dir => ret tt
  | Some (File _) => raise FileExistsError
  | None => set_node path Dir
  end.

(** [shutil.copy2(src, dst)]: into [dst] when it is a directory; the
    metadata [copystat] copies is not part of the world. *)
Definition copy2 (src dst : str) : M unit :=
  emit (Copy2 src dst) ;;
  let* d := isdir dst in
  let dst := if d then join dst (basename src) else dst in
  if str_eqb src dst then raise SameFileError
  else
    let* data := read_bytes src in
    open_for_writing dst ;;
    set_node dst (File data).

(** ** The functions of the program that do not depend on the parameters *)

(** The [for] loop of [detect_encoding]: the encoding it returns from, if
    any. *)
Fixpoint detect_loop (file_path : str) (encodings : list encoding) : M (option encoding) :=
  match encodings with
  | [] => ret None
  | encoding :: rest =>
      emit (Probe file_path encoding) ;;
      try_except
        (read_text file_path encoding ;; ret (Some encoding))
        (fun e => match e with UnicodeDecodeError => true | _ => false end)
        (fun _ _ => detect_loop file_path rest)
  end.

Definition detect_encoding (file_path : str) : M encoding :=
  let* r := detect_loop file_path [UTF8; UTF16LE] in
  match r with
  | Some encoding => ret encoding
  | None => print (EncodingWarning file_path) ;; ret UTF8
  end.

Definition read_file (file_path : str) (enc : encoding) : M str :=
  emit (ReadFile file_path enc) ;;
  read_text file_path enc.

Definition write_file (file_path : str) (content : str) (enc : encoding) : M unit :=
  emit (WriteFile file_path enc) ;;
  open_for_writing file_path ;;
  match encode enc content with
  | Some data => set_node file_path (File data)
  | None => raise UnicodeEncodeError
  end.

(** ** [json.loads] and [json.dumps]

    [float(text)] and [float.__repr__] are built into the interpreter: the
    correctly rounded conversion between decimal text and binary64.  They
    are parameters of the embedding. *)

Section Program.

Variable float_of_literal : str -> spec_float.
Variable float_repr : spec_float -> str.

Definition starts_with (prefix s : str) : bool :=
  str_eqb (take (length prefix) s) prefix.

(** The constants [NaN], [Infinity], [-Infinity] of the decoder. *)
Definition nan : spec_float := S754_nan.
Definition pos_inf : spec_float := S754_infinity false.
Definition neg_inf : spec_float := S754_infinity true.

(** The part of [_scan_once] that reads no nested value: literals, numbers
    and constants. *)
Definition scan_atom (s : str) : option (json * str) :=
  if starts_with (str_of "null") s then Some (JNull, drop 4 s)
  else if starts_with (str_of "true") s then Some (JBool true, drop 4 s)
  else if starts_with (str_of "false") s then Some (JBool false, drop 5 s)
  else
    match match_number s with
    | Some (integer, frac, exp, rest) =>
        match frac, exp with
        | [], [] => Some (JInt (parse_int integer), rest)
        | _, _ => Some (JFloat (float_of_literal (integer ++ frac ++ exp)), rest)
        end
    | None =>
        if starts_with (str_of "NaN") s then Some (JFloat nan, drop 3 s)
        else if starts_with (str_of "Infinity") s then Some (JFloat pos_inf, drop 8 s)
        else if starts_with (str_of "-Infinity") s then Some (JFloat neg_inf, drop 9 s)
        else None
    end.

(** [_scan_once], [JSONArray] and [JSONObject].  Every call reads at least
    one character, so the recursion is bounded by [fuel]; [loads] below
    starts it with more fuel than the text has characters.  [None] is the
    [JSONDecodeError] (or the [StopIteration] every caller turns into one). *)
Fixpoint scan_once (fuel : nat) (s : str) {struct fuel} : option (json * str) :=
  match fuel with
  | O => None
  | S fuel' =>
      match s with
      | [] => None
      | c :: s' =>
          if c =? DQUOTE then
            match scanstring s' with
            | Some (text, rest) => Some (JStr text, rest)
            | None => None
            end
          else if c =? LBRACE then
            match skip_ws s' with
            | d :: s2 =>
                if d =? RBRACE then Some (JDict [], s2)
                else if d =? DQUOTE then
                  match object_loop fuel' s2 with
                  | Some (pairs, rest) => Some (JDict (dict_of_pairs pairs), rest)
                  | None => None
                  end
                else None      (* expecting property name *)
            | [] => None
            end
          else if c =? LBRACKET then
            match skip_ws s' with
            | d :: s2 =>
                if d =? RBRACKET then Some (JList [], s2)
                else
                  match array_loop fuel' (d :: s2) with
                  | Some (values, rest) => Some (JList values, rest)
                  | None => None
                  end
            | [] => None       (* expecting value *)
            end
          else scan_atom s
      end
  end

(** The [while True] of [JSONArray]; [s] starts at a value. *)
with array_loop (fuel : nat) (s : str) {struct fuel} : option (list json * str) :=
  match fuel with
  | O => None
  | S fuel' =>
      match scan_once fuel' s with
      | None => None           (* expecting value *)
      | Some (value, r) =>
          match skip_ws r with
          | d :: r2 =>
              if d =? RBRACKET then Some ([value], r2)
              else if d =? COMMA then
                match array_loop fuel' (skip_ws r2) with
                | Some (values, rest) => Some (value :: values, rest)
                | None => None
                end
              else None        (* expecting ',' delimiter *)
          | [] => None
          end
      end
  end

(** The [while True] of [JSONObject]; [s] starts right after the opening
    quote of a key. *)
with object_loop (fuel : nat) (s : str) {struct fuel} : option (list (str * json) * str) :=
  match fuel with
  | O => None
  | S fuel' =>
      match scanstring s with
      | None => None
      | Some (key, r) =>
          match skip_ws r with
          | d :: r2 =>
              if d =? COLON then
                match scan_once fuel' (skip_ws r2) with
                | None => None             (* expecting value *)
                | Some (value, r3) =>
                    match skip_ws r3 with
                    | e :: r4 =>
                        if e =? RBRACE then Some ([(key, value)], r4)
                        else if e =? COMMA then
                          match skip_ws r4 with
                          | q :: r5 =>
                              if q =? DQUOTE then
                                match object_loop fuel' r5 with
                                | Some (pairs, rest) => Some ((key, value) :: pairs, rest)
                                | None => None
                                end
                              else None    (* expecting property name *)
                          | [] => None
                          end
                        else None          (* expecting ',' delimiter *)
                    | [] => None
                    end
                end
              else None                    (* expecting ':' delimiter *)
          | [] => None
          end
      end
  end.

Definition BOM : N := 65279.

(** [json.loads(s)] for a [str]: [None] stands for [JSONDecodeError]. *)
Definition loads (s : str) : option json :=
  if starts_with [BOM] s then None           (* unexpected UTF-8 BOM *)
  else
    match scan_once (S (length s)) (skip_ws s) with
    | Some (obj, rest) =>
        match skip_ws rest with
        | [] => Some obj
        | _ :: _ => None                     (* extra data *)
        end
    | None => None
    end.

(** [floatstr] with [allow_nan] set. *)
Definition floatstr (o : spec_float) : str :=
  match o with
  | S754_nan => str_of "NaN"
  | S754_infinity false => str_of "Infinity"
  | S754_infinity true => str_of "-Infinity"
  | _ => float_repr o
  end.

(** [json.dumps(o, separators=(',', ':'))]: [ensure_ascii] is set, no
    indentation, keys in the order of the [dict]. *)
Fixpoint dumps (o : json) : str :=
  match o with
  | JNull => str_of "null"
  | JBool true => str_of "true"
  | JBool false => str_of "false"
  | JInt z => int_repr z
  | JFloat f => floatstr f
  | JStr s => encode_basestring_ascii s
  | JList [] => str_of "[]"
  | JList l => [LBRACKET] ++ join_with [COMMA] (map dumps l) ++ [RBRACKET]
  | JDict [] => str_of "{}"
  | JDict d =>
      [LBRACE]
      ++ join_with [COMMA]
           (map (fun kv : str * json =>
                   encode_basestring_ascii (fst kv) ++ [COLON] ++ dumps (snd kv)) d)
      ++ [RBRACE]
  end.

(** ** [minify_json] *)

Definition minify_json (content : str) : M (option str) :=
  match loads content with
  | Some json_data => ret (Some (dumps json_data))
  | None => print JsonError ;; ret None
  end.

(** ** [process_file]

    [str.lower] follows the Unicode case tables, which are not reproduced:
    it is a parameter. *)

Variable str_lower : str -> str.

Definition any_exception (e : exn) : bool := true.

Definition process_file (file_path : str) : M bool :=
  try_except
    ((* Validate file existence *)
     let* found := isfile file_path in
     if negb found then
       print (FileNotFound file_path) ;;
       ret false
     else
       (* Detect original encoding *)
       let* original_encoding := at_line 116 (detect_encoding file_path) in
       (* Prepare backup system *)
       let original_dir := dirname file_path in
       let backup_folder := join original_dir (str_of "backup") in
       at_line 121 (makedirs backup_folder) ;;
       (* Create backup *)
       let filename := basename file_path in
       let backup_path := join backup_folder (filename ++ str_of ".bak") in
       at_line 126 (copy2 file_path backup_path) ;;
       (* Read content with original encoding *)
       let* content := at_line 129 (read_file file_path original_encoding) in
       let file_ext := str_lower (snd (splitext filename)) in
       (* Process based on file type *)
       let* minified_content :=
         if str_eqb file_ext (str_of ".json")
         then minify_json content
         else ret (Some (minify_text content)) in
       match minified_content with
       | None => ret false
       | Some minified_content =>
           (* Create output file *)
           let new_filename := fst (splitext filename) ++ str_of ".skysheet" in
           let new_file_path := join original_dir new_filename in
           at_line 144 (write_file new_file_path minified_content original_encoding) ;;
           (* Report success *)
           print (Success filename new_filename) ;;
           print (SuccessEncoding original_encoding) ;;
           print (SuccessBackup backup_path) ;;
           ret true
       end)
    any_exception
    (fun e line =>
       let filename := basename file_path in
       print (CriticalError filename) ;;
       print (ErrorType e) ;;
       print (ErrorLine line) ;;
       print (ErrorDetails e) ;;
       ret false).

(** ** [process_directory] *)

Definition supported_extensions : list str :=
  [str_of ".json"; str_of ".txt"; str_of ".skysheet"].

(** [file.lower().endswith(supported_extensions)] *)
Definition is_supported (file : str) : bool :=
  existsb (endswith (str_lower file)) supported_extensions.

(** The name under which the node stored at [k] appears in the directory
    [top], if it lies directly in it. *)
Definition entry_name (top k : str) : option str :=
  let prefix := join top [] in
  let name := drop (length prefix) k in
  if starts_with prefix k && negb (str_eqb name []) && negb (mem SLASH name)
  then Some name else None.

Definition entries (top : str) (fs : gmap str node) : list (str * node) :=
  omap (fun kn : str * node =>
          match entry_name top (fst kn) with
          | Some name => Some (name, snd kn)
          | None => None
          end) (map_to_list fs).

Definition names_of (want_dir : bool) (es : list (str * node)) : list str :=
  omap (fun e : str * node =>
          match snd e with
          | Dir => if want_dir then Some (fst e) else None
          | File _ => if want_dir then None else Some (fst e)
          end) es.

(** [os.scandir(top)] as [os.walk] uses it: the names of the directories
    and of the other entries of [top], in the order the file system gives
    them; [None] when [top] cannot be listed. *)
Definition scandir (top : str) : M (option (list str * list str)) :=
  fun w =>
    let listing :=
      match files w !! top with
      | Some Dir =>
          let es := entries top (files w) in
          Some (names_of true es, names_of false es)
      | _ => None
      end in
    (Ok listing, World (files w) (trace w ++ [Listed top listing])).

(** [for file in files: ...] of [process_directory] *)
Fixpoint process_files (root : str) (names : list str) (acc : nat * nat) : M (nat * nat) :=
  match names with
  | [] => ret acc
  | file :: rest =>
      if is_supported file then
        let file_path := join root file in
        let* ok := process_file file_path in
        emit (Processed file_path ok) ;;
        process_files root rest
          (if ok then (S (fst acc), snd acc) else (fst acc, S (snd acc)))
      else process_files root rest acc
  end.

(** [for root, _, files in os.walk(top)] with its body: the generator
    lists a directory when the loop asks for it, after the files of the
    directories before it have been processed.  The recursion of [os.walk]
    is bounded by [fuel]. *)
Fixpoint walk (fuel : nat) (top : str) (acc : nat * nat) : M (nat * nat) :=
  match fuel with
  | O => raise RecursionError
  | S fuel' =>
      let* listing := scandir top in
      match listing with
      | None => ret acc
      | Some (dirs, nondirs) =>
          let* acc := process_files top nondirs acc in
          (fix walk_dirs (dirs : list str) (acc : nat * nat) : M (nat * nat) :=
             match dirs with
             | [] => ret acc
             | dirname :: rest =>
                 let* acc := walk fuel' (join top dirname) acc in
                 walk_dirs rest acc
             end) dirs acc
      end
  end.

(** The walk goes no deeper than there are entries in the file system; Part
    II shows that this fuel is never used up. *)
Definition process_directory (directory : str) : M (nat * nat) :=
  print (ProcessingDirectory directory) ;;
  fun w => walk (S (size (files w))) directory (0, 0)%nat w.

End Program.

(** ** Notions used in the statements about files *)

(** The paths [process_file] derives from [file_path]. *)
Definition backup_folder_of (file_path : str) : str :=
  join (dirname file_path) (str_of "backup").

Definition backup_path_of (file_path : str) : str :=
  join (backup_folder_of file_path) (basename file_path ++ str_of ".bak").

(** Where [shutil.copy2] writes when [backup_path] is a directory. *)
Definition backup_inside_of (file_path : str) : str :=
  join (backup_path_of file_path) (basename file_path).

(** The place [shutil.copy2] writes to. *)
Definition copy_target (file_path : str) (fs : gmap str node) : str :=
  match fs !! backup_path_of file_path with
  | Some Dir => backup_inside_of file_path
  | _ => backup_path_of file_path
  end.

Definition output_path_of (file_path : str) : str :=
  join (dirname file_path) (fst (splitext (basename file_path)) ++ str_of ".skysheet").

(** The encoding the detector settles on for the bytes of a file. *)
Definition detected (data : list byte) : encoding :=
  match decode UTF8 data, decode UTF16LE data with
  | Some _, _ => UTF8
  | None, Some _ => UTF16LE
  | None, None => UTF8
  end.

(** What the detector appends to the trace. *)
Definition detection_trace (file_path : str) (data : list byte) : list event :=
  match decode UTF8 data, decode UTF16LE data with
  | Some _, _ => [Probe file_path UTF8]
  | None, Some _ => [Probe file_path UTF8; Probe file_path UTF16LE]
  | None, None =>
      [Probe file_path UTF8; Probe file_path UTF16LE; Printed (EncodingWarning file_path)]
  end.

(** The text [read_file] returns for a file with these bytes. *)
Definition file_text (enc : encoding) (data : list byte) : option str :=
  universal_newlines <$> decode enc data.

(** The computation [m] leaves what is stored at [p] as it is. *)
Definition keeps {A} (p : str) (o : option node) (m : M A) : Prop :=
  forall w, files w !! p = o -> files (snd (m w)) !! p = o.

Definition is_file_node (o : option node) : bool :=
  match o with
  | Some (File _) => true
  | _ => false
  end.

Definition is_dir_node (o : option node) : bool :=
  match o with
  | Some Dir => true
  | _ => false
  end.

Definition is_write (e : event) : bool :=
  match e with
  | WriteFile _ _ => true
  | _ => false
  end.

Definition no_write (new : list event) : bool :=
  forallb (fun e => negb (is_write e)) new.

(** Events that neither read the content for minification nor write. *)
Definition before_reading (e : event) : bool :=
  match e with
  | ReadFile _ _ | WriteFile _ _ => false
  | _ => true
  end.

(** What the handler of [process_file] appends to the trace. *)
Definition failure_report (file_path : str) (e : exn) (line : nat) : list event :=
  [Printed (CriticalError (basename file_path)); Printed (ErrorType e);
   Printed (ErrorLine line); Printed (ErrorDetails e)].

Definition success_report (file_path : str) (enc : encoding) : list event :=
  [Printed (Success (basename file_path)
              (fst (splitext (basename file_path)) ++ str_of ".skysheet"));
   Printed (SuccessEncoding enc);
   Printed (SuccessBackup (backup_path_of file_path))].

(** ** [process_file] as a function of the file system

    The outcome of one call written out case by case; the properties in
    Part II are read off it. *)

Section Outcome.

Variable float_of_literal : str -> spec_float.
Variable float_repr : spec_float -> str.
Variable str_lower : str -> str.

(** What the minifier chosen for [file_path] makes of [content]. *)
Definition minified (file_path content : str) : option str :=
  if str_eqb (str_lower (snd (splitext (basename file_path)))) (str_of ".json")
  then dumps float_repr <$> loads float_of_literal content
  else Some (minify_text content).

Definition failed (file_path : str) (e : exn) (line : nat)
    (fs : gmap str node) (t : list event) : outcome bool * world :=
  (Ok false, World fs (t ++ failure_report file_path e line)).

(** From [read_file] on: [content] is the text of the file, if it decodes. *)
Definition finish_outcome (file_path : str) (enc : encoding) (content : option str)
    (fs3 : gmap str node) (t2 : list event) : outcome bool * world :=
  let np := output_path_of file_path in
  let t3 := t2 ++ [ReadFile file_path enc] in
  match content with
  | None => failed file_path UnicodeDecodeError 129 fs3 t3
  | Some content =>
      match minified file_path content with
      | None => (Ok false, World fs3 (t3 ++ [Printed JsonError]))
      | Some out =>
          let t4 := t3 ++ [WriteFile np enc] in
          match fs3 !! np with
          | Some Dir => failed file_path IsADirectoryError 144 fs3 t4
          | _ =>
              match encode enc out with
              | None => failed file_path UnicodeEncodeError 144 (<[np := File []]> fs3) t4
              | Some bytes =>
                  (Ok true,
                   World (<[np := File bytes]> fs3) (t4 ++ success_report file_path enc))
              end
          end
      end
  end.

(** From [shutil.copy2] on. *)
Definition copy_outcome (file_path : str) (data : list byte)
    (fs2 : gmap str node) (t1 : list event) : outcome bool * world :=
  let bp := backup_path_of file_path in
  let t2 := t1 ++ [Copy2 file_path bp] in
  let dst := match fs2 !! bp with
             | Some Dir => backup_inside_of file_path
             | _ => bp
             end in
  if str_eqb file_path dst then failed file_path SameFileError 126 fs2 t2
  else
    match fs2 !! dst with
    | Some Dir => failed file_path IsADirectoryError 126 fs2 t2
    | _ =>
        finish_outcome file_path (detected data) (file_text (detected data) data)
          (<[dst := File data]> fs2) t2
    end.

Definition file_outcome (file_path : str) (w : world) : outcome bool * world :=
  let bf := backup_folder_of file_path in
  match files w !! file_path with
  | Some (File data) =>
      let t1 := trace w ++ detection_trace file_path data ++ [MakeDirs bf] in
      match files w !! bf with
      | Some (File _) => failed file_path FileExistsError 121 (files w) t1
      | Some Dir => copy_outcome file_path data (files w) t1
      | None => copy_outcome file_path data (<[bf := Dir]> (files w)) t1
      end
  | _ => (Ok false, World (files w) (trace w ++ [Printed (FileNotFound file_path)]))
  end.

End Outcome.

(** ** Instances used in the examples *)

Definition ascii_lower (s : str) : str :=
  map (fun c => if (65 <=? c) && (c <=? 90) then c + 32 else c) s.

(** Stand-ins for [float] and [float.__repr__] on the single value 0.0. *)
Definition zero_of_literal (text : str) : spec_float := S754_zero false.
Definition zero_repr (f : spec_float) : str := str_of "0.0".

Definition bytes_of (s : string) : list byte := map byte_of (str_of s).

(** A text file next to a regular file called [backup]. *)
Definition world_backup_is_file : world :=
  World (<[str_of "a.txt" := File (bytes_of "hi  there")]>
         (<[str_of "backup" := File []]> ∅)) [].

(** A text file whose backup path is a directory. *)
Definition world_bak_is_dir : world :=
  World (<[str_of "a.txt" := File (bytes_of "hi  there")]>
         (<[str_of "backup" := Dir]>
          (<[str_of "backup/a.txt.bak" := Dir]> ∅))) [].

(** A file holding the letters "hi" in UTF-16 little endian after a byte
    order mark; the bytes are not UTF-8. *)
Definition utf16_bytes : list byte := map byte_of [255; 254; 104; 0; 105; 0].

Definition world_utf16 : world :=
  World (<[str_of "le.txt" := File utf16_bytes]> ∅) [].

(** A string literal of a JSON text. *)
Definition quoted (s : string) : str := DQUOTE :: str_of s ++ [DQUOTE].

(** The example of the specification and its minified form. *)
Definition example_json : str :=
  str_of "{" ++ quoted "a" ++ str_of ": " ++ quoted "x  y" ++ str_of ", "
  ++ quoted "b" ++ str_of ": [1, 2]}".

Definition example_json_minified : str :=
  str_of "{" ++ quoted "a" ++ str_of ":" ++ quoted "x  y" ++ str_of ","
  ++ quoted "b" ++ str_of ":[1,2]}".



(** A string literal that holds a high surrogate as it is, followed by the
    escape of a low surrogate.  No text decoded from a file looks like
    this. *)
Definition raw_surrogate_json : str :=
  [DQUOTE; 55296] ++ str_of "\udc00" ++ [DQUOTE].

(** A directory [d] with a file called [.json] and a malformed JSON file. *)
Definition world_d : world :=
  World (<[str_of "d/.json" := File (bytes_of "{ 1 }")]>
         (<[str_of "d/bad.json" := File (bytes_of "{ 1 }")]>
          (<[str_of "d" := Dir]> ∅))) [].

(** A directory [t] with a text file in upper case, a file that is not
    supported and a directory [sub] that holds a JSON file. *)
Definition world_tree : world :=
  World (<[str_of "t/a.TXT" := File (bytes_of "a  b")]>
         (<[str_of "t/notes.md" := File (bytes_of "# n")]>
          (<[str_of "t/sub/b.json" := File (bytes_of "[1, 2]")]>
           (<[str_of "t/sub" := Dir]>
            (<[str_of "t" := Dir]> ∅))))) [].

(** ** Shapes of minified text

    What a string looks like once a step of the text minifier has run. *)

(** Every two neighbouring characters satisfy [R]. *)
Fixpoint adjacent (R : N -> N -> bool) (s : str) : bool :=
  match s with
  | a :: t => match t with
              | b :: _ => R a b
              | [] => true
              end && adjacent R t
  | [] => true
  end.

Definition no_newline (s : str) : bool := forallb (fun c => negb (is_newline c)) s.

Definition no_double_space (s : str) : bool :=
  adjacent (fun a b => negb ((a =? SP) && (b =? SP))) s.

Definition no_space_at_punct (s : str) : bool :=
  adjacent (fun a b => negb ((isspace a && is_punct b) || (is_punct a && isspace b))) s.

Definition trimmed (s : str) : bool :=
  (span isspace s =? 0)%nat && (span isspace (rev s) =? 0)%nat.

(** ** Notions used in the statements about JSON *)

(** What may follow a number: the end of the text or a character that is
    no digit, dot, or exponent mark. *)
Definition ends_number (rest : str) : bool :=
  match rest with
  | [] => true
  | c :: _ => negb (is_digit c) && negb (c =? DOT) && negb (mem c (str_of "eE"))
  end.

(** Code points of Unicode. *)
Definition in_range (c : N) : bool := c <? 1114112.

(** A high surrogate followed by a low surrogate: the two would be read
    back as one character. *)
Definition split_pair (a b : N) : bool := is_high_surrogate a && is_low_surrogate b.

Definition str_ok (s : str) : bool :=
  forallb in_range s && adjacent (fun a b => negb (split_pair a b)) s.

(** What follows a lone high surrogate is not the escape of a low one. *)
Definition no_low_escape (s3 : str) : bool :=
  match s3 with
  | b :: u :: s4 =>
      if (b =? BSLASH) && (u =? LOWER_U) then
        match s4 with
        | k1 :: k2 :: k3 :: k4 :: _ =>
            match hex4 k1 k2 k3 k4 with
            | Some uni2 => negb (is_low_surrogate uni2)
            | None => false
            end
        | _ => false
        end
      else true
  | _ => true
  end.

Definition head_not_low (t : str) : bool :=
  match t with c :: _ => negb (is_low_surrogate c) | [] => true end.

#[global] Instance spec_float_eq_dec : EqDecision spec_float.
Proof. solve_decision. Defined.

Definition unicode_text (s : str) : bool :=
  forallb (fun c => in_range c && negb (is_surrogate c)) s.

Definition value_head (c : N) : bool :=
  (c =? MINUS) || is_digit c || mem c (DQUOTE :: str_of "ntfNI[{").

Section Values.

Variable float_of_literal : str -> spec_float.
Variable float_repr : spec_float -> str.

Definition float_ok (f : spec_float) : bool :=
  match f with
  | S754_nan | S754_infinity _ => true
  | _ =>
      match match_number (float_repr f) with
      | Some (_, frac, exp, []) =>
          negb (str_eqb frac [] && str_eqb exp [])
          && bool_decide (float_of_literal (float_repr f) = f)
      | _ => false
      end
  end.

Fixpoint value_ok (o : json) : bool :=
  match o with
  | JFloat f => float_ok f
  | JStr s => str_ok s
  | JList l => forallb value_ok l
  | JDict d =>
      forallb (fun kv : str * json => str_ok (fst kv) && value_ok (snd kv)) d
      && bool_decide (NoDup (map fst d))
  | _ => true
  end.


(** The property of a value proved by induction: its text, followed by
    something that does not continue a number, is read back as the value. *)
Definition reads_back (v : json) : Prop :=
  forall fuel (rest : str),
    (length (dumps float_repr v) <= fuel)%nat -> ends_number rest = true ->
    scan_once float_of_literal fuel (dumps float_repr v ++ rest) = Some (v, rest).

End Values.

(** What the string scanner returns on [s], if it returns. *)
Definition reads_ok (s : str) : Prop :=
  forall t rest : str,
    scanstring s = Some (t, rest) ->
    str_ok t = true /\ unicode_text rest = true /\ (length rest < length s)%nat.





Definition number_char (c : N) : bool := is_digit c || mem c (str_of "-+.eE").

(** ** Notions used in the statements about the walk *)

(** A path as [os.path.normpath] leaves it: no slash at its end, unless it
    is made of slashes only. *)
Definition clean (top : str) : bool :=
  str_eqb top [] || all_slashes top || negb (ends_with_char SLASH top).

(** The key [k] lies in the directory [top], at any depth. *)
Definition below (top k : str) : bool :=
  starts_with (join top []) k && negb (str_eqb k (join top [])).

Definition is_walk_event (e : event) : bool :=
  match e with
  | Listed _ _ | Processed _ _ => true
  | _ => false
  end.

Definition quiet (new : list event) : bool :=
  forallb (fun e => negb (is_walk_event e)) new.

(** The directories the walk has listed and the files it has processed,
    in order. *)
Definition listings (t : list event) : list (str * option (list str * list str)) :=
  omap (fun e => match e with Listed top l => Some (top, l) | _ => None end) t.

Definition processed (t : list event) : list (str * bool) :=
  omap (fun e => match e with Processed fp ok => Some (fp, ok) | _ => None end) t.

(** The counters after the files [ps] have been processed. *)
Definition tally (ps : list (str * bool)) (acc : nat * nat) : nat * nat :=
  (fst acc + length (List.filter (fun p => snd p) ps),
   snd acc + length (List.filter (fun p => negb (snd p)) ps))%nat.

(** Nothing is removed from [fs]: a directory stays one, a file stays a
    file. *)
Definition grows (fs fs' : gmap str node) : Prop :=
  forall k,
    match fs !! k with
    | Some Dir => fs' !! k = Some Dir
    | Some (File _) => is_file_node (fs' !! k) = true
    | None => True
    end.

(** A result that returns, adds events that are not those of the walker
    to the trace [t], and makes no directory where [keep] holds. *)
Definition steady (keep : str -> Prop) (fs : gmap str node) (t : list event)
    (r : outcome bool * world) : Prop :=
  exists ok fs' new,
    r = (Ok ok, World fs' (t ++ new))
    /\ quiet new = true
    /\ grows fs fs'
    /\ forall k, keep k -> is_dir_node (fs' !! k) = is_dir_node (fs !! k).

(** The loop of [os.walk] over the directories of a listing. *)
Definition walk_dirs (walk_one : str -> nat * nat -> M (nat * nat)) (top : str) :
    list str -> nat * nat -> M (nat * nat) :=
  fix walk_dirs (dirs : list str) (acc : nat * nat) : M (nat * nat) :=
    match dirs with
    | [] => ret acc
    | dirname :: rest =>
        let* acc := walk_one (join top dirname) acc in
        walk_dirs rest acc
    end.

(** What [os.scandir] finds in [top]. *)
Definition listing_of (top : str) (fs : gmap str node) : option (list str * list str) :=
  match fs !! top with
  | Some Dir => Some (names_of true (entries top fs), names_of false (entries top fs))
  | _ => None
  end.

(** The files of a listing the walker is to process, and the directories
    it is to visit. *)
Definition selected (supported : str -> bool)
    (l : str * option (list str * list str)) : list str :=
  match snd l with
  | Some (_, nondirs) => map (join (fst l)) (List.filter supported nondirs)
  | None => []
  end.

Definition subdirs (l : str * option (list str * list str)) : list str :=
  match snd l with
  | Some (dirs, _) => map (join (fst l)) dirs
  | None => []
  end.

(** Every directory of every listing is listed itself. *)
Definition closed (ls : list (str * option (list str * list str))) : Prop :=
  Forall (fun l => Forall (fun d => exists l', (d, l') ∈ ls) (subdirs l)) ls.

(** [path] is an entry of the directory [top] of [fs] or of a directory
    below it. *)
Inductive inside (fs : gmap str node) : str -> str -> Prop :=
  | inside_entry (top name : str) :
      fs !! top = Some Dir -> name <> [] -> mem SLASH name = false ->
      inside fs top (join top name)
  | inside_deeper (top d path : str) :
      fs !! top = Some Dir -> d <> [] -> mem SLASH d = false ->
      inside fs (join top d) path ->
      inside fs top path.

(** The number of directories of [fs0] below [top]: the walk of [top] goes
    no deeper. *)
Definition depth_bound (fs0 : gmap str node) (top : str) : nat :=
  length (List.filter (fun k => below top k && is_dir_node (fs0 !! k))
            (map fst (map_to_list fs0))).

(** The directories below [top] in [fs] were there in [fs0]. *)
Definition old_dirs (fs0 fs : gmap str node) (top : str) : Prop :=
  forall k, below top k = true -> is_dir_node (fs !! k) = true ->
            is_dir_node (fs0 !! k) = true.

(** What a walk of [top] that starts in [fs] with the counters [acc] has
    done when it ends in [fs'] with [acc'], having added [new] to the
    trace. *)
Definition walk_post (supported : str -> bool) (top : str) (fs : gmap str node)
    (acc acc' : nat * nat) (fs' : gmap str node) (new : list event) : Prop :=
  (exists rest, listings new = (top, listing_of top fs) :: rest)
  /\ closed (listings new)
  /\ map fst (processed new) = flat_map (selected supported) (listings new)
  /\ acc' = tally (processed new) acc
  /\ grows fs fs'
  /\ (forall k, below top k = false -> is_dir_node (fs' !! k) = is_dir_node (fs !! k))
  /\ (forall path, inside fs top path -> is_file_node (fs !! path) = true ->
        supported (basename path) = true -> path ∈ map fst (processed new)).

(** The same for the walks of the directories [dirs] of [top]. *)
Definition loop_post (supported : str -> bool) (top : str) (dirs : list str)
    (fs : gmap str node) (acc acc' : nat * nat) (fs' : gmap str node)
    (new : list event) : Prop :=
  Forall (fun d => exists l', (join top d, l') ∈ listings new) dirs
  /\ closed (listings new)
  /\ map fst (processed new) = flat_map (selected supported) (listings new)
  /\ acc' = tally (processed new) acc
  /\ grows fs fs'
  /\ (forall k, (forall d, d ∈ dirs -> below (join top d) k = false) ->
        is_dir_node (fs' !! k) = is_dir_node (fs !! k))
  /\ (forall d path, d ∈ dirs -> inside fs (join top d) path ->
        is_file_node (fs !! path) = true ->
        supported (basename path) = true -> path ∈ map fst (processed new)).


(* --------------------------------------------------------------------- *)
(** ** The command line driver

    [os.path.normpath] after [posixpath]. *)

(** [path.split('/')]; [cur] is the component being read, reversed. *)
Fixpoint split_from (cur : str) (path : str) : list str :=
  match path with
  | [] => [rev cur]
  | c :: rest =>
      if c =? SLASH then rev cur :: split_from [] rest
      else split_from (c :: cur) rest
  end.

Definition split_slash (path : str) : list str := split_from [] path.

Definition dotdot : str := [DOT; DOT].

Definition is_empty {A} (l : list A) : bool :=
  match l with [] => true | _ => false end.

(** The body of the loop over the components. *)
Definition norm_step (initial_slashes : nat) (new_comps : list str) (comp : str) :
    list str :=
  if str_eqb comp [] || str_eqb comp [DOT] then new_comps
  else if negb (str_eqb comp dotdot)
          || ((initial_slashes =? 0)%nat && is_empty new_comps)
          || (negb (is_empty new_comps) && str_eqb (List.last new_comps []) dotdot)
  then new_comps ++ [comp]
  else if negb (is_empty new_comps) then removelast new_comps
  else new_comps.

(** POSIX allows one or two initial slashes, three or more count as one. *)
Definition initial_slashes_of (path : str) : nat :=
  if starts_with [SLASH] path then
    if starts_with [SLASH; SLASH] path && negb (starts_with [SLASH; SLASH; SLASH] path)
    then 2 else 1
  else 0.

Definition normpath (path : str) : str :=
  if str_eqb path [] then [DOT]
  else
    let initial_slashes := initial_slashes_of path in
    let comps := fold_left (norm_step initial_slashes) (split_slash path) [] in
    let path := repeat SLASH initial_slashes ++ join_with [SLASH] comps in
    if str_eqb path [] then [DOT] else path.

(** A component of a normalized path: not empty, no slash. *)
Definition component (c : str) : Prop := c <> [] /\ mem SLASH c = false.

(** What the driver prints; its closing report is one message. *)
Inductive driver_message :=
  | Usage                                  (* the three lines printed without arguments *)
  | Starting                               (* Starting SkySheet minification... *)
  | PathMissing (path : str)               (* [WARNING] Path does not exist: ... *)
  | ProcessingFile (name : str)            (* Processing file: ... *)
  | UnsupportedPath (path : str)           (* [ERROR] Unsupported path type: ... *)
  | Summary (processed_paths : list str) (total_count total_errors : nat).

(** The variables of the driver.  Its messages are kept apart from the
    trace, each with the length the trace had when it was printed. *)
Record driver := Driver {
  total_count : nat;
  total_errors : nat;
  processed_paths : list str;
  console : list (nat * driver_message)
}.

Definition tell (m : driver_message) (d : driver) : M driver :=
  fun w =>
    (Ok (Driver (total_count d) (total_errors d) (processed_paths d)
           (console d ++ [(length (trace w), m)])), w).

Definition add_count (n : nat) (d : driver) : driver :=
  Driver (total_count d + n) (total_errors d) (processed_paths d) (console d).

Definition add_errors (n : nat) (d : driver) : driver :=
  Driver (total_count d) (total_errors d + n) (processed_paths d) (console d).

Definition add_path (path : str) (d : driver) : driver :=
  Driver (total_count d) (total_errors d) (processed_paths d ++ [path]) (console d).

(** [os.path.exists] *)
Definition path_exists (p : str) : M bool :=
  let* n := lookup_node p in ret (match n with Some _ => true | None => false end).

Section Driver.

Variable float_of_literal : str -> spec_float.
Variable float_repr : spec_float -> str.
Variable str_lower : str -> str.

(** [for path in sys.argv[1:]: ...] *)
Fixpoint main_loop (args : list str) (d : driver) : M driver :=
  match args with
  | [] => ret d
  | path :: rest =>
      (* Normalize path and check existence *)
      let path := normpath path in
      let* there := path_exists path in
      if negb there then
        let* d := tell (PathMissing path) d in
        main_loop rest (add_errors 1 d)
      else
        let d := add_path path d in
        (* Process based on type *)
        let* file := isfile path in
        if file then
          let* d := tell (ProcessingFile (basename path)) d in
          let* ok := process_file float_of_literal float_repr str_lower path in
          main_loop rest (if ok then add_count 1 d else add_errors 1 d)
        else
          let* dir := isdir path in
          if dir then
            let* r := process_directory float_of_literal float_repr str_lower path in
            main_loop rest (add_errors (snd r) (add_count (fst r) d))
          else
            let* d := tell (UnsupportedPath path) d in
            main_loop rest (add_errors 1 d)
  end.

(** The program run with the arguments [args] after its own name: it
    returns the exit status and the variables of the driver. *)
Definition main (args : list str) : M (nat * driver) :=
  match args with
  | [] =>
      let* d := tell Usage (Driver 0 0 [] []) in
      ret (1%nat, d)
  | _ :: _ =>
      let* d := tell Starting (Driver 0 0 [] []) in
      let* d := main_loop args d in
      let* d := tell (Summary (processed_paths d) (total_count d) (total_errors d)) d in
      ret (0%nat, d)
  end.

End Driver.

(* --------------------------------------------------------------------- *)
(** ** Notions used in Part IV *)

(** The characters of [s] that are not white space, in order. *)
Definition visible (s : str) : str := List.filter (fun c => negb (isspace c)) s.

(** Characters that [json.dumps] writes as they are: ASCII, no controls. *)
Definition printable (c : N) : bool := (32 <=? c) && (c <=? 126).

(** The file system after a run of [process_file] on a file with the bytes
    [data] in which every step succeeds and [bytes] are written. *)
Definition processed_files (file_path : str) (data bytes : list byte)
    (fs : gmap str node) : gmap str node :=
  <[output_path_of file_path := File bytes]>
    (<[copy_target file_path fs := File data]>
       (<[backup_folder_of file_path := Dir]> fs)).

(** What such a run adds to the trace. *)
Definition success_trace (file_path : str) (data : list byte) : list event :=
  detection_trace file_path data
  ++ [MakeDirs (backup_folder_of file_path);
      Copy2 file_path (backup_path_of file_path);
      ReadFile file_path (detected data);
      WriteFile (output_path_of file_path) (detected data)]
  ++ success_report file_path (detected data).

Section Ready.

Variable float_of_literal : str -> spec_float.
Variable float_repr : spec_float -> str.
Variable str_lower : str -> str.

(** What a run of [process_file] needs to succeed: the file is there with
    the bytes [data], the backup folder and the places of the copy and of
    the output are free or of the right kind, the bytes decode to [content]
    in the detected encoding, the minifier makes [out] of it and [out] is
    encoded as [bytes]. *)
Definition ready (fp : str) (fs : gmap str node) (data : list byte)
    (content out : str) (bytes : list byte) : Prop :=
  fs !! fp = Some (File data)
  /\ is_file_node (fs !! backup_folder_of fp) = false
  /\ is_dir_node (fs !! copy_target fp fs) = false
  /\ is_dir_node (fs !! output_path_of fp) = false
  /\ file_text (detected data) data = Some content
  /\ minified float_of_literal float_repr str_lower fp content = Some out
  /\ encode (detected data) out = Some bytes.

End Ready.



(** [d[k]] for the members of an object in the order of the text: the
    value of the last member with the key [k]. *)
Fixpoint value_of (d : list (str * json)) (k : str) : option json :=
  match d with
  | [] => None
  | (k', v) :: d' =>
      match value_of d' k with
      | Some x => Some x
      | None => if str_eqb k' k then Some v else None
      end
  end.

(** Members whose keys and values the serializer writes and the parser
    reads back; a key may occur more than once. *)
Definition members_ok (float_of_literal : str -> spec_float)
    (float_repr : spec_float -> str) (d : list (str * json)) : bool :=
  forallb (fun kv : str * json =>
             str_ok (fst kv) && value_ok float_of_literal float_repr (snd kv)) d.

(** The directory of a listing was a directory of [fs0], unless it could
    not be listed. *)
Definition listed_old (fs0 : gmap str node) (l : str * option (list str * list str)) : Prop :=
  snd l <> None -> fs0 !! fst l = Some Dir.

(** The messages about paths that are not there, and about paths of another
    kind than file or directory. *)
Definition is_missing (m : nat * driver_message) : bool :=
  match snd m with PathMissing _ => true | _ => false end.

Definition is_unsupported (m : nat * driver_message) : bool :=
  match snd m with UnsupportedPath _ => true | _ => false end.

Definition missing_count (d : driver) : nat := length (List.filter is_missing (console d)).

(** What the loop over the arguments keeps true of the variables of the
    driver [d] in the file system [fs]. *)
Definition counted (n : nat) (d : driver) (fs : gmap str node) : Prop :=
  (missing_count d + length (processed_paths d) = n)%nat
  /\ (missing_count d <= total_errors d)%nat
  /\ Forall (fun p => is_Some (fs !! p)) (processed_paths d)
  /\ List.filter is_unsupported (console d) = [].


(** ** More instances used in the examples *)

(** A file that is text in neither encoding, and a JSON file that starts
    with the byte order mark of UTF-8. *)
Definition world_binary : world :=
  World (<[str_of "d/x.txt" := File (map byte_of [255])]>
         (<[str_of "d" := Dir]> ∅)) [].

Definition bom_bytes : list byte := map byte_of [239; 187; 191; 91; 93].

Definition world_bom : world :=
  World (<[str_of "d/b.json" := File bom_bytes]> (<[str_of "d" := Dir]> ∅)) [].

(** A minified file next to nothing else. *)
Definition world_sky : world :=
  World (<[str_of "d/a.skysheet" := File (bytes_of "x  y")]> (<[str_of "d" := Dir]> ∅)) [].

(** The letters "hi" in UTF-16 little endian without a byte order mark. *)
Definition world_utf16_ascii : world :=
  World (<[str_of "le.txt" := File (map byte_of [104; 0; 105; 0])]> ∅) [].

(** A JSON text with a letter outside ASCII. *)
Definition accent_json : str := [LBRACKET; DQUOTE; 233; DQUOTE; SP; RBRACKET].

(** A JSON file in UTF-16 little endian whose bytes are not UTF-8: a list
    with the string of the letter U+00E9. *)
Definition utf16_json_bytes : list byte :=
  map byte_of [91; 0; 34; 0; 233; 0; 34; 0; 93; 0].

Definition world_utf16_json : world :=
  World (<[str_of "d/u.json" := File utf16_json_bytes]> (<[str_of "d" := Dir]> ∅)) [].

(** A file holding text with a line end, and nothing else. *)
Definition world_note : world :=
  World (<[str_of "n.txt" := File (map byte_of [104; 105; 10])]> ∅) [].

(** ** Tactics *)

(** Arithmetic with quotients and remainders. *)
Ltac euclid := zify; Z.to_euclidean_division_equations; lia.

(* ===================================================================== *)
(** * Part II. Properties *)
(* ===================================================================== *)

(** ** Generic facts on lists and characters *)

#[local] Arguments N.eqb : simpl never.
#[local] Arguments N.leb : simpl never.
#[local] Arguments N.ltb : simpl never.

Lemma span_cons p c (s : str) : span p (c :: s) = if p c then S (span p s) else 0%nat.
Proof. reflexivity. Qed.

Lemma span_le p (s : str) : (span p s <= length s)%nat.
Proof. induction s as [|c s IH]; simpl; [lia|]. destruct (p c); simpl; lia. Qed.

Lemma span_ext p q (s : str) : (forall c, p c = q c) -> span p s = span q s.
Proof. intros E. induction s as [|c s IH]; simpl; [done|]. rewrite E, IH. done. Qed.

Lemma span_all p (s : str) : Forall (fun c => p c = true) (take (span p s) s).
Proof.
  induction s as [|c s IH]; simpl; [constructor|].
  destruct (p c) eqn:E; simpl; [constructor; done | constructor].
Qed.

Lemma span_stop p (s : str) c r : drop (span p s) s = c :: r -> p c = false.
Proof.
  induction s as [|d s IH]; simpl; [done|].
  destruct (p d) eqn:E; simpl; [done|]. intros [= <- <-]. done.
Qed.

Lemma span_drop_zero p (s : str) : span p (drop (span p s) s) = 0%nat.
Proof.
  destruct (drop (span p s) s) as [|c r] eqn:E; [done|].
  simpl. by rewrite (span_stop _ _ _ _ E).
Qed.

Lemma isspace_not_punct c : isspace c = true -> is_punct c = false.
Proof.
  unfold isspace, is_punct, mem. simpl.
  intros H. repeat (apply orb_false_intro; [apply N.eqb_neq; intros ->; vm_compute in H; discriminate|]).
  done.
Qed.

Lemma isspace_not_punct_inv c : is_punct c = true -> isspace c = false.
Proof.
  intros H. destruct (isspace c) eqn:E; [|done].
  by rewrite (isspace_not_punct _ E) in H.
Qed.

Lemma mem_newline c : mem c [CR; LF; TAB] = is_newline c.
Proof. unfold mem, is_newline. simpl. by rewrite orb_false_r, orb_assoc. Qed.

Lemma isspace_newline c : is_newline c = true -> isspace c = true.
Proof.
  unfold is_newline, CR, LF, TAB. intros H.
  apply orb_true_iff in H as [H|H]; [apply orb_true_iff in H as [H|H]|];
    apply N.eqb_eq in H; subst; reflexivity.
Qed.

(** ** The matcher on the patterns of the program *)

Lemma first_down_some {A} (f : nat -> option A) m d r :
  f (m + d)%nat = Some r -> first_down f m d = Some ((m + d)%nat, r).
Proof. intros H. destruct d; simpl; rewrite H; done. Qed.

Lemma first_down_top {A} (f : nat -> option A) m d :
  (forall k, (m <= k < m + d)%nat -> f k = None) ->
  first_down f m d = (fun r => ((m + d)%nat, r)) <$> f (m + d)%nat.
Proof.
  induction d as [|d IH]; intros H; simpl.
  - destruct (f (m + 0)%nat); done.
  - destruct (f (m + S d)%nat) eqn:E; [done|]. simpl.
    rewrite IH by (intros k Hk; apply H; lia).
    rewrite H by lia. done.
Qed.

Lemma drop_canon (s rest : str) n :
  rest = drop n s -> rest = drop (length s - length rest) s.
Proof.
  intros ->. rewrite length_drop.
  destruct (decide (n <= length s)%nat).
  - f_equal. lia.
  - rewrite drop_ge by lia. rewrite drop_ge; [done|]. lia.
Qed.

Lemma match_here_rest p : forall s g rest,
  match_here p s = Some (g, rest) ->
  rest = drop (length s - length rest) s /\ (length rest <= length s)%nat.
Proof.
  induction p as [|it p IH]; intros s g rest; simpl.
  - intros [= <- <-]. rewrite Nat.sub_diag. done.
  - destruct (rep it) as [|m].
    + destruct s as [|c s]; [done|]. destruct (in_class it c); [|done].
      destruct (match_here p s) as [[g' r']|] eqn:E; [|done]. simpl.
      intros H. assert (r' = rest) as -> by (unfold add_group in H; destruct (captured it); by inversion H).
      destruct (IH _ _ _ E) as [H1 H2]. split; [|simpl; lia].
      simpl. replace (S (length s) - length rest)%nat with (S (length s - length rest)) by lia.
      done.
    + destruct (m <=? span (in_class it) s)%nat eqn:Hm; [|done].
      destruct (first_down _ m _) as [[k r]|] eqn:E; [|done].
      intros H.
      assert (exists k', match_here p (drop k' s) = Some r) as [k' Hk'].
      { clear -E. revert E. generalize (span (in_class it) s - m)%nat as d.
        induction d as [|d IHd]; simpl.
        - destruct (match_here p (drop (m + 0) s)) eqn:E; [|done]. intros [= <- <-]. eauto.
        - destruct (match_here p (drop (m + S d) s)) eqn:E; [|done]. intros [= <- <-]. eauto. }
      destruct r as [g' r'].
      assert (r' = rest) as -> by (unfold add_group in H; destruct (captured it); by inversion H).
      destruct (IH _ _ _ Hk') as [H1 H2]. rewrite length_drop in H2.
      split; [|lia]. rewrite drop_drop in H1. by eapply drop_canon.
Qed.

Lemma sub_scan_skip p t : forall s k,
  (k <= length s)%nat -> sub_scan p t k s = sub_scan p t 0 (drop k s).
Proof.
  induction s as [|c s IH]; intros k Hk.
  - simpl in Hk. by replace k with 0%nat by lia.
  - destruct k as [|k]; [done|]. simpl in *. apply IH. lia.
Qed.

(** One step of [re.sub] at a position where the scan is free. *)
Lemma re_sub_cons p t c (s : str) :
  re_sub p t (c :: s) =
  match match_here p (c :: s) with
  | Some (g, rest) =>
      if (length rest <? length (c :: s))%nat
      then expand t g ++ re_sub p t rest
      else expand t g ++ c :: re_sub p t s
  | None => c :: re_sub p t s
  end.
Proof.
  unfold re_sub. simpl sub_scan at 1.
  destruct (match_here p (c :: s)) as [[g rest]|] eqn:E; [|done].
  destruct (match_here_rest _ _ _ _ E) as [H1 H2]. simpl length in *.
  destruct (S (length s) - length rest)%nat as [|k] eqn:Ek.
  - destruct (Nat.ltb_spec (length rest) (S (length s))); [lia|done].
  - destruct (Nat.ltb_spec (length rest) (S (length s))); [|lia].
    f_equal. rewrite sub_scan_skip by lia. by rewrite H1.
Qed.

Lemma match_here_class cls m (s : str) :
  match_here [Item cls (AtLeast m) false] s =
  if (m <=? span cls s)%nat then Some ([], drop (span cls s) s) else None.
Proof.
  simpl. destruct (Nat.leb_spec m (span cls s)) as [H|H]; [|done].
  erewrite first_down_some; [|reflexivity]. simpl.
  by replace (m + (span cls s - m))%nat with (span cls s) by lia.
Qed.

Lemma match_here_punct (s : str) :
  match_here re_punct s =
  match drop (span isspace s) s with
  | c :: r => if is_punct c then Some ([[c]], lstrip r) else None
  | [] => None
  end.
Proof.
  unfold re_punct. simpl match_here. rewrite Nat.sub_0_r.
  rewrite first_down_top.
  - simpl. destruct (drop (span isspace s) s) as [|c r] eqn:E; [done|].
    destruct (is_punct c); [|done]. simpl.
    rewrite Nat.sub_0_r.
    erewrite first_down_some; [|reflexivity]. done.
  - intros k Hk. simpl in Hk.
    pose proof (span_all isspace s) as Hall.
    assert (exists c r, drop k s = c :: r /\ isspace c = true) as (c & r & -> & Hc).
    { clear -Hk Hall. revert k Hk Hall. induction s as [|c s IH]; intros k Hk; simpl in *; [lia|].
      destruct (isspace c) eqn:E; [|lia]. simpl. intros Hall.
      destruct k as [|k]; [eauto|]. simpl. apply IH; [lia|]. by inversion Hall. }
    by rewrite (isspace_not_punct _ Hc).
Qed.

(** ** Maximal runs *)

Lemma runs_true cls : forall c (s : str),
  cls c = true ->
  runs cls (c :: s) = (true, c :: take (span cls s) s) :: runs cls (drop (span cls s) s).
Proof.
  intros c s. revert c. induction s as [|d s IH]; intros c Hc.
  - simpl. by rewrite Hc.
  - change (runs cls (c :: d :: s)) with
      (match runs cls (d :: s) with
       | (b, r) :: rs => if Bool.eqb b (cls c) then (b, c :: r) :: rs
                         else (cls c, [c]) :: (b, r) :: rs
       | [] => [(cls c, [c])]
       end).
    simpl span. destruct (cls d) eqn:Hd.
    + rewrite (IH d Hd), Hc. done.
    + simpl take. simpl drop. rewrite Hc.
      simpl. destruct (runs cls s) as [|[b r] rs]; rewrite Hd; simpl; [done|].
      destruct b; simpl; done.
Qed.

Lemma runs_false_out cls (F : bool * str -> str) c (s : str) :
  (forall r, F (false, r) = r) ->
  cls c = false ->
  concat (map F (runs cls (c :: s))) = c :: concat (map F (runs cls s)).
Proof.
  intros HF Hc. simpl. rewrite Hc.
  destruct (runs cls s) as [|[b r] rs]; simpl.
  - by rewrite HF.
  - destruct b; simpl; by rewrite !HF.
Qed.

(** ** Each substitution of [minify_text] is the step of the specification *)

Lemma str_ind_length (P : str -> Prop) :
  (forall s, (forall s', (length s' < length s)%nat -> P s') -> P s) -> forall s, P s.
Proof.
  intros H s. remember (length s) as n eqn:E.
  revert s E. induction n as [n IH] using lt_wf_ind. intros s ->.
  apply H. intros s' Hs'. by eapply IH.
Qed.

Lemma match_here_newlines (s : str) :
  match_here re_newlines s =
  if (1 <=? span is_newline s)%nat then Some ([], drop (span is_newline s) s) else None.
Proof.
  unfold re_newlines. rewrite match_here_class.
  by rewrite (span_ext _ is_newline) by apply mem_newline.
Qed.

Lemma match_here_spaces (s : str) :
  match_here re_spaces s =
  if (2 <=? span (N.eqb SP) s)%nat then Some ([], drop (span (N.eqb SP) s) s) else None.
Proof. apply match_here_class. Qed.

Lemma sub_newlines_spec (s : str) :
  re_sub re_newlines [TLit SP] s = spec_newlines_to_space s.
Proof.
  induction s as [s IH] using str_ind_length.
  destruct s as [|c s]; [done|].
  rewrite re_sub_cons, match_here_newlines.
  unfold spec_newlines_to_space in *.
  rewrite span_cons.
  destruct (is_newline c) eqn:Hc.
  - simpl Nat.leb. cbv iota. simpl drop.
    pose proof (span_le is_newline s).
    destruct (Nat.ltb_spec (length (drop (span is_newline s) s)) (length (c :: s))) as [Hl|Hl];
      [|rewrite length_drop in Hl; simpl in Hl; lia].
    rewrite IH by done. rewrite runs_true by done. done.
  - simpl Nat.leb. cbv iota.
    rewrite IH by (simpl; lia). by rewrite runs_false_out.
Qed.

Lemma sub_spaces_spec (s : str) :
  re_sub re_spaces [TLit SP] s = spec_collapse_spaces s.
Proof.
  induction s as [s IH] using str_ind_length.
  destruct s as [|c s]; [done|].
  rewrite re_sub_cons, match_here_spaces.
  unfold spec_collapse_spaces in *.
  rewrite span_cons.
  destruct (SP =? c) eqn:Hc.
  - rewrite runs_true by done.
    pose proof (span_le (N.eqb SP) s) as Hle.
    apply N.eqb_eq in Hc as <-.
    destruct (span (N.eqb SP) s) as [|n] eqn:En.
    + change (2 <=? 1)%nat with false. cbv iota.
      rewrite drop_0. simpl. f_equal. apply IH. simpl. lia.
    + change (2 <=? S (S n))%nat with true. cbv iota.
      change (drop (S (S n)) (SP :: s)) with (drop (S n) s).
      destruct (Nat.ltb_spec (length (drop (S n) s)) (length (SP :: s))) as [Hl|Hl];
        [|rewrite length_drop in Hl; simpl in Hl; lia].
      rewrite IH by done.
      cbn [map concat fst snd andb].
      replace (2 <=? length (SP :: take (S n) s))%nat with true; [done|].
      symmetry. apply Nat.leb_le. cbn [length]. rewrite length_take. lia.
  - change (2 <=? 0)%nat with false. cbv iota.
    rewrite IH by (simpl; lia). by rewrite runs_false_out.
Qed.

Lemma lstrip_cons_space c (s : str) : isspace c = true -> lstrip (c :: s) = lstrip s.
Proof. intros H. unfold lstrip. simpl. by rewrite H. Qed.

Lemma lstrip_cons_other c (s : str) : isspace c = false -> lstrip (c :: s) = c :: s.
Proof. intros H. unfold lstrip. simpl. by rewrite H. Qed.

Lemma lstrip_idem (s : str) : lstrip (lstrip s) = lstrip s.
Proof. unfold lstrip. by rewrite span_drop_zero. Qed.

Lemma lstrip_length (s : str) : (length (lstrip s) <= length s)%nat.
Proof. unfold lstrip. rewrite length_drop. lia. Qed.

Lemma spec_strip_cons b c (s : str) :
  spec_strip_around_punct b (c :: s) =
  if isspace c then
    if b || starts_with_punct (lstrip s)
    then spec_strip_around_punct b s
    else c :: spec_strip_around_punct false s
  else c :: spec_strip_around_punct (is_punct c) s.
Proof. reflexivity. Qed.

(** After a punctuation character the white space that follows goes. *)
Lemma spec_strip_after_punct (s : str) :
  spec_strip_around_punct true s = spec_strip_around_punct true (lstrip s).
Proof.
  induction s as [|c s IH]; [done|].
  destruct (isspace c) eqn:Hc.
  - rewrite lstrip_cons_space by done. by rewrite spec_strip_cons, Hc.
  - by rewrite lstrip_cons_other.
Qed.

Lemma spec_strip_flag b (s : str) :
  span isspace s = 0%nat ->
  spec_strip_around_punct b s = spec_strip_around_punct false s.
Proof.
  destruct s as [|c s]; [done|]. rewrite span_cons, !spec_strip_cons.
  destruct (isspace c); done.
Qed.

(** White space in front of a punctuation character goes. *)
Lemma spec_strip_before_punct (s : str) c r :
  lstrip s = c :: r -> is_punct c = true ->
  spec_strip_around_punct false s = spec_strip_around_punct false (c :: r).
Proof.
  induction s as [|d s IH]; [done|].
  destruct (isspace d) eqn:Hd.
  - rewrite lstrip_cons_space by done. intros Hs Hc.
    rewrite (spec_strip_cons false d), Hd, Hs.
    cbn [starts_with_punct orb]. rewrite Hc. by apply IH.
  - rewrite lstrip_cons_other by done. by intros [= -> ->].
Qed.

Lemma sub_punct_spec (s : str) :
  re_sub re_punct [TGroup 1] s = spec_strip_around_punct false s.
Proof.
  induction s as [s IH] using str_ind_length.
  destruct s as [|c s]; [done|].
  rewrite re_sub_cons, match_here_punct.
  fold (lstrip (c :: s)).
  destruct (lstrip (c :: s)) as [|p r] eqn:El.
  - (* white space up to the end *)
    destruct (isspace c) eqn:Hc; [|by rewrite lstrip_cons_other in El].
    rewrite lstrip_cons_space in El by done.
    rewrite spec_strip_cons, Hc, El. cbn [starts_with_punct orb].
    f_equal. apply IH. simpl. lia.
  - destruct (is_punct p) eqn:Hp.
    + pose proof (lstrip_length (c :: s)) as H1. rewrite El in H1.
      pose proof (lstrip_length r) as H2. simpl in H1.
      destruct (Nat.ltb_spec (length (lstrip r)) (length (c :: s))) as [Hl|Hl];
        [|simpl in Hl; lia].
      rewrite IH by done.
      rewrite (spec_strip_before_punct _ _ _ El Hp).
      rewrite (spec_strip_cons false p), (isspace_not_punct_inv _ Hp), Hp.
      cbn [expand flat_map nth pred app]. f_equal.
      rewrite spec_strip_after_punct.
      symmetry. apply spec_strip_flag. unfold lstrip. apply span_drop_zero.
    + rewrite IH by (simpl; lia).
      destruct (isspace c) eqn:Hc.
      * rewrite lstrip_cons_space in El by done.
        rewrite spec_strip_cons, Hc, El. cbn [starts_with_punct orb]. by rewrite Hp.
      * rewrite lstrip_cons_other in El by done. injection El as -> ->.
        by rewrite spec_strip_cons, Hc, Hp.
Qed.

Lemma minify_text_is_spec (s : str) : minify_text s = spec_minify_text s.
Proof.
  unfold minify_text, spec_minify_text, spec_trim.
  by rewrite sub_newlines_spec, sub_spaces_spec, sub_punct_spec.
Qed.

(** ** Fixed points of the four steps *)

Lemma spec_newlines_cons c (s : str) :
  spec_newlines_to_space (c :: s) =
  if is_newline c then SP :: spec_newlines_to_space (drop (span is_newline s) s)
  else c :: spec_newlines_to_space s.
Proof.
  unfold spec_newlines_to_space. destruct (is_newline c) eqn:Hc.
  - by rewrite runs_true.
  - by rewrite runs_false_out.
Qed.

Lemma spec_collapse_cons c (s : str) :
  spec_collapse_spaces (c :: s) =
  if SP =? c then SP :: spec_collapse_spaces (drop (span (N.eqb SP) s) s)
  else c :: spec_collapse_spaces s.
Proof.
  unfold spec_collapse_spaces. destruct (SP =? c) eqn:Hc.
  - rewrite runs_true by done. apply N.eqb_eq in Hc as <-.
    cbn [map concat fst snd andb].
    destruct (span (N.eqb SP) s) as [|n] eqn:En; [done|].
    pose proof (span_le (N.eqb SP) s).
    replace (2 <=? length (SP :: take (S n) s))%nat with true; [done|].
    symmetry. apply Nat.leb_le. cbn [length]. rewrite length_take. lia.
  - by rewrite runs_false_out.
Qed.

Lemma adjacent_cons R a (t : str) :
  adjacent R (a :: t) = match t with b :: _ => R a b | [] => true end && adjacent R t.
Proof. reflexivity. Qed.

Lemma no_newline_fix (s : str) : no_newline s = true -> spec_newlines_to_space s = s.
Proof.
  induction s as [|c s IH]; [done|].
  unfold no_newline. cbn [forallb]. intros [Hc Hs]%andb_true_iff.
  rewrite spec_newlines_cons. apply negb_true_iff in Hc. rewrite Hc.
  f_equal. by apply IH.
Qed.

Lemma no_double_space_fix (s : str) : no_double_space s = true -> spec_collapse_spaces s = s.
Proof.
  induction s as [|c s IH]; [done|].
  unfold no_double_space. rewrite adjacent_cons. intros [Hc Hs]%andb_true_iff.
  rewrite spec_collapse_cons. destruct (SP =? c) eqn:E.
  - apply N.eqb_eq in E as <-.
    assert (span (N.eqb SP) s = 0%nat) as ->.
    { destruct s as [|d s]; [done|]. rewrite span_cons.
      apply negb_true_iff in Hc. rewrite N.eqb_refl in Hc. cbn [andb] in Hc.
      by rewrite N.eqb_sym, Hc. }
    rewrite drop_0. f_equal. by apply IH.
  - f_equal. by apply IH.
Qed.

Lemma space_run_before_punct R c (s : str) :
  (forall a b, R a b = true -> isspace a = true -> is_punct b = false) ->
  adjacent R (c :: s) = true -> isspace c = true ->
  starts_with_punct (lstrip s) = false.
Proof.
  intros HR. revert c. induction s as [|d s IH]; intros c; [done|].
  rewrite adjacent_cons. intros [Hc Hs]%andb_true_iff Hws.
  destruct (isspace d) eqn:Hd.
  - rewrite lstrip_cons_space by done. by eapply IH.
  - rewrite lstrip_cons_other by done. simpl. by eapply HR.
Qed.

Lemma no_space_at_punct_fix_gen (s : str) b :
  no_space_at_punct s = true ->
  (b = true -> span isspace s = 0%nat) ->
  spec_strip_around_punct b s = s.
Proof.
  revert b. induction s as [|c s IH]; intros b Hadj Hb; [done|].
  rewrite spec_strip_cons. rewrite span_cons in Hb.
  pose proof Hadj as Hadj'. unfold no_space_at_punct in Hadj'.
  rewrite adjacent_cons in Hadj'. apply andb_true_iff in Hadj' as [Hc Hs].
  destruct (isspace c) eqn:Hws.
  - destruct b; [by specialize (Hb eq_refl)|].
    erewrite space_run_before_punct; [| |exact Hadj|exact Hws].
    + simpl. f_equal. apply IH; [done|]. done.
    + intros a d HR Ha. apply negb_true_iff, orb_false_iff in HR as [HR _].
      rewrite Ha in HR. done.
  - f_equal. apply IH; [done|]. intros Hp.
    destruct s as [|d s]; [done|]. rewrite span_cons.
    apply negb_true_iff, orb_false_iff in Hc as [_ Hc].
    rewrite Hp in Hc. simpl in Hc. by rewrite Hc.
Qed.

Lemma no_space_at_punct_fix (s : str) :
  no_space_at_punct s = true -> spec_strip_around_punct false s = s.
Proof. intros H. by apply no_space_at_punct_fix_gen. Qed.

Lemma lstrip_fix (s : str) : span isspace s = 0%nat -> lstrip s = s.
Proof. unfold lstrip. by intros ->. Qed.

Lemma trimmed_fix (s : str) : trimmed s = true -> strip s = s.
Proof.
  unfold trimmed, strip, rstrip. intros [H1 H2]%andb_true_iff.
  apply Nat.eqb_eq in H1, H2.
  rewrite (lstrip_fix s H1), (lstrip_fix _ H2). apply rev_involutive.
Qed.

(** ** What each step establishes and what it keeps *)

Lemma forallb_drop (P : N -> bool) n (s : str) :
  forallb P s = true -> forallb P (drop n s) = true.
Proof.
  revert n. induction s as [|c s IH]; intros [|n]; simpl; try done.
  intros [_ H]%andb_true_iff. by apply IH.
Qed.

Lemma adjacent_tail R a (t : str) : adjacent R (a :: t) = true -> adjacent R t = true.
Proof. rewrite adjacent_cons. by intros [_ H]%andb_true_iff. Qed.

Lemma adjacent_drop R n (s : str) : adjacent R s = true -> adjacent R (drop n s) = true.
Proof.
  revert n. induction s as [|c s IH]; intros [|n]; try done.
  intros H. apply IH. by eapply adjacent_tail.
Qed.

Lemma adjacent_app_inv R (u v : str) :
  adjacent R (u ++ v) = true -> adjacent R u = true /\ adjacent R v = true.
Proof.
  induction u as [|a u IH]; [done|].
  rewrite <- app_comm_cons, !adjacent_cons. intros [H1 H2]%andb_true_iff.
  destruct (IH H2) as [H3 H4]. split; [|done].
  rewrite H3, andb_true_r. destruct u; [done|]. done.
Qed.

Lemma adjacent_app R (u v : str) :
  adjacent R u = true -> adjacent R v = true ->
  (forall a b v', In a u -> v = b :: v' -> R a b = true) ->
  adjacent R (u ++ v) = true.
Proof.
  induction u as [|a u IH]; [done|].
  rewrite <- app_comm_cons, !adjacent_cons. intros [H1 H2]%andb_true_iff Hv Hj.
  apply andb_true_iff. split.
  - destruct u as [|b u]; [|done]. simpl. destruct v as [|b v]; [done|].
    eapply Hj; [by left|done].
  - apply IH; [done..|]. intros x y v' Hx. apply Hj. by right.
Qed.

Lemma spec_newlines_no_newline (s : str) : no_newline (spec_newlines_to_space s) = true.
Proof.
  induction s as [s IH] using str_ind_length.
  destruct s as [|c s]; [done|].
  rewrite spec_newlines_cons. unfold no_newline in *.
  destruct (is_newline c) eqn:Hc; cbn [forallb].
  - rewrite IH; [done|]. rewrite length_drop. simpl. lia.
  - rewrite Hc, IH; [done|]. simpl. lia.
Qed.

Lemma spec_collapse_keeps (P : N -> bool) (s : str) :
  forallb P s = true -> forallb P (spec_collapse_spaces s) = true.
Proof.
  induction s as [s IH] using str_ind_length.
  destruct s as [|c s]; [done|].
  cbn [forallb]. intros [Hc Hs]%andb_true_iff.
  rewrite spec_collapse_cons.
  destruct (SP =? c) eqn:E; cbn [forallb].
  - apply N.eqb_eq in E as <-. rewrite Hc. simpl.
    apply IH; [rewrite length_drop; simpl; lia|]. by apply forallb_drop.
  - rewrite Hc. simpl. apply IH; [simpl; lia|done].
Qed.

Lemma spec_collapse_no_double (s : str) : no_double_space (spec_collapse_spaces s) = true.
Proof.
  induction s as [s IH] using str_ind_length.
  destruct s as [|c s]; [done|].
  rewrite spec_collapse_cons. unfold no_double_space in *.
  destruct (SP =? c) eqn:E; rewrite adjacent_cons.
  - rewrite IH by (rewrite length_drop; simpl; lia). rewrite andb_true_r.
    destruct (drop (span (N.eqb SP) s) s) as [|d t] eqn:Ed; [done|].
    pose proof (span_stop _ _ _ _ Ed) as Hd.
    rewrite spec_collapse_cons, Hd. by rewrite (N.eqb_sym d), Hd, andb_false_r.
  - rewrite IH by (simpl; lia). rewrite andb_true_r.
    rewrite (N.eqb_sym c), E. by destruct (spec_collapse_spaces s).
Qed.

(** The white space in front of [s] goes as a whole or stays as a whole. *)
Lemma spec_strip_run_goes b (s : str) :
  b || starts_with_punct (lstrip s) = true ->
  spec_strip_around_punct b s = spec_strip_around_punct b (lstrip s).
Proof.
  induction s as [|c s IH]; [done|].
  destruct (isspace c) eqn:Hc.
  - rewrite lstrip_cons_space by done. intros H.
    rewrite spec_strip_cons, Hc, H. by apply IH.
  - by rewrite lstrip_cons_other.
Qed.

Lemma spec_strip_run_stays b (s : str) :
  b || starts_with_punct (lstrip s) = false ->
  spec_strip_around_punct b s =
  take (span isspace s) s ++ spec_strip_around_punct false (lstrip s).
Proof.
  intros [-> H]%orb_false_iff. induction s as [|c s IH]; [done|].
  rewrite span_cons. destruct (isspace c) eqn:Hc.
  - rewrite lstrip_cons_space in * by done.
    rewrite spec_strip_cons, Hc, H. cbn [orb take app]. f_equal. by apply IH.
  - by rewrite lstrip_cons_other.
Qed.

Lemma spec_strip_keeps (P : N -> bool) (s : str) b :
  forallb P s = true -> forallb P (spec_strip_around_punct b s) = true.
Proof.
  revert b. induction s as [|c s IH]; intros b; [done|].
  cbn [forallb]. intros [Hc Hs]%andb_true_iff.
  rewrite spec_strip_cons.
  destruct (isspace c); [destruct (b || _)|]; cbn [forallb]; rewrite ?Hc; simpl; by apply IH.
Qed.

Lemma lstrip_starts (s : str) : span isspace (lstrip s) = 0%nat.
Proof. apply span_drop_zero. Qed.

Lemma lstrip_shorter c (s : str) :
  isspace c = true -> (length (lstrip (c :: s)) < length (c :: s))%nat.
Proof.
  intros H. rewrite lstrip_cons_space by done.
  pose proof (lstrip_length s). simpl. lia.
Qed.

Lemma spec_strip_no_double (s : str) b :
  no_double_space s = true -> no_double_space (spec_strip_around_punct b s) = true.
Proof.
  revert b. induction s as [s IH] using str_ind_length. intros b Hs.
  destruct s as [|c s]; [done|].
  destruct (isspace c) eqn:Hc.
  - destruct (b || starts_with_punct (lstrip (c :: s))) eqn:Hb.
    + rewrite spec_strip_run_goes by done.
      apply IH; [by apply lstrip_shorter|]. by apply adjacent_drop.
    + rewrite spec_strip_run_stays by done.
      apply adjacent_app.
      * rewrite <- (take_drop (span isspace (c :: s)) (c :: s)) in Hs.
        by apply adjacent_app_inv in Hs as [? _].
      * apply IH; [by apply lstrip_shorter|]. by apply adjacent_drop.
      * intros a d v' _ Hv.
        pose proof (lstrip_starts (c :: s)) as H0.
        destruct (lstrip (c :: s)) as [|e r]; [done|].
        rewrite span_cons in H0. destruct (isspace e) eqn:He; [done|].
        rewrite spec_strip_cons, He in Hv. injection Hv as <- _.
        destruct (e =? SP) eqn:E; [|by rewrite andb_false_r].
        apply N.eqb_eq in E as ->. done.
  - rewrite spec_strip_cons, Hc. unfold no_double_space. rewrite adjacent_cons.
    apply andb_true_iff. split.
    + destruct (c =? SP) eqn:E; [apply N.eqb_eq in E as ->; done|].
      by destruct (spec_strip_around_punct _ s).
    + apply IH; [simpl; lia|]. by eapply adjacent_tail.
Qed.

Lemma adjacent_spaces (u : str) :
  forallb isspace u = true ->
  adjacent (fun a b => negb ((isspace a && is_punct b) || (is_punct a && isspace b))) u = true.
Proof.
  induction u as [|a u IH]; [done|].
  cbn [forallb]. intros [Ha Hu]%andb_true_iff. rewrite adjacent_cons, IH by done.
  destruct u as [|b u]; [done|]. cbn [forallb] in Hu. apply andb_true_iff in Hu as [Hb _].
  by rewrite (isspace_not_punct _ Ha), (isspace_not_punct _ Hb), Ha.
Qed.

Lemma span_take_all p (s : str) : forallb p (take (span p s) s) = true.
Proof.
  induction s as [|c s IH]; [done|]. rewrite span_cons.
  destruct (p c) eqn:E; [|done]. cbn [take forallb]. by rewrite E.
Qed.

Lemma spec_strip_no_space_at_punct (s : str) b :
  no_space_at_punct (spec_strip_around_punct b s) = true /\
  (b = true -> span isspace (spec_strip_around_punct b s) = 0%nat).
Proof.
  revert b. induction s as [s IH] using str_ind_length. intros b.
  destruct s as [|c s]; [done|].
  destruct (isspace c) eqn:Hc.
  - destruct (b || starts_with_punct (lstrip (c :: s))) eqn:Hb.
    + rewrite spec_strip_run_goes by done. apply IH. by apply lstrip_shorter.
    + rewrite spec_strip_run_stays by done.
      apply orb_false_iff in Hb as [-> Hb]. split; [|done].
      destruct (IH (lstrip (c :: s)) (lstrip_shorter _ _ Hc) false) as [IH1 _].
      apply adjacent_app; [apply adjacent_spaces, span_take_all|done|].
      intros a d v' Ha Hv.
      assert (isspace a = true) as Hwa.
      { pose proof (span_take_all isspace (c :: s)) as Hall.
        rewrite forallb_forall in Hall. by apply Hall. }
      pose proof (lstrip_starts (c :: s)) as H0.
      destruct (lstrip (c :: s)) as [|e r]; [done|].
      rewrite span_cons in H0. destruct (isspace e) eqn:He; [done|].
      rewrite spec_strip_cons, He in Hv. injection Hv as <- _.
      simpl in Hb. by rewrite Hb, He, !andb_false_r.
  - rewrite spec_strip_cons, Hc.
    destruct (IH s ltac:(simpl; lia) (is_punct c)) as [IH1 IH2].
    split; [|by rewrite span_cons, Hc].
    unfold no_space_at_punct in *. rewrite adjacent_cons, IH1, andb_true_r.
    destruct (spec_strip_around_punct (is_punct c) s) as [|h v] eqn:Ev; [done|].
    rewrite Hc. cbn [andb orb].
    destruct (is_punct c); [|done].
    specialize (IH2 eq_refl). rewrite span_cons in IH2.
    by destruct (isspace h).
Qed.

(** [strip] keeps a middle part of the string. *)
Lemma strip_infix (s : str) : exists u v, s = u ++ strip s ++ v.
Proof.
  unfold strip, rstrip.
  exists (take (span isspace s) s).
  exists (rev (take (span isspace (rev (lstrip s))) (rev (lstrip s)))).
  rewrite <- rev_app_distr.
  assert (forall t : str, take (span isspace t) t ++ lstrip t = t) as E
    by (intros t; apply take_drop).
  by rewrite !E, rev_involutive, E.
Qed.

Lemma strip_keeps (P : N -> bool) (s : str) :
  forallb P s = true -> forallb P (strip s) = true.
Proof.
  destruct (strip_infix s) as (u & v & E). rewrite E at 1.
  rewrite !forallb_app. by intros [_ [H _]%andb_true_iff]%andb_true_iff.
Qed.

Lemma strip_adjacent R (s : str) :
  adjacent R s = true -> adjacent R (strip s) = true.
Proof.
  destruct (strip_infix s) as (u & v & E). rewrite E at 1.
  intros [_ H]%adjacent_app_inv. by apply adjacent_app_inv in H as [H _].
Qed.

Lemma lstrip_snoc (u : str) d :
  isspace d = false -> lstrip (u ++ [d]) = lstrip u ++ [d].
Proof.
  intros Hd. induction u as [|c u IH].
  - change ([] ++ [d]) with [d]. by rewrite lstrip_cons_other.
  - rewrite <- app_comm_cons. destruct (isspace c) eqn:Hc.
    + by rewrite !lstrip_cons_space.
    + by rewrite !lstrip_cons_other.
Qed.

Lemma strip_trimmed (s : str) : trimmed (strip s) = true.
Proof.
  unfold trimmed, strip, rstrip. rewrite rev_involutive, lstrip_starts.
  rewrite andb_true_r. apply Nat.eqb_eq.
  pose proof (lstrip_starts s) as H0.
  destruct (lstrip s) as [|d t]; [done|].
  rewrite span_cons in H0. destruct (isspace d) eqn:Hd; [done|].
  cbn [rev]. rewrite lstrip_snoc by done.
  rewrite rev_app_distr. cbn [rev app]. by rewrite span_cons, Hd.
Qed.

Lemma spec_minify_text_idempotent (s : str) :
  spec_minify_text (spec_minify_text s) = spec_minify_text s.
Proof.
  set (t := spec_minify_text s).
  assert (no_newline t = true) as H1.
  { apply strip_keeps, spec_strip_keeps, spec_collapse_keeps, spec_newlines_no_newline. }
  assert (no_double_space t = true) as H2.
  { apply strip_adjacent, spec_strip_no_double, spec_collapse_no_double. }
  assert (no_space_at_punct t = true) as H3.
  { apply strip_adjacent, spec_strip_no_space_at_punct. }
  assert (trimmed t = true) as H4 by apply strip_trimmed.
  unfold spec_minify_text at 1, spec_trim.
  by rewrite no_newline_fix, no_double_space_fix, no_space_at_punct_fix, trimmed_fix.
Qed.

(** ** The encoding detector *)

Lemma bind_ok {A B} (m : M A) (k : A -> M B) w a w1 :
  m w = (Ok a, w1) -> bind m k w = k a w1.
Proof. unfold bind. by intros ->. Qed.

Lemma bind_raised {A B} (m : M A) (k : A -> M B) w e line w1 :
  m w = (Raised e line, w1) -> bind m k w = (Raised e line, w1).
Proof. unfold bind. by intros ->. Qed.

Lemma read_bytes_file p w data :
  files w !! p = Some (File data) -> read_bytes p w = (Ok data, w).
Proof. intros H. unfold read_bytes, bind, lookup_node, ret. by rewrite H. Qed.

Lemma read_text_file p enc w data :
  files w !! p = Some (File data) ->
  read_text p enc w =
  match decode enc data with
  | Some text => (Ok (universal_newlines text), w)
  | None => (Raised UnicodeDecodeError 0, w)
  end.
Proof.
  intros H. unfold read_text. rewrite (bind_ok _ _ _ _ _ (read_bytes_file _ _ _ H)).
  by destruct (decode enc data).
Qed.

(** The encoding [detect_encoding] settles on, as a function of the bytes. *)
Lemma detect_loop_file p w data :
  files w !! p = Some (File data) ->
  detect_loop p [UTF8; UTF16LE] w =
  match decode UTF8 data, decode UTF16LE data with
  | Some _, _ => (Ok (Some UTF8), World (files w) (trace w ++ [Probe p UTF8]))
  | None, Some _ =>
      (Ok (Some UTF16LE), World (files w) (trace w ++ [Probe p UTF8; Probe p UTF16LE]))
  | None, None =>
      (Ok None, World (files w) (trace w ++ [Probe p UTF8; Probe p UTF16LE]))
  end.
Proof.
  intros H. cbn [detect_loop]. unfold try_except, bind at 1, emit at 1.
  unfold bind at 1. rewrite read_text_file with (data := data) by done.
  destruct (decode UTF8 data) as [t|]; [done|].
  cbn [files trace]. unfold bind at 1, emit at 1. cbn [files trace].
  unfold bind at 1. rewrite read_text_file with (data := data) by done.
  rewrite <- app_assoc. cbn [app].
  destruct (decode UTF16LE data) as [t|]; done.
Qed.

(** ** Paths *)

Lemma rfind_bounds c (p : str) : (-1 <= rfind c p < Z.of_nat (length p))%Z.
Proof.
  induction p as [|x p IH]; simpl rfind; [simpl; lia|].
  cbn [length]. destruct (Z.leb_spec 0 (rfind c p)); [lia|].
  destruct (x =? c); lia.
Qed.

Lemma rfind_none c (p : str) : rfind c p = (-1)%Z <-> mem c p = false.
Proof.
  unfold mem. induction p as [|x p IH]; simpl rfind; [done|].
  cbn [existsb]. pose proof (rfind_bounds c p).
  destruct (Z.leb_spec 0 (rfind c p)).
  - split; [lia|]. intros [_ H']%orb_false_iff. apply IH in H'. lia.
  - rewrite (N.eqb_sym c x). destruct (x =? c); [done|].
    simpl. rewrite <- IH. split; lia.
Qed.

Lemma mem_app c (u v : str) : mem c (u ++ v) = mem c u || mem c v.
Proof. apply existsb_app. Qed.

Lemma rfind_app c (u v : str) :
  rfind c (u ++ v) =
  if (0 <=? rfind c v)%Z then (Z.of_nat (length u) + rfind c v)%Z else rfind c u.
Proof.
  induction u as [|x u IH].
  - simpl. destruct (Z.leb_spec 0 (rfind c v)); [done|].
    pose proof (rfind_bounds c v). lia.
  - rewrite <- app_comm_cons. cbn [rfind length]. rewrite IH.
    pose proof (rfind_bounds c u).
    destruct (Z.leb_spec 0 (rfind c v)).
    + destruct (Z.leb_spec 0 (Z.of_nat (length u) + rfind c v)); lia.
    + done.
Qed.

Lemma rfind_snoc_free c (u v : str) :
  mem c v = false -> rfind c (u ++ c :: v) = Z.of_nat (length u).
Proof.
  intros Hv. rewrite rfind_app. cbn [rfind].
  apply rfind_none in Hv. rewrite Hv. simpl. rewrite N.eqb_refl. simpl. lia.
Qed.

(** What [os.path.join a b] puts in front of a relative [b]. *)
Lemma join_prefix a (b : str) :
  starts_with_char SLASH b = false -> join a b = join a [] ++ b.
Proof.
  intros Hb. unfold join. rewrite Hb. cbn [starts_with_char].
  destruct (str_eqb a [] || ends_with_char SLASH a).
  - by rewrite app_nil_r.
  - by rewrite app_nil_r, <- app_assoc.
Qed.

Lemma free_starts c (b : str) : mem c b = false -> starts_with_char c b = false.
Proof.
  destruct b as [|x b]; [done|]. unfold mem. cbn [existsb starts_with_char].
  rewrite (N.eqb_sym c x). by intros [? _]%orb_false_iff.
Qed.

(** The prefix is empty or ends with a slash. *)
Lemma join_nil_shape a : join a [] = [] \/ exists u, join a [] = u ++ [SLASH].
Proof.
  unfold join. cbn [starts_with_char].
  unfold str_eqb. case_bool_decide as Ha; [left; by subst|]. cbn [orb].
  destruct (ends_with_char SLASH a) eqn:E.
  - right. unfold ends_with_char in E.
    destruct (rev a) as [|x r] eqn:Er; [done|]. cbn in E. apply N.eqb_eq in E as ->.
    exists (rev r). rewrite <- (rev_involutive a), Er. by rewrite app_nil_r.
  - right. exists a. by rewrite app_nil_r.
Qed.

Lemma basename_prefixed (pre b : str) :
  pre = [] \/ (exists u, pre = u ++ [SLASH]) ->
  mem SLASH b = false ->
  basename (pre ++ b) = b.
Proof.
  intros Hpre Hb. unfold basename. destruct Hpre as [->|[u ->]].
  - apply rfind_none in Hb. simpl. by rewrite Hb.
  - rewrite <- app_assoc. cbn [app]. rewrite rfind_snoc_free by done.
    replace (Z.to_nat (Z.of_nat (length u) + 1)) with (length (u ++ [SLASH]))
      by (rewrite length_app; simpl; lia).
    change (u ++ SLASH :: b) with (u ++ [SLASH] ++ b). rewrite app_assoc.
    by rewrite drop_app_length.
Qed.

Lemma basename_join a (b : str) : mem SLASH b = false -> basename (join a b) = b.
Proof.
  intros Hb. rewrite join_prefix by by apply free_starts.
  apply basename_prefixed; [apply join_nil_shape|done].
Qed.

Lemma mem_drop c n (p : str) : mem c p = false -> mem c (drop n p) = false.
Proof.
  intros H. rewrite <- (take_drop n p), mem_app in H. by apply orb_false_iff in H as [_ ?].
Qed.

Lemma mem_take c n (p : str) : mem c p = false -> mem c (take n p) = false.
Proof.
  intros H. rewrite <- (take_drop n p), mem_app in H. by apply orb_false_iff in H as [? _].
Qed.

Lemma basename_no_slash (p : str) : mem SLASH (basename p) = false.
Proof.
  unfold basename. pose proof (rfind_bounds SLASH p) as Hb.
  destruct (decide (rfind SLASH p = (-1)%Z)) as [E|E].
  - rewrite E. simpl. by apply rfind_none.
  - induction p as [|x p IH]; [done|].
    revert E Hb. cbn [rfind length].
    pose proof (rfind_bounds SLASH p) as Hp.
    destruct (Z.leb_spec 0 (rfind SLASH p)).
    + intros _ _.
      replace (Z.to_nat (rfind SLASH p + 1 + 1)) with (S (Z.to_nat (rfind SLASH p + 1))) by lia.
      cbn [drop]. apply IH; lia.
    + destruct (x =? SLASH); [|lia]. intros _ _. simpl.
      rewrite drop_0. apply rfind_none. lia.
Qed.

Lemma splitext_app (p : str) : fst (splitext p) ++ snd (splitext p) = p.
Proof.
  unfold splitext. destruct (_ <? _)%Z; [|by rewrite app_nil_r].
  destruct (existsb _ _); [apply take_drop|by rewrite app_nil_r].
Qed.

Lemma splitext_root_free c (p : str) : mem c p = false -> mem c (fst (splitext p)) = false.
Proof.
  intros H. unfold splitext. destruct (_ <? _)%Z; [|done].
  destruct (existsb _ _); [by apply mem_take|done].
Qed.

(** ** Computations that leave a path alone *)

Lemma keeps_ret {A} p o (a : A) : keeps p o (ret a).
Proof. by intros w. Qed.

Lemma keeps_raise {A} p o e : keeps p o (@raise A e).
Proof. by intros w. Qed.

Lemma keeps_emit p o e : keeps p o (emit e).
Proof. by intros w. Qed.

Lemma keeps_print p o m : keeps p o (print m).
Proof. apply keeps_emit. Qed.

Lemma keeps_lookup p o q : keeps p o (lookup_node q).
Proof. by intros w. Qed.

Lemma keeps_set_node p o q n : q <> p -> keeps p o (set_node q n).
Proof. intros Hq w Hw. simpl. by rewrite lookup_insert_ne. Qed.

Lemma keeps_bind {A B} p o (m : M A) (k : A -> M B) :
  keeps p o m -> (forall a, keeps p o (k a)) -> keeps p o (bind m k).
Proof.
  intros Hm Hk w Hw. unfold bind. specialize (Hm w Hw).
  destruct (m w) as [[a|e line] w1]; simpl in *; [by apply Hk|done].
Qed.

Lemma keeps_at_line {A} p o line (m : M A) : keeps p o m -> keeps p o (at_line line m).
Proof.
  intros Hm w Hw. unfold at_line. specialize (Hm w Hw).
  by destruct (m w) as [[a|e l] w1].
Qed.

Lemma keeps_try_except {A} p o (m : M A) handles h :
  keeps p o m -> (forall e line, keeps p o (h e line)) -> keeps p o (try_except m handles h).
Proof.
  intros Hm Hh w Hw. unfold try_except. specialize (Hm w Hw).
  destruct (m w) as [[a|e l] w1]; simpl in *; [done|].
  destruct (handles e); [by apply Hh|done].
Qed.

Lemma keeps_isfile p o q : keeps p o (isfile q).
Proof. apply keeps_bind; [apply keeps_lookup|intros; apply keeps_ret]. Qed.

Lemma keeps_isdir p o q : keeps p o (isdir q).
Proof. apply keeps_bind; [apply keeps_lookup|intros; apply keeps_ret]. Qed.

Lemma keeps_read_bytes p o q : keeps p o (read_bytes q).
Proof.
  apply keeps_bind; [apply keeps_lookup|].
  intros [[data|]|]; [apply keeps_ret|apply keeps_raise..].
Qed.

Lemma keeps_read_text p o q enc : keeps p o (read_text q enc).
Proof.
  apply keeps_bind; [apply keeps_read_bytes|].
  intros data. destruct (decode enc data); [apply keeps_ret|apply keeps_raise].
Qed.

Lemma keeps_open_for_writing p o q : q <> p -> keeps p o (open_for_writing q).
Proof.
  intros Hq. apply keeps_bind; [apply keeps_lookup|].
  intros [[data|]|]; try apply keeps_raise; by apply keeps_set_node.
Qed.

(** [makedirs] never replaces what is there. *)
Lemma keeps_makedirs p o path : path <> p \/ is_Some o -> keeps p o (makedirs path).
Proof.
  intros Hp w Hw. unfold makedirs, bind, emit, lookup_node. cbn [files trace].
  destruct (files w !! path) as [[data|]|] eqn:E; simpl; try done.
  destruct Hp as [Hp|[n Hn]]; [by rewrite lookup_insert_ne|].
  destruct (decide (path = p)) as [->|Hne]; [|by rewrite lookup_insert_ne].
  rewrite Hw in E. by subst.
Qed.

Lemma keeps_copy2 p o src dst :
  dst <> p -> join dst (basename src) <> p -> keeps p o (copy2 src dst).
Proof.
  intros H1 H2. unfold copy2.
  apply keeps_bind; [apply keeps_emit|intros _].
  apply keeps_bind; [apply keeps_isdir|intros d].
  assert ((if d then join dst (basename src) else dst) <> p) as Hd by by destruct d.
  destruct (str_eqb src _); [apply keeps_raise|].
  apply keeps_bind; [apply keeps_read_bytes|intros data].
  apply keeps_bind; [by apply keeps_open_for_writing|intros _].
  by apply keeps_set_node.
Qed.

(** The source of a copy is never written. *)
Lemma keeps_copy2_source o src dst : keeps src o (copy2 src dst).
Proof.
  unfold copy2.
  apply keeps_bind; [apply keeps_emit|intros _].
  apply keeps_bind; [apply keeps_isdir|intros d].
  unfold str_eqb. case_bool_decide as Hd; [apply keeps_raise|].
  apply keeps_bind; [apply keeps_read_bytes|intros data].
  apply keeps_bind; [apply keeps_open_for_writing; congruence|intros _].
  apply keeps_set_node. congruence.
Qed.

Lemma keeps_detect_loop p o q encs : keeps p o (detect_loop q encs).
Proof.
  induction encs as [|enc encs IH]; [apply keeps_ret|].
  cbn [detect_loop]. apply keeps_bind; [apply keeps_emit|intros _].
  apply keeps_try_except; [|done].
  apply keeps_bind; [apply keeps_read_text|intros; apply keeps_ret].
Qed.

Lemma keeps_detect_encoding p o q : keeps p o (detect_encoding q).
Proof.
  apply keeps_bind; [apply keeps_detect_loop|].
  intros [enc|]; [apply keeps_ret|].
  apply keeps_bind; [apply keeps_print|intros; apply keeps_ret].
Qed.

Lemma keeps_read_file p o q enc : keeps p o (read_file q enc).
Proof. apply keeps_bind; [apply keeps_emit|intros; apply keeps_read_text]. Qed.

Lemma keeps_write_file p o q content enc : q <> p -> keeps p o (write_file q content enc).
Proof.
  intros Hq. apply keeps_bind; [apply keeps_emit|intros _].
  apply keeps_bind; [by apply keeps_open_for_writing|intros _].
  destruct (encode enc content); [by apply keeps_set_node|apply keeps_raise].
Qed.

(** ** The paths derived from a file path *)

Lemma ends_with_snoc c (u : str) x : ends_with_char c (u ++ [x]) = (x =? c).
Proof. unfold ends_with_char. by rewrite rev_app_distr. Qed.

Lemma join_nil_plain (a : str) :
  a <> [] -> ends_with_char SLASH a = false -> join a [] = a ++ [SLASH].
Proof.
  intros Ha He. unfold join, str_eqb. cbn [starts_with_char].
  rewrite bool_decide_eq_false_2 by done. by rewrite He, app_nil_r.
Qed.

Lemma join_dir (u : str) x (b : str) :
  x <> SLASH -> mem SLASH b = false -> join (u ++ [x]) b = u ++ [x] ++ [SLASH] ++ b.
Proof.
  intros Hx Hb. rewrite join_prefix by by apply free_starts.
  rewrite join_nil_plain.
  - by rewrite <- !app_assoc.
  - by destruct u.
  - rewrite ends_with_snoc. by apply N.eqb_neq.
Qed.

Lemma backup_folder_shape fp :
  backup_folder_of fp = join (dirname fp) [] ++ str_of "backup".
Proof. unfold backup_folder_of. by rewrite join_prefix. Qed.

Lemma bak_name_free fp : mem SLASH (basename fp ++ str_of ".bak") = false.
Proof. by rewrite mem_app, basename_no_slash. Qed.

Lemma backup_path_shape fp :
  backup_path_of fp = backup_folder_of fp ++ [SLASH] ++ basename fp ++ str_of ".bak".
Proof.
  unfold backup_path_of. rewrite backup_folder_shape.
  change (str_of "backup") with (str_of "backu" ++ [112]). rewrite app_assoc.
  rewrite join_dir; [by rewrite <- !app_assoc|done|apply bak_name_free].
Qed.

Lemma backup_inside_shape fp :
  backup_inside_of fp = backup_path_of fp ++ [SLASH] ++ basename fp.
Proof.
  unfold backup_inside_of. rewrite backup_path_shape.
  change (str_of ".bak") with (str_of ".ba" ++ [107]). rewrite !app_assoc.
  rewrite join_dir; [by rewrite <- !app_assoc|done|apply basename_no_slash].
Qed.

Lemma output_name_free fp :
  mem SLASH (fst (splitext (basename fp)) ++ str_of ".skysheet") = false.
Proof. by rewrite mem_app, splitext_root_free by apply basename_no_slash. Qed.

Lemma output_path_shape fp :
  output_path_of fp =
  join (dirname fp) [] ++ fst (splitext (basename fp)) ++ str_of ".skysheet".
Proof. unfold output_path_of. rewrite join_prefix; [done|]. apply free_starts, output_name_free. Qed.

Lemma basename_backup_path fp : basename (backup_path_of fp) = basename fp ++ str_of ".bak".
Proof. apply basename_join, bak_name_free. Qed.

Lemma basename_output_path fp :
  basename (output_path_of fp) = fst (splitext (basename fp)) ++ str_of ".skysheet".
Proof. apply basename_join, output_name_free. Qed.

Lemma file_not_backup_path fp : fp <> backup_path_of fp.
Proof.
  intros E. apply (f_equal basename) in E. rewrite basename_backup_path in E.
  apply (f_equal length) in E. rewrite length_app in E. simpl in E. lia.
Qed.

Lemma backup_folder_not_backup_path fp : backup_folder_of fp <> backup_path_of fp.
Proof.
  rewrite backup_path_shape. intros E. apply (f_equal length) in E.
  rewrite !length_app in E. simpl in E. lia.
Qed.

Lemma backup_path_not_inside fp : backup_path_of fp <> backup_inside_of fp.
Proof.
  rewrite backup_inside_shape. intros E. apply (f_equal length) in E.
  rewrite !length_app in E. simpl in E. lia.
Qed.

Lemma backup_folder_not_inside fp : backup_folder_of fp <> backup_inside_of fp.
Proof.
  rewrite backup_inside_shape, backup_path_shape. intros E. apply (f_equal length) in E.
  rewrite !length_app in E. simpl in E. lia.
Qed.

Lemma output_not_backup_folder fp : output_path_of fp <> backup_folder_of fp.
Proof.
  rewrite output_path_shape, backup_folder_shape. intros E%app_inv_head.
  apply (f_equal (@rev N)) in E. rewrite rev_app_distr in E. discriminate E.
Qed.

Lemma output_not_backup_path fp : output_path_of fp <> backup_path_of fp.
Proof.
  rewrite output_path_shape, backup_path_shape, backup_folder_shape, <- !app_assoc.
  intros E%app_inv_head. apply (f_equal (mem SLASH)) in E.
  rewrite output_name_free in E. rewrite !mem_app in E. simpl in E.
  by rewrite ?orb_true_r in E.
Qed.

Lemma output_not_backup_inside fp : output_path_of fp <> backup_inside_of fp.
Proof.
  rewrite output_path_shape, backup_inside_shape, backup_path_shape, backup_folder_shape,
    <- !app_assoc.
  intros E%app_inv_head. apply (f_equal (mem SLASH)) in E.
  rewrite output_name_free in E. rewrite !mem_app in E. simpl in E.
  by rewrite ?orb_true_r in E.
Qed.

Lemma output_not_file fp :
  snd (splitext (basename fp)) <> str_of ".skysheet" -> output_path_of fp <> fp.
Proof.
  intros Hext E. apply (f_equal basename) in E. rewrite basename_output_path in E.
  pose proof (splitext_app (basename fp)) as Hs.
  apply Hext. apply (app_inv_head (fst (splitext (basename fp)))). congruence.
Qed.

(** ** One run of each file operation *)

Lemma isfile_run p w :
  isfile p w = (Ok (match files w !! p with Some (File _) => true | _ => false end), w).
Proof. reflexivity. Qed.

Lemma detect_encoding_run p w data :
  files w !! p = Some (File data) ->
  detect_encoding p w =
  (Ok (detected data), World (files w) (trace w ++ detection_trace p data)).
Proof.
  intros H. unfold detect_encoding, bind. rewrite (detect_loop_file _ _ _ H).
  unfold detected, detection_trace.
  destruct (decode UTF8 data); [done|]. destruct (decode UTF16LE data); [done|].
  unfold print, emit, ret. cbn [files trace]. by rewrite <- app_assoc.
Qed.

Lemma makedirs_run path w :
  makedirs path w =
  match files w !! path with
  | Some Dir => (Ok tt, World (files w) (trace w ++ [MakeDirs path]))
  | Some (File _) => (Raised FileExistsError 0, World (files w) (trace w ++ [MakeDirs path]))
  | None => (Ok tt, World (<[path := Dir]> (files w)) (trace w ++ [MakeDirs path]))
  end.
Proof.
  unfold makedirs, bind, emit, lookup_node. cbn [files trace].
  by destruct (files w !! path) as [[data|]|].
Qed.

Lemma copy2_run src dst w data :
  files w !! src = Some (File data) ->
  copy2 src dst w =
  let w1 := World (files w) (trace w ++ [Copy2 src dst]) in
  let dst' := match files w !! dst with
              | Some Dir => join dst (basename src)
              | _ => dst
              end in
  if str_eqb src dst' then (Raised SameFileError 0, w1)
  else match files w !! dst' with
       | Some Dir => (Raised IsADirectoryError 0, w1)
       | _ => (Ok tt, World (<[dst' := File data]> (files w)) (trace w1))
       end.
Proof.
  intros H. unfold copy2, bind at 1, emit. unfold bind at 1.
  unfold isdir, bind at 1, lookup_node at 1. cbn [files trace ret].
  set (dst' := match files w !! dst with Some Dir => join dst (basename src) | _ => dst end).
  replace (if match files w !! dst with Some Dir => true | _ => false end
           then join dst (basename src) else dst) with dst'
    by (unfold dst'; by destruct (files w !! dst) as [[?|]|]).
  cbv zeta. destruct (str_eqb src dst'); [done|].
  unfold bind at 1. rewrite read_bytes_file with (data := data) by done.
  unfold open_for_writing, set_node, bind, lookup_node. cbn [files trace].
  destruct (files w !! dst') as [[?|]|]; cbn [raise files trace];
    by rewrite ?insert_insert_eq.
Qed.

Lemma read_file_run p enc w data :
  files w !! p = Some (File data) ->
  read_file p enc w =
  match file_text enc data with
  | Some content => (Ok content, World (files w) (trace w ++ [ReadFile p enc]))
  | None => (Raised UnicodeDecodeError 0, World (files w) (trace w ++ [ReadFile p enc]))
  end.
Proof.
  intros H. unfold read_file, bind, emit.
  rewrite read_text_file with (data := data) by done.
  unfold file_text. by destruct (decode enc data).
Qed.

Lemma write_file_run p content enc w :
  write_file p content enc w =
  let t := trace w ++ [WriteFile p enc] in
  match files w !! p with
  | Some Dir => (Raised IsADirectoryError 0, World (files w) t)
  | _ => match encode enc content with
         | Some data => (Ok tt, World (<[p := File data]> (files w)) t)
         | None => (Raised UnicodeEncodeError 0, World (<[p := File []]> (files w)) t)
         end
  end.
Proof.
  unfold write_file, bind at 1, emit. unfold bind at 1.
  unfold open_for_writing, set_node, bind, lookup_node. cbn [files trace].
  destruct (files w !! p) as [[?|]|]; destruct (encode enc content);
    cbn [raise files trace]; by rewrite ?insert_insert_eq.
Qed.

Section ProgramFacts.

Variable float_of_literal : str -> spec_float.
Variable float_repr : spec_float -> str.
Variable str_lower : str -> str.

Abbreviation minify_json' := (minify_json float_of_literal float_repr).
Abbreviation process_file' := (process_file float_of_literal float_repr str_lower).

Lemma keeps_minify_json p o content : keeps p o (minify_json' content).
Proof.
  unfold minify_json. destruct (loads _ _); [apply keeps_ret|].
  apply keeps_bind; [apply keeps_print|intros; apply keeps_ret].
Qed.

Lemma keeps_handler p o (filename : str) e (line : nat) :
  keeps p o (print (CriticalError filename) ;; print (ErrorType e) ;;
             print (ErrorLine line) ;; print (ErrorDetails e) ;; ret false).
Proof. repeat (apply keeps_bind; [apply keeps_print|intros _]). apply keeps_ret. Qed.

(** [process_file] writes at four places at most, and at the first of them
    only when nothing is there. *)
Lemma keeps_process_file p o file_path :
  backup_folder_of file_path <> p \/ is_Some o ->
  backup_path_of file_path <> p \/ file_path = p ->
  backup_inside_of file_path <> p \/ file_path = p ->
  output_path_of file_path <> p ->
  keeps p o (process_file' file_path).
Proof.
  intros H1 H2 H3 H4. unfold process_file.
  apply keeps_try_except; [|intros; apply keeps_handler].
  apply keeps_bind; [apply keeps_isfile|intros found].
  destruct found; cbn [negb];
    [|apply keeps_bind; [apply keeps_print|intros; apply keeps_ret]].
  apply keeps_bind; [apply keeps_at_line, keeps_detect_encoding|intros enc].
  apply keeps_bind; [by apply keeps_at_line, keeps_makedirs|intros _].
  apply keeps_bind.
  { apply keeps_at_line.
    destruct (decide (file_path = p)) as [<-|Hne]; [apply keeps_copy2_source|].
    apply keeps_copy2; [by destruct H2|by destruct H3]. }
  intros _.
  apply keeps_bind; [apply keeps_at_line, keeps_read_file|intros content].
  apply keeps_bind.
  { destruct (str_eqb _ _); [apply keeps_minify_json|apply keeps_ret]. }
  intros [minified|]; [|apply keeps_ret].
  apply keeps_bind; [by apply keeps_at_line, keeps_write_file|intros _].
  repeat (apply keeps_bind; [apply keeps_print|intros _]). apply keeps_ret.
Qed.

Abbreviation file_outcome' := (file_outcome float_of_literal float_repr str_lower).
Abbreviation copy_outcome' := (copy_outcome float_of_literal float_repr str_lower).
Abbreviation finish_outcome' := (finish_outcome float_of_literal float_repr str_lower).
Abbreviation minified' := (minified float_of_literal float_repr str_lower).

Lemma try_bind {A B} (m : M A) (k : A -> M B) hs h w :
  try_except (bind m k) hs h w =
  match m w with
  | (Ok a, w1) => try_except (k a) hs h w1
  | (Raised e line, w1) => if hs e then h e line w1 else (Raised e line, w1)
  end.
Proof. unfold try_except, bind. by destruct (m w) as [[a|e line] w1]. Qed.

Lemma handler_run fp e line w :
  (print (CriticalError (basename fp)) ;; print (ErrorType e) ;;
   print (ErrorLine line) ;; print (ErrorDetails e) ;; ret false) w =
  failed fp e line (files w) (trace w).
Proof.
  unfold failed, failure_report, bind, print, emit, ret. cbn [files trace].
  by rewrite <- !app_assoc.
Qed.

Lemma minify_json_run content w :
  minify_json' content w =
  match loads float_of_literal content with
  | Some v => (Ok (Some (dumps float_repr v)), w)
  | None => (Ok None, World (files w) (trace w ++ [Printed JsonError]))
  end.
Proof. unfold minify_json. by destruct (loads _ _). Qed.

Lemma finish_run fp enc data w :
  files w !! fp = Some (File data) ->
  try_except
    (let* content := at_line 129 (read_file fp enc) in
     let file_ext := str_lower (snd (splitext (basename fp))) in
     let* minified_content :=
       if str_eqb file_ext (str_of ".json")
       then minify_json' content
       else ret (Some (minify_text content)) in
     match minified_content with
     | None => ret false
     | Some minified_content =>
         let new_filename := fst (splitext (basename fp)) ++ str_of ".skysheet" in
         let new_file_path := join (dirname fp) new_filename in
         at_line 144 (write_file new_file_path minified_content enc) ;;
         print (Success (basename fp) new_filename) ;;
         print (SuccessEncoding enc) ;;
         print (SuccessBackup
                  (join (join (dirname fp) (str_of "backup")) (basename fp ++ str_of ".bak"))) ;;
         ret true
     end)
    any_exception
    (fun e line =>
       print (CriticalError (basename fp)) ;; print (ErrorType e) ;;
       print (ErrorLine line) ;; print (ErrorDetails e) ;; ret false) w =
  finish_outcome' fp enc (file_text enc data) (files w) (trace w).
Proof.
  intros Hfp. rewrite try_bind. unfold at_line at 1.
  rewrite (read_file_run _ _ _ _ Hfp). unfold finish_outcome.
  destruct (file_text enc data) as [content|]; [|by rewrite handler_run].
  cbv zeta. rewrite try_bind. unfold minified.
  destruct (str_eqb _ _).
  - rewrite minify_json_run. destruct (loads _ _) as [v|]; [|done].
    cbn [fmap option_fmap option_map]. rewrite try_bind. unfold at_line at 1.
    rewrite write_file_run. cbn [files trace]. fold (output_path_of fp).
    destruct (files w !! output_path_of fp) as [[?|]|];
      try (by rewrite handler_run);
      (destruct (encode enc _); [|by rewrite handler_run]);
      unfold try_except, bind, print, emit, ret, success_report; cbn [files trace];
      by rewrite <- !app_assoc.
  - unfold ret at 1. rewrite try_bind. unfold at_line at 1.
    rewrite write_file_run. cbn [files trace]. fold (output_path_of fp).
    destruct (files w !! output_path_of fp) as [[?|]|];
      try (by rewrite handler_run);
      (destruct (encode enc _); [|by rewrite handler_run]);
      unfold try_except, bind, print, emit, ret, success_report; cbn [files trace];
      by rewrite <- !app_assoc.
Qed.

Lemma process_file_outcome fp w : process_file' fp w = file_outcome' fp w.
Proof.
  unfold process_file, file_outcome.
  rewrite try_bind, isfile_run.
  destruct (files w !! fp) as [[data|]|] eqn:Hfp; cbn [negb]; try reflexivity.
  rewrite try_bind. unfold at_line at 1. rewrite (detect_encoding_run _ _ _ Hfp).
  rewrite try_bind. unfold at_line at 1. rewrite makedirs_run. cbn [files trace].
  fold (backup_folder_of fp). rewrite <- app_assoc.
  assert (forall w2, files w2 !! fp = Some (File data) ->
    try_except
      (at_line 126 (copy2 fp (backup_path_of fp)) ;;
       let* content := at_line 129 (read_file fp (detected data)) in
       let file_ext := str_lower (snd (splitext (basename fp))) in
       let* minified_content :=
         if str_eqb file_ext (str_of ".json")
         then minify_json' content
         else ret (Some (minify_text content)) in
       match minified_content with
       | None => ret false
       | Some minified_content =>
           let new_filename := fst (splitext (basename fp)) ++ str_of ".skysheet" in
           let new_file_path := join (dirname fp) new_filename in
           at_line 144 (write_file new_file_path minified_content (detected data)) ;;
           print (Success (basename fp) new_filename) ;;
           print (SuccessEncoding (detected data)) ;;
           print (SuccessBackup (backup_path_of fp)) ;;
           ret true
       end)
      any_exception
      (fun e line =>
         print (CriticalError (basename fp)) ;; print (ErrorType e) ;;
         print (ErrorLine line) ;; print (ErrorDetails e) ;; ret false) w2 =
    copy_outcome' fp data (files w2) (trace w2)) as Hcopy.
  { intros w2 H2. rewrite try_bind. unfold at_line at 1.
    rewrite (copy2_run _ _ _ _ H2). cbv zeta. unfold copy_outcome.
    fold (backup_inside_of fp).
    set (dst := match files w2 !! backup_path_of fp with
                | Some Dir => backup_inside_of fp
                | _ => backup_path_of fp
                end).
    unfold str_eqb. case_bool_decide as Hdst; [by rewrite handler_run|].
    destruct (files w2 !! dst) as [[?|]|] eqn:Ed; cbn [trace];
      try (by rewrite handler_run);
      apply finish_run; cbn [files]; by rewrite lookup_insert_ne. }
  destruct (files w !! backup_folder_of fp) as [[?|]|] eqn:Hbf.
  - by rewrite handler_run.
  - by rewrite (Hcopy (World _ _)).
  - rewrite (Hcopy (World _ _)); [done|]. cbn [files].
    rewrite lookup_insert_ne; [done|]. congruence.
Qed.

(** What the tail of a run leaves alone, and how it extends the trace. *)
Lemma finish_keeps fp enc c fs3 t p :
  output_path_of fp <> p ->
  files (snd (finish_outcome' fp enc c fs3 t)) !! p = fs3 !! p.
Proof.
  intros Hp. unfold finish_outcome, failed.
  destruct c as [content|]; [|done].
  destruct (minified' fp content); [|done].
  destruct (fs3 !! output_path_of fp) as [[?|]|]; try done;
    destruct (encode enc _); cbn [snd files]; by rewrite lookup_insert_ne.
Qed.

Lemma finish_trace fp enc c fs3 t :
  exists post, trace (snd (finish_outcome' fp enc c fs3 t)) = t ++ ReadFile fp enc :: post.
Proof.
  unfold finish_outcome, failed.
  destruct c as [content|]; [|eexists; cbn [snd trace]; by rewrite <- app_assoc].
  destruct (minified' fp content);
    [|eexists; cbn [snd trace]; by rewrite <- app_assoc].
  destruct (fs3 !! output_path_of fp) as [[?|]|]; try destruct (encode enc _);
    eexists; cbn [snd trace]; by rewrite <- !app_assoc.
Qed.

Lemma finish_result fp enc c fs3 t :
  fst (finish_outcome' fp enc c fs3 t) = Ok true \/
  fst (finish_outcome' fp enc c fs3 t) = Ok false.
Proof.
  unfold finish_outcome, failed.
  destruct c as [content|]; [|by right].
  destruct (minified' fp content); [|by right].
  destruct (fs3 !! output_path_of fp) as [[?|]|]; try destruct (encode enc _);
    by (left + right).
Qed.

Lemma copy_keeps fp data fs2 t p :
  output_path_of fp <> p -> copy_target fp fs2 <> p ->
  files (snd (copy_outcome' fp data fs2 t)) !! p = fs2 !! p.
Proof.
  intros H1 H2. unfold copy_outcome. fold (copy_target fp fs2).
  destruct (str_eqb fp _); [done|].
  destruct (fs2 !! copy_target fp fs2) as [[?|]|]; try done;
    rewrite finish_keeps by done; by rewrite lookup_insert_ne.
Qed.

End ProgramFacts.

(** ** Integers as text *)

Lemma pos_size_nat_bound p : N.pos p < 2 ^ N.of_nat (Pos.size_nat p).
Proof.
  induction p as [p IH|p IH|]; cbn [Pos.size_nat].
  - rewrite Nat2N.inj_succ, N.pow_succ_r'. lia.
  - rewrite Nat2N.inj_succ, N.pow_succ_r'. lia.
  - reflexivity.
Qed.

Lemma size_nat_bound n : n < 2 ^ N.of_nat (N.size_nat n).
Proof. destruct n; [reflexivity|apply pos_size_nat_bound]. Qed.

Lemma digits_from_acc f : forall n acc, digits_from f n acc = digits_from f n [] ++ acc.
Proof.
  induction f as [|f IH]; intros n acc; [done|].
  cbn [digits_from]. destruct (n <? 10); [done|].
  rewrite IH. rewrite (IH _ [_]). by rewrite <- app_assoc.
Qed.

Lemma int_of_digits_snoc ds d :
  int_of_digits (ds ++ [d]) = (10 * int_of_digits ds + digit_val d)%Z.
Proof. unfold int_of_digits. by rewrite fold_left_app. Qed.

Lemma is_digit_of n : n < 10 -> is_digit (48 + n) = true.
Proof. intros H. unfold is_digit. apply andb_true_iff. split; apply N.leb_le; lia. Qed.

Lemma digits_from_S f n acc :
  digits_from (S f) n acc =
  if n <? 10 then (48 + n mod 10) :: acc
  else digits_from f (n / 10) ((48 + n mod 10) :: acc).
Proof. reflexivity. Qed.

Lemma digits_from_spec f : forall n,
  n < 2 ^ N.of_nat f ->
  let ds := digits_from (S f) n [] in
  int_of_digits ds = Z.of_N n
  /\ forallb is_digit ds = true
  /\ (exists d rest, ds = d :: rest /\ (d = ZERO <-> n = 0) /\ (n = 0 -> rest = [])).
Proof.
  induction f as [|f IH]; intros n Hn.
  - assert (n = 0) as -> by (simpl in Hn; lia). simpl. repeat split; eauto.
    exists ZERO, []. done.
  - cbv zeta. rewrite digits_from_S. destruct (N.ltb_spec n 10) as [Hlt|Hge].
    + rewrite N.mod_small by done. repeat split.
      * unfold int_of_digits, digit_val. cbn [fold_left]. lia.
      * simpl. by rewrite is_digit_of.
      * exists (48 + n), []. unfold ZERO. repeat split; [lia|intros ->; done].
    + assert (n / 10 < 2 ^ N.of_nat f) as Hq.
      { rewrite Nat2N.inj_succ, N.pow_succ_r' in Hn.
        apply N.Div0.div_lt_upper_bound. lia. }
      destruct (IH _ Hq) as (H1 & H2 & d & rest & H3 & H4 & H5).
      rewrite digits_from_acc. cbv zeta in *.
      repeat split.
      * rewrite int_of_digits_snoc, H1. unfold digit_val.
        pose proof (N.Div0.div_mod n 10) as Hd. revert Hd.
        generalize (n mod 10), (n / 10). intros; lia.
      * rewrite forallb_app, H2. simpl. rewrite is_digit_of; [done|].
        apply N.mod_lt. lia.
      * rewrite H3. exists d, (rest ++ [48 + n mod 10]). split; [done|].
        assert (n / 10 <> 0) by (intros E; apply N.div_small_iff in E; lia).
        split; [|lia]. rewrite H4. lia.
Qed.

Lemma digits_of_spec n :
  int_of_digits (digits_of n) = Z.of_N n
  /\ forallb is_digit (digits_of n) = true
  /\ (exists d rest, digits_of n = d :: rest /\ (d = ZERO <-> n = 0) /\ (n = 0 -> rest = [])).
Proof. apply digits_from_spec, size_nat_bound. Qed.

Lemma parse_int_repr z : parse_int (int_repr z) = z.
Proof.
  unfold int_repr, parse_int.
  destruct (digits_of_spec (Z.abs_N z)) as (H1 & H2 & d & rest & H3 & H4 & H5).
  destruct (Z.ltb_spec z 0).
  - rewrite N.eqb_refl, H1. lia.
  - rewrite H3. rewrite H3 in H1, H2. cbn [forallb] in H2.
    apply andb_true_iff in H2 as [Hd _].
    destruct (d =? MINUS) eqn:E.
    + apply N.eqb_eq in E. subst d. done.
    + rewrite H1. lia.
Qed.

(** ** The number token *)


Lemma span_app_stop p (u v : str) :
  match v with [] => true | c :: _ => negb (p c) end = true ->
  span p (u ++ v) = span p u.
Proof.
  intros Hv. induction u as [|x u IH]; simpl.
  - destruct v as [|c v]; [done|]. simpl. by apply negb_true_iff in Hv as ->.
  - by rewrite IH.
Qed.

Lemma ends_number_digit rest :
  ends_number rest = true ->
  match rest with [] => true | c :: _ => negb (is_digit c) end = true.
Proof.
  destruct rest as [|c r]; [done|]. simpl.
  by intros [[? _]%andb_true_iff _]%andb_true_iff.
Qed.

Lemma take_span_app p (u v : str) :
  span p (u ++ v) = span p u ->
  take (span p (u ++ v)) (u ++ v) = take (span p u) u
  /\ drop (span p (u ++ v)) (u ++ v) = drop (span p u) u ++ v.
Proof.
  intros ->. pose proof (span_le p u).
  split; [by rewrite take_app_le|by rewrite drop_app_le].
Qed.

Lemma scan_integer_app s rest i s1 :
  ends_number rest = true ->
  scan_integer s = Some (i, s1) ->
  scan_integer (s ++ rest) = Some (i, s1 ++ rest).
Proof.
  intros Hr. pose proof (ends_number_digit _ Hr) as Hd. unfold scan_integer.
  assert (forall sign s0,
    match s0 with
    | c :: s2 =>
        if c =? ZERO then Some (sign ++ [c], s2)
        else if is_digit c
             then Some (sign ++ c :: take (span is_digit s2) s2, drop (span is_digit s2) s2)
             else None
    | [] => None
    end = Some (i, s1) ->
    match s0 ++ rest with
    | c :: s2 =>
        if c =? ZERO then Some (sign ++ [c], s2)
        else if is_digit c
             then Some (sign ++ c :: take (span is_digit s2) s2, drop (span is_digit s2) s2)
             else None
    | [] => None
    end = Some (i, s1 ++ rest)) as Hgo.
  { intros sign [|c s2]; [done|]. rewrite <- app_comm_cons.
    destruct (c =? ZERO); [by intros [= <- <-]|].
    destruct (is_digit c); [|done]. intros [= <- <-].
    destruct (take_span_app is_digit s2 rest (span_app_stop _ _ _ Hd)) as [-> ->]. done. }
  destruct s as [|c s]; [done|]. rewrite <- app_comm_cons.
  destruct (c =? MINUS); [apply Hgo|]. apply (Hgo [] (c :: s)).
Qed.

Lemma scan_frac_app s rest fr s2 :
  ends_number rest = true ->
  scan_frac s = (fr, s2) ->
  scan_frac (s ++ rest) = (fr, s2 ++ rest).
Proof.
  intros Hr. pose proof (ends_number_digit _ Hr) as Hd. unfold scan_frac.
  destruct s as [|c s].
  - intros [= <- <-]. destruct rest as [|c r]; [done|]. simpl in *.
    apply andb_true_iff in Hr as [[_ Hdot%negb_true_iff]%andb_true_iff _].
    by rewrite Hdot.
  - rewrite <- app_comm_cons.
    destruct (take_span_app is_digit s rest (span_app_stop _ _ _ Hd)) as [E1 E2].
    rewrite (span_app_stop _ _ _ Hd) in *.
    destruct (_ && _); [|by intros [= <- <-]].
    intros [= <- <-]. by rewrite E1, E2.
Qed.

Lemma scan_exp_app s rest ex :
  ends_number rest = true ->
  scan_exp s = (ex, []) ->
  scan_exp (s ++ rest) = (ex, rest).
Proof.
  intros Hr. pose proof (ends_number_digit _ Hr) as Hd. unfold scan_exp.
  destruct s as [|c s].
  - intros [= <-]. destruct rest as [|c r]; [done|]. simpl in *.
    apply andb_true_iff in Hr as [_ He%negb_true_iff]. by rewrite He.
  - rewrite <- app_comm_cons. destruct (mem c (str_of "eE")); [|done].
    assert (forall sign s2,
      (if (1 <=? span is_digit s2)%nat
       then (c :: sign ++ take (span is_digit s2) s2, drop (span is_digit s2) s2)
       else ([], c :: s)) = (ex, []) ->
      (if (1 <=? span is_digit (s2 ++ rest))%nat
       then (c :: sign ++ take (span is_digit (s2 ++ rest)) (s2 ++ rest),
             drop (span is_digit (s2 ++ rest)) (s2 ++ rest))
       else ([], c :: s ++ rest)) = (ex, rest)) as Hgo.
    { intros sign s2.
      destruct (take_span_app is_digit s2 rest (span_app_stop _ _ _ Hd)) as [E1 E2].
      rewrite (span_app_stop _ _ _ Hd) in *.
      destruct (1 <=? _)%nat; [|done].
      intros [= <- E]. by rewrite E1, E2, E. }
    destruct s as [|d s]; [done|].
    rewrite <- app_comm_cons.
    destruct (mem d (str_of "-+")); [apply Hgo|]. apply (Hgo [] (d :: s)).
Qed.

Lemma match_number_app s rest i fr ex :
  ends_number rest = true ->
  match_number s = Some (i, fr, ex, []) ->
  match_number (s ++ rest) = Some (i, fr, ex, rest).
Proof.
  intros Hr. unfold match_number.
  destruct (scan_integer s) as [[i' s1]|] eqn:E1; [|done].
  rewrite (scan_integer_app _ _ _ _ Hr E1).
  destruct (scan_frac s1) as [fr' s2] eqn:E2.
  rewrite (scan_frac_app _ _ _ _ Hr E2).
  destruct (scan_exp s2) as [ex' s3] eqn:E3.
  intros [= <- <- <- ->].
  by rewrite (scan_exp_app _ _ _ Hr E3).
Qed.

Lemma scan_integer_concat s i s1 : scan_integer s = Some (i, s1) -> s = i ++ s1.
Proof.
  unfold scan_integer.
  assert (forall sign s0,
    match s0 with
    | c :: s2 =>
        if c =? ZERO then Some (sign ++ [c], s2)
        else if is_digit c
             then Some (sign ++ c :: take (span is_digit s2) s2, drop (span is_digit s2) s2)
             else None
    | [] => None
    end = Some (i, s1) -> sign ++ s0 = i ++ s1) as Hgo.
  { intros sign [|c s2]; [done|].
    destruct (c =? ZERO); [intros [= <- <-]; by rewrite <- app_assoc|].
    destruct (is_digit c); [|done]. intros [= <- <-].
    rewrite <- app_assoc. cbn [app]. by rewrite take_drop. }
  destruct s as [|c s]; [done|].
  destruct (c =? MINUS) eqn:E; [|apply (Hgo [] (c :: s))].
  apply N.eqb_eq in E as ->. apply (Hgo [MINUS] s).
Qed.

Lemma scan_frac_concat s fr s2 : scan_frac s = (fr, s2) -> s = fr ++ s2.
Proof.
  unfold scan_frac. destruct s as [|c s]; [by intros [= <- <-]|].
  destruct (_ && _); intros [= <- <-]; [|done]. cbn [app]. by rewrite take_drop.
Qed.

Lemma scan_exp_concat s ex s3 : scan_exp s = (ex, s3) -> s = ex ++ s3.
Proof.
  unfold scan_exp. destruct s as [|c s]; [by intros [= <- <-]|].
  destruct (mem c _); [|by intros [= <- <-]].
  destruct s as [|d s].
  - by intros [= <- <-].
  - destruct (mem d _).
    + destruct (1 <=? _)%nat; intros [= <- <-]; [|done]. cbn [app]. by rewrite take_drop.
    + destruct (1 <=? _)%nat; intros [= <- <-]; [|done]. cbn [app]. by rewrite take_drop.
Qed.

Lemma match_number_concat s i fr ex rest :
  match_number s = Some (i, fr, ex, rest) -> s = i ++ fr ++ ex ++ rest.
Proof.
  unfold match_number.
  destruct (scan_integer s) as [[i' s1]|] eqn:E1; [|done].
  destruct (scan_frac s1) as [fr' s2] eqn:E2.
  destruct (scan_exp s2) as [ex' s3] eqn:E3.
  intros [= <- <- <- <-].
  apply scan_integer_concat in E1. apply scan_frac_concat in E2.
  apply scan_exp_concat in E3. by subst.
Qed.

(** The decimal text of an integer is one integer token. *)
Lemma match_number_int_repr z : match_number (int_repr z) = Some (int_repr z, [], [], []).
Proof.
  unfold int_repr.
  destruct (digits_of_spec (Z.abs_N z)) as (_ & H2 & d & ds & H3 & H4 & H5).
  rewrite H3 in *. cbn [forallb] in H2. apply andb_true_iff in H2 as [Hd Hds].
  assert (span is_digit ds = length ds) as Hspan.
  { clear -Hds. induction ds as [|x ds IH]; [done|]. cbn [forallb] in Hds.
    apply andb_true_iff in Hds as [Hx Hds]. rewrite span_cons, Hx. by rewrite IH. }
  assert (forall sign,
    match d :: ds with
    | c :: s2 =>
        if c =? ZERO then Some (sign ++ [c], s2)
        else if is_digit c
             then Some (sign ++ c :: take (span is_digit s2) s2, drop (span is_digit s2) s2)
             else None
    | [] => None
    end = Some (sign ++ d :: ds, [])) as Hgo.
  { intros sign. destruct (d =? ZERO) eqn:E.
    - apply N.eqb_eq in E. rewrite (H5 (proj1 H4 E)). done.
    - rewrite Hd, Hspan, firstn_all, drop_all. done. }
  unfold match_number, scan_integer.
  destruct (Z.ltb_spec z 0).
  - rewrite N.eqb_refl. by rewrite (Hgo [MINUS]).
  - destruct (d =? MINUS) eqn:E.
    + apply N.eqb_eq in E. by subst d.
    + by rewrite (Hgo []).
Qed.

(** ** String literals: what the encoder writes, the scanner reads back *)


Lemma lor_disjoint a b : b < 1024 -> N.lor (a * 1024) b = a * 1024 + b.
Proof.
  intros Hb. rewrite N.add_nocarry_lxor, N.lxor_lor; [done| |];
    (apply N.bits_inj; intros m; rewrite N.land_spec, N.bits_0;
     change 1024 with (2 ^ 10);
     destruct (N.ltb_spec m 10);
     [by rewrite N.mul_pow2_bits_low|];
     destruct (decide (b = 0)) as [->|Hne];
     [by rewrite N.bits_0, andb_false_r|];
     rewrite (N.bits_above_log2 b m), andb_false_r; [done|];
     assert (N.log2 b < 10) by (apply N.log2_lt_pow2; [lia|done]); lia).
Qed.

Lemma hex_val_digit x : x < 16 -> hex_val (hex_digit x) = Some x.
Proof.
  intros H. rewrite <- (N2Nat.id x).
  assert (N.to_nat x < 16)%nat as Hn by lia. revert Hn.
  generalize (N.to_nat x). intros n Hn.
  do 16 (destruct n as [|n]; [reflexivity|]). lia.
Qed.

Lemma hex4_u_escape n :
  n < 65536 ->
  hex4 (hex_digit (n / 4096 mod 16)) (hex_digit (n / 256 mod 16))
       (hex_digit (n / 16 mod 16)) (hex_digit (n mod 16)) = Some n.
Proof.
  intros H. unfold hex4.
  rewrite !hex_val_digit by (apply N.mod_lt; lia).
  f_equal.
  pose proof (N.Div0.div_mod n 16) as H1.
  pose proof (N.Div0.div_mod (n / 16) 16) as H2.
  pose proof (N.Div0.div_mod (n / 16 / 16) 16) as H3.
  rewrite !N.Div0.div_div in *. change (16 * 16) with 256 in *.
  change (256 * 16) with 4096 in *.
  assert (n / 4096 < 16) as H4 by (apply N.Div0.div_lt_upper_bound; lia).
  rewrite (N.mod_small (n / 4096)) by done.
  revert H1 H2 H3.
  generalize (n mod 16), (n / 16 mod 16), (n / 256 mod 16), (n / 16), (n / 256), (n / 4096).
  intros; lia.
Qed.

(** The surrogates the encoder writes for a character beyond U+FFFF. *)
Lemma surrogates_of c :
  65536 <= c -> c < 1114112 ->
  let n := c - 65536 in
  let hi := N.lor 55296 (N.land (N.shiftr n 10) 1023) in
  let lo := N.lor 56320 (N.land n 1023) in
  hi < 65536 /\ lo < 65536
  /\ is_high_surrogate hi = true /\ is_low_surrogate lo = true
  /\ join_surrogates hi lo = c.
Proof.
  intros H1 H2 n hi lo.
  assert (n / 1024 < 1024) as Hq by (apply N.Div0.div_lt_upper_bound; lia).
  assert (n mod 1024 < 1024) as Hr by (apply N.mod_lt; lia).
  assert (hi = 55296 + n / 1024) as Ehi.
  { unfold hi. rewrite N.shiftr_div_pow2. change (2 ^ 10) with 1024.
    change 1023 with (N.ones 10). rewrite N.land_ones. change (2 ^ 10) with 1024.
    rewrite (N.mod_small _ _ Hq). change 55296 with (54 * 1024).
    by apply lor_disjoint. }
  assert (lo = 56320 + n mod 1024) as Elo.
  { unfold lo. change 1023 with (N.ones 10). rewrite N.land_ones.
    change (2 ^ 10) with 1024. change 56320 with (55 * 1024).
    by apply lor_disjoint. }
  pose proof (N.Div0.div_mod n 1024) as Hd.
  unfold is_high_surrogate, is_low_surrogate, join_surrogates.
  rewrite Ehi, Elo.
  replace (55296 + n / 1024 - 55296) with (n / 1024) by lia.
  replace (56320 + n mod 1024 - 56320) with (n mod 1024)
    by (generalize (n mod 1024); intros; lia).
  rewrite N.shiftl_mul_pow2. change (2 ^ 10) with 1024.
  rewrite lor_disjoint by done.
  revert Hq Hr Hd. generalize (n / 1024), (n mod 1024). intros q r Hq Hr Hd.
  repeat split; try lia.
  - apply andb_true_iff. split; apply N.leb_le; lia.
  - apply andb_true_iff. split; apply N.leb_le; lia.
Qed.

Lemma scanstring_cons c (s1 : str) :
  scanstring (c :: s1) =
  if c =? DQUOTE then Some ([], s1)
  else if c =? BSLASH then
    match s1 with
    | [] => None
    | esc :: s2 =>
        if esc =? LOWER_U then
          match s2 with
          | h1 :: h2 :: h3 :: h4 :: s3 =>
              match hex4 h1 h2 h3 h4 with
              | None => None
              | Some uni =>
                  if is_high_surrogate uni then
                    match s3 with
                    | b :: u :: s4 =>
                        if (b =? BSLASH) && (u =? LOWER_U) then
                          match s4 with
                          | k1 :: k2 :: k3 :: k4 :: s5 =>
                              match hex4 k1 k2 k3 k4 with
                              | None => None
                              | Some uni2 =>
                                  if is_low_surrogate uni2
                                  then push_char (join_surrogates uni uni2) (scanstring s5)
                                  else push_char uni (scanstring s3)
                              end
                          | _ => None
                          end
                        else push_char uni (scanstring s3)
                    | _ => push_char uni (scanstring s3)
                    end
                  else push_char uni (scanstring s3)
              end
          | _ => None
          end
        else
          match backslash_table esc with
          | Some ch => push_char ch (scanstring s2)
          | None => None
          end
    end
  else if c <? 32 then None
  else push_char c (scanstring s1).
Proof. reflexivity. Qed.


Lemma scanstring_u_escape n (s3 : str) :
  n < 65536 ->
  is_high_surrogate n = false \/ no_low_escape s3 = true ->
  scanstring (u_escape n ++ s3) = push_char n (scanstring s3).
Proof.
  intros Hn Hs. unfold u_escape. cbn [app]. rewrite scanstring_cons.
  change (BSLASH =? DQUOTE) with false. change (BSLASH =? BSLASH) with true.
  change (LOWER_U =? LOWER_U) with true. cbv iota.
  rewrite (hex4_u_escape n Hn).
  destruct (is_high_surrogate n) eqn:Eh; [|done].
  destruct Hs as [Hs|Hs]; [done|].
  unfold no_low_escape in Hs.
  destruct s3 as [|b [|u s4]]; try done.
  destruct ((b =? BSLASH) && (u =? LOWER_U)); [|done].
  destruct s4 as [|k1 [|k2 [|k3 [|k4 s5]]]]; try done.
  destruct (hex4 k1 k2 k3 k4) as [uni2|]; [|done].
  by apply negb_true_iff in Hs as ->.
Qed.

(** The first character of an escaped string, seen from a high surrogate
    before it. *)
Lemma no_low_escape_char c (tail : str) :
  in_range c = true -> is_low_surrogate c = false ->
  no_low_escape (escape_char c ++ tail) = true.
Proof.
  intros Hc Hlow. unfold in_range in Hc. apply N.ltb_lt in Hc.
  unfold escape_char.
  destruct (c =? DQUOTE); [reflexivity|].
  destruct (c =? BSLASH) eqn:E2; [reflexivity|].
  destruct ((32 <=? c) && (c <=? 126)).
  { unfold no_low_escape. cbn [app]. rewrite E2. by destruct tail. }
  destruct (c =? 8); [reflexivity|].
  destruct (c =? 12); [reflexivity|].
  destruct (c =? LF); [reflexivity|].
  destruct (c =? CR); [reflexivity|].
  destruct (c =? TAB); [reflexivity|].
  destruct (N.ltb_spec c 65536) as [Hlt|Hge].
  - (* one \uXXXX *)
    unfold no_low_escape, u_escape. cbn [app].
    change (BSLASH =? BSLASH) with true. change (LOWER_U =? LOWER_U) with true.
    cbv iota. cbn [andb]. cbv iota.
    rewrite (hex4_u_escape c Hlt). by rewrite Hlow.
  - (* a surrogate pair: the first half is a high surrogate *)
    destruct (surrogates_of c Hge Hc) as (H1 & H2 & H3 & H4 & H5).
    unfold no_low_escape, u_escape. cbn [app].
    change (BSLASH =? BSLASH) with true. change (LOWER_U =? LOWER_U) with true.
    cbv iota. cbn [andb]. cbv iota.
    rewrite (hex4_u_escape _ H1).
    unfold is_high_surrogate, is_low_surrogate in *.
    apply andb_true_iff in H3 as [_ H3]. apply N.leb_le in H3.
    apply negb_true_iff, andb_false_iff. left. apply N.leb_gt. lia.
Qed.

Lemma no_low_escape_quote (rest : str) : no_low_escape (DQUOTE :: rest) = true.
Proof. unfold no_low_escape. by destruct rest. Qed.

Lemma scanstring_escape_char c (tail : str) :
  in_range c = true ->
  is_high_surrogate c = false \/ no_low_escape tail = true ->
  scanstring (escape_char c ++ tail) = push_char c (scanstring tail).
Proof.
  intros Hc Hs. unfold in_range in Hc. apply N.ltb_lt in Hc.
  unfold escape_char.
  destruct (c =? DQUOTE) eqn:E1; [by apply N.eqb_eq in E1 as ->|].
  destruct (c =? BSLASH) eqn:E2; [by apply N.eqb_eq in E2 as ->|].
  destruct ((32 <=? c) && (c <=? 126)) eqn:E3.
  { cbn [app]. rewrite scanstring_cons, E1, E2.
    apply andb_true_iff in E3 as [E3 _]. apply N.leb_le in E3.
    by destruct (N.ltb_spec c 32); [lia|]. }
  destruct (c =? 8) eqn:E4; [by apply N.eqb_eq in E4 as ->|].
  destruct (c =? 12) eqn:E5; [by apply N.eqb_eq in E5 as ->|].
  destruct (c =? LF) eqn:E6; [by apply N.eqb_eq in E6 as ->|].
  destruct (c =? CR) eqn:E7; [by apply N.eqb_eq in E7 as ->|].
  destruct (c =? TAB) eqn:E8; [by apply N.eqb_eq in E8 as ->|].
  destruct (N.ltb_spec c 65536) as [Hlt|Hge]; [by apply scanstring_u_escape|].
  (* a surrogate pair: the two halves are joined *)
  destruct (surrogates_of c Hge Hc) as (H1 & H2 & H3 & H4 & H5).
  rewrite <- app_assoc. unfold u_escape at 1. cbn [app]. rewrite scanstring_cons.
  change (BSLASH =? DQUOTE) with false. change (BSLASH =? BSLASH) with true.
  change (LOWER_U =? LOWER_U) with true. cbv iota.
  rewrite (hex4_u_escape _ H1), H3.
  unfold u_escape. cbn [app].
  change (BSLASH =? BSLASH) with true. change (LOWER_U =? LOWER_U) with true.
  cbn [andb]. cbv iota.
  rewrite (hex4_u_escape _ H2), H4. by rewrite H5.
Qed.

Lemma str_ok_cons c (s : str) :
  str_ok (c :: s) = true ->
  in_range c = true
  /\ (is_high_surrogate c = false \/
      match s with d :: _ => is_low_surrogate d = false | [] => True end)
  /\ str_ok s = true.
Proof.
  unfold str_ok. cbn [forallb]. rewrite adjacent_cons.
  intros [[Hc Hs]%andb_true_iff [Hp Ha]%andb_true_iff]%andb_true_iff.
  split; [done|]. split; [|by rewrite Hs, Ha].
  destruct s as [|d s]; [by right|].
  apply negb_true_iff, andb_false_iff in Hp. destruct Hp; auto.
Qed.

(** The string literal the encoder writes is read back as the string. *)
Lemma scanstring_encode (s rest : str) :
  str_ok s = true ->
  scanstring (flat_map escape_char s ++ DQUOTE :: rest) = Some (s, rest).
Proof.
  induction s as [|c s IH]; intros Hok.
  - cbn [flat_map app]. by rewrite scanstring_cons.
  - apply str_ok_cons in Hok as (Hc & Hp & Hs).
    cbn [flat_map]. rewrite <- app_assoc.
    rewrite scanstring_escape_char; [by rewrite IH| done |].
    destruct Hp as [Hp|Hp]; [by left|right].
    destruct s as [|d s]; [apply no_low_escape_quote|].
    cbn [flat_map]. rewrite <- app_assoc.
    apply str_ok_cons in Hs as (Hd & _ & _). by apply no_low_escape_char.
Qed.

(** ** Values that the serializer writes and the parser reads back *)


Lemma json_induction (P : json -> Prop) :
  P JNull -> (forall b, P (JBool b)) -> (forall z, P (JInt z)) ->
  (forall f, P (JFloat f)) -> (forall s, P (JStr s)) ->
  (forall l, Forall P l -> P (JList l)) ->
  (forall d, Forall (fun kv => P (snd kv)) d -> P (JDict d)) ->
  forall v, P v.
Proof.
  intros Hn Hb Hi Hf Hs Hl Hd.
  fix IH 1. intros [|b|z|f|s|l|d];
    [apply Hn|apply Hb|apply Hi|apply Hf|apply Hs| |].
  - apply Hl. induction l as [|x l IHl]; constructor; [apply IH|apply IHl].
  - apply Hd. induction d as [|[k x] d IHd]; constructor; [apply IH|apply IHd].
Qed.

Lemma starts_with_app (p rest : str) : starts_with p (p ++ rest) = true.
Proof.
  unfold starts_with, str_eqb. apply bool_decide_eq_true.
  by rewrite take_app_length.
Qed.

Lemma starts_with_head a (p : str) c (s : str) :
  a <> c -> starts_with (a :: p) (c :: s) = false.
Proof.
  intros H. unfold starts_with, str_eqb. apply bool_decide_eq_false.
  cbn [length take]. congruence.
Qed.

Lemma starts_with_nil a (p : str) : starts_with (a :: p) [] = false.
Proof. unfold starts_with, str_eqb. by apply bool_decide_eq_false. Qed.

Lemma is_digit_range c : is_digit c = true -> 48 <= c <= 57.
Proof.
  unfold is_digit. intros [H1 H2]%andb_true_iff.
  apply N.leb_le in H1, H2. lia.
Qed.

Lemma match_number_head s r :
  match_number s = Some r ->
  exists c s', s = c :: s' /\ (c = MINUS \/ is_digit c = true).
Proof.
  unfold match_number. destruct (scan_integer s) as [[i s1]|] eqn:E; [|done].
  intros _. unfold scan_integer in E. destruct s as [|c s']; [done|].
  exists c, s'. split; [done|].
  destruct (N.eqb_spec c MINUS) as [->|Hc]; [by left|right].
  destruct (N.eqb_spec c ZERO) as [->|Hz]; [done|].
  by destruct (is_digit c).
Qed.

Lemma value_head_not_ws c : value_head c = true -> json_ws c = false.
Proof.
  intros H. unfold json_ws, mem. cbn [existsb].
  destruct (N.eqb_spec c SP) as [->|_]; [by vm_compute in H|].
  destruct (N.eqb_spec c TAB) as [->|_]; [by vm_compute in H|].
  destruct (N.eqb_spec c LF) as [->|_]; [by vm_compute in H|].
  destruct (N.eqb_spec c CR) as [->|_]; [by vm_compute in H|].
  done.
Qed.

Lemma skip_ws_head c (s : str) : json_ws c = false -> skip_ws (c :: s) = c :: s.
Proof. intros H. unfold skip_ws. cbn [span]. by rewrite H. Qed.

Section ValueFacts.

Variable float_of_literal : str -> spec_float.
Variable float_repr : spec_float -> str.

Abbreviation float_ok' := (float_ok float_of_literal float_repr).
Abbreviation value_ok' := (value_ok float_of_literal float_repr).
Abbreviation scan_atom' := (scan_atom float_of_literal).
Abbreviation scan_once' := (scan_once float_of_literal).
Abbreviation array_loop' := (array_loop float_of_literal).
Abbreviation object_loop' := (object_loop float_of_literal).
Abbreviation loads' := (loads float_of_literal).
Abbreviation floatstr' := (floatstr float_repr).
Abbreviation dumps' := (dumps float_repr).
Abbreviation reads_back' := (reads_back float_of_literal float_repr).

Lemma float_ok_finite f :
  float_ok' f = true ->
  f = S754_nan \/ (exists b, f = S754_infinity b) \/
  exists i fr ex,
    floatstr' f = float_repr f
    /\ match_number (float_repr f) = Some (i, fr, ex, [])
    /\ (fr <> [] \/ ex <> [])
    /\ float_of_literal (float_repr f) = f.
Proof.
  intros H. unfold float_ok in H.
  destruct f as [s| b| |s m e]; eauto; right; right.
  all: destruct (match_number _) as [[[[i fr] ex] [|]]|]; try done.
  all: apply andb_true_iff in H as [H1 H2%bool_decide_eq_true].
  all: exists i, fr, ex; split_and!; try done.
  all: apply negb_true_iff, andb_false_iff in H1.
  all: unfold str_eqb in H1.
  all: destruct H1 as [H1%bool_decide_eq_false|H1%bool_decide_eq_false]; auto.
Qed.

Lemma int_repr_head z : exists c s', int_repr z = c :: s' /\ (c = MINUS \/ is_digit c = true).
Proof. apply (match_number_head _ _ (match_number_int_repr z)). Qed.

Lemma floatstr_head f :
  float_ok' f = true -> exists c s', floatstr' f = c :: s' /\ value_head c = true.
Proof.
  intros H. unfold float_ok in H.
  destruct f as [s|[|]| |s m e]; try by (eexists _, _; split; [reflexivity|]).
  all: cbn [floatstr].
  all: destruct (match_number _) as [r|] eqn:E; [|done].
  all: destruct (match_number_head _ _ E) as (c & s' & -> & Hc).
  all: exists c, s'; split; [done|]; unfold value_head.
  all: destruct Hc as [-> | ->]; [done|by rewrite orb_true_r].
Qed.

Lemma dumps_head v :
  value_ok' v = true -> exists c s', dumps' v = c :: s' /\ value_head c = true.
Proof.
  destruct v as [|[|]|z|f|s|[|x l]|[|kv d]]; intros H;
    try by (eexists _, _; split; [reflexivity|]).
  - destruct (int_repr_head z) as (c & s' & E & Hc).
    exists c, s'. split; [done|]. unfold value_head.
    destruct Hc as [-> | ->]; [done|by rewrite orb_true_r].
  - by apply floatstr_head.
Qed.

(** *** Atoms *)

Lemma scan_once_atom fuel (s : str) c (s' : str) :
  s = c :: s' ->
  (c =? DQUOTE) = false -> (c =? LBRACE) = false -> (c =? LBRACKET) = false ->
  scan_once' (S fuel) s = scan_atom' s.
Proof. intros -> H1 H2 H3. cbn [scan_once]. by rewrite H1, H2, H3. Qed.

Lemma digit_head_not c :
  c = MINUS \/ is_digit c = true ->
  (c =? DQUOTE) = false /\ (c =? LBRACE) = false /\ (c =? LBRACKET) = false
  /\ c <> 110 /\ c <> 116 /\ c <> 102.
Proof.
  intros [->|H%is_digit_range]; [done|].
  rewrite !N.eqb_neq. unfold DQUOTE, LBRACE, LBRACKET. lia.
Qed.

Lemma scan_atom_number (s rest : str) i fr ex :
  match_number s = Some (i, fr, ex, []) ->
  ends_number rest = true ->
  scan_atom' (s ++ rest) =
  Some (match fr, ex with
        | [], [] => JInt (parse_int i)
        | _, _ => JFloat (float_of_literal (i ++ fr ++ ex))
        end, rest).
Proof.
  intros Hm Hr. destruct (match_number_head _ _ Hm) as (c & s' & -> & Hc).
  apply digit_head_not in Hc as (_ & _ & _ & Hn & Ht & Hf).
  unfold scan_atom. cbn [app str_of].
  rewrite !starts_with_head by done.
  change (c :: s' ++ rest) with ((c :: s') ++ rest).
  rewrite (match_number_app _ _ _ _ _ Hr Hm).
  by destruct fr, ex.
Qed.

Lemma scan_atom_int z (rest : str) :
  ends_number rest = true -> scan_atom' (int_repr z ++ rest) = Some (JInt z, rest).
Proof.
  intros Hr. rewrite (scan_atom_number _ _ _ _ _ (match_number_int_repr z) Hr).
  by rewrite parse_int_repr.
Qed.

Lemma scan_atom_float f (rest : str) :
  float_ok' f = true -> ends_number rest = true ->
  scan_atom' (floatstr' f ++ rest) = Some (JFloat f, rest).
Proof.
  intros Hf Hr.
  destruct (float_ok_finite _ Hf) as [->|[[[|] ->]|(i & fr & ex & -> & Hm & Hne & Hfl)]];
    try reflexivity.
  all: rewrite (scan_atom_number _ _ _ _ _ Hm Hr).
  all: pose proof (match_number_concat _ _ _ _ _ Hm) as Hc; rewrite app_nil_r in Hc.
  all: rewrite <- Hc, Hfl.
  all: destruct fr, ex; try done; by destruct Hne.
Qed.

(** *** Arrays and objects *)

Lemma join_with_cons (sep x : str) (l : list str) :
  join_with sep (x :: l) = x ++ flat_map (fun y => sep ++ y) l.
Proof.
  revert x. induction l as [|y l IH]; intros x.
  - cbn [join_with flat_map]. by rewrite app_nil_r.
  - change (join_with sep (x :: y :: l)) with (x ++ sep ++ join_with sep (y :: l)).
    rewrite IH. cbn [flat_map]. by rewrite <- !app_assoc.
Qed.

Lemma dict_set_fresh (d : list (str * json)) k v :
  k ∉ map fst d -> dict_set d k v = d ++ [(k, v)].
Proof.
  induction d as [|[k' v'] d IH]; intros Hk; [done|].
  cbn [dict_set map fst] in *. apply not_elem_of_cons in Hk as [Hne Hk].
  unfold str_eqb. rewrite bool_decide_eq_false_2 by done.
  by rewrite IH.
Qed.

Lemma dict_of_pairs_nodup (d : list (str * json)) :
  NoDup (map fst d) -> dict_of_pairs d = d.
Proof.
  unfold dict_of_pairs.
  assert (forall acc : list (str * json), NoDup (map fst (acc ++ d)) ->
            fold_left (fun d0 kv => dict_set d0 (fst kv) (snd kv)) d acc = acc ++ d) as H.
  { induction d as [|[k v] d IH]; intros acc Hnd; [by rewrite app_nil_r|].
    cbn [fold_left fst snd]. rewrite dict_set_fresh.
    - rewrite IH; rewrite <- app_assoc; [done|]. exact Hnd.
    - rewrite map_app in Hnd. apply NoDup_app in Hnd as (_ & Hd & _).
      intros Hin. apply (Hd k Hin). cbn [map fst]. left. }
  intros Hnd. by rewrite (H [] Hnd).
Qed.


Lemma skip_ws_dumps v (rest : str) :
  value_ok' v = true -> skip_ws (dumps' v ++ rest) = dumps' v ++ rest.
Proof.
  intros H. destruct (dumps_head _ H) as (c & s' & -> & Hc).
  by apply skip_ws_head, value_head_not_ws.
Qed.

Lemma array_loop_dumps (l : list json) : forall x,
  Forall reads_back' (x :: l) -> forallb value_ok' (x :: l) = true ->
  forall fuel (rest : str),
    (length (dumps' x ++ flat_map (fun y => COMMA :: y) (map dumps' l)) + 1 <= fuel)%nat ->
    array_loop' fuel
      ((dumps' x ++ flat_map (fun y => COMMA :: y) (map dumps' l)) ++ RBRACKET :: rest)
    = Some (x :: l, rest).
Proof.
  induction l as [|y l IH]; intros x Hrb Hok fuel rest Hfuel.
  - cbn [map flat_map] in *. rewrite app_nil_r in *.
    destruct fuel as [|fuel]; [lia|]. cbn [array_loop].
    apply Forall_cons in Hrb as [Hx _]. rewrite Hx; [|lia|done]. done.
  - apply Forall_cons in Hrb as [Hx Hrb].
    cbn [forallb] in Hok. apply andb_true_iff in Hok as [Hokx Hok].
    cbn [map flat_map app] in *. rewrite <- app_assoc. cbn [app].
    rewrite length_app in Hfuel. cbn [length] in Hfuel. rewrite length_app in Hfuel.
    destruct fuel as [|fuel]; [lia|]. cbn [array_loop].
    rewrite Hx; [|lia|done].
    rewrite skip_ws_head by done.
    change (COMMA =? RBRACKET) with false. change (COMMA =? COMMA) with true. cbv iota.
    rewrite <- app_assoc.
    rewrite skip_ws_dumps by (cbn [forallb] in Hok; by apply andb_true_iff in Hok as [? _]).
    rewrite app_assoc.
    rewrite (IH y Hrb Hok); [done|]. rewrite length_app. lia.
Qed.

Abbreviation members_tail :=
  (flat_map (fun y => COMMA :: y)).

Lemma object_loop_dumps (d : list (str * json)) : forall k v,
  Forall (fun kv => reads_back' (snd kv)) ((k, v) :: d) ->
  forallb (fun kv : str * json => str_ok (fst kv) && value_ok' (snd kv)) ((k, v) :: d) = true ->
  forall fuel (rest : str),
    (3 + length (flat_map escape_char k) + length (dumps' v)
     + length (members_tail
         (map (fun kv : str * json =>
                 encode_basestring_ascii (fst kv) ++ COLON :: dumps' (snd kv)) d))
     <= fuel)%nat ->
    object_loop' fuel
      (flat_map escape_char k ++ DQUOTE :: COLON :: dumps' v
       ++ members_tail
            (map (fun kv : str * json =>
                    encode_basestring_ascii (fst kv) ++ COLON :: dumps' (snd kv)) d)
       ++ RBRACE :: rest)
    = Some ((k, v) :: d, rest).
Proof.
  induction d as [|[k' v'] d IH]; intros k v Hrb Hok fuel rest Hfuel.
  - cbn [map flat_map app] in *.
    apply Forall_cons in Hrb as [Hv _]. cbn [snd] in Hv.
    cbn [forallb fst snd] in Hok. rewrite andb_true_r in Hok.
    apply andb_true_iff in Hok as [Hk Hokv].
    destruct fuel as [|fuel]; [lia|]. cbn [object_loop].
    rewrite (scanstring_encode _ _ Hk).
    rewrite skip_ws_head by done. change (COLON =? COLON) with true. cbv iota.
    rewrite skip_ws_dumps by done.
    rewrite Hv; [|lia|done]. done.
  - apply Forall_cons in Hrb as [Hv Hrb]. cbn [snd] in Hv.
    cbn [forallb] in Hok. apply andb_true_iff in Hok as [Hokkv Hok].
    cbn [fst snd] in Hokkv. apply andb_true_iff in Hokkv as [Hk Hokv].
    cbn [map flat_map fst snd] in *.
    unfold encode_basestring_ascii at 1. unfold encode_basestring_ascii at 1 in Hfuel.
    rewrite <- !app_assoc. cbn [app].
    rewrite !length_app in Hfuel. cbn [length] in Hfuel.
    rewrite !length_app in Hfuel. cbn [length] in Hfuel.
    destruct fuel as [|fuel]; [lia|]. cbn [object_loop].
    rewrite (scanstring_encode _ _ Hk).
    rewrite skip_ws_head by done. change (COLON =? COLON) with true. cbv iota.
    rewrite skip_ws_dumps by done.
    rewrite Hv; [|lia|done].
    rewrite skip_ws_head by done.
    change (COMMA =? RBRACE) with false. change (COMMA =? COMMA) with true. cbv iota.
    rewrite skip_ws_head by done. change (DQUOTE =? DQUOTE) with true. cbv iota.
    repeat (rewrite <- app_assoc || rewrite <- app_comm_cons). cbn [app].
    rewrite length_app in Hfuel. cbn [length] in Hfuel.
    rewrite (IH k' v' Hrb Hok); [done|]. lia.
Qed.

(** *** Every value *)

Lemma join_comma (x : str) (l : list str) :
  join_with [COMMA] (x :: l) = x ++ flat_map (fun y => COMMA :: y) l.
Proof. apply join_with_cons. Qed.

Lemma dumps_list x (l : list json) :
  dumps' (JList (x :: l)) =
  LBRACKET :: (dumps' x ++ flat_map (fun y => COMMA :: y) (map dumps' l)) ++ [RBRACKET].
Proof.
  change (dumps' (JList (x :: l)))
    with ([LBRACKET] ++ join_with [COMMA] (map dumps' (x :: l)) ++ [RBRACKET]).
  cbn [map]. by rewrite join_comma.
Qed.

Lemma dumps_dict k v (d : list (str * json)) :
  dumps' (JDict ((k, v) :: d)) =
  LBRACE :: DQUOTE ::
    (flat_map escape_char k ++ DQUOTE :: COLON :: dumps' v
     ++ members_tail
          (map (fun kv : str * json =>
                  encode_basestring_ascii (fst kv) ++ COLON :: dumps' (snd kv)) d))
    ++ [RBRACE].
Proof.
  change (dumps' (JDict ((k, v) :: d)))
    with ([LBRACE]
          ++ join_with [COMMA]
               (map (fun kv : str * json =>
                       encode_basestring_ascii (fst kv) ++ [COLON] ++ dumps' (snd kv))
                  ((k, v) :: d))
          ++ [RBRACE]).
  cbn [map]. rewrite join_comma. cbn [fst snd]. unfold encode_basestring_ascii at 1.
  repeat (rewrite <- app_assoc || rewrite <- app_comm_cons). done.
Qed.

Lemma ends_number_close c (rest : str) :
  mem c [COMMA; RBRACKET; RBRACE] = true -> ends_number (c :: rest) = true.
Proof.
  unfold mem. cbn [existsb]. rewrite !orb_true_iff.
  intros [->%N.eqb_eq|[->%N.eqb_eq|[->%N.eqb_eq|?]]]; done.
Qed.

Lemma scan_atom_true (rest : str) :
  scan_atom' (str_of "true" ++ rest) = Some (JBool true, rest).
Proof.
  unfold scan_atom.
  assert (starts_with (str_of "null") (str_of "true" ++ rest) = false) as ->
    by (by apply (starts_with_head 110 _ 116)).
  by rewrite (starts_with_app (str_of "true")).
Qed.

Lemma scan_atom_false (rest : str) :
  scan_atom' (str_of "false" ++ rest) = Some (JBool false, rest).
Proof.
  unfold scan_atom.
  assert (starts_with (str_of "null") (str_of "false" ++ rest) = false) as ->
    by (by apply (starts_with_head 110 _ 102)).
  assert (starts_with (str_of "true") (str_of "false" ++ rest) = false) as ->
    by (by apply (starts_with_head 116 _ 102)).
  by rewrite (starts_with_app (str_of "false")).
Qed.

Lemma dumps_reads_back v : value_ok' v = true -> reads_back' v.
Proof.
  induction v as [|b|z|f|s|l IH|d IH] using json_induction;
    intros Hok fuel rest Hfuel Hrest.
  - destruct fuel as [|fuel]; [simpl in Hfuel; lia|].
    rewrite (scan_once_atom _ _ 110 (str_of "ull" ++ rest)) by done.
    unfold scan_atom. by rewrite (starts_with_app (str_of "null")).
  - destruct fuel as [|fuel]; [destruct b; simpl in Hfuel; lia|].
    destruct b.
    + rewrite (scan_once_atom _ _ 116 (str_of "rue" ++ rest)) by done.
      apply scan_atom_true.
    + rewrite (scan_once_atom _ _ 102 (str_of "alse" ++ rest)) by done.
      apply scan_atom_false.
  - cbn [dumps] in *.
    destruct (int_repr_head z) as (c & s' & E & Hc).
    apply digit_head_not in Hc as (H1 & H2 & H3 & _).
    destruct fuel as [|fuel]; [rewrite E in Hfuel; simpl in Hfuel; lia|].
    rewrite (scan_once_atom _ _ c (s' ++ rest)) by (by rewrite ?E).
    by apply scan_atom_int.
  - cbn [dumps value_ok] in *.
    assert (exists c s', floatstr' f = c :: s'
              /\ (c =? DQUOTE) = false /\ (c =? LBRACE) = false
              /\ (c =? LBRACKET) = false) as (c & s' & E & H1 & H2 & H3).
    { destruct (float_ok_finite _ Hok) as [->|[[[|] ->]|(i & fr & ex & Efs & Hm & _)]];
        try by (eexists _, _; split; [reflexivity|]).
      destruct (match_number_head _ _ Hm) as (c & s' & E & Hc).
      apply digit_head_not in Hc as (H1 & H2 & H3 & _).
      exists c, s'. by rewrite Efs. }
    destruct fuel as [|fuel]; [rewrite E in Hfuel; simpl in Hfuel; lia|].
    rewrite (scan_once_atom _ _ c (s' ++ rest)) by (by rewrite ?E).
    by apply scan_atom_float.
  - cbn [dumps value_ok] in *. unfold encode_basestring_ascii in *.
    destruct fuel as [|fuel]; [simpl in Hfuel; lia|].
    cbn [app scan_once]. change (DQUOTE =? DQUOTE) with true. cbv iota.
    rewrite <- app_assoc. cbn [app]. by rewrite scanstring_encode.
  - destruct l as [|x l].
    + destruct fuel as [|fuel]; [simpl in Hfuel; lia|]. done.
    + rewrite dumps_list in *. cbn [value_ok] in Hok.
      assert (Forall reads_back' (x :: l)) as Hrb.
      { clear -IH Hok. apply Forall_forall. intros y Hy.
        apply (proj1 (Forall_forall _ _) IH y Hy).
        by apply (proj1 (forallb_forall _ _) Hok), list_elem_of_In. }
      cbn [length] in Hfuel. rewrite length_app in Hfuel. cbn [length] in Hfuel.
      destruct fuel as [|fuel]; [lia|].
      cbn [app scan_once].
      change (LBRACKET =? DQUOTE) with false. change (LBRACKET =? LBRACE) with false.
      change (LBRACKET =? LBRACKET) with true. cbv iota.
      repeat (rewrite <- app_assoc || rewrite <- app_comm_cons). cbn [app].
      assert (value_ok' x = true) as Hx
        by (cbn [forallb] in Hok; by apply andb_true_iff in Hok as [? _]).
      destruct (dumps_head _ Hx) as (c & s' & E & Hc).
      rewrite skip_ws_dumps by done. rewrite E. cbn [app].
      assert ((c =? RBRACKET) = false) as ->.
      { apply N.eqb_neq. intros ->. done. }
      rewrite app_comm_cons, <- E, app_assoc.
      rewrite (array_loop_dumps l x Hrb Hok); [done|lia].
  - destruct d as [|[k v] d].
    + destruct fuel as [|fuel]; [simpl in Hfuel; lia|]. done.
    + rewrite dumps_dict in *. cbn [value_ok] in Hok.
      apply andb_true_iff in Hok as [Hok Hnd%bool_decide_eq_true].
      assert (Forall (fun kv : str * json => reads_back' (snd kv)) ((k, v) :: d)) as Hrb.
      { clear -IH Hok. apply Forall_forall. intros y Hy.
        apply (proj1 (Forall_forall _ _) IH y Hy).
        apply list_elem_of_In in Hy.
        by apply (proj1 (forallb_forall _ _) Hok), andb_true_iff in Hy as [_ ?]. }
      cbn [length] in Hfuel. rewrite !length_app in Hfuel. cbn [length] in Hfuel.
      rewrite !length_app in Hfuel.
      destruct fuel as [|fuel]; [lia|].
      cbn [app scan_once].
      change (LBRACE =? DQUOTE) with false. change (LBRACE =? LBRACE) with true.
      cbv iota. rewrite skip_ws_head by done.
      change (DQUOTE =? RBRACE) with false. change (DQUOTE =? DQUOTE) with true.
      cbv iota.
      repeat (rewrite <- app_assoc || rewrite <- app_comm_cons). cbn [app].
      rewrite (object_loop_dumps d k v Hrb Hok); [|lia].
      by rewrite dict_of_pairs_nodup.
Qed.

(** ** String literals: what the scanner reads from Unicode text *)


Lemma unicode_drop n : forall s : str,
  unicode_text s = true -> unicode_text (drop n s) = true.
Proof.
  induction n as [|n IH]; intros [|c s] H; try done.
  cbn [drop]. apply IH. unfold unicode_text in *. cbn [forallb] in H.
  by apply andb_true_iff in H as [_ ?].
Qed.

Lemma unicode_head c (s : str) :
  unicode_text (c :: s) = true -> in_range c = true /\ is_surrogate c = false.
Proof.
  unfold unicode_text. cbn [forallb].
  intros [[? ?%negb_true_iff]%andb_true_iff _]%andb_true_iff. done.
Qed.

Lemma surrogate_low c : is_surrogate c = false -> is_low_surrogate c = false.
Proof.
  unfold is_surrogate, is_low_surrogate. rewrite !andb_false_iff, !N.leb_gt. lia.
Qed.

Lemma surrogate_high c : is_surrogate c = false -> is_high_surrogate c = false.
Proof.
  unfold is_surrogate, is_high_surrogate. rewrite !andb_false_iff, !N.leb_gt. lia.
Qed.

Lemma hex_val_range c x : hex_val c = Some x -> x < 16.
Proof.
  unfold hex_val.
  destruct (is_digit c) eqn:E1.
  { apply is_digit_range in E1. intros [= <-]. lia. }
  destruct ((97 <=? c) && (c <=? 102)) eqn:E2.
  { apply andb_true_iff in E2 as [H1%N.leb_le H2%N.leb_le]. intros [= <-]. lia. }
  destruct ((65 <=? c) && (c <=? 70)) eqn:E3; [|discriminate].
  apply andb_true_iff in E3 as [H1%N.leb_le H2%N.leb_le]. intros [= <-]. lia.
Qed.

Lemma hex4_range a b c d u : hex4 a b c d = Some u -> u < 65536.
Proof.
  unfold hex4.
  destruct (hex_val a) as [x|] eqn:Ea; [|done].
  destruct (hex_val b) as [y|] eqn:Eb; [|done].
  destruct (hex_val c) as [z|] eqn:Ec; [|done].
  destruct (hex_val d) as [w|] eqn:Ed; [|done].
  apply hex_val_range in Ea, Eb, Ec, Ed. intros [= <-]. lia.
Qed.

Lemma join_surrogates_range hi lo :
  is_high_surrogate hi = true -> is_low_surrogate lo = true ->
  65536 <= join_surrogates hi lo < 1114112.
Proof.
  unfold is_high_surrogate, is_low_surrogate, join_surrogates.
  intros [H1%N.leb_le H2%N.leb_le]%andb_true_iff [H3%N.leb_le H4%N.leb_le]%andb_true_iff.
  rewrite N.shiftl_mul_pow2. change (2 ^ 10) with 1024.
  rewrite lor_disjoint by lia. lia.
Qed.

Lemma backslash_table_range esc ch :
  backslash_table esc = Some ch -> ch < 128.
Proof.
  unfold backslash_table.
  repeat (destruct (esc =? _); [by intros [= <-]|]). done.
Qed.

Lemma push_char_some c r (t rest : str) :
  push_char c r = Some (t, rest) ->
  exists t', r = Some (t', rest) /\ t = c :: t'.
Proof. destruct r as [[t' rest']|]; [|done]. intros [= <- <-]. eauto. Qed.

Lemma low_surrogate_range c : is_low_surrogate c = true -> 56320 <= c <= 57343.
Proof.
  unfold is_low_surrogate. intros [H1%N.leb_le H2%N.leb_le]%andb_true_iff. lia.
Qed.

Lemma not_low_below c : c < 56320 -> is_low_surrogate c = false.
Proof.
  intros H. unfold is_low_surrogate. apply andb_false_iff. left. apply N.leb_gt. lia.
Qed.

Lemma not_low_above c : 57343 < c -> is_low_surrogate c = false.
Proof.
  intros H. unfold is_low_surrogate. apply andb_false_iff. right. apply N.leb_gt. lia.
Qed.

(** After a lone high surrogate the scanner does not produce a low one. *)
Lemma scanstring_head_not_low (s3 t rest : str) :
  unicode_text s3 = true -> no_low_escape s3 = true ->
  scanstring s3 = Some (t, rest) -> head_not_low t = true.
Proof.
  intros Hu Hn. destruct s3 as [|b s4]; [done|].
  rewrite scanstring_cons.
  destruct (b =? DQUOTE); [by intros [= <- <-]|].
  destruct (b =? BSLASH) eqn:Eb.
  - apply N.eqb_eq in Eb as ->.
    destruct s4 as [|esc s2]; [done|].
    destruct (esc =? LOWER_U) eqn:Eu.
    + unfold no_low_escape in Hn. rewrite Eu in Hn.
      change (BSLASH =? BSLASH) with true in Hn. cbn [andb] in Hn. cbv iota in Hn.
      destruct s2 as [|h1 [|h2 [|h3 [|h4 s5]]]]; try done.
      destruct (hex4 h1 h2 h3 h4) as [uni|] eqn:Hh; [|done].
      apply negb_true_iff in Hn.
      destruct (is_high_surrogate uni) eqn:Hhi.
      * assert (forall r, push_char uni r = Some (t, rest) -> head_not_low t = true) as Hp.
        { intros r (t' & _ & ->)%push_char_some. cbn [head_not_low]. by rewrite Hn. }
        destruct s5 as [|b' [|u' s6]]; try by apply Hp.
        destruct ((b' =? BSLASH) && (u' =? LOWER_U)); [|by apply Hp].
        destruct s6 as [|k1 [|k2 [|k3 [|k4 s7]]]]; try done.
        destruct (hex4 k1 k2 k3 k4) as [uni2|]; [|done].
        destruct (is_low_surrogate uni2) eqn:Hlo; [|by apply Hp].
        intros (t' & _ & ->)%push_char_some. cbn [head_not_low].
        apply negb_true_iff, not_low_above.
        pose proof (join_surrogates_range _ _ Hhi Hlo). lia.
      * intros (t' & _ & ->)%push_char_some. cbn [head_not_low]. by rewrite Hn.
    + destruct (backslash_table esc) as [ch|] eqn:Et; [|done].
      intros (t' & _ & ->)%push_char_some. cbn [head_not_low].
      apply negb_true_iff, not_low_below. apply backslash_table_range in Et. lia.
  - destruct (b <? 32); [done|].
    intros (t' & _ & ->)%push_char_some. cbn [head_not_low].
    apply unicode_head in Hu as [_ Hu]. by rewrite surrogate_low.
Qed.

Lemma str_ok_push c (t : str) :
  in_range c = true -> str_ok t = true ->
  is_high_surrogate c = false \/ head_not_low t = true ->
  str_ok (c :: t) = true.
Proof.
  unfold str_ok. cbn [forallb]. rewrite adjacent_cons.
  intros Hc [H1 H2]%andb_true_iff Hp. rewrite Hc, H1, H2, andb_true_r.
  cbn [andb]. destruct t as [|d t]; [done|]. unfold split_pair.
  rewrite andb_true_r. apply negb_true_iff, andb_false_iff.
  destruct Hp as [Hp|Hp]; [by left|right]. by apply negb_true_iff in Hp.
Qed.

Lemma push_ok c (s' t rest : str) :
  reads_ok s' -> unicode_text s' = true -> in_range c = true ->
  is_high_surrogate c = false \/ no_low_escape s' = true ->
  push_char c (scanstring s') = Some (t, rest) ->
  str_ok t = true /\ unicode_text rest = true /\ (length rest < length s')%nat.
Proof.
  intros IH Hu Hc Hp (t' & E & ->)%push_char_some.
  destruct (IH _ _ E) as (H1 & H2 & H3). split_and!; try done.
  apply str_ok_push; try done.
  destruct Hp as [Hp|Hp]; [by left|right].
  by apply (scanstring_head_not_low s' t' rest).
Qed.

Lemma in_range_below c : c < 1114112 -> in_range c = true.
Proof. intros H. by apply N.ltb_lt. Qed.

Lemma no_low_escape_short (s : str) : (length s < 2)%nat -> no_low_escape s = true.
Proof. destruct s as [|a [|b s]]; cbn [length]; try done. lia. Qed.

(** From text without surrogate code points the scanner reads a string in
    which no high surrogate is followed by a low one, and it consumes the
    closing quote at least. *)
Lemma scanstring_ok (s : str) : unicode_text s = true -> reads_ok s.
Proof.
  induction s as [s IH] using str_ind_length. intros Hu t rest.
  destruct s as [|c s1]; [done|].
  rewrite scanstring_cons.
  destruct (c =? DQUOTE).
  { intros [= <- <-]. split_and!; [done|exact (unicode_drop 1 _ Hu)|cbn [length]; lia]. }
  assert (forall n ch,
    in_range ch = true ->
    is_high_surrogate ch = false \/ no_low_escape (drop (S n) (c :: s1)) = true ->
    push_char ch (scanstring (drop (S n) (c :: s1))) = Some (t, rest) ->
    str_ok t = true /\ unicode_text rest = true /\ (length rest < length (c :: s1))%nat)
    as Hpush.
  { intros n ch Hch Hp Hs.
    assert (length (drop (S n) (c :: s1)) < length (c :: s1))%nat as Hlen
      by (rewrite length_drop; cbn [length]; lia).
    destruct (push_ok ch _ t rest (IH _ Hlen (unicode_drop _ _ Hu)) (unicode_drop _ _ Hu)
                Hch Hp Hs) as (? & ? & ?).
    split_and!; try done. lia. }
  destruct (c =? BSLASH).
  - destruct s1 as [|esc s2]; [done|].
    destruct (esc =? LOWER_U).
    + destruct s2 as [|h1 [|h2 [|h3 [|h4 s3]]]]; try done.
      destruct (hex4 h1 h2 h3 h4) as [uni|] eqn:Hh; [|done].
      assert (in_range uni = true) as Huni
        by (apply in_range_below; apply hex4_range in Hh; lia).
      destruct (is_high_surrogate uni) eqn:Hhi.
      * destruct s3 as [|b [|u s4]];
          try (apply (Hpush 5%nat uni Huni); by right).
        destruct ((b =? BSLASH) && (u =? LOWER_U)) eqn:Ebu.
        2:{ apply (Hpush 5%nat uni Huni). right.
            cbn [drop]. unfold no_low_escape. by rewrite Ebu. }
        destruct s4 as [|k1 [|k2 [|k3 [|k4 s5]]]]; try done.
        destruct (hex4 k1 k2 k3 k4) as [uni2|] eqn:Hk; [|done].
        destruct (is_low_surrogate uni2) eqn:Hlo.
        -- pose proof (join_surrogates_range _ _ Hhi Hlo) as Hj.
           apply (Hpush 11%nat).
           ++ apply in_range_below. lia.
           ++ left. unfold is_high_surrogate. apply andb_false_iff. right.
              apply N.leb_gt. lia.
        -- apply (Hpush 5%nat uni Huni). right.
           cbn [drop]. unfold no_low_escape. by rewrite Ebu, Hk, Hlo.
      * apply (Hpush 5%nat uni Huni). by left.
    + destruct (backslash_table esc) as [ch|] eqn:Et; [|done].
      apply backslash_table_range in Et.
      apply (Hpush 1%nat).
      * apply in_range_below. lia.
      * left. unfold is_high_surrogate. apply andb_false_iff. left.
        apply N.leb_gt. lia.
  - destruct (c <? 32); [done|].
    destruct (unicode_head _ _ Hu) as [Hc Hsur].
    apply (Hpush 0%nat c Hc). left. by apply surrogate_high.
Qed.

(** ** What the parser reads from Unicode text *)

Lemma skip_ws_unicode (s : str) : unicode_text s = true -> unicode_text (skip_ws s) = true.
Proof. apply unicode_drop. Qed.

Lemma skip_ws_length (s : str) : (length (skip_ws s) <= length s)%nat.
Proof. unfold skip_ws. rewrite length_drop. lia. Qed.

Lemma starts_with_length (p s : str) :
  starts_with p s = true -> (length p <= length s)%nat.
Proof.
  unfold starts_with, str_eqb. intros H%bool_decide_eq_true.
  rewrite <- H at 1. rewrite length_take. lia.
Qed.

Lemma scan_integer_nonempty s i s1 : scan_integer s = Some (i, s1) -> i <> [].
Proof.
  unfold scan_integer.
  destruct s as [|c s']; [done|].
  destruct (c =? MINUS).
  - destruct s' as [|d s2]; [done|].
    destruct (d =? ZERO); [by intros [= <- <-]|].
    destruct (is_digit d); [by intros [= <- <-]|done].
  - destruct (c =? ZERO); [by intros [= <- <-]|].
    destruct (is_digit c); [by intros [= <- <-]|done].
Qed.

Lemma match_number_rest s i fr ex rest :
  match_number s = Some (i, fr, ex, rest) ->
  rest = drop (length (i ++ fr ++ ex)) s /\ (length rest < length s)%nat.
Proof.
  intros H. pose proof (match_number_concat _ _ _ _ _ H) as E.
  assert (i <> []) as Hi.
  { unfold match_number in H. destruct (scan_integer s) as [[i' s1]|] eqn:Ei; [|done].
    destruct (scan_frac s1), (scan_exp _). injection H as -> _ _ _.
    by eapply scan_integer_nonempty. }
  split.
  - transitivity (drop (length (i ++ fr ++ ex)) ((i ++ fr ++ ex) ++ rest)).
    + by rewrite drop_app_length.
    + by rewrite E, <- !app_assoc.
  - rewrite E. rewrite !length_app. destruct i; [done|]. cbn [length]. lia.
Qed.

Section Reads.

Hypothesis float_text : forall text, float_ok' (float_of_literal text) = true.

Lemma scan_atom_ok (s : str) v (rest : str) :
  unicode_text s = true -> scan_atom' s = Some (v, rest) ->
  value_ok' v = true /\ unicode_text rest = true /\ (length rest < length s)%nat.
Proof.
  intros Hu. unfold scan_atom.
  assert (forall (p : str) n, starts_with p s = true -> length p = S n ->
            unicode_text (drop (S n) s) = true
            /\ (length (drop (S n) s) < length s)%nat) as Hconst.
  { intros p n Hp%starts_with_length Hn. split; [by apply unicode_drop|].
    rewrite length_drop. lia. }
  destruct (starts_with (str_of "null") s) eqn:E1.
  { intros [= <- <-]. split; [done|]. by apply (Hconst _ 3%nat E1). }
  destruct (starts_with (str_of "true") s) eqn:E2.
  { intros [= <- <-]. split; [done|]. by apply (Hconst _ 3%nat E2). }
  destruct (starts_with (str_of "false") s) eqn:E3.
  { intros [= <- <-]. split; [done|]. by apply (Hconst _ 4%nat E3). }
  destruct (match_number s) as [[[[i fr] ex] r]|] eqn:Em.
  - destruct (match_number_rest _ _ _ _ _ Em) as [Er Hlen].
    assert (unicode_text r = true) by (rewrite Er; by apply unicode_drop).
    destruct fr, ex; intros [= <- <-]; split_and!; try done; apply float_text.
  - destruct (starts_with (str_of "NaN") s) eqn:E4.
    { intros [= <- <-]. split; [done|]. by apply (Hconst _ 2%nat E4). }
    destruct (starts_with (str_of "Infinity") s) eqn:E5.
    { intros [= <- <-]. split; [done|]. by apply (Hconst _ 7%nat E5). }
    destruct (starts_with (str_of "-Infinity") s) eqn:E6; [|done].
    intros [= <- <-]. split; [done|]. by apply (Hconst _ 8%nat E6).
Qed.

Abbreviation member_ok :=
  (fun kv : str * json => str_ok (fst kv) && value_ok' (snd kv)).

Lemma dict_set_ok (d : list (str * json)) k v :
  forallb member_ok d = true -> str_ok k = true -> value_ok' v = true ->
  forallb member_ok (dict_set d k v) = true.
Proof.
  intros Hd Hk Hv. induction d as [|[k' v'] d IH].
  - cbn [dict_set forallb fst snd]. by rewrite Hk, Hv.
  - cbn [forallb fst snd] in Hd.
    apply andb_true_iff in Hd as [[Hk' Hv']%andb_true_iff Hd].
    cbn [dict_set]. destruct (str_eqb k' k); cbn [forallb fst snd].
    + by rewrite Hk', Hv, Hd.
    + by rewrite Hk', Hv', IH.
Qed.

Lemma dict_set_keys (d : list (str * json)) k v :
  map fst (dict_set d k v) = if bool_decide (k ∈ map fst d) then map fst d else map fst d ++ [k].
Proof.
  induction d as [|[k' v'] d IH]; [done|].
  cbn [dict_set map fst]. unfold str_eqb.
  destruct (decide (k' = k)) as [->|Hne].
  - rewrite bool_decide_eq_true_2 by done.
    rewrite (bool_decide_eq_true_2 (k ∈ k :: _)) by left. done.
  - rewrite bool_decide_eq_false_2 by done. cbn [map fst]. rewrite IH.
    destruct (decide (k ∈ map fst d)) as [Hin|Hin].
    + rewrite !bool_decide_eq_true_2; [done| by right |done].
    + rewrite !bool_decide_eq_false_2; [done| |done].
      intros [?|?]%elem_of_cons; congruence.
Qed.

Lemma dict_of_pairs_ok (pairs : list (str * json)) :
  forallb member_ok pairs = true ->
  forallb member_ok (dict_of_pairs pairs) = true
  /\ NoDup (map fst (dict_of_pairs pairs)).
Proof.
  unfold dict_of_pairs.
  assert (forall acc : list (str * json),
            forallb member_ok acc = true -> NoDup (map fst acc) ->
            forallb member_ok pairs = true ->
            let r := fold_left (fun d kv => dict_set d (fst kv) (snd kv)) pairs acc in
            forallb member_ok r = true /\ NoDup (map fst r)) as H.
  { induction pairs as [|[k v] pairs IH]; intros acc Hacc Hnd Hp; [done|].
    cbn [forallb fst snd] in Hp.
    apply andb_true_iff in Hp as [[Hk Hv]%andb_true_iff Hp].
    cbn [fold_left fst snd]. apply IH; [by apply dict_set_ok| |done].
    rewrite dict_set_keys. case_bool_decide as Hin; [done|].
    apply NoDup_app. split_and!; [done| |apply NoDup_singleton].
    intros x Hx ->%list_elem_of_singleton. done. }
  intros Hp. apply (H [] eq_refl (NoDup_nil_2) Hp).
Qed.

Lemma unicode_tail c (s : str) : unicode_text (c :: s) = true -> unicode_text s = true.
Proof. unfold unicode_text. cbn [forallb]. by intros [_ ?]%andb_true_iff. Qed.

Lemma scan_ok fuel :
  (forall (s : str) v (rest : str),
     unicode_text s = true -> scan_once' fuel s = Some (v, rest) ->
     value_ok' v = true /\ unicode_text rest = true /\ (length rest < length s)%nat)
  /\ (forall (s : str) vs (rest : str),
     unicode_text s = true -> array_loop' fuel s = Some (vs, rest) ->
     forallb value_ok' vs = true /\ unicode_text rest = true
     /\ (length rest < length s)%nat)
  /\ (forall (s : str) pairs (rest : str),
     unicode_text s = true -> object_loop' fuel s = Some (pairs, rest) ->
     forallb member_ok pairs = true /\ unicode_text rest = true
     /\ (length rest < length s)%nat).
Proof.
  induction fuel as [|fuel (IHs & IHa & IHo)]; [done|].
  split_and!.
  - intros s v rest Hu. destruct s as [|c s']; [done|]. cbn [scan_once].
    pose proof (unicode_tail _ _ Hu) as Hu'.
    destruct (c =? DQUOTE).
    { destruct (scanstring s') as [[text r]|] eqn:Es; [|done]. intros [= <- <-].
      destruct (scanstring_ok _ Hu' _ _ Es) as (? & ? & ?).
      split_and!; try done. cbn [length]. lia. }
    pose proof (skip_ws_unicode _ Hu') as Hw. pose proof (skip_ws_length s') as Hl.
    destruct (c =? LBRACE).
    { destruct (skip_ws s') as [|d s2]; [done|].
      pose proof (unicode_tail _ _ Hw) as Hu2. cbn [length] in Hl.
      destruct (d =? RBRACE).
      { intros [= <- <-]. split_and!; try done. cbn [length]. lia. }
      destruct (d =? DQUOTE); [|done].
      destruct (object_loop' fuel s2) as [[pairs r]|] eqn:Eo; [|done].
      intros [= <- <-]. destruct (IHo _ _ _ Hu2 Eo) as (Hp & ? & ?).
      destruct (dict_of_pairs_ok _ Hp) as [Hd Hnd].
      split_and!; try done; [|cbn [length]; lia].
      cbn [value_ok]. rewrite Hd. by apply bool_decide_eq_true_2. }
    destruct (c =? LBRACKET); [|by apply scan_atom_ok].
    destruct (skip_ws s') as [|d s2] eqn:Ew; [done|].
    pose proof (unicode_tail _ _ Hw) as Hu2. cbn [length] in Hl.
    destruct (d =? RBRACKET).
    { intros [= <- <-]. split_and!; try done. cbn [length]. lia. }
    destruct (array_loop' fuel (d :: s2)) as [[vs r]|] eqn:Ea; [|done].
    intros [= <- <-]. destruct (IHa _ _ _ Hw Ea) as (Hp & ? & ?).
    split_and!; try done. cbn [length] in *. lia.
  - intros s vs rest Hu. cbn [array_loop].
    destruct (scan_once' fuel s) as [[value r]|] eqn:Ev; [|done].
    destruct (IHs _ _ _ Hu Ev) as (Hv & Hur & Hlr).
    pose proof (skip_ws_unicode _ Hur) as Hw. pose proof (skip_ws_length r) as Hl.
    destruct (skip_ws r) as [|d r2]; [done|].
    pose proof (unicode_tail _ _ Hw) as Hu2. cbn [length] in Hl.
    destruct (d =? RBRACKET).
    { intros [= <- <-]. cbn [forallb]. rewrite Hv. split_and!; try done. lia. }
    destruct (d =? COMMA); [|done].
    destruct (array_loop' fuel (skip_ws r2)) as [[values r3]|] eqn:Ea; [|done].
    intros [= <- <-].
    destruct (IHa _ _ _ (skip_ws_unicode _ Hu2) Ea) as (Hp & ? & ?).
    pose proof (skip_ws_length r2).
    cbn [forallb]. rewrite Hv. split_and!; try done. lia.
  - intros s pairs rest Hu. cbn [object_loop].
    destruct (scanstring s) as [[key r]|] eqn:Es; [|done].
    destruct (scanstring_ok _ Hu _ _ Es) as (Hk & Hur & Hlr).
    pose proof (skip_ws_unicode _ Hur) as Hw. pose proof (skip_ws_length r) as Hl.
    destruct (skip_ws r) as [|d r2]; [done|].
    pose proof (unicode_tail _ _ Hw) as Hu2. cbn [length] in Hl.
    destruct (d =? COLON); [|done].
    destruct (scan_once' fuel (skip_ws r2)) as [[value r3]|] eqn:Ev; [|done].
    destruct (IHs _ _ _ (skip_ws_unicode _ Hu2) Ev) as (Hv & Hu3 & Hl3).
    pose proof (skip_ws_length r2) as Hl2.
    pose proof (skip_ws_unicode _ Hu3) as Hw3. pose proof (skip_ws_length r3) as Hl3'.
    destruct (skip_ws r3) as [|e r4]; [done|].
    pose proof (unicode_tail _ _ Hw3) as Hu4. cbn [length] in Hl3'.
    destruct (e =? RBRACE).
    { intros [= <- <-]. cbn [forallb fst snd]. rewrite Hk, Hv.
      split_and!; try done. lia. }
    destruct (e =? COMMA); [|done].
    pose proof (skip_ws_unicode _ Hu4) as Hw4. pose proof (skip_ws_length r4) as Hl4.
    destruct (skip_ws r4) as [|q r5]; [done|].
    pose proof (unicode_tail _ _ Hw4) as Hu5. cbn [length] in Hl4.
    destruct (q =? DQUOTE); [|done].
    destruct (object_loop' fuel r5) as [[ps r6]|] eqn:Eo; [|done].
    intros [= <- <-]. destruct (IHo _ _ _ Hu5 Eo) as (Hp & ? & ?).
    cbn [forallb fst snd]. rewrite Hk, Hv. split_and!; try done. lia.
Qed.

Lemma loads_ok (s : str) v :
  unicode_text s = true -> loads' s = Some v -> value_ok' v = true.
Proof.
  intros Hu. unfold loads. destruct (starts_with [BOM] s); [done|].
  destruct (scan_once' _ _) as [[obj rest]|] eqn:E; [|done].
  destruct (skip_ws rest); [|done]. intros [= <-].
  by destruct (proj1 (scan_ok _) _ _ _ (skip_ws_unicode _ Hu) E).
Qed.

(** Reading the text of a value gives the value back. *)
Lemma loads_dumps v : value_ok' v = true -> loads' (dumps' v) = Some v.
Proof.
  intros Hok. unfold loads.
  destruct (dumps_head _ Hok) as (c & s' & E & Hc).
  assert (starts_with [BOM] (dumps' v) = false) as ->.
  { rewrite E. apply starts_with_head. intros <-. done. }
  pose proof (skip_ws_dumps v [] Hok) as Hw. rewrite app_nil_r in Hw. rewrite Hw.
  pose proof (dumps_reads_back v Hok (S (length (dumps' v))) []) as Hr.
  rewrite app_nil_r in Hr. rewrite Hr; [done|lia|done].
Qed.

End Reads.

End ValueFacts.

(** Why the input is taken to be Unicode text: a surrogate that stands in
    the text as it is and the escape of its other half are read as two code
    points, written as two escapes, and then read as one code point. *)
Remark raw_surrogate_is_joined :
  loads zero_of_literal raw_surrogate_json = Some (JStr [55296; 56320])
  /\ dumps zero_repr (JStr [55296; 56320]) = quoted "\ud800\udc00"
  /\ loads zero_of_literal (quoted "\ud800\udc00") = Some (JStr [65536])
  /\ unicode_text raw_surrogate_json = false.
Proof. by vm_compute. Qed.

(** ** The fuel of the parser

    A call of the parser that returns has read at least one character, and
    it returns the same with any fuel that is at least the number of
    characters it has read. *)

Lemma scanstring_length (s : str) : forall t rest : str,
  scanstring s = Some (t, rest) -> (length rest < length s)%nat.
Proof.
  induction s as [s IH] using str_ind_length. intros t rest.
  destruct s as [|c s1]; [done|].
  rewrite scanstring_cons.
  destruct (c =? DQUOTE).
  { intros [= <- <-]. cbn [length]. lia. }
  assert (forall n ch,
    push_char ch (scanstring (drop (S n) (c :: s1))) = Some (t, rest) ->
    (length rest < length (c :: s1))%nat) as Hpush.
  { intros n ch (t' & E & ->)%push_char_some.
    assert (length (drop (S n) (c :: s1)) < length (c :: s1))%nat as Hlen
      by (rewrite length_drop; cbn [length]; lia).
    pose proof (IH _ Hlen _ _ E). lia. }
  destruct (c =? BSLASH).
  - destruct s1 as [|esc s2]; [done|].
    destruct (esc =? LOWER_U).
    + destruct s2 as [|h1 [|h2 [|h3 [|h4 s3]]]]; try done.
      destruct (hex4 h1 h2 h3 h4) as [uni|]; [|done].
      destruct (is_high_surrogate uni); [|apply (Hpush 5%nat)].
      destruct s3 as [|b [|u s4]]; try apply (Hpush 5%nat).
      destruct ((b =? BSLASH) && (u =? LOWER_U)); [|apply (Hpush 5%nat)].
      destruct s4 as [|k1 [|k2 [|k3 [|k4 s5]]]]; try done.
      destruct (hex4 k1 k2 k3 k4) as [uni2|]; [|done].
      destruct (is_low_surrogate uni2); [apply (Hpush 11%nat)|apply (Hpush 5%nat)].
    + destruct (backslash_table esc) as [ch|]; [|done]. apply (Hpush 1%nat).
  - destruct (c <? 32); [done|]. apply (Hpush 0%nat).
Qed.

Section Fuel.

Variable float_of_literal : str -> spec_float.

Abbreviation scan_atom' := (scan_atom float_of_literal).
Abbreviation scan_once' := (scan_once float_of_literal).
Abbreviation array_loop' := (array_loop float_of_literal).
Abbreviation object_loop' := (object_loop float_of_literal).

Lemma scan_atom_length (s : str) v (rest : str) :
  scan_atom' s = Some (v, rest) -> (length rest < length s)%nat.
Proof.
  unfold scan_atom.
  assert (forall (p : str) n, starts_with p s = true -> length p = S n ->
            (length (drop (S n) s) < length s)%nat) as Hconst.
  { intros p n Hp%starts_with_length Hn. rewrite length_drop. lia. }
  destruct (starts_with (str_of "null") s) eqn:E1.
  { intros [= <- <-]. by apply (Hconst _ 3%nat E1). }
  destruct (starts_with (str_of "true") s) eqn:E2.
  { intros [= <- <-]. by apply (Hconst _ 3%nat E2). }
  destruct (starts_with (str_of "false") s) eqn:E3.
  { intros [= <- <-]. by apply (Hconst _ 4%nat E3). }
  destruct (match_number s) as [[[[i fr] ex] r]|] eqn:Em.
  - destruct (match_number_rest _ _ _ _ _ Em) as [Er Hlen].
    destruct fr, ex; by intros [= <- <-].
  - destruct (starts_with (str_of "NaN") s) eqn:E4.
    { intros [= <- <-]. by apply (Hconst _ 2%nat E4). }
    destruct (starts_with (str_of "Infinity") s) eqn:E5.
    { intros [= <- <-]. by apply (Hconst _ 7%nat E5). }
    destruct (starts_with (str_of "-Infinity") s) eqn:E6; [|done].
    intros [= <- <-]. by apply (Hconst _ 8%nat E6).
Qed.

Lemma scan_fuel fuel :
  (forall (s : str) v (rest : str),
     scan_once' fuel s = Some (v, rest) ->
     (length rest < length s)%nat
     /\ forall fuel', (length s - length rest <= fuel')%nat ->
          scan_once' fuel' s = Some (v, rest))
  /\ (forall (s : str) vs (rest : str),
     array_loop' fuel s = Some (vs, rest) ->
     (length rest < length s)%nat
     /\ forall fuel', (length s - length rest <= fuel')%nat ->
          array_loop' fuel' s = Some (vs, rest))
  /\ (forall (s : str) pairs (rest : str),
     object_loop' fuel s = Some (pairs, rest) ->
     (length rest < length s)%nat
     /\ forall fuel', (length s - length rest <= fuel')%nat ->
          object_loop' fuel' s = Some (pairs, rest)).
Proof.
  induction fuel as [|fuel (IHs & IHa & IHo)]; [done|].
  split_and!.
  - intros s v rest. destruct s as [|c s']; [done|]. cbn [scan_once].
    destruct (c =? DQUOTE) eqn:E1.
    { destruct (scanstring s') as [[text r]|] eqn:Es; [|done]. intros [= <- <-].
      pose proof (scanstring_length _ _ _ Es).
      split; [cbn [length]; lia|]. intros [|fuel'] Hf; [cbn [length] in Hf; lia|].
      cbn [scan_once]. by rewrite E1, Es. }
    pose proof (skip_ws_length s') as Hl.
    destruct (c =? LBRACE) eqn:E2.
    { destruct (skip_ws s') as [|d s2] eqn:Ew; [done|]. cbn [length] in Hl.
      destruct (d =? RBRACE) eqn:E3.
      { intros [= <- <-]. split; [cbn [length]; lia|].
        intros [|fuel'] Hf; [cbn [length] in Hf; lia|].
        cbn [scan_once]. by rewrite E1, E2, Ew, E3. }
      destruct (d =? DQUOTE) eqn:E4; [|done].
      destruct (object_loop' fuel s2) as [[pairs r]|] eqn:Eo; [|done].
      intros [= <- <-]. destruct (IHo _ _ _ Eo) as [Hlen Hfuel].
      split; [cbn [length]; lia|].
      intros [|fuel'] Hf; [cbn [length] in Hf; lia|]. cbn [length] in Hf.
      cbn [scan_once]. rewrite E1, E2, Ew, E3, E4. by rewrite Hfuel by lia. }
    destruct (c =? LBRACKET) eqn:E3.
    2:{ intros Ha. pose proof (scan_atom_length _ _ _ Ha) as Hlen. split; [done|].
        intros [|fuel'] Hf; [lia|]. cbn [scan_once]. by rewrite E1, E2, E3. }
    destruct (skip_ws s') as [|d s2] eqn:Ew; [done|]. cbn [length] in Hl.
    destruct (d =? RBRACKET) eqn:E4.
    { intros [= <- <-]. split; [cbn [length]; lia|].
      intros [|fuel'] Hf; [cbn [length] in Hf; lia|].
      cbn [scan_once]. by rewrite E1, E2, E3, Ew, E4. }
    destruct (array_loop' fuel (d :: s2)) as [[vs r]|] eqn:Ea; [|done].
    intros [= <- <-]. destruct (IHa _ _ _ Ea) as [Hlen Hfuel]. cbn [length] in Hlen.
    split; [cbn [length]; lia|].
    intros [|fuel'] Hf; [cbn [length] in Hf; lia|]. cbn [length] in Hf.
    cbn [scan_once]. rewrite E1, E2, E3, Ew, E4.
    by rewrite Hfuel by (cbn [length]; lia).
  - intros s vs rest. cbn [array_loop].
    destruct (scan_once' fuel s) as [[value r]|] eqn:Ev; [|done].
    destruct (IHs _ _ _ Ev) as [Hlr Hfv].
    pose proof (skip_ws_length r) as Hl.
    destruct (skip_ws r) as [|d r2] eqn:Ew; [done|]. cbn [length] in Hl.
    destruct (d =? RBRACKET) eqn:E1.
    { intros [= <- <-]. split; [lia|].
      intros [|fuel'] Hf; [lia|]. cbn [array_loop].
      rewrite Hfv by lia. by rewrite Ew, E1. }
    destruct (d =? COMMA) eqn:E2; [|done].
    destruct (array_loop' fuel (skip_ws r2)) as [[values r3]|] eqn:Ea; [|done].
    intros [= <- <-]. destruct (IHa _ _ _ Ea) as [Hla Hfa].
    pose proof (skip_ws_length r2) as Hl2.
    split; [lia|].
    intros [|fuel'] Hf; [lia|]. cbn [array_loop].
    rewrite Hfv by lia. rewrite Ew, E1, E2. by rewrite Hfa by lia.
  - intros s pairs rest. cbn [object_loop].
    destruct (scanstring s) as [[key r]|] eqn:Es; [|done].
    pose proof (scanstring_length _ _ _ Es) as Hlr.
    pose proof (skip_ws_length r) as Hl.
    destruct (skip_ws r) as [|d r2] eqn:Ew; [done|]. cbn [length] in Hl.
    destruct (d =? COLON) eqn:E1; [|done].
    destruct (scan_once' fuel (skip_ws r2)) as [[value r3]|] eqn:Ev; [|done].
    destruct (IHs _ _ _ Ev) as [Hl3 Hfv].
    pose proof (skip_ws_length r2) as Hl2.
    pose proof (skip_ws_length r3) as Hl3'.
    destruct (skip_ws r3) as [|e r4] eqn:Ew3; [done|]. cbn [length] in Hl3'.
    destruct (e =? RBRACE) eqn:E2.
    { intros [= <- <-]. split; [lia|].
      intros [|fuel'] Hf; [lia|]. cbn [object_loop].
      rewrite Es, Ew, E1. rewrite Hfv by lia. by rewrite Ew3, E2. }
    destruct (e =? COMMA) eqn:E3; [|done].
    pose proof (skip_ws_length r4) as Hl4.
    destruct (skip_ws r4) as [|q r5] eqn:Ew4; [done|]. cbn [length] in Hl4.
    destruct (q =? DQUOTE) eqn:E4; [|done].
    destruct (object_loop' fuel r5) as [[ps r6]|] eqn:Eo; [|done].
    intros [= <- <-]. destruct (IHo _ _ _ Eo) as [Hlo Hfo].
    split; [lia|].
    intros [|fuel'] Hf; [lia|]. cbn [object_loop].
    rewrite Es, Ew, E1. rewrite Hfv by lia. rewrite Ew3, E2, E3, Ew4, E4.
    by rewrite Hfo by lia.
Qed.

(** The fuel [loads] gives is enough: more fuel changes nothing. *)
Lemma scan_once_enough (s : str) fuel :
  (length s < fuel)%nat -> scan_once' fuel s = scan_once' (S (length s)) s.
Proof.
  intros Hf.
  destruct (scan_once' fuel s) as [[v rest]|] eqn:E1.
  - destruct (proj1 (scan_fuel _) _ _ _ E1) as [_ H]. symmetry. apply H. lia.
  - destruct (scan_once' (S (length s)) s) as [[v rest]|] eqn:E2; [|done].
    destruct (proj1 (scan_fuel _) _ _ _ E2) as [_ H].
    rewrite H in E1; [done|lia].
Qed.

End Fuel.

(** ** Compact text: no white space outside string literals *)






Lemma forallb_take_span (p : N -> bool) (s : str) : forallb p (take (span p s) s) = true.
Proof.
  induction s as [|c s IH]; [done|]. cbn [span].
  destruct (p c) eqn:E; [|done]. cbn [take forallb]. by rewrite E, IH.
Qed.

Lemma digit_number_char c : is_digit c = true -> number_char c = true.
Proof. intros H. unfold number_char. by rewrite H. Qed.

Lemma digits_number_chars (s : str) :
  forallb is_digit s = true -> forallb number_char s = true.
Proof.
  intros H. apply forallb_forall. intros c Hc.
  by apply digit_number_char, (proj1 (forallb_forall _ _) H).
Qed.

Lemma scan_integer_chars s i s1 :
  scan_integer s = Some (i, s1) -> forallb number_char i = true.
Proof.
  unfold scan_integer.
  assert (forall sign s0,
    forallb number_char sign = true ->
    match s0 with
    | c :: s2 =>
        if c =? ZERO then Some (sign ++ [c], s2)
        else if is_digit c
             then Some (sign ++ c :: take (span is_digit s2) s2, drop (span is_digit s2) s2)
             else None
    | [] => None
    end = Some (i, s1) -> forallb number_char i = true) as H.
  { intros sign [|c s2] Hsign; [done|].
    destruct (N.eqb_spec c ZERO) as [->|_].
    - intros [= <- <-]. rewrite forallb_app, Hsign. done.
    - destruct (is_digit c) eqn:Ec; [|done]. intros [= <- <-].
      rewrite forallb_app, Hsign. cbn [forallb andb].
      rewrite (digit_number_char _ Ec). cbn [andb].
      apply digits_number_chars, forallb_take_span. }
  destruct s as [|c s']; [done|].
  destruct (c =? MINUS); [by apply (H [MINUS] s')|by apply (H [] (c :: s'))].
Qed.

Lemma scan_frac_chars s fr s2 : scan_frac s = (fr, s2) -> forallb number_char fr = true.
Proof.
  unfold scan_frac. destruct s as [|c s']; [by intros [= <- <-]|].
  destruct (N.eqb_spec c DOT) as [->|_]; [|by intros [= <- <-]].
  cbn [andb]. destruct (1 <=? _)%nat; intros [= <- <-]; [|done].
  cbn [forallb]. apply digits_number_chars, forallb_take_span.
Qed.

Lemma scan_exp_chars s ex s3 : scan_exp s = (ex, s3) -> forallb number_char ex = true.
Proof.
  unfold scan_exp. destruct s as [|c s1]; [by intros [= <- <-]|].
  destruct (mem c (str_of "eE")) eqn:Ec; [|by intros [= <- <-]].
  assert (number_char c = true) as Hc.
  { unfold number_char, mem in *. cbn [existsb str_of] in *.
    rewrite !orb_true_iff in *. right. tauto. }
  assert (forall (sign s2 : str), forallb number_char sign = true ->
            (if (1 <=? span is_digit s2)%nat
             then (c :: sign ++ take (span is_digit s2) s2, drop (span is_digit s2) s2)
             else ([], c :: s1)) = (ex, s3) -> forallb number_char ex = true) as H.
  { intros sign s2 Hsign. destruct (1 <=? _)%nat; intros [= <- <-]; [|done].
    cbn [forallb]. rewrite Hc, forallb_app, Hsign. cbn [andb].
    apply digits_number_chars, forallb_take_span. }
  destruct s1 as [|d s2]; [by apply H|].
  destruct (mem d (str_of "-+")) eqn:Ed; [|by apply H].
  apply H. cbn [forallb]. rewrite andb_true_r.
  unfold number_char, mem in *. cbn [existsb str_of] in *.
  rewrite !orb_true_iff in *. right. tauto.
Qed.

Lemma match_number_chars s i fr ex rest :
  match_number s = Some (i, fr, ex, rest) -> forallb number_char (i ++ fr ++ ex) = true.
Proof.
  unfold match_number.
  destruct (scan_integer s) as [[i' s1]|] eqn:E1; [|done].
  destruct (scan_frac s1) as [fr' s2] eqn:E2.
  destruct (scan_exp s2) as [ex' s3] eqn:E3.
  intros [= <- <- <- <-]. rewrite !forallb_app.
  by rewrite (scan_integer_chars _ _ _ E1), (scan_frac_chars _ _ _ E2),
    (scan_exp_chars _ _ _ E3).
Qed.





Section Compact.

Variable float_of_literal : str -> spec_float.
Variable float_repr : spec_float -> str.

Abbreviation float_ok' := (float_ok float_of_literal float_repr).
Abbreviation value_ok' := (value_ok float_of_literal float_repr).
Abbreviation floatstr' := (floatstr float_repr).
Abbreviation dumps' := (dumps float_repr).
Abbreviation loads' := (loads float_of_literal).

Lemma loads_fuel (s : str) fuel :
  (length s < fuel)%nat ->
  scan_once float_of_literal fuel (skip_ws s)
  = scan_once float_of_literal (S (length s)) (skip_ws s).
Proof.
  intros H. pose proof (skip_ws_length s).
  rewrite scan_once_enough by lia. symmetry. apply scan_once_enough. lia.
Qed.






End Compact.

(** ** Text read from a file has no surrogate code points *)

Lemma unicode_cons c (t : str) :
  c < 1114112 -> c < 55296 \/ 57343 < c -> unicode_text t = true ->
  unicode_text (c :: t) = true.
Proof.
  intros H1 H2 H3. unfold unicode_text in *. cbn [forallb]. rewrite H3, andb_true_r.
  unfold in_range, is_surrogate. apply andb_true_iff. split; [by apply N.ltb_lt|].
  apply negb_true_iff, andb_false_iff. rewrite !N.leb_gt. lia.
Qed.

Lemma fmap_cons_some c (r : option str) (s : str) :
  cons c <$> r = Some s -> exists t, r = Some t /\ s = c :: t.
Proof. destruct r as [t|]; [|done]. intros [= <-]. eauto. Qed.

Lemma is_cont_range x : is_cont x = true -> 128 <= x <= 191.
Proof. unfold is_cont. intros [H1%N.leb_le H2%N.leb_le]%andb_true_iff. lia. Qed.

Lemma decode_utf8_unicode (bs : list byte) : forall s,
  decode_utf8 bs = Some s -> unicode_text s = true.
Proof.
  remember (length bs) as n eqn:E. revert bs E.
  induction n as [n IH] using lt_wf_ind. intros bs -> s.
  destruct bs as [|b0 r0]; [by intros [= <-]|].
  cbn [decode_utf8]. cbv zeta.
  assert (forall k c, c < 1114112 -> (c < 55296 \/ 57343 < c) ->
            cons c <$> decode_utf8 (drop k r0) = Some s -> unicode_text s = true) as Hgo.
  { intros k c H1 H2 (t & Et & ->)%fmap_cons_some.
    apply unicode_cons; [done|done|].
    apply (IH (length (drop k r0))) with (bs := drop k r0); [|done|done].
    rewrite length_drop. cbn [length]. lia. }
  destruct (N.ltb_spec (byte_val b0) 128) as [H0|H0].
  { apply (Hgo 0%nat); lia. }
  destruct ((194 <=? byte_val b0) && (byte_val b0 <=? 223)) eqn:E2.
  { apply andb_true_iff in E2 as [Ha%N.leb_le Hb%N.leb_le].
    destruct r0 as [|b1 r1]; [done|].
    destruct (is_cont (byte_val b1)) eqn:Ec; [|done]. apply is_cont_range in Ec.
    apply (Hgo 1%nat); lia. }
  destruct ((224 <=? byte_val b0) && (byte_val b0 <=? 239)) eqn:E3.
  { apply andb_true_iff in E3 as [Ha%N.leb_le Hb%N.leb_le].
    destruct r0 as [|b1 [|b2 r2]]; try done.
    destruct (_ && is_cont (byte_val b2)) eqn:Ec; [|done].
    apply andb_true_iff in Ec as [[H1%N.leb_le H2%N.leb_le]%andb_true_iff H3%is_cont_range].
    destruct (N.eqb_spec (byte_val b0) 224), (N.eqb_spec (byte_val b0) 237);
      apply (Hgo 2%nat); lia. }
  destruct ((240 <=? byte_val b0) && (byte_val b0 <=? 244)) eqn:E4; [|done].
  apply andb_true_iff in E4 as [Ha%N.leb_le Hb%N.leb_le].
  destruct r0 as [|b1 [|b2 [|b3 r3]]]; try done.
  destruct (_ && is_cont (byte_val b3)) eqn:Ec; [|done].
  apply andb_true_iff in Ec as
    [[[H1%N.leb_le H2%N.leb_le]%andb_true_iff H3%is_cont_range]%andb_true_iff
       H4%is_cont_range].
  destruct (N.eqb_spec (byte_val b0) 240), (N.eqb_spec (byte_val b0) 244);
    apply (Hgo 3%nat); lia.
Qed.

Lemma byte_val_bound b : byte_val b < 256.
Proof. unfold byte_val. pose proof (Byte.to_N_bounded b). lia. Qed.

Lemma decode_utf16le_unicode (bs : list byte) : forall s,
  decode_utf16le bs = Some s -> unicode_text s = true.
Proof.
  remember (length bs) as n eqn:E. revert bs E.
  induction n as [n IH] using lt_wf_ind. intros bs -> s.
  destruct bs as [|lo [|hi r]]; [by intros [= <-]|done|].
  cbn [decode_utf16le]. cbv zeta.
  pose proof (byte_val_bound lo). pose proof (byte_val_bound hi).
  assert (forall k c, c < 1114112 -> (c < 55296 \/ 57343 < c) ->
            cons c <$> decode_utf16le (drop k r) = Some s -> unicode_text s = true) as Hgo.
  { intros k c H1 H2 (t & Et & ->)%fmap_cons_some.
    apply unicode_cons; [done|done|].
    apply (IH (length (drop k r))) with (bs := drop k r); [|done|done].
    rewrite length_drop. cbn [length]. lia. }
  destruct (is_high_surrogate _) eqn:Eh.
  - destruct r as [|lo2 [|hi2 r2]]; try done.
    destruct (is_low_surrogate _) eqn:El; [|done].
    pose proof (join_surrogates_range _ _ Eh El).
    apply (Hgo 2%nat); lia.
  - destruct (is_low_surrogate _) eqn:El; [done|].
    apply (Hgo 0%nat); [lia|].
    unfold is_high_surrogate, is_low_surrogate in *.
    rewrite andb_false_iff, !N.leb_gt in Eh, El. lia.
Qed.

Lemma universal_newlines_unicode (s : str) :
  unicode_text s = true -> unicode_text (universal_newlines s) = true.
Proof.
  induction s as [s IH] using str_ind_length. intros Hu.
  destruct s as [|c s']; [done|]. cbn [universal_newlines].
  pose proof (unicode_tail _ _ Hu) as Hu'.
  destruct (c =? CR).
  - apply unicode_cons; [done|by left|].
    destruct s' as [|d s'']; [done|].
    destruct (d =? LF); apply IH; cbn [length]; try lia; try done.
    by apply (unicode_tail d).
  - destruct (unicode_head _ _ Hu) as [H1 H2].
    unfold unicode_text in *. cbn [forallb]. rewrite H1, H2. cbn [negb andb].
    apply IH; [cbn [length]; lia|done].
Qed.

(** What [read_file] returns holds no surrogate code point. *)
Lemma file_text_unicode enc (data : list byte) (s : str) :
  file_text enc data = Some s -> unicode_text s = true.
Proof.
  unfold file_text. destruct (decode enc data) as [t|] eqn:E; [|done].
  intros [= <-]. apply universal_newlines_unicode.
  destruct enc; [by apply (decode_utf8_unicode data)|by apply (decode_utf16le_unicode data)].
Qed.

(** ** Directories and what lies below them *)


Lemma starts_with_iff (p s : str) : starts_with p s = true <-> exists r, s = p ++ r.
Proof.
  unfold starts_with, str_eqb. rewrite bool_decide_eq_true. split.
  - intros H. exists (drop (length p) s). by rewrite <- H at 1; rewrite take_drop.
  - intros [r ->]. by rewrite take_app_length.
Qed.

Lemma below_iff (top k : str) :
  below top k = true <-> exists r, r <> [] /\ k = join top [] ++ r.
Proof.
  unfold below, str_eqb. rewrite andb_true_iff, starts_with_iff, negb_true_iff.
  rewrite bool_decide_eq_false. split.
  - intros [[r ->] Hne]. exists r. split; [|done]. intros ->. by rewrite app_nil_r in Hne.
  - intros (r & Hr & ->). split; [by exists r|].
    intros H. apply Hr. apply (app_inv_head (join top [])). by rewrite app_nil_r.
Qed.

Lemma entry_name_some top (k name : str) :
  entry_name top k = Some name ->
  k = join top name /\ name <> [] /\ mem SLASH name = false.
Proof.
  unfold entry_name. destruct (_ && _) eqn:E; [|done]. intros [= <-].
  apply andb_true_iff in E as [[H1 H2]%andb_true_iff H3].
  apply negb_true_iff in H2, H3. unfold str_eqb in H2.
  apply bool_decide_eq_false in H2. apply starts_with_iff in H1 as [r Hr].
  assert (drop (length (join top [])) k = r) as Er
    by (rewrite Hr at 1; by rewrite drop_app_length).
  rewrite Er in *. split_and!; try done.
  rewrite join_prefix by by apply free_starts. done.
Qed.

Lemma join_entry_name top (name : str) :
  name <> [] -> mem SLASH name = false -> entry_name top (join top name) = Some name.
Proof.
  intros H1 H2. unfold entry_name.
  rewrite (join_prefix top name) by by apply free_starts.
  rewrite drop_app_length.
  rewrite (proj2 (starts_with_iff _ _)) by eauto.
  unfold str_eqb. rewrite bool_decide_eq_false_2 by done. by rewrite H2.
Qed.

Lemma child_below top (d : str) :
  d <> [] -> mem SLASH d = false -> below top (join top d) = true.
Proof.
  intros H1 H2. apply below_iff. exists d. split; [done|].
  by apply join_prefix, free_starts.
Qed.

(** The prefix of the entries of a child directory. *)
Lemma join_child_nil top (d : str) :
  d <> [] -> mem SLASH d = false -> join (join top d) [] = join top [] ++ d ++ [SLASH].
Proof.
  intros H1 H2. rewrite (join_prefix top d) by by apply free_starts.
  destruct (exists_last H1) as (u & x & ->).
  rewrite mem_app in H2. apply orb_false_iff in H2 as [_ H2].
  unfold mem in H2. cbn [existsb] in H2. rewrite orb_false_r in H2.
  rewrite app_assoc. rewrite join_nil_plain.
  - by rewrite <- !app_assoc.
  - by destruct (join top [] ++ u).
  - rewrite ends_with_snoc. by rewrite N.eqb_sym.
Qed.

Lemma below_child top (d k : str) :
  d <> [] -> mem SLASH d = false -> below (join top d) k = true -> below top k = true.
Proof.
  intros H1 H2 (r & Hr & ->)%below_iff. rewrite join_child_nil by done.
  apply below_iff. exists (d ++ [SLASH] ++ r). split; [by destruct d|].
  by rewrite <- !app_assoc.
Qed.

Lemma slash_free_split (d d' r r' : str) :
  mem SLASH d = false -> mem SLASH d' = false ->
  d ++ SLASH :: r = d' ++ SLASH :: r' -> d = d'.
Proof.
  revert d'. induction d as [|x d IH]; intros [|y d'] Hd Hd'; try done.
  - cbn [app]. intros [= <- _]. unfold mem in Hd'. cbn [existsb] in Hd'.
    by rewrite N.eqb_refl in Hd'.
  - cbn [app]. intros [= -> _]. unfold mem in Hd. cbn [existsb] in Hd.
    by rewrite N.eqb_refl in Hd.
  - cbn [app]. intros [= -> E]. f_equal.
    unfold mem in Hd, Hd'. cbn [existsb] in Hd, Hd'.
    apply orb_false_iff in Hd as [_ Hd]. apply orb_false_iff in Hd' as [_ Hd'].
    by apply (IH d').
Qed.

(** Two different children of a directory have nothing in common. *)
Lemma below_children_disjoint top (d d' k : str) :
  d <> [] -> mem SLASH d = false -> d' <> [] -> mem SLASH d' = false ->
  below (join top d) k = true -> below (join top d') k = true -> d = d'.
Proof.
  intros H1 H2 H1' H2' (r & _ & ->)%below_iff (r' & _ & E)%below_iff.
  rewrite !join_child_nil in E by done. rewrite <- !app_assoc in E.
  apply app_inv_head in E. cbn [app] in E. by apply (slash_free_split d d' r r').
Qed.

Lemma child_not_below_itself top (d : str) :
  d <> [] -> mem SLASH d = false -> below (join top d) (join top d) = false.
Proof.
  intros H1 H2. apply not_true_is_false. intros (r & _ & E)%below_iff.
  rewrite join_child_nil in E by done.
  rewrite (join_prefix top d) in E by by apply free_starts.
  apply (f_equal length) in E. rewrite !length_app in E. cbn [length] in E. lia.
Qed.

Lemma last_not_slash (u : str) x :
  mem SLASH (u ++ [x]) = false -> x <> SLASH.
Proof.
  rewrite mem_app. intros [_ H]%orb_false_iff. unfold mem in H. cbn [existsb] in H.
  rewrite orb_false_r in H. apply N.eqb_neq in H. congruence.
Qed.

Lemma clean_child top (d : str) :
  d <> [] -> mem SLASH d = false -> clean (join top d) = true.
Proof.
  intros H1 H2. rewrite (join_prefix top d) by by apply free_starts.
  destruct (exists_last H1) as (u & x & ->). apply last_not_slash in H2.
  unfold clean. rewrite app_assoc, ends_with_snoc.
  apply N.eqb_neq in H2. rewrite H2. by rewrite orb_true_r.
Qed.

Lemma rstrip_slash_snoc (u : str) x :
  x <> SLASH -> rstrip_slash ((u ++ [x]) ++ [SLASH]) = u ++ [x].
Proof.
  intros Hx. unfold rstrip_slash. rewrite !rev_app_distr. cbn [rev app].
  rewrite !span_cons. rewrite N.eqb_refl.
  assert ((SLASH =? x) = false) as -> by (apply N.eqb_neq; congruence).
  change (drop 1 (SLASH :: x :: rev u)) with (x :: rev u).
  cbn [rev]. by rewrite rev_involutive.
Qed.

Lemma all_slashes_snoc (u : str) x : all_slashes (u ++ [x]) = all_slashes u && (SLASH =? x).
Proof. unfold all_slashes. rewrite forallb_app. cbn [forallb]. by rewrite andb_true_r. Qed.

Lemma dirname_prefixed (pre f : str) :
  mem SLASH f = false ->
  dirname (pre ++ SLASH :: f) =
  if all_slashes (pre ++ [SLASH]) then pre ++ [SLASH] else rstrip_slash (pre ++ [SLASH]).
Proof.
  intros Hf. unfold dirname. rewrite rfind_snoc_free by done.
  replace (Z.to_nat (Z.of_nat (length pre) + 1)) with (length (pre ++ [SLASH]))
    by (rewrite length_app; cbn [length]; lia).
  change (pre ++ SLASH :: f) with (pre ++ [SLASH] ++ f). rewrite app_assoc.
  rewrite take_app_length. unfold str_eqb.
  rewrite bool_decide_eq_false_2 by (by destruct pre). cbn [negb andb].
  by destruct (all_slashes _).
Qed.

Lemma dirname_join_clean top (f : str) :
  clean top = true -> mem SLASH f = false -> dirname (join top f) = top.
Proof.
  intros Hc Hf. unfold clean in Hc.
  destruct top as [|c0 top'] using rev_ind.
  { unfold join. rewrite (free_starts _ _ Hf).
    change (str_eqb [] [] || ends_with_char SLASH []) with true. cbv iota. cbn [app].
    unfold dirname. apply rfind_none in Hf. rewrite Hf. done. }
  clear IHtop'. rename top' into u. rename c0 into x.
  unfold str_eqb in Hc. rewrite bool_decide_eq_false_2 in Hc by (by destruct u).
  cbn [orb] in Hc. rewrite ends_with_snoc, all_slashes_snoc in Hc.
  destruct (N.eqb_spec x SLASH) as [->|Hx].
  - rewrite N.eqb_refl, andb_true_r in Hc. cbn [negb] in Hc. rewrite orb_false_r in Hc.
    unfold join. rewrite (free_starts _ _ Hf), ends_with_snoc, N.eqb_refl, orb_true_r.
    rewrite <- app_assoc. cbn [app]. rewrite dirname_prefixed by done.
    by rewrite all_slashes_snoc, Hc, N.eqb_refl.
  - unfold join. rewrite (free_starts _ _ Hf), ends_with_snoc.
    unfold str_eqb. rewrite bool_decide_eq_false_2 by (by destruct u).
    assert ((x =? SLASH) = false) as -> by (by apply N.eqb_neq). cbn [orb app].
    rewrite dirname_prefixed by done.
    rewrite !all_slashes_snoc. rewrite N.eqb_refl, andb_true_r.
    assert ((SLASH =? x) = false) as -> by (apply N.eqb_neq; congruence).
    rewrite andb_false_r. by apply rstrip_slash_snoc.
Qed.

Lemma backup_folder_join top (f : str) :
  clean top = true -> mem SLASH f = false ->
  backup_folder_of (join top f) = join top (str_of "backup").
Proof. intros Hc Hf. unfold backup_folder_of. by rewrite dirname_join_clean. Qed.

Lemma backup_not_below_child top (d : str) :
  d <> [] -> mem SLASH d = false ->
  below (join top d) (join top (str_of "backup")) = false.
Proof.
  intros H1 H2. apply not_true_is_false. intros (r & _ & E)%below_iff.
  rewrite join_child_nil in E by done.
  rewrite (join_prefix top (str_of "backup")) in E by done.
  rewrite <- !app_assoc in E. apply app_inv_head in E.
  assert (mem SLASH (str_of "backup") = true) as Hm; [|done].
  rewrite E, !mem_app. cbn [app mem existsb]. unfold mem. cbn [existsb].
  rewrite N.eqb_refl. cbn [orb]. by rewrite orb_true_r.
Qed.

(** ** What one run of [process_file] does to a walk *)




Lemma grows_refl (fs : gmap str node) : grows fs fs.
Proof. intros k. by destruct (fs !! k) as [[?|]|]. Qed.

Lemma grows_trans (a b c : gmap str node) : grows a b -> grows b c -> grows a c.
Proof.
  intros H1 H2 k. specialize (H1 k). specialize (H2 k).
  destruct (a !! k) as [[?|]|]; [|by rewrite H1 in H2|done].
  destruct (b !! k) as [[?|]|]; done.
Qed.

Lemma grows_insert_file (fs : gmap str node) p data :
  is_dir_node (fs !! p) = false -> grows fs (<[p := File data]> fs).
Proof.
  intros H k. destruct (decide (p = k)) as [->|Hne].
  - rewrite lookup_insert_eq. by destruct (fs !! k) as [[?|]|].
  - rewrite lookup_insert_ne by done. by destruct (fs !! k) as [[?|]|].
Qed.

Lemma grows_insert_new (fs : gmap str node) p n :
  fs !! p = None -> grows fs (<[p := n]> fs).
Proof.
  intros H k. destruct (decide (p = k)) as [->|Hne].
  - by rewrite H.
  - rewrite lookup_insert_ne by done. by destruct (fs !! k) as [[?|]|].
Qed.

Lemma is_dir_insert_file (fs : gmap str node) p data k :
  is_dir_node (fs !! p) = false ->
  is_dir_node (<[p := File data]> fs !! k) = is_dir_node (fs !! k).
Proof.
  intros H. destruct (decide (p = k)) as [->|Hne].
  - by rewrite lookup_insert_eq, H.
  - by rewrite lookup_insert_ne.
Qed.

Lemma quiet_app (a b : list event) : quiet (a ++ b) = quiet a && quiet b.
Proof. apply forallb_app. Qed.

Section WalkFacts.

Variable float_of_literal : str -> spec_float.
Variable float_repr : spec_float -> str.
Variable str_lower : str -> str.

Abbreviation process_file' := (process_file float_of_literal float_repr str_lower).
Abbreviation file_outcome' := (file_outcome float_of_literal float_repr str_lower).
Abbreviation copy_outcome' := (copy_outcome float_of_literal float_repr str_lower).
Abbreviation finish_outcome' := (finish_outcome float_of_literal float_repr str_lower).
Abbreviation minified' := (minified float_of_literal float_repr str_lower).
Abbreviation is_supported' := (is_supported str_lower).
Abbreviation process_files' := (process_files float_of_literal float_repr str_lower).
Abbreviation walk' := (walk float_of_literal float_repr str_lower).
Abbreviation process_directory' := (process_directory float_of_literal float_repr str_lower).


Lemma steady_failed keep fp e line fs t new :
  quiet new = true -> steady keep fs t (failed fp e line fs (t ++ new)).
Proof.
  intros H. exists false, fs, (new ++ failure_report fp e line).
  unfold failed. rewrite <- app_assoc. split_and!; try done.
  - by rewrite quiet_app, H.
  - apply grows_refl.
Qed.

Lemma steady_finish fp enc c fs3 t new :
  quiet new = true ->
  steady (fun _ => True) fs3 t (finish_outcome' fp enc c fs3 (t ++ new)).
Proof.
  intros H. unfold finish_outcome.
  destruct c as [content|].
  2:{ rewrite <- app_assoc. apply steady_failed. by rewrite quiet_app, H. }
  destruct (minified' fp content) as [out|].
  2:{ exists false, fs3, (new ++ [ReadFile fp enc] ++ [Printed JsonError]).
      rewrite <- !app_assoc. split_and!; try done;
        [by rewrite quiet_app, H|apply grows_refl]. }
  destruct (fs3 !! output_path_of fp) as [[data'|]|] eqn:E.
  - destruct (encode enc out) as [bytes|].
    + exists true, (<[output_path_of fp := File bytes]> fs3),
        (new ++ [ReadFile fp enc] ++ [WriteFile (output_path_of fp) enc]
           ++ success_report fp enc).
      rewrite <- !app_assoc. split_and!; try done;
        [by rewrite quiet_app, H|apply grows_insert_file; by rewrite E|].
      intros k _. apply is_dir_insert_file. by rewrite E.
    + unfold failed.
      exists false, (<[output_path_of fp := File []]> fs3),
        (new ++ [ReadFile fp enc] ++ [WriteFile (output_path_of fp) enc]
           ++ failure_report fp UnicodeEncodeError 144).
      rewrite <- !app_assoc. split_and!; try done;
        [by rewrite quiet_app, H|apply grows_insert_file; by rewrite E|].
      intros k _. apply is_dir_insert_file. by rewrite E.
  - rewrite <- !app_assoc. apply steady_failed. by rewrite quiet_app, H.
  - destruct (encode enc out) as [bytes|].
    + exists true, (<[output_path_of fp := File bytes]> fs3),
        (new ++ [ReadFile fp enc] ++ [WriteFile (output_path_of fp) enc]
           ++ success_report fp enc).
      rewrite <- !app_assoc. split_and!; try done;
        [by rewrite quiet_app, H|apply grows_insert_file; by rewrite E|].
      intros k _. apply is_dir_insert_file. by rewrite E.
    + unfold failed.
      exists false, (<[output_path_of fp := File []]> fs3),
        (new ++ [ReadFile fp enc] ++ [WriteFile (output_path_of fp) enc]
           ++ failure_report fp UnicodeEncodeError 144).
      rewrite <- !app_assoc. split_and!; try done;
        [by rewrite quiet_app, H|apply grows_insert_file; by rewrite E|].
      intros k _. apply is_dir_insert_file. by rewrite E.
Qed.

Lemma steady_weaken (keep keep' : str -> Prop) fs fs0 t r :
  (forall k, keep' k -> keep k) ->
  grows fs0 fs ->
  (forall k, keep' k -> is_dir_node (fs !! k) = is_dir_node (fs0 !! k)) ->
  steady keep fs t r -> steady keep' fs0 t r.
Proof.
  intros Hk Hg Hfs (ok & fs' & new & -> & Hq & Hg' & Hd). exists ok, fs', new.
  split_and!; try done; [by eapply grows_trans|].
  intros k Hk'. rewrite Hd by auto. auto.
Qed.

Lemma steady_copy fp data fs2 t new :
  quiet new = true ->
  steady (fun _ => True) fs2 t (copy_outcome' fp data fs2 (t ++ new)).
Proof.
  intros H. unfold copy_outcome. cbv zeta.
  set (dst := match fs2 !! backup_path_of fp with
              | Some Dir => backup_inside_of fp
              | _ => backup_path_of fp
              end).
  rewrite <- app_assoc.
  assert (quiet (new ++ [Copy2 fp (backup_path_of fp)]) = true) as Hq
    by (by rewrite quiet_app, H).
  destruct (str_eqb fp dst); [by apply steady_failed|].
  destruct (fs2 !! dst) as [[data'|]|] eqn:E; [|by apply steady_failed|].
  - eapply steady_weaken; [| | |by apply steady_finish];
      [done|apply grows_insert_file; by rewrite E|].
    intros k _. apply is_dir_insert_file. by rewrite E.
  - eapply steady_weaken; [| | |by apply steady_finish];
      [done|apply grows_insert_file; by rewrite E|].
    intros k _. apply is_dir_insert_file. by rewrite E.
Qed.

Lemma quiet_detection fp data : quiet (detection_trace fp data) = true.
Proof. unfold detection_trace. by destruct (decode UTF8 data), (decode UTF16LE data). Qed.

Lemma steady_process_file fp w :
  steady (fun k => k <> backup_folder_of fp) (files w) (trace w) (process_file' fp w).
Proof.
  rewrite process_file_outcome. unfold file_outcome. cbv zeta.
  destruct (files w !! fp) as [[data|]|] eqn:Efp.
  2,3: by (exists false, (files w), [Printed (FileNotFound fp)];
           split_and!; try done; apply grows_refl).
  assert (quiet (detection_trace fp data ++ [MakeDirs (backup_folder_of fp)]) = true)
    as Hq by (by rewrite quiet_app, quiet_detection).
  destruct (files w !! backup_folder_of fp) as [[?|]|] eqn:Ebf.
  - by apply steady_failed.
  - eapply steady_weaken; [| | |by apply steady_copy]; [done|apply grows_refl|done].
  - eapply steady_weaken; [| | |by apply steady_copy];
      [done|by apply grows_insert_new|].
    intros k Hk. by rewrite lookup_insert_ne.
Qed.

Lemma listings_app (a b : list event) : listings (a ++ b) = listings a ++ listings b.
Proof. apply omap_app. Qed.

Lemma processed_app (a b : list event) : processed (a ++ b) = processed a ++ processed b.
Proof. apply omap_app. Qed.

Lemma quiet_listings (new : list event) : quiet new = true -> listings new = [].
Proof.
  induction new as [|e new IH]; [done|]. unfold quiet. cbn [forallb].
  intros [He Hn]%andb_true_iff. destruct e; try done; by apply IH.
Qed.

Lemma quiet_processed (new : list event) : quiet new = true -> processed new = [].
Proof.
  induction new as [|e new IH]; [done|]. unfold quiet. cbn [forallb].
  intros [He Hn]%andb_true_iff. destruct e; try done; by apply IH.
Qed.

Lemma tally_cons fp ok ps (acc : nat * nat) :
  tally ((fp, ok) :: ps) acc
  = tally ps (if ok then (S (fst acc), snd acc) else (fst acc, S (snd acc))).
Proof. unfold tally. destruct ok; cbn [List.filter snd fst negb length]; f_equal; lia. Qed.

Lemma process_files_run root (names : list str) : forall (acc : nat * nat) w,
  clean root = true ->
  Forall (fun f => mem SLASH f = false) names ->
  exists acc' fs' new,
    process_files' root names acc w = (Ok acc', World fs' (trace w ++ new))
    /\ listings new = []
    /\ map fst (processed new) = map (join root) (List.filter is_supported' names)
    /\ acc' = tally (processed new) acc
    /\ grows (files w) fs'
    /\ forall k, k <> join root (str_of "backup") ->
         is_dir_node (fs' !! k) = is_dir_node (files w !! k).
Proof.
  induction names as [|file rest IH]; intros acc w Hc Hn.
  - exists acc, (files w), []. rewrite app_nil_r. destruct w, acc.
    split_and!; try done; [|apply grows_refl].
    unfold tally. cbn. f_equal; lia.
  - apply Forall_cons in Hn as [Hf Hn]. cbn [process_files List.filter].
    destruct (is_supported' file) eqn:Es; [|by apply IH].
    destruct (steady_process_file (join root file) w)
      as (ok & fs1 & new1 & E1 & Hq1 & Hg1 & Hd1).
    rewrite backup_folder_join in Hd1 by done.
    unfold bind at 1. rewrite E1. unfold bind at 1, emit at 1. cbn [files trace].
    destruct (IH (if ok then (S (fst acc), snd acc) else (fst acc, S (snd acc)))
                (World fs1 ((trace w ++ new1) ++ [Processed (join root file) ok])) Hc Hn)
      as (acc' & fs' & new2 & E2 & Hl2 & Hp2 & Ha2 & Hg2 & Hd2).
    exists acc', fs', (new1 ++ [Processed (join root file) ok] ++ new2).
    cbn [files trace] in *. split_and!.
    + rewrite E2. by rewrite <- !app_assoc.
    + rewrite !listings_app, Hl2, (quiet_listings _ Hq1). done.
    + rewrite !processed_app, (quiet_processed _ Hq1).
      change (processed [Processed (join root file) ok]) with [(join root file, ok)].
      cbn [app map fst]. by rewrite Hp2.
    + rewrite !processed_app, (quiet_processed _ Hq1).
      change (processed [Processed (join root file) ok]) with [(join root file, ok)].
      cbn [app]. by rewrite tally_cons.
    + by eapply grows_trans.
    + intros k Hk. rewrite Hd2 by done. by apply Hd1.
Qed.

(** *** What a listing holds *)

Lemma NoDup_omap_inj {A B} (f : A -> option B) (l : list A) :
  NoDup l ->
  (forall x y z, x ∈ l -> y ∈ l -> f x = Some z -> f y = Some z -> x = y) ->
  NoDup (omap f l).
Proof.
  induction 1 as [|x l Hx Hl IH]; intros Hinj; [constructor|].
  csimpl. destruct (f x) as [z|] eqn:E.
  - constructor.
    + intros (y & Hy & Ey)%list_elem_of_omap.
      assert (x = y) as -> by (eapply Hinj; eauto; [left|by right]). done.
    + apply IH. intros a b c Ha Hb. apply Hinj; by right.
  - apply IH. intros a b c Ha Hb. apply Hinj; by right.
Qed.

Lemma entries_elem (top : str) (fs : gmap str node) (name : str) (n : node) :
  (name, n) ∈ entries top fs <->
  fs !! join top name = Some n /\ name <> [] /\ mem SLASH name = false.
Proof.
  unfold entries. rewrite list_elem_of_omap. split.
  - intros ([k n'] & Hin%elem_of_map_to_list & E). cbn [fst snd] in E.
    destruct (entry_name top k) as [name'|] eqn:En; [|done].
    injection E as -> ->. apply entry_name_some in En as (-> & ? & ?). done.
  - intros (Hl & H1 & H2). exists (join top name, n). split.
    + by apply elem_of_map_to_list.
    + cbn [fst snd]. by rewrite join_entry_name.
Qed.

Lemma entries_nodup (top : str) (fs : gmap str node) : NoDup (entries top fs).
Proof.
  unfold entries. apply NoDup_omap_inj; [apply NoDup_map_to_list|].
  intros [k1 n1] [k2 n2] [name n] _ _. cbn [fst snd].
  destruct (entry_name top k1) as [a|] eqn:E1; [|done].
  destruct (entry_name top k2) as [b|] eqn:E2; [|done].
  intros [= -> ->] [= -> ->].
  apply entry_name_some in E1 as (-> & _). apply entry_name_some in E2 as (-> & _).
  done.
Qed.

Lemma names_of_elem (want : bool) (es : list (str * node)) (name : str) :
  name ∈ names_of want es <->
  exists n, (name, n) ∈ es /\ (if want then n = Dir else n <> Dir).
Proof.
  unfold names_of. rewrite list_elem_of_omap. split.
  - intros ([name' n] & Hin & E). cbn [fst snd] in E. exists n.
    destruct n, want; try done; injection E as ->; done.
  - intros (n & Hin & Hn). exists (name, n). split; [done|]. cbn [fst snd].
    destruct n, want; done.
Qed.

Lemma names_of_nodup (want : bool) (es : list (str * node)) :
  NoDup (map fst es) -> NoDup (names_of want es).
Proof.
  induction es as [|[name n] es IH]; [constructor|].
  cbn [map fst]. intros [Hx Hl]%NoDup_cons. specialize (IH Hl).
  assert (name ∉ names_of want es) as Hnot.
  { intros (n' & Hin & _)%names_of_elem. apply Hx.
    apply (list_elem_of_fmap_2' fst _ (name, n')); done. }
  unfold names_of in *. csimpl. destruct n, want; try done; by constructor.
Qed.

Lemma entries_names_nodup (top : str) (fs : gmap str node) : NoDup (map fst (entries top fs)).
Proof.
  apply NoDup_fmap_2_strong; [|apply entries_nodup].
  intros [a n1] [b n2] [H1 _]%entries_elem [H2 _]%entries_elem. cbn [fst].
  intros ->. congruence.
Qed.

Lemma listed_dir (top : str) (fs : gmap str node) (d : str) :
  d ∈ names_of true (entries top fs) ->
  fs !! join top d = Some Dir /\ d <> [] /\ mem SLASH d = false.
Proof. by intros (n & Hin%entries_elem & ->)%names_of_elem. Qed.

Lemma listed_file (top : str) (fs : gmap str node) (f : str) :
  f ∈ names_of false (entries top fs) -> mem SLASH f = false.
Proof. by intros (n & (_ & _ & ?)%entries_elem & _)%names_of_elem. Qed.

Lemma listed_dirs_nodup (top : str) (fs : gmap str node) : NoDup (names_of true (entries top fs)).
Proof. apply names_of_nodup, entries_names_nodup. Qed.

(** *** The walk *)


Lemma walk_S fuel (top : str) (acc : nat * nat) :
  walk' (S fuel) top acc =
  (let* listing := scandir top in
   match listing with
   | None => ret acc
   | Some (dirs, nondirs) =>
       let* acc := process_files' top nondirs acc in
       walk_dirs (walk' fuel) top dirs acc
   end).
Proof. reflexivity. Qed.

Lemma scandir_run (top : str) w :
  scandir top w
  = (Ok (listing_of top (files w)),
     World (files w) (trace w ++ [Listed top (listing_of top (files w))])).
Proof. reflexivity. Qed.

Lemma tally_app (p1 p2 : list (str * bool)) (acc : nat * nat) :
  tally (p1 ++ p2) acc = tally p2 (tally p1 acc).
Proof.
  unfold tally. rewrite !List.filter_app, !length_app. cbn [fst snd]. f_equal; lia.
Qed.

Lemma tally_nil (acc : nat * nat) : tally [] acc = acc.
Proof. unfold tally. destruct acc. cbn. f_equal; lia. Qed.

Lemma filter_length_le {A} (P Q : A -> bool) (l : list A) :
  (forall y, P y = true -> Q y = true) ->
  (length (List.filter P l) <= length (List.filter Q l))%nat.
Proof.
  intros H. induction l as [|y l IH]; [done|]. cbn [List.filter].
  destruct (P y) eqn:E.
  - rewrite (H y E). cbn [length]. lia.
  - destruct (Q y); cbn [length]; lia.
Qed.

Lemma filter_length_lt {A} (P Q : A -> bool) (l : list A) x :
  (forall y, P y = true -> Q y = true) ->
  x ∈ l -> Q x = true -> P x = false ->
  (length (List.filter P l) < length (List.filter Q l))%nat.
Proof.
  intros H Hx HQ HP. induction l as [|y l IH]; [by apply elem_of_nil in Hx|].
  pose proof (filter_length_le P Q l H) as Hle. cbn [List.filter].
  apply elem_of_cons in Hx as [<-|Hx].
  - rewrite HP, HQ. cbn [length]. lia.
  - specialize (IH Hx). destruct (P y) eqn:E.
    + rewrite (H y E). cbn [length]. lia.
    + destruct (Q y); cbn [length]; lia.
Qed.

Lemma depth_child (fs0 : gmap str node) (top d : str) :
  d <> [] -> mem SLASH d = false -> fs0 !! join top d = Some Dir ->
  (depth_bound fs0 (join top d) < depth_bound fs0 top)%nat.
Proof.
  intros H1 H2 Hd. unfold depth_bound.
  apply filter_length_lt with (x := join top d).
  - intros k [Hb Hk]%andb_true_iff. rewrite Hk, andb_true_r. by eapply below_child.
  - apply (list_elem_of_fmap_2' fst _ (join top d, Dir)); [|done].
    by apply elem_of_map_to_list.
  - by rewrite child_below, Hd.
  - by rewrite child_not_below_itself.
Qed.

Lemma depth_bound_size (fs0 : gmap str node) (top : str) :
  (depth_bound fs0 top <= size fs0)%nat.
Proof.
  unfold depth_bound. etrans; [apply List.filter_length_le|].
  by rewrite length_map, length_map_to_list.
Qed.

Lemma inside_grows (fs fs' : gmap str node) (top path : str) :
  grows fs fs' -> inside fs top path -> inside fs' top path.
Proof.
  intros Hg. induction 1 as [top name Ht H1 H2|top d path Ht H1 H2 _ IH].
  - apply inside_entry; try done. specialize (Hg top). by rewrite Ht in Hg.
  - apply inside_deeper with (d := d); try done.
    specialize (Hg top). by rewrite Ht in Hg.
Qed.

Lemma grows_file (fs fs' : gmap str node) (k : str) :
  grows fs fs' -> is_file_node (fs !! k) = true -> is_file_node (fs' !! k) = true.
Proof. intros Hg H. specialize (Hg k). by destruct (fs !! k) as [[?|]|]. Qed.

Lemma grows_dir (fs fs' : gmap str node) (k : str) :
  grows fs fs' -> fs !! k = Some Dir -> fs' !! k = Some Dir.
Proof. intros Hg H. specialize (Hg k). by rewrite H in Hg. Qed.

Lemma closed_app (a b : list (str * option (list str * list str))) :
  closed a -> closed b -> closed (a ++ b).
Proof.
  unfold closed. intros Ha Hb. apply Forall_app. split.
  - eapply Forall_impl; [exact Ha|]. intros l Hl. eapply Forall_impl; [exact Hl|].
    intros d [l' Hin]. exists l'. apply elem_of_app. by left.
  - eapply Forall_impl; [exact Hb|]. intros l Hl. eapply Forall_impl; [exact Hl|].
    intros d [l' Hin]. exists l'. apply elem_of_app. by right.
Qed.

Lemma inside_dir (fs : gmap str node) (top path : str) :
  inside fs top path -> fs !! top = Some Dir.
Proof. by destruct 1. Qed.

Lemma is_dir_some (o : option node) : is_dir_node o = true <-> o = Some Dir.
Proof. destruct o as [[?|]|]; split; done. Qed.

Lemma walk_dirs_run (fs0 : gmap str node) fuel (top : str)
    (IH : forall (top : str) (acc : nat * nat) w,
        clean top = true -> (depth_bound fs0 top < fuel)%nat ->
        old_dirs fs0 (files w) top ->
        exists acc' fs' new,
          walk' fuel top acc w = (Ok acc', World fs' (trace w ++ new))
          /\ walk_post is_supported' top (files w) acc acc' fs' new)
    (dirs : list str) : forall (acc : nat * nat) w,
  NoDup dirs ->
  Forall (fun d => d <> [] /\ mem SLASH d = false /\ fs0 !! join top d = Some Dir) dirs ->
  (forall d, d ∈ dirs -> old_dirs fs0 (files w) (join top d)) ->
  (depth_bound fs0 top <= fuel)%nat ->
  exists acc' fs' new,
    walk_dirs (walk' fuel) top dirs acc w = (Ok acc', World fs' (trace w ++ new))
    /\ loop_post is_supported' top dirs (files w) acc acc' fs' new.
Proof.
  induction dirs as [|d rest IHd]; intros acc w Hnd Hdirs Hold Hfuel.
  - exists acc, (files w), []. rewrite app_nil_r. destruct w. split; [done|].
    unfold loop_post. split_and!; try done.
    + constructor.
    + by rewrite tally_nil.
    + apply grows_refl.
    + intros d path Hd. by apply elem_of_nil in Hd.
  - apply NoDup_cons in Hnd as [Hd Hnd].
    apply Forall_cons in Hdirs as [(Hd1 & Hd2 & Hd3) Hdirs].
    destruct (IH (join top d) acc w) as (acc1 & fs1 & new1 & E1 & P1).
    { by apply clean_child. }
    { pose proof (depth_child fs0 top d Hd1 Hd2 Hd3). lia. }
    { apply Hold. left. }
    destruct P1 as ((rest1 & Hl1) & Hc1 & Hp1 & Ha1 & Hg1 & Hf1 & Hi1).
    destruct (IHd acc1 (World fs1 (trace w ++ new1)) Hnd Hdirs) as
      (acc' & fs' & new2 & E2 & P2); [|done|].
    { intros d' Hd' k Hk Hdir. cbn [files] in Hdir.
      assert (below (join top d) k = false) as Hnb.
      { apply not_true_is_false. intros Hb.
        apply (proj1 (Forall_forall _ _) Hdirs) in Hd' as Hd''.
        destruct Hd'' as (Hd1' & Hd2' & _).
        pose proof (below_children_disjoint top d d' k Hd1 Hd2 Hd1' Hd2' Hb Hk).
        by subst. }
      rewrite Hf1 in Hdir by done. apply (Hold d'); [by right|done|done]. }
    destruct P2 as (Hh2 & Hc2 & Hp2 & Ha2 & Hg2 & Hf2 & Hi2). cbn [files trace] in *.
    exists acc', fs', (new1 ++ new2). split.
    { cbn [walk_dirs]. unfold bind at 1. rewrite E1. fold (walk_dirs (walk' fuel) top).
      rewrite E2. by rewrite <- app_assoc. }
    unfold loop_post. rewrite listings_app, processed_app. split_and!.
    + constructor.
      * exists (listing_of (join top d) (files w)). rewrite Hl1. left.
      * eapply Forall_impl; [exact Hh2|]. intros d' [l' Hin]. exists l'.
        apply elem_of_app. by right.
    + by apply closed_app.
    + by rewrite map_app, flat_map_app, Hp1, Hp2.
    + by rewrite tally_app, <- Ha1.
    + by eapply grows_trans.
    + intros k Hk. rewrite Hf2, Hf1; [done| |].
      * apply Hk. left.
      * intros d' Hd'. apply Hk. by right.
    + intros d' path [->|Hd']%elem_of_cons Hin Hfile Hsup; rewrite map_app;
        apply elem_of_app.
      * left. by apply Hi1.
      * right. apply (Hi2 d'); try done.
        -- by eapply inside_grows.
        -- by eapply grows_file.
Qed.

Lemma listing_of_some (top : str) (fs : gmap str node) dirs nondirs :
  listing_of top fs = Some (dirs, nondirs) ->
  fs !! top = Some Dir
  /\ dirs = names_of true (entries top fs)
  /\ nondirs = names_of false (entries top fs).
Proof.
  unfold listing_of. destruct (fs !! top) as [[?|]|]; try done. by intros [= <- <-].
Qed.

Lemma walk_run (fs0 : gmap str node) fuel : forall (top : str) (acc : nat * nat) w,
  clean top = true -> (depth_bound fs0 top < fuel)%nat ->
  old_dirs fs0 (files w) top ->
  exists acc' fs' new,
    walk' fuel top acc w = (Ok acc', World fs' (trace w ++ new))
    /\ walk_post is_supported' top (files w) acc acc' fs' new.
Proof.
  induction fuel as [|fuel IH]; intros top acc w Hc Hfuel Hold; [lia|].
  rewrite walk_S. unfold bind at 1. rewrite scandir_run.
  destruct (listing_of top (files w)) as [[dirs nondirs]|] eqn:El.
  2:{ exists acc, (files w), [Listed top None]. split; [done|].
      unfold walk_post. rewrite El. split_and!; try done.
      - by exists [].
      - repeat constructor.
      - by rewrite tally_nil.
      - apply grows_refl.
      - intros path Hin%inside_dir. unfold listing_of in El. by rewrite Hin in El. }
  destruct (listing_of_some _ _ _ _ El) as (Htop & Edirs & Enondirs).
  set (w1 := World (files w) (trace w ++ [Listed top (Some (dirs, nondirs))])).
  destruct (process_files_run top nondirs acc w1 Hc) as
    (acc1 & fs1 & new1 & E1 & Hl1 & Hp1 & Ha1 & Hg1 & Hf1).
  { apply Forall_forall. intros f Hf. rewrite Enondirs in Hf. by eapply listed_file. }
  cbn [files trace w1] in *.
  assert (forall d, d ∈ dirs ->
            d <> [] /\ mem SLASH d = false /\ files w !! join top d = Some Dir) as Hdirs.
  { intros d Hd. rewrite Edirs in Hd. by destruct (listed_dir _ _ _ Hd) as (? & ? & ?). }
  destruct (walk_dirs_run fs0 fuel top IH dirs acc1
              (World fs1 ((trace w ++ [Listed top (Some (dirs, nondirs))]) ++ new1)))
    as (acc' & fs' & new2 & E2 & P2).
  { rewrite Edirs. apply listed_dirs_nodup. }
  { apply Forall_forall. intros d Hd. destruct (Hdirs d Hd) as (H1 & H2 & H3).
    split_and!; try done. apply is_dir_some. apply (Hold (join top d)).
    - by apply child_below.
    - by rewrite H3. }
  { intros d Hd k Hk Hdir. cbn [files] in Hdir.
    destruct (Hdirs d Hd) as (H1 & H2 & H3).
    rewrite Hf1 in Hdir.
    - apply Hold; [by eapply below_child|done].
    - intros ->. by rewrite backup_not_below_child in Hk. }
  { lia. }
  destruct P2 as (Hh2 & Hc2 & Hp2 & Ha2 & Hg2 & Hf2 & Hi2). cbn [files trace] in *.
  exists acc', fs', ([Listed top (Some (dirs, nondirs))] ++ new1 ++ new2). split.
  { unfold bind at 1. rewrite E1. rewrite E2. by rewrite <- !app_assoc. }
  unfold walk_post. rewrite El.
  rewrite !listings_app, !processed_app, Hl1.
  change (listings [Listed top (Some (dirs, nondirs))]) with [(top, Some (dirs, nondirs))].
  change (processed [Listed top (Some (dirs, nondirs))]) with (@nil (str * bool)).
  cbn [app]. split_and!.
  - by exists (listings new2).
  - unfold closed. constructor.
    + unfold subdirs. cbn [fst snd]. apply Forall_forall.
      intros c (d & -> & Hd)%list_elem_of_fmap.
      destruct (proj1 (Forall_forall _ _) Hh2 d Hd) as [l' Hin]. exists l'. by right.
    + eapply Forall_impl; [exact Hc2|]. intros l Hl. eapply Forall_impl; [exact Hl|].
      intros d [l' Hin]. exists l'. by right.
  - rewrite map_app, Hp1, Hp2. done.
  - by rewrite tally_app, <- Ha1.
  - by eapply grows_trans.
  - intros k Hk. rewrite Hf2, Hf1; [done| |].
    + intros ->. by rewrite child_below in Hk.
    + intros d Hd. destruct (Hdirs d Hd) as (H1 & H2 & _).
      apply not_true_is_false. intros Hb. by rewrite (below_child top d k) in Hk.
  - intros path Hin Hfile Hsup. rewrite map_app. apply elem_of_app.
    destruct Hin as [top name _ Hn1 Hn2|top d path _ Hd1 Hd2 Hsub].
    + left. rewrite Hp1. rewrite basename_join in Hsup by done.
      apply (list_elem_of_fmap_2 (join top)). apply list_elem_of_In.
      apply filter_In. split; [|done]. apply list_elem_of_In.
      rewrite Enondirs. apply names_of_elem.
      destruct (files w !! join top name) as [[data|]|] eqn:En; try done.
      exists (File data). split; [by apply entries_elem|done].
    + right. apply (Hi2 d).
      * rewrite Edirs. apply names_of_elem. exists Dir. split; [|done].
        apply entries_elem. split_and!; try done. by eapply inside_dir.
      * by eapply inside_grows.
      * by eapply grows_file.
      * done.
Qed.



Lemma old_dirs_refl (fs0 : gmap str node) (top : str) : old_dirs fs0 fs0 top.
Proof. by intros k _ H. Qed.

Lemma process_directory_run (directory : str) w :
  clean directory = true ->
  exists acc' fs' new,
    process_directory' directory w
    = (Ok acc', World fs' (trace w ++ Printed (ProcessingDirectory directory) :: new))
    /\ walk_post is_supported' directory (files w) (0, 0)%nat acc' fs' new.
Proof.
  intros Hc. unfold process_directory, bind, print, emit. cbn [files trace].
  destruct (walk_run (files w) (S (size (files w))) directory (0, 0)%nat
              (World (files w) (trace w ++ [Printed (ProcessingDirectory directory)])) Hc)
    as (acc' & fs' & new & E & P).
  { pose proof (depth_bound_size (files w) directory). lia. }
  { apply old_dirs_refl. }
  exists acc', fs', new. cbn [files trace] in *. rewrite E. split; [|done].
  by rewrite <- app_assoc.
Qed.

End WalkFacts.

(* ===================================================================== *)
(** * Part III. The claims *)
(* ===================================================================== *)

(** ** The text minifier *)

(** C5. [minify_text] is the composition, in this order, of: every maximal
    run of carriage returns, line feeds and tabs becomes one space; every
    run of two or more spaces becomes one space; white space right before
    or right after one of the characters { } [ ] : , is removed; white space
    at both ends is trimmed.  On the text "Hello", two line feeds, a tab,
    "World   {foo}" it returns "Hello World{foo}". *)
Theorem minify_text_four_steps :
  (forall s : str,
     minify_text s =
     spec_trim
       (spec_strip_around_punct false
          (spec_collapse_spaces (spec_newlines_to_space s))))
  /\ minify_text hello_input = str_of "Hello World{foo}".
Proof. split; [apply minify_text_is_spec|reflexivity]. Qed.

(** C2. The text minifier is idempotent: minifying its output again gives
    the same string. *)
Theorem minify_text_idempotent (s : str) :
  minify_text (minify_text s) = minify_text s.
Proof. rewrite !minify_text_is_spec. apply spec_minify_text_idempotent. Qed.

(** ** The encoding detector *)

(** C7. On a file the detector decodes the whole content as UTF-8 first
    and as UTF-16 little endian next, and returns the first of the two that
    decodes without error; when neither does, it prints a warning and
    returns UTF-8.  The file system is left as it is. *)
Theorem detect_encoding_priority (file_path : str) (w : world) (data : list byte) :
  files w !! file_path = Some (File data) ->
  detect_encoding file_path w =
  match decode UTF8 data, decode UTF16LE data with
  | Some _, _ =>
      (Ok UTF8, World (files w) (trace w ++ [Probe file_path UTF8]))
  | None, Some _ =>
      (Ok UTF16LE,
       World (files w) (trace w ++ [Probe file_path UTF8; Probe file_path UTF16LE]))
  | None, None =>
      (Ok UTF8,
       World (files w)
         (trace w ++ [Probe file_path UTF8; Probe file_path UTF16LE;
                      Printed (EncodingWarning file_path)]))
  end.
Proof.
  intros H. rewrite (detect_encoding_run _ _ _ H). unfold detected, detection_trace.
  destruct (decode UTF8 data); [done|]. by destruct (decode UTF16LE data).
Qed.

Lemma detect_encoding_priority_witness :
  files world_utf16 !! str_of "le.txt" = Some (File utf16_bytes)
  /\ detect_encoding (str_of "le.txt") world_utf16 =
     (Ok UTF16LE,
      World (files world_utf16)
        [Probe (str_of "le.txt") UTF8; Probe (str_of "le.txt") UTF16LE]).
Proof.
  split; [reflexivity|].
  exact (detect_encoding_priority (str_of "le.txt") world_utf16 utf16_bytes eq_refl).
Defined.

(** ** The file processor *)

Section FileProcessor.

Variable float_of_literal : str -> spec_float.
Variable float_repr : spec_float -> str.
Variable str_lower : str -> str.

Abbreviation process_file' := (process_file float_of_literal float_repr str_lower).
Abbreviation minify_json' := (minify_json float_of_literal float_repr).

Lemma copy_target_plain (fp : str) (fs : gmap str node) :
  is_dir_node (fs !! backup_path_of fp) = false -> copy_target fp fs = backup_path_of fp.
Proof. unfold copy_target. by destruct (fs !! backup_path_of fp) as [[?|]|]. Qed.

Lemma copy_target_cases (fp : str) (fs : gmap str node) :
  copy_target fp fs = backup_path_of fp \/ copy_target fp fs = backup_inside_of fp.
Proof. unfold copy_target. destruct (fs !! backup_path_of fp) as [[?|]|]; auto. Qed.

(** The backup, once its folder is there and its path is free. *)
Lemma copy_outcome_backup (fp : str) (data : list byte) (fs2 : gmap str node)
    (t : list event) :
  is_dir_node (fs2 !! backup_path_of fp) = false ->
  exists post,
    let r := copy_outcome float_of_literal float_repr str_lower fp data fs2 t in
    files (snd r) !! backup_path_of fp = Some (File data)
    /\ trace (snd r) = t ++ Copy2 fp (backup_path_of fp) :: post.
Proof.
  intros Hbp. unfold copy_outcome. fold (copy_target fp fs2).
  rewrite (copy_target_plain _ _ Hbp).
  unfold str_eqb. rewrite bool_decide_eq_false_2 by apply file_not_backup_path.
  destruct (finish_trace float_of_literal float_repr str_lower fp (detected data)
              (file_text (detected data) data)
              (<[backup_path_of fp := File data]> fs2)
              (t ++ [Copy2 fp (backup_path_of fp)])) as [post Hpost].
  exists (ReadFile fp (detected data) :: post).
  destruct (fs2 !! backup_path_of fp) as [[?|]|] eqn:E; try done; cbv zeta.
  - rewrite finish_keeps by apply output_not_backup_path.
    rewrite Hpost, lookup_insert_eq, <- app_assoc. done.
  - rewrite finish_keeps by apply output_not_backup_path.
    rewrite Hpost, lookup_insert_eq, <- app_assoc. done.
Qed.

(** C3, amended.  For every file that is a regular file when the file
    processor checks it, provided the path [backup] next to it is not a
    regular file and the path of the backup file is not a directory, after
    processing there is a backup at <directory>/backup/<filename>.bak whose
    bytes are those the file had before, whether the read, minify and write
    steps that follow succeed or fail.  The copy is made after the encoding
    detector has probed the file and before the file processor reads the
    content, transforms it or writes anything. *)
Theorem backup_before_minification (file_path : str) (w : world) (data : list byte) :
  files w !! file_path = Some (File data) ->
  is_file_node (files w !! backup_folder_of file_path) = false ->
  is_dir_node (files w !! backup_path_of file_path) = false ->
  exists pre post,
    let w' := snd (process_file' file_path w) in
    files w' !! backup_path_of file_path = Some (File data)
    /\ trace w' = trace w ++ pre ++ Copy2 file_path (backup_path_of file_path) :: post
    /\ forallb before_reading pre = true.
Proof.
  intros Hfp Hbf Hbp. rewrite process_file_outcome. unfold file_outcome. rewrite Hfp.
  exists (detection_trace file_path data ++ [MakeDirs (backup_folder_of file_path)]).
  assert (forallb before_reading
            (detection_trace file_path data ++ [MakeDirs (backup_folder_of file_path)]) = true)
    as Hpre.
  { rewrite forallb_app. unfold detection_trace.
    destruct (decode UTF8 data); [done|]. by destruct (decode UTF16LE data). }
  destruct (files w !! backup_folder_of file_path) as [[?|]|] eqn:E; [done| |].
  - destruct (copy_outcome_backup file_path data (files w)
                (trace w ++ detection_trace file_path data ++
                 [MakeDirs (backup_folder_of file_path)]) Hbp) as [post [H1 H2]].
    exists post. cbv zeta in *. rewrite H1, H2, <- !app_assoc. done.
  - destruct (copy_outcome_backup file_path data
                (<[backup_folder_of file_path := Dir]> (files w))
                (trace w ++ detection_trace file_path data ++
                 [MakeDirs (backup_folder_of file_path)])) as [post [H1 H2]].
    { by rewrite lookup_insert_ne by apply backup_folder_not_backup_path. }
    exists post. cbv zeta in *. rewrite H1, H2, <- !app_assoc. done.
Qed.

Lemma detection_no_write (fp : str) (data : list byte) :
  no_write (detection_trace fp data) = true.
Proof.
  unfold detection_trace. destruct (decode UTF8 data); [done|].
  by destruct (decode UTF16LE data).
Qed.

Lemma no_write_app (u v : list event) : no_write (u ++ v) = no_write u && no_write v.
Proof. apply forallb_app. Qed.

Lemma copy_outcome_json_fail (fp : str) (data : list byte) (fs2 : gmap str node)
    (t : list event) (content : str) :
  file_text (detected data) data = Some content ->
  minified float_of_literal float_repr str_lower fp content = None ->
  let r := copy_outcome float_of_literal float_repr str_lower fp data fs2 t in
  fst r = Ok false
  /\ (forall p, p <> backup_path_of fp -> p <> backup_inside_of fp ->
      files (snd r) !! p = fs2 !! p)
  /\ (exists new, trace (snd r) = t ++ new /\ no_write new = true)
  /\ (is_dir_node (fs2 !! backup_path_of fp) = false ->
      trace (snd r) =
      t ++ [Copy2 fp (backup_path_of fp); ReadFile fp (detected data); Printed JsonError]).
Proof.
  intros Htext Hmin. unfold copy_outcome. fold (copy_target fp fs2).
  destruct (str_eqb fp (copy_target fp fs2)) eqn:Esame.
  { unfold failed. cbn [fst snd files trace]. repeat split; [|intros Hbp].
    - eexists. by rewrite <- app_assoc.
    - rewrite (copy_target_plain _ _ Hbp) in Esame. unfold str_eqb in Esame.
      apply bool_decide_eq_true in Esame. by apply file_not_backup_path in Esame. }
  assert (forall fs3 t2,
    finish_outcome float_of_literal float_repr str_lower fp (detected data)
      (file_text (detected data) data) fs3 t2 =
    (Ok false, World fs3 ((t2 ++ [ReadFile fp (detected data)]) ++ [Printed JsonError])))
    as Hfin.
  { intros fs3 t2. unfold finish_outcome. by rewrite Htext, Hmin. }
  destruct (fs2 !! copy_target fp fs2) as [[?|]|] eqn:Edst.
  - rewrite Hfin. cbn [fst snd files trace]. repeat split.
    + intros p H1 H2. rewrite lookup_insert_ne; [done|].
      destruct (copy_target_cases fp fs2) as [-> | ->]; congruence.
    + eexists. by rewrite <- !app_assoc.
    + intros _. by rewrite <- !app_assoc.
  - unfold failed. cbn [fst snd files trace]. repeat split; [|intros Hbp].
    + eexists. by rewrite <- app_assoc.
    + rewrite (copy_target_plain _ _ Hbp) in Edst. by rewrite Edst in Hbp.
  - rewrite Hfin. cbn [fst snd files trace]. repeat split.
    + intros p H1 H2. rewrite lookup_insert_ne; [done|].
      destruct (copy_target_cases fp fs2) as [-> | ->]; congruence.
    + eexists. by rewrite <- !app_assoc.
    + intros _. by rewrite <- !app_assoc.
Qed.

(** C4.  When the text of a [.json] file does not parse as JSON, the JSON
    minifier prints a structural error and returns [None]; the file
    processor then returns failure, calls [write_file] not at all and leaves
    every path as it was, the backup folder and the backup copy apart: in
    particular no output file appears.  When the backup could be made, the
    JSON error is the last thing reported. *)
Theorem invalid_json_writes_nothing (file_path : str) (w : world) (data : list byte)
    (content : str) :
  files w !! file_path = Some (File data) ->
  str_lower (snd (splitext (basename file_path))) = str_of ".json" ->
  file_text (detected data) data = Some content ->
  loads float_of_literal content = None ->
  let r := process_file' file_path w in
  (forall w0, minify_json' content w0 =
              (Ok None, World (files w0) (trace w0 ++ [Printed JsonError])))
  /\ fst r = Ok false
  /\ (forall p, p <> backup_folder_of file_path -> p <> backup_path_of file_path ->
                p <> backup_inside_of file_path ->
                files (snd r) !! p = files w !! p)
  /\ files (snd r) !! output_path_of file_path = files w !! output_path_of file_path
  /\ (exists new, trace (snd r) = trace w ++ new /\ no_write new = true)
  /\ (is_file_node (files w !! backup_folder_of file_path) = false ->
      is_dir_node (files w !! backup_path_of file_path) = false ->
      trace (snd r) =
      trace w ++ detection_trace file_path data ++
      [MakeDirs (backup_folder_of file_path);
       Copy2 file_path (backup_path_of file_path);
       ReadFile file_path (detected data);
       Printed JsonError]).
Proof.
  intros Hfp Hext Htext Hloads r.
  assert (minified float_of_literal float_repr str_lower file_path content = None) as Hmin.
  { unfold minified. rewrite Hext. unfold str_eqb.
    rewrite bool_decide_eq_true_2 by done. by rewrite Hloads. }
  split.
  { intros w0. rewrite minify_json_run. by rewrite Hloads. }
  assert (fst r = Ok false
    /\ (forall p, p <> backup_folder_of file_path -> p <> backup_path_of file_path ->
                  p <> backup_inside_of file_path ->
                  files (snd r) !! p = files w !! p)
    /\ (exists new, trace (snd r) = trace w ++ new /\ no_write new = true)
    /\ (is_file_node (files w !! backup_folder_of file_path) = false ->
        is_dir_node (files w !! backup_path_of file_path) = false ->
        trace (snd r) =
        trace w ++ detection_trace file_path data ++
        [MakeDirs (backup_folder_of file_path);
         Copy2 file_path (backup_path_of file_path);
         ReadFile file_path (detected data);
         Printed JsonError])) as (H1 & H2 & H3 & H4).
  { subst r. rewrite process_file_outcome. unfold file_outcome. rewrite Hfp.
    destruct (files w !! backup_folder_of file_path) as [[?|]|] eqn:Ebf.
    - unfold failed. cbn [fst snd files trace]. repeat split; [|done].
      eexists. split; [by rewrite <- !app_assoc|].
      by rewrite !no_write_app, detection_no_write.
    - destruct (copy_outcome_json_fail file_path data (files w)
                  (trace w ++ detection_trace file_path data ++
                   [MakeDirs (backup_folder_of file_path)]) content Htext Hmin)
        as (G1 & G2 & [new [G3 G3']] & G4).
      repeat split; [done|by intros; apply G2| |].
      + eexists. split; [by rewrite G3, <- !app_assoc|].
        by rewrite !no_write_app, detection_no_write, G3'.
      + intros _ Hbp. by rewrite (G4 Hbp), <- !app_assoc.
    - destruct (copy_outcome_json_fail file_path data
                  (<[backup_folder_of file_path := Dir]> (files w))
                  (trace w ++ detection_trace file_path data ++
                   [MakeDirs (backup_folder_of file_path)]) content Htext Hmin)
        as (G1 & G2 & [new [G3 G3']] & G4).
      repeat split; [done| | |].
      + intros p P1 P2 P3. rewrite G2 by done. by rewrite lookup_insert_ne.
      + eexists. split; [by rewrite G3, <- !app_assoc|].
        by rewrite !no_write_app, detection_no_write, G3'.
      + intros _ Hbp. rewrite G4, <- !app_assoc; [done|].
        by rewrite lookup_insert_ne by apply backup_folder_not_backup_path. }
  repeat split; try done.
  apply H2; [apply output_not_backup_folder|apply output_not_backup_path
            |apply output_not_backup_inside].
Qed.

(** The run in which every step succeeds. *)
Lemma process_file_success (fp : str) (w : world) (data : list byte)
    (content out : str) (bytes : list byte) :
  files w !! fp = Some (File data) ->
  is_file_node (files w !! backup_folder_of fp) = false ->
  is_dir_node (files w !! backup_path_of fp) = false ->
  is_dir_node (files w !! output_path_of fp) = false ->
  file_text (detected data) data = Some content ->
  minified float_of_literal float_repr str_lower fp content = Some out ->
  encode (detected data) out = Some bytes ->
  fst (process_file' fp w) = Ok true
  /\ files (snd (process_file' fp w)) !! output_path_of fp = Some (File bytes)
  /\ files (snd (process_file' fp w)) !! backup_path_of fp = Some (File data).
Proof.
  intros Hfp Hbf Hbp Hnp Htext Hmin Henc.
  rewrite process_file_outcome. unfold file_outcome. rewrite Hfp.
  assert (forall fs2 t,
    is_dir_node (fs2 !! backup_path_of fp) = false ->
    is_dir_node (fs2 !! output_path_of fp) = false ->
    let r := copy_outcome float_of_literal float_repr str_lower fp data fs2 t in
    fst r = Ok true
    /\ files (snd r) !! output_path_of fp = Some (File bytes)
    /\ files (snd r) !! backup_path_of fp = Some (File data)) as Hcopy.
  { intros fs2 t H1 H2. unfold copy_outcome. fold (copy_target fp fs2).
    rewrite (copy_target_plain _ _ H1).
    unfold str_eqb. rewrite bool_decide_eq_false_2 by apply file_not_backup_path.
    assert (is_dir_node (<[backup_path_of fp := File data]> fs2 !! output_path_of fp) = false)
      as H3 by by rewrite lookup_insert_ne by (symmetry; apply output_not_backup_path).
    assert (finish_outcome float_of_literal float_repr str_lower fp (detected data)
              (file_text (detected data) data)
              (<[backup_path_of fp := File data]> fs2)
              (t ++ [Copy2 fp (backup_path_of fp)]) =
            (Ok true,
             World (<[output_path_of fp := File bytes]>
                      (<[backup_path_of fp := File data]> fs2))
               ((((t ++ [Copy2 fp (backup_path_of fp)]) ++ [ReadFile fp (detected data)])
                 ++ [WriteFile (output_path_of fp) (detected data)])
                ++ success_report fp (detected data)))) as Hfin.
    { unfold finish_outcome. rewrite Htext, Hmin, Henc.
      by destruct (<[backup_path_of fp := File data]> fs2 !! output_path_of fp) as [[?|]|]. }
    assert (fst (Ok true, World (<[output_path_of fp := File bytes]>
                      (<[backup_path_of fp := File data]> fs2)) t) = Ok true
            /\ <[output_path_of fp := File bytes]>
                 (<[backup_path_of fp := File data]> fs2) !! output_path_of fp
               = Some (File bytes)
            /\ <[output_path_of fp := File bytes]>
                 (<[backup_path_of fp := File data]> fs2) !! backup_path_of fp
               = Some (File data)) as Hgoal.
    { split; [done|]. rewrite lookup_insert_eq.
      rewrite lookup_insert_ne by apply output_not_backup_path.
      by rewrite lookup_insert_eq. }
    destruct (fs2 !! backup_path_of fp) as [[?|]|]; try done; cbv zeta;
      by rewrite Hfin. }
  destruct (files w !! backup_folder_of fp) as [[?|]|] eqn:E; [done| |].
  - by apply Hcopy.
  - apply Hcopy.
    + by rewrite lookup_insert_ne by apply backup_folder_not_backup_path.
    + by rewrite lookup_insert_ne by (symmetry; apply output_not_backup_folder).
Qed.

(** C9.  A file whose name is exactly [.json] is selected by the directory
    walker, whose test is that the lower-cased name ends with [.json]; the
    file processor finds it has no extension, so its content goes through
    the text minifier and not through the JSON minifier, and the result is
    written to [.json.skysheet] in the same directory. *)
Theorem dot_json_is_minified_as_text (file_path : str) (w : world) (data : list byte)
    (content : str) (bytes : list byte) :
  str_lower (str_of ".json") = str_of ".json" ->
  str_lower [] = [] ->
  basename file_path = str_of ".json" ->
  files w !! file_path = Some (File data) ->
  is_file_node (files w !! backup_folder_of file_path) = false ->
  is_dir_node (files w !! backup_path_of file_path) = false ->
  is_dir_node (files w !! join (dirname file_path) (str_of ".json.skysheet")) = false ->
  file_text (detected data) data = Some content ->
  encode (detected data) (minify_text content) = Some bytes ->
  is_supported str_lower (basename file_path) = true
  /\ snd (splitext (basename file_path)) = []
  /\ minified float_of_literal float_repr str_lower file_path content
     = Some (minify_text content)
  /\ fst (process_file' file_path w) = Ok true
  /\ files (snd (process_file' file_path w))
       !! join (dirname file_path) (str_of ".json.skysheet") = Some (File bytes).
Proof.
  intros Hlow Hnil Hname Hfp Hbf Hbp Hnp Htext Henc.
  assert (output_path_of file_path = join (dirname file_path) (str_of ".json.skysheet"))
    as Hout by (unfold output_path_of; by rewrite Hname).
  assert (minified float_of_literal float_repr str_lower file_path content
          = Some (minify_text content)) as Hmin.
  { unfold minified. rewrite Hname.
    change (snd (splitext (str_of ".json"))) with (@nil N). by rewrite Hnil. }
  split; [|split; [by rewrite Hname|split; [done|]]].
  - unfold is_supported. rewrite Hname, Hlow. reflexivity.
  - rewrite <- Hout in *.
    destruct (process_file_success file_path w data content (minify_text content) bytes)
      as (H1 & H2 & _); done.
Qed.

(** C10, amended.  For every file whose extension is not exactly
    [.skysheet], the file processor leaves the content of the input file as
    it is, and the only paths it creates or writes are the [backup] folder
    (created when nothing is there), the backup file
    <directory>/backup/<filename>.bak, or, when that path is a directory,
    the file <filename> inside it, and the output file
    <directory>/<stem>.skysheet. *)
Theorem process_file_frame (file_path : str) (w : world) :
  snd (splitext (basename file_path)) <> str_of ".skysheet" ->
  let w' := snd (process_file' file_path w) in
  files w' !! file_path = files w !! file_path
  /\ (forall p, p <> backup_folder_of file_path -> p <> backup_path_of file_path ->
                p <> backup_inside_of file_path -> p <> output_path_of file_path ->
                files w' !! p = files w !! p)
  /\ (is_dir_node (files w !! backup_path_of file_path) = false ->
      files w' !! backup_inside_of file_path = files w !! backup_inside_of file_path)
  /\ (files w' !! backup_folder_of file_path = files w !! backup_folder_of file_path
      \/ files w !! backup_folder_of file_path = None
         /\ files w' !! backup_folder_of file_path = Some Dir).
Proof.
  intros Hext w'. subst w'. split; [|split; [|split]].
  - destruct (files w !! file_path) as [n|] eqn:Hfp.
    + apply keeps_process_file; [right; eauto|by right|by right| |done].
      by apply output_not_file.
    + rewrite process_file_outcome. unfold file_outcome. by rewrite Hfp.
  - intros p H1 H2 H3 H4. by apply keeps_process_file; [left|left|left|..].
  - intros Hbp. rewrite process_file_outcome. unfold file_outcome.
    destruct (files w !! file_path) as [[data|]|]; try done.
    destruct (files w !! backup_folder_of file_path) as [[?|]|] eqn:Ebf; [done| |].
    + apply copy_keeps; [apply output_not_backup_inside|].
      rewrite copy_target_plain by done. apply backup_path_not_inside.
    + rewrite copy_keeps.
      * by rewrite lookup_insert_ne by apply backup_folder_not_inside.
      * apply output_not_backup_inside.
      * rewrite copy_target_plain; [apply backup_path_not_inside|].
        by rewrite lookup_insert_ne by apply backup_folder_not_backup_path.
  - rewrite process_file_outcome. unfold file_outcome.
    destruct (files w !! file_path) as [[data|]|]; try by left.
    assert (forall fs2, copy_target file_path fs2 <> backup_folder_of file_path) as Hne.
    { intros fs2 E. destruct (copy_target_cases file_path fs2) as [H|H]; rewrite H in E.
      - by apply (backup_folder_not_backup_path file_path).
      - by apply (backup_folder_not_inside file_path). }
    destruct (files w !! backup_folder_of file_path) as [[?|]|] eqn:Ebf; [by left| |].
    + left. rewrite copy_keeps; [done|apply output_not_backup_folder|apply Hne].
    + right. split; [done|].
      rewrite copy_keeps; [by rewrite lookup_insert_eq|apply output_not_backup_folder|apply Hne].
Qed.

End FileProcessor.

Lemma backup_before_minification_witness :
  files world_d !! str_of "d/bad.json" = Some (File (bytes_of "{ 1 }"))
  /\ is_file_node (files world_d !! backup_folder_of (str_of "d/bad.json")) = false
  /\ is_dir_node (files world_d !! backup_path_of (str_of "d/bad.json")) = false
  /\ exists pre post,
       let w' := snd (process_file zero_of_literal zero_repr ascii_lower
                        (str_of "d/bad.json") world_d) in
       files w' !! backup_path_of (str_of "d/bad.json") = Some (File (bytes_of "{ 1 }"))
       /\ trace w' =
          trace world_d ++ pre ++
          Copy2 (str_of "d/bad.json") (backup_path_of (str_of "d/bad.json")) :: post
       /\ forallb before_reading pre = true.
Proof.
  split; [reflexivity|]. split; [reflexivity|]. split; [reflexivity|].
  exact (backup_before_minification zero_of_literal zero_repr ascii_lower
           (str_of "d/bad.json") world_d (bytes_of "{ 1 }") eq_refl eq_refl eq_refl).
Defined.

(** C3 as first stated fails: with a regular file called [backup] next to
    the input, the backup folder cannot be made and no backup exists after
    processing. *)
Lemma backup_missing_when_backup_is_a_file :
  files world_backup_is_file !! str_of "a.txt" = Some (File (bytes_of "hi  there"))
  /\ fst (process_file zero_of_literal zero_repr ascii_lower
            (str_of "a.txt") world_backup_is_file) = Ok false
  /\ files (snd (process_file zero_of_literal zero_repr ascii_lower
                   (str_of "a.txt") world_backup_is_file))
       !! backup_path_of (str_of "a.txt") = None.
Proof. vm_compute. done. Qed.

Lemma invalid_json_writes_nothing_witness :
  let r := process_file zero_of_literal zero_repr ascii_lower (str_of "d/bad.json") world_d in
  fst r = Ok false
  /\ files (snd r) !! output_path_of (str_of "d/bad.json") = None
  /\ trace (snd r) =
     [Probe (str_of "d/bad.json") UTF8;
      MakeDirs (str_of "d/backup");
      Copy2 (str_of "d/bad.json") (str_of "d/backup/bad.json.bak");
      ReadFile (str_of "d/bad.json") UTF8;
      Printed JsonError].
Proof.
  pose proof (invalid_json_writes_nothing zero_of_literal zero_repr ascii_lower
                (str_of "d/bad.json") world_d (bytes_of "{ 1 }") (str_of "{ 1 }")
                eq_refl eq_refl eq_refl eq_refl) as (_ & H1 & _ & H2 & _ & H3).
  split; [exact H1|]. split; [exact H2|]. exact (H3 eq_refl eq_refl).
Defined.

Lemma dot_json_is_minified_as_text_witness :
  is_supported ascii_lower (str_of ".json") = true
  /\ snd (splitext (str_of ".json")) = []
  /\ minified zero_of_literal zero_repr ascii_lower (str_of "d/.json") (str_of "{ 1 }")
     = Some (str_of "{1}")
  /\ fst (process_file zero_of_literal zero_repr ascii_lower (str_of "d/.json") world_d)
     = Ok true
  /\ files (snd (process_file zero_of_literal zero_repr ascii_lower
                   (str_of "d/.json") world_d))
       !! str_of "d/.json.skysheet" = Some (File (bytes_of "{1}")).
Proof.
  exact (dot_json_is_minified_as_text zero_of_literal zero_repr ascii_lower
           (str_of "d/.json") world_d (bytes_of "{ 1 }") (str_of "{ 1 }") (bytes_of "{1}")
           eq_refl eq_refl eq_refl eq_refl eq_refl eq_refl eq_refl eq_refl eq_refl).
Defined.

Lemma process_file_frame_witness :
  snd (splitext (basename (str_of "d/bad.json"))) <> str_of ".skysheet"
  /\ files (snd (process_file zero_of_literal zero_repr ascii_lower
                   (str_of "d/bad.json") world_d)) !! str_of "d/bad.json"
     = files world_d !! str_of "d/bad.json".
Proof.
  assert (snd (splitext (basename (str_of "d/bad.json"))) <> str_of ".skysheet") as H
    by discriminate.
  split; [exact H|].
  exact (proj1 (process_file_frame zero_of_literal zero_repr ascii_lower
                  (str_of "d/bad.json") world_d H)).
Defined.

(** C10 as first stated fails: when <directory>/backup/<filename>.bak is a
    directory, the copy lands inside it, at a path that is none of the three
    the claim lists. *)
Lemma copy_lands_inside_a_directory :
  let fp := str_of "a.txt" in
  let inside := str_of "backup/a.txt.bak/a.txt" in
  let w' := snd (process_file zero_of_literal zero_repr ascii_lower fp world_bak_is_dir) in
  snd (splitext (basename fp)) = str_of ".txt"
  /\ files world_bak_is_dir !! inside = None
  /\ files w' !! inside = Some (File (bytes_of "hi  there"))
  /\ inside <> backup_folder_of fp
  /\ inside <> backup_path_of fp
  /\ inside <> output_path_of fp.
Proof. vm_compute. repeat split; discriminate. Qed.

(** ** The JSON minifier *)

Section JsonMinifier.

Variable float_of_literal : str -> spec_float.
Variable float_repr : spec_float -> str.

Abbreviation minify_json' := (minify_json float_of_literal float_repr).
Abbreviation loads' := (loads float_of_literal).
Abbreviation dumps' := (dumps float_repr).

(** [float] gives a datum whose [repr] is a number with a fraction or an
    exponent that [float] reads back as the datum: the two conversions of
    the interpreter are correctly rounded. *)
Hypothesis float_text :
  forall text, float_ok float_of_literal float_repr (float_of_literal text) = true.



End JsonMinifier.

Lemma zero_float_text text :
  float_ok zero_of_literal zero_repr (zero_of_literal text) = true.
Proof. reflexivity. Qed.



(** ** The directory walker *)

Section DirectoryWalker.

Variable float_of_literal : str -> spec_float.
Variable float_repr : spec_float -> str.
Variable str_lower : str -> str.

Abbreviation process_directory' :=
  (process_directory float_of_literal float_repr str_lower).
Abbreviation is_supported' := (is_supported str_lower).


End DirectoryWalker.


(** The walk of [world_tree] evaluated: the two supported files are
    processed, both with success, and [notes.md] is not. *)
Example walk_tree :
  let r := process_directory zero_of_literal zero_repr ascii_lower (str_of "t") world_tree in
  fst r = Ok (2, 0)%nat
  /\ Permutation (map fst (processed (trace (snd r))))
       [str_of "t/a.TXT"; str_of "t/sub/b.json"]
  /\ files (snd r) !! str_of "t/a.skysheet" = Some (File (bytes_of "a b"))
  /\ files (snd r) !! str_of "t/sub/b.skysheet" = Some (File (bytes_of "[1,2]"))
  /\ files (snd r) !! str_of "t/notes.md" = Some (File (bytes_of "# n"))
  /\ files (snd r) !! str_of "t/notes.skysheet" = None.
Proof.
  cbv zeta. split_and!; by vm_compute.
Qed.

(* ===================================================================== *)
(** * Part IV. Further properties *)
(* ===================================================================== *)

(** ** The text minifier: what it keeps and what it leaves *)


Lemma visible_app (u v : str) : visible (u ++ v) = visible u ++ visible v.
Proof. apply List.filter_app. Qed.

Lemma visible_spaces (u : str) : forallb isspace u = true -> visible u = [].
Proof.
  induction u as [|c u IH]; [done|]. cbn [forallb].
  intros [Hc Hu]%andb_true_iff. unfold visible. cbn [List.filter]. rewrite Hc.
  by apply IH.
Qed.

Lemma visible_nil_spaces (u : str) : visible u = [] -> forallb isspace u = true.
Proof.
  induction u as [|c u IH]; [done|]. unfold visible. cbn [List.filter forallb].
  destruct (isspace c); [apply IH|done].
Qed.

Lemma is_newline_space c : is_newline c = true -> isspace c = true.
Proof.
  unfold is_newline. rewrite !orb_true_iff.
  intros [[->%N.eqb_eq| ->%N.eqb_eq]| ->%N.eqb_eq]; reflexivity.
Qed.

Lemma visible_drop_span (p : N -> bool) (s : str) :
  (forall c, p c = true -> isspace c = true) ->
  visible (drop (span p s) s) = visible s.
Proof.
  intros Hp.
  transitivity (visible (take (span p s) s ++ drop (span p s) s));
    [|by rewrite take_drop].
  rewrite visible_app, (visible_spaces (take (span p s) s)); [done|].
  apply forallb_forall. intros c Hc. apply Hp.
  by apply (proj1 (forallb_forall _ _) (span_take_all p s)).
Qed.

Lemma visible_cons c (s : str) :
  visible (c :: s) = if isspace c then visible s else c :: visible s.
Proof. unfold visible. cbn [List.filter]. by destruct (isspace c). Qed.

Lemma spec_newlines_visible (s : str) :
  visible (spec_newlines_to_space s) = visible s.
Proof.
  induction s as [s IH] using str_ind_length. destruct s as [|c s]; [done|].
  rewrite spec_newlines_cons. destruct (is_newline c) eqn:E.
  - rewrite !visible_cons. rewrite (is_newline_space _ E).
    change (isspace SP) with true. cbv iota.
    rewrite IH by (rewrite length_drop; cbn [length]; lia).
    apply visible_drop_span, is_newline_space.
  - rewrite !visible_cons. rewrite IH by (cbn [length]; lia). done.
Qed.

Lemma spec_collapse_visible (s : str) :
  visible (spec_collapse_spaces s) = visible s.
Proof.
  induction s as [s IH] using str_ind_length. destruct s as [|c s]; [done|].
  rewrite spec_collapse_cons. destruct (SP =? c) eqn:E.
  - assert (c = SP) as -> by (symmetry; by apply N.eqb_eq).
    rewrite !visible_cons. change (isspace SP) with true. cbv iota.
    rewrite IH by (rewrite length_drop; cbn [length]; lia).
    apply visible_drop_span. intros c Hc. apply N.eqb_eq in Hc. by subst c.
  - rewrite !visible_cons. rewrite IH by (cbn [length]; lia). done.
Qed.

Lemma spec_strip_visible (s : str) b :
  visible (spec_strip_around_punct b s) = visible s.
Proof.
  revert b. induction s as [|c s IH]; intros b; [done|].
  rewrite spec_strip_cons. destruct (isspace c) eqn:E.
  - destruct (b || _); rewrite !visible_cons, ?E; apply IH.
  - rewrite !visible_cons, E. by rewrite IH.
Qed.

Lemma strip_infix_spaces (s : str) :
  exists u v, s = u ++ strip s ++ v
              /\ forallb isspace u = true /\ forallb isspace v = true.
Proof.
  unfold strip, rstrip.
  exists (take (span isspace s) s).
  exists (rev (take (span isspace (rev (lstrip s))) (rev (lstrip s)))).
  split_and!.
  - rewrite <- rev_app_distr.
    assert (forall t : str, take (span isspace t) t ++ lstrip t = t) as E
      by (intros t; apply take_drop).
    by rewrite !E, rev_involutive, E.
  - apply span_take_all.
  - apply forallb_forall. intros c Hc%in_rev.
    by apply (proj1 (forallb_forall _ _) (span_take_all isspace (rev (lstrip s)))).
Qed.

Lemma strip_visible (s : str) : visible (strip s) = visible s.
Proof.
  destruct (strip_infix_spaces s) as (u & v & E & Hu & Hv). rewrite E at 2.
  by rewrite !visible_app, (visible_spaces u), (visible_spaces v), app_nil_r.
Qed.

Lemma trimmed_spaces_nil (t : str) :
  trimmed t = true -> forallb isspace t = true -> t = [].
Proof.
  unfold trimmed. intros [H _]%andb_true_iff. apply Nat.eqb_eq in H.
  destruct t as [|c t]; [done|]. cbn [forallb span] in *.
  intros [Hc _]%andb_true_iff. by rewrite Hc in H.
Qed.

(** *** It never makes a text longer *)

Lemma spec_newlines_length (s : str) :
  (length (spec_newlines_to_space s) <= length s)%nat.
Proof.
  induction s as [s IH] using str_ind_length. destruct s as [|c s]; [done|].
  rewrite spec_newlines_cons. destruct (is_newline c); cbn [length].
  - pose proof (IH (drop (span is_newline s) s)) as H.
    rewrite length_drop in H. specialize (H ltac:(cbn [length]; lia)). lia.
  - pose proof (IH s ltac:(cbn [length]; lia)). lia.
Qed.

Lemma spec_collapse_length (s : str) :
  (length (spec_collapse_spaces s) <= length s)%nat.
Proof.
  induction s as [s IH] using str_ind_length. destruct s as [|c s]; [done|].
  rewrite spec_collapse_cons. destruct (SP =? c); cbn [length].
  - pose proof (IH (drop (span (N.eqb SP) s) s)) as H.
    rewrite length_drop in H. specialize (H ltac:(cbn [length]; lia)). lia.
  - pose proof (IH s ltac:(cbn [length]; lia)). lia.
Qed.

Lemma spec_strip_length (s : str) b :
  (length (spec_strip_around_punct b s) <= length s)%nat.
Proof.
  revert b. induction s as [|c s IH]; intros b; [done|].
  rewrite spec_strip_cons.
  destruct (isspace c); [destruct (b || _)|]; cbn [length];
    match goal with |- context [spec_strip_around_punct ?x s] => pose proof (IH x) end;
    lia.
Qed.

Lemma strip_length (s : str) : (length (strip s) <= length s)%nat.
Proof.
  destruct (strip_infix s) as (u & v & E). rewrite E at 2. rewrite !length_app. lia.
Qed.


(** ** Further properties of the text minifier *)

(** X1. The text minifier only removes white space or replaces it by a
    space: the characters of its result that are not white space are those
    of the input, in the same order. *)
Theorem minify_text_keeps_visible (content : str) :
  visible (minify_text content) = visible content.
Proof.
  rewrite minify_text_is_spec. unfold spec_minify_text, spec_trim.
  by rewrite strip_visible, spec_strip_visible, spec_collapse_visible,
    spec_newlines_visible.
Qed.

(** X2. The result of the text minifier holds no carriage return, line feed
    or tab, no two spaces in a row, no white space right before or after
    one of the characters { } [ ] : , and no white space at either end. *)
Theorem minify_text_output_shape (content : str) :
  no_newline (minify_text content) = true
  /\ no_double_space (minify_text content) = true
  /\ no_space_at_punct (minify_text content) = true
  /\ trimmed (minify_text content) = true.
Proof.
  rewrite minify_text_is_spec. unfold spec_minify_text, spec_trim. split_and!.
  - apply strip_keeps, spec_strip_keeps, spec_collapse_keeps, spec_newlines_no_newline.
  - apply strip_adjacent, spec_strip_no_double, spec_collapse_no_double.
  - apply strip_adjacent, spec_strip_no_space_at_punct.
  - apply strip_trimmed.
Qed.

(** X3. The text minifier returns the empty text exactly on the inputs made
    of white space only, the empty text among them. *)
Theorem minify_text_blank (content : str) :
  minify_text content = [] <-> forallb isspace content = true.
Proof.
  rewrite minify_text_is_spec. unfold spec_minify_text, spec_trim.
  set (t := spec_strip_around_punct false
              (spec_collapse_spaces (spec_newlines_to_space content))).
  assert (visible (strip t) = visible content) as Hv.
  { unfold t. by rewrite strip_visible, spec_strip_visible, spec_collapse_visible,
      spec_newlines_visible. }
  split.
  - intros H. apply visible_nil_spaces. by rewrite <- Hv, H.
  - intros H. apply trimmed_spaces_nil; [apply strip_trimmed|].
    apply visible_nil_spaces. rewrite Hv. by apply visible_spaces.
Qed.

(** X4. The text minifier never makes a text longer. *)
Theorem minify_text_never_longer (content : str) :
  (length (minify_text content) <= length content)%nat.
Proof.
  rewrite minify_text_is_spec. unfold spec_minify_text, spec_trim.
  etrans; [apply strip_length|]. etrans; [apply spec_strip_length|].
  etrans; [apply spec_collapse_length|]. apply spec_newlines_length.
Qed.


(** ** The codecs: what is written is read back *)


Lemma byte_val_of n : n < 256 -> byte_val (byte_of n) = n.
Proof.
  intros H. unfold byte_val, byte_of.
  destruct (Byte.of_N n) as [b|] eqn:E.
  - by apply Byte.to_of_N.
  - apply Byte.of_N_None_iff in E. lia.
Qed.

Lemma byte_of_val b : byte_of (byte_val b) = b.
Proof. unfold byte_val, byte_of. by rewrite Byte.of_to_N. Qed.

Lemma leb_true a b : a <= b -> (a <=? b) = true.
Proof. apply N.leb_le. Qed.

Lemma leb_false a b : b < a -> (a <=? b) = false.
Proof. apply N.leb_gt. Qed.

Lemma ltb_true a b : a < b -> (a <? b) = true.
Proof. apply N.ltb_lt. Qed.

Lemma ltb_false a b : b <= a -> (a <? b) = false.
Proof. apply N.ltb_ge. Qed.

Lemma eqb_false a b : a <> b -> (a =? b) = false.
Proof. apply N.eqb_neq. Qed.

Lemma surrogate_range c : is_surrogate c = false -> c < 55296 \/ 57343 < c.
Proof. unfold is_surrogate. rewrite andb_false_iff, !N.leb_gt. lia. Qed.

(** One character, UTF-8. *)
Lemma decode_utf8_char c (bs r : list byte) :
  encode_utf8_char c = Some bs ->
  decode_utf8 (bs ++ r) = cons c <$> decode_utf8 r.
Proof.
  unfold encode_utf8_char.
  destruct (N.ltb_spec c 128) as [H1|H1].
  { intros [= <-]. cbn [app decode_utf8]. cbv zeta.
    rewrite byte_val_of by lia. by rewrite ltb_true. }
  destruct (N.ltb_spec c 2048) as [H2|H2].
  { intros [= <-]. cbn [app decode_utf8]. cbv zeta.
    rewrite !byte_val_of by euclid.
    rewrite ltb_false by euclid.
    rewrite (leb_true 194), (leb_true _ 223) by euclid. cbn [andb].
    unfold is_cont. rewrite (leb_true 128), (leb_true _ 191) by euclid. cbn [andb].
    f_equal. f_equal. euclid. }
  destruct (N.ltb_spec c 65536) as [H3|H3].
  { destruct (is_surrogate c) eqn:Es; [done|]. apply surrogate_range in Es.
    intros [= <-]. cbn [app decode_utf8]. cbv zeta.
    rewrite !byte_val_of by euclid.
    rewrite ltb_false by euclid.
    rewrite (leb_false _ 223) by euclid. rewrite andb_false_r.
    rewrite (leb_true 224), (leb_true _ 239) by euclid. cbn [andb].
    unfold is_cont. rewrite (leb_true 128 (128 + c mod 64)),
      (leb_true (128 + c mod 64) 191) by euclid. cbn [andb]. rewrite andb_true_r.
    assert (((if 224 + c / 4096 =? 224 then 160 else 128) <=? 128 + c / 64 mod 64)
            = true) as ->.
    { destruct (N.eqb_spec (224 + c / 4096) 224); apply N.leb_le; euclid. }
    assert ((128 + c / 64 mod 64 <=? (if 224 + c / 4096 =? 237 then 159 else 191))
            = true) as ->.
    { destruct (N.eqb_spec (224 + c / 4096) 237); apply N.leb_le; euclid. }
    cbn [andb]. f_equal. f_equal. euclid. }
  destruct (N.ltb_spec c 1114112) as [H4|H4]; [|done].
  intros [= <-]. cbn [app decode_utf8]. cbv zeta.
  rewrite !byte_val_of by euclid.
  rewrite ltb_false by euclid.
  rewrite (leb_false _ 223) by euclid. rewrite andb_false_r.
  rewrite (leb_false _ 239) by euclid. rewrite andb_false_r.
  rewrite (leb_true 240), (leb_true _ 244) by euclid. cbn [andb].
  unfold is_cont.
  rewrite (leb_true 128 (128 + c mod 64)), (leb_true (128 + c mod 64) 191) by euclid.
  rewrite (leb_true 128 (128 + c / 64 mod 64)), (leb_true (128 + c / 64 mod 64) 191)
    by euclid.
  cbn [andb]. rewrite !andb_true_r.
  assert (((if 240 + c / 262144 =? 240 then 144 else 128) <=? 128 + c / 4096 mod 64)
          = true) as ->.
  { destruct (N.eqb_spec (240 + c / 262144) 240); apply N.leb_le; euclid. }
  assert ((128 + c / 4096 mod 64 <=? (if 240 + c / 262144 =? 244 then 143 else 191))
          = true) as ->.
  { destruct (N.eqb_spec (240 + c / 262144) 244); apply N.leb_le; euclid. }
  cbn [andb]. f_equal. f_equal. euclid.
Qed.

(** One character, UTF-16 little endian. *)
Lemma decode_utf16le_char c (bs r : list byte) :
  encode_utf16le_char c = Some bs ->
  decode_utf16le (bs ++ r) = cons c <$> decode_utf16le r.
Proof.
  unfold encode_utf16le_char.
  destruct (N.ltb_spec c 65536) as [H1|H1].
  { destruct (is_surrogate c) eqn:Es; [done|]. apply surrogate_range in Es.
    intros [= <-]. cbn [app decode_utf16le]. cbv zeta.
    rewrite !byte_val_of by euclid.
    assert (c mod 256 + 256 * (c / 256) = c) as -> by euclid.
    unfold is_high_surrogate, is_low_surrogate.
    destruct Es as [Es|Es].
    - by rewrite (leb_false 55296), (leb_false 56320) by lia.
    - by rewrite (leb_false c 56319), (leb_false c 57343), !andb_false_r by lia. }
  destruct (N.ltb_spec c 1114112) as [H2|H2]; [|done].
  intros [= <-]. cbn [app decode_utf16le]. cbv zeta.
  rewrite !byte_val_of by euclid.
  set (n := c - 65536).
  assert (n < 1048576) as Hn by (unfold n; lia).
  assert ((55296 + n / 1024) mod 256 + 256 * ((55296 + n / 1024) / 256)
          = 55296 + n / 1024) as -> by euclid.
  assert ((56320 + n mod 1024) mod 256 + 256 * ((56320 + n mod 1024) / 256)
          = 56320 + n mod 1024) as -> by euclid.
  unfold is_high_surrogate, is_low_surrogate.
  rewrite (leb_true 55296), (leb_true _ 56319) by euclid. cbn [andb].
  rewrite (leb_true 56320), (leb_true _ 57343) by euclid. cbn [andb].
  f_equal. f_equal. unfold join_surrogates.
  rewrite N.shiftl_mul_pow2. change (2 ^ 10) with 1024.
  replace (55296 + n / 1024 - 55296) with (n / 1024) by euclid.
  replace (56320 + n mod 1024 - 56320) with (n mod 1024) by euclid.
  rewrite lor_disjoint by euclid. unfold n. euclid.
Qed.

Lemma decode_encoded_with (f : N -> option (list byte)) (dec : list byte -> option str) :
  dec [] = Some [] ->
  (forall c bs r, f c = Some bs -> dec (bs ++ r) = cons c <$> dec r) ->
  forall (s : str) bytes, encode_with f s = Some bytes -> dec bytes = Some s.
Proof.
  intros Hnil Hstep. induction s as [|c s IH]; intros bytes.
  - by intros [= <-].
  - cbn [encode_with]. destruct (f c) as [b|] eqn:Ec; [|done].
    destruct (encode_with f s) as [bs|] eqn:Es; [|done].
    intros [= <-]. rewrite (Hstep _ _ _ Ec), (IH bs eq_refl). done.
Qed.

(** [bytes.decode] undoes [str.encode]. *)
Lemma decode_encode enc (s : str) bytes :
  encode enc s = Some bytes -> decode enc bytes = Some s.
Proof.
  destruct enc; cbn [encode decode].
  - apply decode_encoded_with; [done|apply decode_utf8_char].
  - apply decode_encoded_with; [done|apply decode_utf16le_char].
Qed.

(** Unicode text can be encoded. *)
Lemma encode_unicode enc (s : str) :
  unicode_text s = true -> exists bytes, encode enc s = Some bytes.
Proof.
  intros Hu.
  assert (forall f : N -> option (list byte),
            (forall c, in_range c = true -> is_surrogate c = false -> is_Some (f c)) ->
            exists bytes, encode_with f s = Some bytes) as H.
  { intros f Hf. induction s as [|c s IH]; [by exists []|].
    destruct (unicode_head _ _ Hu) as [H1 H2].
    destruct (Hf c H1 H2) as [b Eb]. destruct (IH (unicode_tail _ _ Hu)) as [bs Ebs].
    exists (b ++ bs). cbn [encode_with]. by rewrite Eb, Ebs. }
  destruct enc; cbn [encode]; apply H; intros c Hc Hs;
    unfold in_range in Hc; apply N.ltb_lt in Hc.
  - unfold encode_utf8_char. rewrite Hs.
    destruct (c <? 128); [done|]. destruct (c <? 2048); [done|].
    destruct (c <? 65536); [done|]. by rewrite ltb_true.
  - unfold encode_utf16le_char. rewrite Hs.
    destruct (c <? 65536); [done|]. by rewrite ltb_true.
Qed.

(** *** What is read is what would be written *)

Lemma byte_of_eq n b : n = byte_val b -> byte_of n = b.
Proof. intros ->. apply byte_of_val. Qed.

Lemma encode_decode_utf8 (bs : list byte) : forall s,
  decode_utf8 bs = Some s -> encode_with encode_utf8_char s = Some bs.
Proof.
  remember (length bs) as n eqn:E. revert bs E.
  induction n as [n IH] using lt_wf_ind. intros bs -> s.
  destruct bs as [|b0 r0]; [by intros [= <-]|].
  assert (forall (pre r : list byte) c,
            b0 :: r0 = pre ++ r -> pre <> [] ->
            encode_utf8_char c = Some pre ->
            cons c <$> decode_utf8 r = Some s ->
            encode_with encode_utf8_char s = Some (b0 :: r0)) as Hgo.
  { intros pre r c Hsplit Hpre Hc (t & Et & ->)%fmap_cons_some.
    cbn [encode_with]. rewrite Hc.
    rewrite (IH (length r)) with (bs := r) (s := t); [by rewrite Hsplit| |done|done].
    rewrite Hsplit, length_app. destruct pre; [done|]. cbn [length]. lia. }
  cbn [decode_utf8]. cbv zeta.
  pose proof (byte_val_bound b0) as B0.
  destruct (N.ltb_spec (byte_val b0) 128) as [H0|H0].
  { apply (Hgo [b0] r0); [done|done|].
    unfold encode_utf8_char. rewrite ltb_true by done. by rewrite byte_of_val. }
  destruct ((194 <=? byte_val b0) && (byte_val b0 <=? 223)) eqn:E2.
  { apply andb_true_iff in E2 as [Ha%N.leb_le Hb%N.leb_le].
    destruct r0 as [|b1 r1]; [done|].
    destruct (is_cont (byte_val b1)) eqn:Ec; [|done]. apply is_cont_range in Ec.
    apply (Hgo [b0; b1] r1); [done|done|].
    unfold encode_utf8_char.
    set (x0 := byte_val b0) in *. set (x1 := byte_val b1) in *.
    rewrite ltb_false, ltb_true by euclid.
    do 2 f_equal; [|f_equal]; apply byte_of_eq; fold x0 x1; euclid. }
  destruct ((224 <=? byte_val b0) && (byte_val b0 <=? 239)) eqn:E3.
  { apply andb_true_iff in E3 as [Ha%N.leb_le Hb%N.leb_le].
    destruct r0 as [|b1 [|b2 r2]]; try done.
    destruct (_ && is_cont (byte_val b2)) eqn:Ec; [|done].
    apply andb_true_iff in Ec as [[H1%N.leb_le H2%N.leb_le]%andb_true_iff H3%is_cont_range].
    pose proof (byte_val_bound b1) as B1.
    apply (Hgo [b0; b1; b2] r2); [done|done|].
    unfold encode_utf8_char.
    set (x0 := byte_val b0) in *. set (x1 := byte_val b1) in *.
    set (x2 := byte_val b2) in *.
    assert (2048 <= (x0 - 224) * 4096 + (x1 - 128) * 64 + (x2 - 128) < 65536
            /\ ((x0 - 224) * 4096 + (x1 - 128) * 64 + (x2 - 128) < 55296
                \/ 57343 < (x0 - 224) * 4096 + (x1 - 128) * 64 + (x2 - 128))
            /\ 128 <= x1 <= 191) as (Hr & Hs & Hx1).
    { destruct (N.eqb_spec x0 224), (N.eqb_spec x0 237); lia. }
    rewrite ltb_false, ltb_false, ltb_true by lia.
    assert (is_surrogate ((x0 - 224) * 4096 + (x1 - 128) * 64 + (x2 - 128)) = false)
      as ->.
    { unfold is_surrogate. apply andb_false_iff. rewrite !N.leb_gt. lia. }
    do 2 f_equal; [|f_equal; [|f_equal]]; apply byte_of_eq; fold x0 x1 x2; euclid. }
  destruct ((240 <=? byte_val b0) && (byte_val b0 <=? 244)) eqn:E4; [|done].
  apply andb_true_iff in E4 as [Ha%N.leb_le Hb%N.leb_le].
  destruct r0 as [|b1 [|b2 [|b3 r3]]]; try done.
  destruct (_ && is_cont (byte_val b3)) eqn:Ec; [|done].
  apply andb_true_iff in Ec as
    [[[H1%N.leb_le H2%N.leb_le]%andb_true_iff H3%is_cont_range]%andb_true_iff
       H4%is_cont_range].
  pose proof (byte_val_bound b1) as B1.
  apply (Hgo [b0; b1; b2; b3] r3); [done|done|].
  unfold encode_utf8_char.
  set (x0 := byte_val b0) in *. set (x1 := byte_val b1) in *.
  set (x2 := byte_val b2) in *. set (x3 := byte_val b3) in *.
  assert (65536 <= (x0 - 240) * 262144 + (x1 - 128) * 4096 + (x2 - 128) * 64 + (x3 - 128)
          < 1114112 /\ 128 <= x1 <= 191) as (Hr & Hx1).
  { destruct (N.eqb_spec x0 240), (N.eqb_spec x0 244); lia. }
  rewrite ltb_false, ltb_false, ltb_false, ltb_true by lia.
  do 2 f_equal; [|f_equal; [|f_equal; [|f_equal]]]; apply byte_of_eq; fold x0 x1 x2 x3; euclid.
Qed.

Lemma encode_decode_utf16le (bs : list byte) : forall s,
  decode_utf16le bs = Some s -> encode_with encode_utf16le_char s = Some bs.
Proof.
  remember (length bs) as n eqn:E. revert bs E.
  induction n as [n IH] using lt_wf_ind. intros bs -> s.
  destruct bs as [|lo [|hi r]]; [by intros [= <-]|done|].
  assert (forall (pre r' : list byte) c,
            lo :: hi :: r = pre ++ r' -> pre <> [] ->
            encode_utf16le_char c = Some pre ->
            cons c <$> decode_utf16le r' = Some s ->
            encode_with encode_utf16le_char s = Some (lo :: hi :: r)) as Hgo.
  { intros pre r' c Hsplit Hpre Hc (t & Et & ->)%fmap_cons_some.
    cbn [encode_with]. rewrite Hc.
    rewrite (IH (length r')) with (bs := r') (s := t); [by rewrite Hsplit| |done|done].
    rewrite Hsplit, length_app. destruct pre; [done|]. cbn [length]. lia. }
  cbn [decode_utf16le]. cbv zeta.
  pose proof (byte_val_bound lo) as B0. pose proof (byte_val_bound hi) as B1.
  destruct (is_high_surrogate _) eqn:Eh.
  - destruct r as [|lo2 [|hi2 r2]]; try done.
    destruct (is_low_surrogate _) eqn:El; [|done].
    pose proof (byte_val_bound lo2) as B2. pose proof (byte_val_bound hi2) as B3.
    apply (Hgo [lo; hi; lo2; hi2] r2); [done|done|].
    unfold encode_utf16le_char.
    pose proof (join_surrogates_range _ _ Eh El) as Hj.
    rewrite ltb_false, ltb_true by lia.
    unfold is_high_surrogate, is_low_surrogate in Eh, El.
    apply andb_true_iff in Eh as [E1%N.leb_le E2%N.leb_le].
    apply andb_true_iff in El as [E3%N.leb_le E4%N.leb_le].
    unfold join_surrogates in *. rewrite N.shiftl_mul_pow2 in *.
    change (2 ^ 10) with 1024 in *. rewrite lor_disjoint in * by lia.
    set (x0 := byte_val lo) in *. set (x1 := byte_val hi) in *.
    set (x2 := byte_val lo2) in *. set (x3 := byte_val hi2) in *.
    cbv zeta.
    do 2 f_equal; [|f_equal; [|f_equal; [|f_equal]]]; apply byte_of_eq; fold x0 x1 x2 x3; euclid.
  - destruct (is_low_surrogate _) eqn:El; [done|].
    apply (Hgo [lo; hi] r); [done|done|].
    unfold encode_utf16le_char.
    unfold is_high_surrogate, is_low_surrogate in Eh, El.
    rewrite andb_false_iff, !N.leb_gt in Eh, El.
    set (x0 := byte_val lo) in *. set (x1 := byte_val hi) in *.
    rewrite ltb_true by lia.
    assert (is_surrogate (x0 + 256 * x1) = false) as ->.
    { unfold is_surrogate. apply andb_false_iff. rewrite !N.leb_gt. lia. }
    do 2 f_equal; [|f_equal]; apply byte_of_eq; fold x0 x1; euclid.
Qed.

(** [str.encode] undoes [bytes.decode]: the two codecs accept one spelling
    of a text only. *)
Lemma encode_decode enc (bytes : list byte) (s : str) :
  decode enc bytes = Some s -> encode enc s = Some bytes.
Proof.
  destruct enc; cbn [encode decode];
    [apply encode_decode_utf8|apply encode_decode_utf16le].
Qed.

(** *** Writing and reading a file *)

Lemma universal_newlines_plain (s : str) : mem CR s = false -> universal_newlines s = s.
Proof.
  induction s as [|c s IH]; [done|]. unfold mem. cbn [existsb universal_newlines].
  intros [Hc Hs]%orb_false_iff. rewrite N.eqb_sym in Hc. rewrite Hc.
  f_equal. by apply IH.
Qed.

Lemma write_read_run (p content : str) enc w :
  is_dir_node (files w !! p) = false -> unicode_text content = true ->
  exists bytes,
    encode enc content = Some bytes
    /\ (write_file p content enc ;; read_file p enc) w =
       (Ok (universal_newlines content),
        World (<[p := File bytes]> (files w))
          (trace w ++ [WriteFile p enc; ReadFile p enc])).
Proof.
  intros Hd Hu. destruct (encode_unicode enc content Hu) as [bytes Eb].
  exists bytes. split; [done|].
  unfold bind. rewrite write_file_run. cbv zeta. rewrite Eb.
  destruct (files w !! p) as [[?|]|] eqn:E; try done.
  - rewrite read_file_run with (data := bytes) by apply lookup_insert_eq.
    unfold file_text. rewrite (decode_encode _ _ _ Eb). cbn [fmap option_fmap option_map].
    cbn [files trace]. by rewrite <- app_assoc.
  - rewrite read_file_run with (data := bytes) by apply lookup_insert_eq.
    unfold file_text. rewrite (decode_encode _ _ _ Eb). cbn [fmap option_fmap option_map].
    cbn [files trace]. by rewrite <- app_assoc.
Qed.

(** ** Further properties of [read_file] and [write_file] *)

(** X5. A text without surrogate code points, written by [write_file] over
    a regular file, is read back by [read_file] under the same encoding
    with its line ends normalized: carriage returns, alone or before a line
    feed, come back as line feeds, and a text without carriage returns
    comes back as it was written. *)
Theorem write_then_read (file_path content : str) (enc : encoding) (w : world) :
  is_file_node (files w !! file_path) = true ->
  unicode_text content = true ->
  fst ((write_file file_path content enc ;; read_file file_path enc) w)
  = Ok (universal_newlines content)
  /\ (mem CR content = false -> universal_newlines content = content).
Proof.
  intros Hf Hu.
  assert (is_dir_node (files w !! file_path) = false) as Hd
    by (by destruct (files w !! file_path) as [[?|]|]).
  destruct (write_read_run file_path content enc w Hd Hu) as (bytes & _ & E).
  rewrite E. split; [done|apply universal_newlines_plain].
Qed.

(** X6. A file whose text has no carriage return, read by [read_file] and
    written back by [write_file] under the same encoding, has the bytes it
    had: the codecs accept one spelling of a text only. *)
Theorem read_then_write (file_path text : str) (enc : encoding) (w : world)
    (data : list byte) :
  files w !! file_path = Some (File data) ->
  decode enc data = Some text ->
  mem CR text = false ->
  (let* content := read_file file_path enc in write_file file_path content enc) w =
  (Ok tt, World (files w) (trace w ++ [ReadFile file_path enc; WriteFile file_path enc])).
Proof.
  intros Hp Hd Hcr. unfold bind. rewrite (read_file_run _ _ _ _ Hp).
  unfold file_text. rewrite Hd. cbn [fmap option_fmap option_map].
  rewrite (universal_newlines_plain _ Hcr). rewrite write_file_run. cbv zeta.
  cbn [files trace]. rewrite Hp, (encode_decode _ _ _ Hd).
  rewrite insert_id by done. by rewrite <- app_assoc.
Qed.

Lemma write_then_read_witness :
  fst ((write_file (str_of "le.txt") [104; CR; LF; 233; 128512] UTF16LE ;;
        read_file (str_of "le.txt") UTF16LE) world_utf16)
  = Ok [104; LF; 233; 128512].
Proof.
  exact (proj1 (write_then_read (str_of "le.txt") [104; CR; LF; 233; 128512] UTF16LE
                  world_utf16 eq_refl eq_refl)).
Defined.

Lemma read_then_write_witness :
  (let* content := read_file (str_of "n.txt") UTF8 in
   write_file (str_of "n.txt") content UTF8) world_note =
  (Ok tt,
   World (files world_note)
     [ReadFile (str_of "n.txt") UTF8; WriteFile (str_of "n.txt") UTF8]).
Proof.
  exact (read_then_write (str_of "n.txt") [104; 105; LF] UTF8 world_note
           (map byte_of [104; 105; 10]) eq_refl eq_refl eq_refl).
Defined.

(** ** Text that cannot be encoded *)

Lemma encode_with_surrogate (f : N -> option (list byte)) (s : str) :
  (forall c, is_surrogate c = true -> f c = None) ->
  existsb is_surrogate s = true -> encode_with f s = None.
Proof.
  intros Hf. induction s as [|c s IH]; [done|]. cbn [existsb encode_with].
  intros [Hc|Hs]%orb_true_iff.
  - by rewrite (Hf c Hc).
  - rewrite (IH Hs). by destruct (f c).
Qed.

Lemma encode_surrogate enc (s : str) : existsb is_surrogate s = true -> encode enc s = None.
Proof.
  intros H. destruct enc; cbn [encode]; apply encode_with_surrogate; try done;
    intros c Hc.
  - unfold encode_utf8_char. rewrite Hc.
    unfold is_surrogate in Hc. apply andb_true_iff in Hc as [H1%N.leb_le H2%N.leb_le].
    rewrite ltb_false, ltb_false, ltb_true by lia. done.
  - unfold encode_utf16le_char. rewrite Hc.
    unfold is_surrogate in Hc. apply andb_true_iff in Hc as [H1%N.leb_le H2%N.leb_le].
    rewrite ltb_true by lia. done.
Qed.

(** X7. [write_file] opens the file before it encodes the text: for a text
    that holds a surrogate code point, which neither codec can encode, it
    raises [UnicodeEncodeError] and leaves the regular file it was to write
    empty, whatever the file held before. *)
Theorem write_file_unencodable (file_path content : str) (enc : encoding) (w : world) :
  is_file_node (files w !! file_path) = true ->
  existsb is_surrogate content = true ->
  write_file file_path content enc w =
  (Raised UnicodeEncodeError 0,
   World (<[file_path := File []]> (files w)) (trace w ++ [WriteFile file_path enc])).
Proof.
  intros Hd Hs. rewrite write_file_run. cbv zeta. rewrite (encode_surrogate enc _ Hs).
  by destruct (files w !! file_path) as [[?|]|].
Qed.

Lemma write_file_unencodable_witness :
  files world_note !! str_of "n.txt" = Some (File (map byte_of [104; 105; 10]))
  /\ write_file (str_of "n.txt") [104; 55296] UTF8 world_note =
     (Raised UnicodeEncodeError 0,
      World (<[str_of "n.txt" := File []]> (files world_note))
        [WriteFile (str_of "n.txt") UTF8]).
Proof.
  split; [reflexivity|].
  exact (write_file_unencodable (str_of "n.txt") [104; 55296] UTF8 world_note
           eq_refl eq_refl).
Defined.

(** ** What the minifiers return can be encoded *)





Lemma hex_digit_printable n : n < 16 -> printable (hex_digit n) = true.
Proof.
  intros H. unfold hex_digit, printable.
  destruct (N.ltb_spec n 10); rewrite !leb_true by lia; done.
Qed.

Lemma u_escape_printable n : forallb printable (u_escape n) = true.
Proof.
  unfold u_escape. cbn [forallb].
  rewrite !hex_digit_printable by (apply N.mod_lt; lia). done.
Qed.

Lemma escape_char_printable c : forallb printable (escape_char c) = true.
Proof.
  unfold escape_char.
  destruct (c =? DQUOTE); [done|]. destruct (c =? BSLASH); [done|].
  destruct ((32 <=? c) && (c <=? 126)) eqn:E;
    [cbn [forallb]; unfold printable; by rewrite E|].
  repeat (destruct (c =? _); [done|]).
  destruct (c <? 65536); [apply u_escape_printable|].
  cbv zeta. by rewrite forallb_app, !u_escape_printable.
Qed.

Lemma string_printable (s : str) : forallb printable (encode_basestring_ascii s) = true.
Proof.
  unfold encode_basestring_ascii. cbn [forallb]. rewrite forallb_app.
  cbn [forallb]. rewrite andb_true_r. change (printable DQUOTE) with true. cbn [andb].
  induction s as [|c s IH]; [done|].
  cbn [flat_map]. by rewrite forallb_app, escape_char_printable.
Qed.

Lemma number_char_printable c : number_char c = true -> printable c = true.
Proof.
  unfold number_char. intros [H|H]%orb_true_iff.
  - apply is_digit_range in H. unfold printable. rewrite !leb_true by lia. done.
  - unfold mem in H. cbn [existsb str_of] in H.
    repeat (apply orb_true_iff in H as [->%N.eqb_eq|H]; [done|]). done.
Qed.

Lemma number_chars_printable (s : str) :
  forallb number_char s = true -> forallb printable s = true.
Proof.
  intros H. apply forallb_forall. intros c Hc.
  apply number_char_printable. by apply (proj1 (forallb_forall _ _) H).
Qed.

Lemma join_with_keeps (P : N -> bool) (sep : str) (parts : list str) :
  forallb P sep = true -> Forall (fun x => forallb P x = true) parts ->
  forallb P (join_with sep parts) = true.
Proof.
  intros Hsep. induction 1 as [|x l Hx Hl IH]; [done|].
  destruct l as [|y l]; [done|].
  change (join_with sep (x :: y :: l)) with (x ++ sep ++ join_with sep (y :: l)).
  by rewrite !forallb_app, Hx, Hsep, IH.
Qed.

Section Encodable.

Variable float_of_literal : str -> spec_float.
Variable float_repr : spec_float -> str.
Variable str_lower : str -> str.

Lemma floatstr_printable f :
  float_ok float_of_literal float_repr f = true ->
  forallb printable (floatstr float_repr f) = true.
Proof.
  intros Hf.
  destruct (float_ok_finite _ _ _ Hf) as [->|[[[|] ->]|(i & fr & ex & -> & Hm & _)]];
    try done.
  apply number_chars_printable. pose proof (match_number_concat _ _ _ _ _ Hm) as E.
  rewrite app_nil_r in E. rewrite E. by eapply match_number_chars.
Qed.

Lemma int_repr_printable z : forallb printable (int_repr z) = true.
Proof.
  apply number_chars_printable.
  pose proof (match_number_chars _ _ _ _ _ (match_number_int_repr z)) as H.
  by rewrite !app_nil_r in H.
Qed.

(** [ensure_ascii]: the text of a value is made of printable ASCII
    characters only. *)
Lemma dumps_printable v :
  value_ok float_of_literal float_repr v = true ->
  forallb printable (dumps float_repr v) = true.
Proof.
  induction v as [|b|z|f|s|l IH|d IH] using json_induction; intros Hok.
  - done.
  - by destruct b.
  - apply int_repr_printable.
  - by apply floatstr_printable.
  - apply string_printable.
  - destruct l as [|x l]; [done|].
    change (dumps float_repr (JList (x :: l)))
      with ([LBRACKET] ++ join_with [COMMA] (map (dumps float_repr) (x :: l))
            ++ [RBRACKET]).
    rewrite !forallb_app. rewrite join_with_keeps; [done|done|].
    apply Forall_map, Forall_forall. intros y Hy.
    apply (proj1 (Forall_forall _ _) IH y Hy).
    cbn [value_ok] in Hok. by apply (proj1 (forallb_forall _ _) Hok), list_elem_of_In.
  - destruct d as [|kv d]; [done|].
    change (dumps float_repr (JDict (kv :: d)))
      with ([LBRACE]
            ++ join_with [COMMA]
                 (map (fun kv : str * json =>
                         encode_basestring_ascii (fst kv) ++ [COLON]
                         ++ dumps float_repr (snd kv)) (kv :: d))
            ++ [RBRACE]).
    rewrite !forallb_app. rewrite join_with_keeps; [done|done|].
    cbn [value_ok] in Hok. apply andb_true_iff in Hok as [Hok _].
    apply Forall_map, Forall_forall. intros y Hy. cbn beta.
    rewrite !forallb_app, string_printable.
    rewrite (proj1 (Forall_forall _ _) IH y Hy); [done|].
    apply list_elem_of_In in Hy.
    by apply (proj1 (forallb_forall _ _) Hok), andb_true_iff in Hy as [_ ?].
Qed.

Hypothesis float_text :
  forall text, float_ok float_of_literal float_repr (float_of_literal text) = true.



End Encodable.

(** ** One run of [process_file], from its result *)

Lemma join_nil_length (a : str) : (length a <= length (join a []))%nat.
Proof.
  unfold join. cbn [starts_with_char].
  destruct (_ || _); rewrite ?length_app; lia.
Qed.

Lemma dirname_backup_inside fp : dirname (backup_inside_of fp) = backup_path_of fp.
Proof.
  rewrite backup_inside_shape. cbn [app].
  rewrite dirname_prefixed by apply basename_no_slash.
  rewrite backup_path_shape.
  change (str_of ".bak") with (str_of ".ba" ++ [107]).
  rewrite !app_assoc. rewrite all_slashes_snoc.
  rewrite (all_slashes_snoc _ 107). change (SLASH =? 107) with false.
  rewrite andb_false_r. cbn [andb].
  by rewrite rstrip_slash_snoc.
Qed.

(** The file is never its own backup: [shutil.copy2] does not raise
    [SameFileError]. *)
Lemma file_not_backup_inside fp : fp <> backup_inside_of fp.
Proof.
  intros E. apply (f_equal dirname) in E. rewrite dirname_backup_inside in E.
  rewrite backup_path_shape, backup_folder_shape in E.
  apply (f_equal length) in E. rewrite !length_app in E.
  pose proof (join_nil_length (dirname fp)). cbn [length] in E. lia.
Qed.

Lemma file_not_copy_target (fp : str) (fs : gmap str node) : fp <> copy_target fp fs.
Proof.
  destruct (copy_target_cases fp fs) as [-> | ->];
    [apply file_not_backup_path|apply file_not_backup_inside].
Qed.

Lemma copy_target_not_folder (fp : str) (fs : gmap str node) :
  copy_target fp fs <> backup_folder_of fp.
Proof.
  intros E. destruct (copy_target_cases fp fs) as [H|H]; rewrite H in E.
  - by apply (backup_folder_not_backup_path fp).
  - by apply (backup_folder_not_inside fp).
Qed.

Lemma copy_target_not_output (fp : str) (fs : gmap str node) :
  copy_target fp fs <> output_path_of fp.
Proof.
  intros E. destruct (copy_target_cases fp fs) as [H|H]; rewrite H in E.
  - by apply (output_not_backup_path fp).
  - by apply (output_not_backup_inside fp).
Qed.

Lemma copy_target_folder (fp : str) (fs : gmap str node) n :
  copy_target fp (<[backup_folder_of fp := n]> fs) = copy_target fp fs.
Proof.
  unfold copy_target.
  by rewrite lookup_insert_ne by apply backup_folder_not_backup_path.
Qed.

Section FileRun.

Variable float_of_literal : str -> spec_float.
Variable float_repr : spec_float -> str.
Variable str_lower : str -> str.

Abbreviation process_file' := (process_file float_of_literal float_repr str_lower).
Abbreviation minified' := (minified float_of_literal float_repr str_lower).

Abbreviation ready' := (ready float_of_literal float_repr str_lower).

Lemma finish_true fp enc c fs3 t2 :
  fst (finish_outcome float_of_literal float_repr str_lower fp enc c fs3 t2) = Ok true ->
  exists content out bytes,
    c = Some content /\ minified' fp content = Some out
    /\ is_dir_node (fs3 !! output_path_of fp) = false
    /\ encode enc out = Some bytes.
Proof.
  unfold finish_outcome, failed. destruct c as [content|]; [|by cbn [fst]].
  destruct (minified' fp content) as [out|] eqn:Em; [|by cbn [fst]].
  destruct (fs3 !! output_path_of fp) as [[?|]|] eqn:E; try (by cbn [fst]);
    (destruct (encode enc out) as [bytes|] eqn:Ee; [|by cbn [fst]]);
    intros _; by exists content, out, bytes.
Qed.

Lemma finish_ready fp enc content out bytes fs3 t2 :
  minified' fp content = Some out ->
  is_dir_node (fs3 !! output_path_of fp) = false ->
  encode enc out = Some bytes ->
  finish_outcome float_of_literal float_repr str_lower fp enc (Some content) fs3 t2 =
  (Ok true,
   World (<[output_path_of fp := File bytes]> fs3)
     (t2 ++ [ReadFile fp enc; WriteFile (output_path_of fp) enc]
         ++ success_report fp enc)).
Proof.
  intros Hm Hd He. unfold finish_outcome. rewrite Hm, He.
  destruct (fs3 !! output_path_of fp) as [[?|]|]; try done;
    by rewrite <- !app_assoc.
Qed.

Lemma copy_true fp data fs2 t1 :
  fst (copy_outcome float_of_literal float_repr str_lower fp data fs2 t1) = Ok true ->
  exists content out bytes,
    is_dir_node (fs2 !! copy_target fp fs2) = false
    /\ file_text (detected data) data = Some content
    /\ minified' fp content = Some out
    /\ is_dir_node (fs2 !! output_path_of fp) = false
    /\ encode (detected data) out = Some bytes.
Proof.
  unfold copy_outcome. fold (copy_target fp fs2).
  destruct (str_eqb fp (copy_target fp fs2)); [by cbn [fst]|].
  destruct (fs2 !! copy_target fp fs2) as [[?|]|] eqn:E; try (by cbn [fst]);
    intros (content & out & bytes & -> & Hm & Hd & He)%finish_true;
    exists content, out, bytes;
    rewrite lookup_insert_ne in Hd by apply copy_target_not_output; done.
Qed.

Lemma copy_ready fp data content out bytes fs2 t1 :
  is_dir_node (fs2 !! copy_target fp fs2) = false ->
  file_text (detected data) data = Some content ->
  minified' fp content = Some out ->
  is_dir_node (fs2 !! output_path_of fp) = false ->
  encode (detected data) out = Some bytes ->
  copy_outcome float_of_literal float_repr str_lower fp data fs2 t1 =
  (Ok true,
   World (<[output_path_of fp := File bytes]> (<[copy_target fp fs2 := File data]> fs2))
     (t1 ++ [Copy2 fp (backup_path_of fp); ReadFile fp (detected data);
             WriteFile (output_path_of fp) (detected data)]
         ++ success_report fp (detected data))).
Proof.
  intros Hc Ht Hm Hd He. unfold copy_outcome. fold (copy_target fp fs2).
  unfold str_eqb. rewrite bool_decide_eq_false_2 by apply file_not_copy_target.
  rewrite Ht.
  rewrite (finish_ready _ _ _ out bytes); [| done | | done].
  - destruct (fs2 !! copy_target fp fs2) as [[?|]|]; try done;
      by rewrite <- !app_assoc.
  - by rewrite lookup_insert_ne by apply copy_target_not_output.
Qed.

(** A run that returns [True] found everything ready. *)
Lemma process_file_true fp w :
  fst (process_file' fp w) = Ok true ->
  exists data content out bytes, ready' fp (files w) data content out bytes.
Proof.
  rewrite process_file_outcome. unfold file_outcome.
  destruct (files w !! fp) as [[data|]|] eqn:Efp; try (by cbn [fst]).
  destruct (files w !! backup_folder_of fp) as [[?|]|] eqn:Ebf; [by cbn [fst]| |].
  - intros (content & out & bytes & H1 & H2 & H3 & H4 & H5)%copy_true.
    exists data, content, out, bytes. unfold ready. by rewrite Ebf.
  - intros (content & out & bytes & H1 & H2 & H3 & H4 & H5)%copy_true.
    exists data, content, out, bytes. unfold ready. rewrite Ebf.
    rewrite copy_target_folder in H1.
    rewrite lookup_insert_ne in H1 by (apply not_eq_sym, copy_target_not_folder).
    rewrite lookup_insert_ne in H4 by (apply not_eq_sym, output_not_backup_folder).
    done.
Qed.

(** When everything is ready the run is this one. *)
Lemma process_file_ready fp w data content out bytes :
  ready' fp (files w) data content out bytes ->
  process_file' fp w =
  (Ok true,
   World (processed_files fp data bytes (files w)) (trace w ++ success_trace fp data)).
Proof.
  intros (Hfp & Hbf & Hc & Hd & Ht & Hm & He).
  rewrite process_file_outcome. unfold file_outcome. rewrite Hfp.
  unfold processed_files, success_trace.
  destruct (files w !! backup_folder_of fp) as [[?|]|] eqn:Ebf; [done| |].
  - rewrite (copy_ready _ _ content out bytes) by done.
    rewrite (insert_id (files w) (backup_folder_of fp) Dir) by done.
    by rewrite <- !app_assoc.
  - rewrite (copy_ready _ _ content out bytes); [| |done|done| |done].
    + rewrite copy_target_folder. by rewrite <- !app_assoc.
    + rewrite copy_target_folder.
      by rewrite lookup_insert_ne by (apply not_eq_sym, copy_target_not_folder).
    + by rewrite lookup_insert_ne by (apply not_eq_sym, output_not_backup_folder).
Qed.

End FileRun.

(** ** Further properties of [process_file] *)

Section FileProcessorMore.

Variable float_of_literal : str -> spec_float.
Variable float_repr : spec_float -> str.
Variable str_lower : str -> str.

Abbreviation process_file' := (process_file float_of_literal float_repr str_lower).
Abbreviation minified' := (minified float_of_literal float_repr str_lower).
Abbreviation ready' := (ready float_of_literal float_repr str_lower).

Lemma process_file_returns (fp : str) w :
  exists ok, fst (process_file' fp w) = Ok ok.
Proof.
  destruct (steady_process_file float_of_literal float_repr str_lower fp w)
    as (ok & fs' & new & E & _). exists ok. by rewrite E.
Qed.

Lemma process_file_not_true (fp : str) w :
  fst (process_file' fp w) <> Ok true -> fst (process_file' fp w) = Ok false.
Proof.
  intros H. destruct (process_file_returns fp w) as [[|] E]; [done|exact E].
Qed.

(** What is ready once stays ready after the run, and a second run finds
    the file system as the first one left it. *)
Lemma ready_again (fp : str) (fs : gmap str node) data content out bytes :
  snd (splitext (basename fp)) <> str_of ".skysheet" ->
  ready' fp fs data content out bytes ->
  ready' fp (processed_files fp data bytes fs) data content out bytes
  /\ processed_files fp data bytes (processed_files fp data bytes fs)
     = processed_files fp data bytes fs.
Proof.
  intros Hext (Hfp & Hbf & Hc & Hd & Ht & Hm & He).
  assert (fp <> backup_folder_of fp) as Hne by (intros E; by rewrite <- E, Hfp in Hbf).
  pose proof (output_not_file fp Hext) as Hout.
  set (fs1 := processed_files fp data bytes fs).
  assert (fs1 !! output_path_of fp = Some (File bytes)) as H1
    by apply lookup_insert_eq.
  assert (fs1 !! copy_target fp fs = Some (File data)) as H2.
  { unfold fs1, processed_files.
    rewrite lookup_insert_ne by (apply not_eq_sym, copy_target_not_output).
    apply lookup_insert_eq. }
  assert (fs1 !! backup_folder_of fp = Some Dir) as H3.
  { unfold fs1, processed_files.
    rewrite lookup_insert_ne by apply output_not_backup_folder.
    rewrite lookup_insert_ne by apply copy_target_not_folder.
    apply lookup_insert_eq. }
  assert (copy_target fp fs1 = copy_target fp fs) as H4.
  { unfold copy_target at 1.
    destruct (copy_target_cases fp fs) as [E|E].
    - rewrite E in H2. by rewrite H2.
    - assert (fs1 !! backup_path_of fp = fs !! backup_path_of fp) as ->.
      { unfold fs1, processed_files.
        rewrite lookup_insert_ne by apply output_not_backup_path.
        rewrite E, lookup_insert_ne by (apply not_eq_sym, backup_path_not_inside).
        by rewrite lookup_insert_ne by apply backup_folder_not_backup_path. }
      done. }
  assert (fs1 !! fp = Some (File data)) as H5.
  { unfold fs1, processed_files.
    rewrite lookup_insert_ne by done.
    rewrite lookup_insert_ne by (apply not_eq_sym, file_not_copy_target).
    by rewrite lookup_insert_ne by (by apply not_eq_sym). }
  split.
  - unfold ready. rewrite H4, H1, H2, H3. done.
  - unfold processed_files at 1. fold fs1. rewrite H4.
    by rewrite (insert_id fs1 (backup_folder_of fp)), (insert_id fs1 (copy_target fp fs)),
      (insert_id fs1 (output_path_of fp)).
Qed.


(** X9. On a path that is missing or is a directory [process_file] prints
    that the file was not found and returns [False]; it probes nothing,
    makes no backup folder and leaves the file system as it is. *)
Theorem process_file_not_a_file (file_path : str) (w : world) :
  is_file_node (files w !! file_path) = false ->
  process_file' file_path w =
  (Ok false, World (files w) (trace w ++ [Printed (FileNotFound file_path)])).
Proof.
  intros H. rewrite process_file_outcome. unfold file_outcome.
  by destruct (files w !! file_path) as [[?|]|].
Qed.

(** X10. When [process_file] returns [True] the file system differs from the
    one before in three places at most: the backup folder is a directory,
    the backup holds the bytes of the input, and the output file holds the
    minified text in the encoding detected for the input, so that decoding
    it gives that text back.  The operations were, in this order: the
    probes of the detector, [makedirs], [copy2], [read_file], [write_file]
    and the three lines of the report. *)
Theorem process_file_success_state (file_path : str) (w : world) :
  fst (process_file' file_path w) = Ok true ->
  exists data content out bytes,
    files w !! file_path = Some (File data)
    /\ file_text (detected data) data = Some content
    /\ minified' file_path content = Some out
    /\ decode (detected data) bytes = Some out
    /\ files (snd (process_file' file_path w))
       = processed_files file_path data bytes (files w)
    /\ trace (snd (process_file' file_path w)) = trace w ++ success_trace file_path data.
Proof.
  intros (data & content & out & bytes & Hr)%process_file_true.
  exists data, content, out, bytes.
  rewrite (process_file_ready _ _ _ _ _ _ _ _ _ Hr).
  destruct Hr as (Hfp & _ & _ & _ & Ht & Hm & He).
  split_and!; try done. by apply decode_encode.
Qed.

(** X11. Processing a file a second time, when the first run succeeded and
    the extension is not [.skysheet], succeeds again and leaves the file
    system exactly as the first run left it. *)
Theorem process_file_twice (file_path : str) (w : world) :
  snd (splitext (basename file_path)) <> str_of ".skysheet" ->
  fst (process_file' file_path w) = Ok true ->
  let w1 := snd (process_file' file_path w) in
  fst (process_file' file_path w1) = Ok true
  /\ files (snd (process_file' file_path w1)) = files w1.
Proof.
  intros Hext (data & content & out & bytes & Hr)%process_file_true. cbv zeta.
  rewrite (process_file_ready _ _ _ _ _ _ _ _ _ Hr). cbn [snd].
  destruct (ready_again _ _ _ _ _ _ Hext Hr) as [Hr1 E].
  rewrite (process_file_ready _ _ _ file_path (World (processed_files file_path data bytes (files w)) _)
             _ _ _ _ Hr1). cbn [fst snd files].
  by rewrite E.
Qed.

(** X12. A file whose bytes are text neither in UTF-8 nor in UTF-16 little
    endian is not minified: the detector warns, [process_file] returns
    [False], [write_file] is not called and the output path is left as it
    was. *)
Theorem process_file_undecodable (file_path : str) (w : world) (data : list byte) :
  files w !! file_path = Some (File data) ->
  decode UTF8 data = None -> decode UTF16LE data = None ->
  let r := process_file' file_path w in
  fst r = Ok false
  /\ (exists new,
        trace (snd r) = trace w ++ new /\ no_write new = true
        /\ Printed (EncodingWarning file_path) ∈ new)
  /\ files (snd r) !! output_path_of file_path = files w !! output_path_of file_path.
Proof.
  intros Hfp H8 H16. cbv zeta. rewrite process_file_outcome. unfold file_outcome.
  rewrite Hfp. unfold detection_trace. rewrite H8, H16.
  set (t1 := trace w ++ _ ++ _).
  assert (exists new1, t1 = trace w ++ new1 /\ no_write new1 = true
                       /\ Printed (EncodingWarning file_path) ∈ new1) as (new1 & E1 & N1 & I1).
  { eexists. split; [reflexivity|]. split; [done|].
    apply elem_of_app. left. apply list_elem_of_In. cbn [In]. tauto. }
  assert (forall fs2,
    fs2 !! output_path_of file_path = files w !! output_path_of file_path ->
    let r := copy_outcome float_of_literal float_repr str_lower file_path data fs2 t1 in
    fst r = Ok false
    /\ (exists new, trace (snd r) = trace w ++ new /\ no_write new = true
                    /\ Printed (EncodingWarning file_path) ∈ new)
    /\ files (snd r) !! output_path_of file_path = files w !! output_path_of file_path)
    as Hcopy.
  { intros fs2 Hfs2. unfold copy_outcome. fold (copy_target file_path fs2).
    assert (file_text (detected data) data = None) as ->.
    { unfold file_text.
      assert (detected data = UTF8) as -> by (unfold detected; by rewrite H8, H16).
      by rewrite H8. }
    assert (forall fs3 line e,
      fs3 !! output_path_of file_path = files w !! output_path_of file_path ->
      forall extra, no_write extra = true ->
      let r := failed file_path e line fs3 (t1 ++ extra) in
      fst r = Ok false
      /\ (exists new, trace (snd r) = trace w ++ new /\ no_write new = true
                      /\ Printed (EncodingWarning file_path) ∈ new)
      /\ files (snd r) !! output_path_of file_path = files w !! output_path_of file_path)
      as Hfail.
    { intros fs3 line e Hfs3 extra Hextra. unfold failed. cbn [fst snd files trace].
      split; [done|]. split; [|done].
      exists ((new1 ++ extra) ++ failure_report file_path e line).
      rewrite E1, <- !app_assoc. split; [done|].
      rewrite !no_write_app, N1, Hextra. split; [done|].
      apply elem_of_app. by left. }
    destruct (str_eqb file_path _); [by apply Hfail|].
    unfold finish_outcome.
    destruct (fs2 !! copy_target file_path fs2) as [[?|]|]; [|by apply Hfail|].
    - rewrite <- app_assoc. apply Hfail; [|done].
      by rewrite lookup_insert_ne by apply copy_target_not_output.
    - rewrite <- app_assoc. apply Hfail; [|done].
      by rewrite lookup_insert_ne by apply copy_target_not_output. }
  destruct (files w !! backup_folder_of file_path) as [[?|]|] eqn:Ebf.
  - unfold failed. cbn [fst snd files trace]. split; [done|]. split; [|done].
    exists (new1 ++ failure_report file_path FileExistsError 121).
    rewrite E1, <- !app_assoc. split; [done|].
    rewrite no_write_app, N1. split; [done|]. apply elem_of_app. by left.
  - by apply Hcopy.
  - apply Hcopy. by rewrite lookup_insert_ne by (apply not_eq_sym, output_not_backup_folder).
Qed.

(** X13. A [.json] file whose text starts with the byte order mark U+FEFF is
    never minified: neither codec strips the mark, [json.loads] refuses a
    text that starts with it, and [process_file] returns [False]. *)
Theorem json_with_bom_is_rejected (file_path : str) (w : world) (data : list byte)
    (text : str) :
  files w !! file_path = Some (File data) ->
  str_lower (snd (splitext (basename file_path))) = str_of ".json" ->
  decode (detected data) data = Some (BOM :: text) ->
  loads float_of_literal (BOM :: universal_newlines text) = None
  /\ fst (process_file' file_path w) = Ok false.
Proof.
  intros Hfp Hext Hd. split; [done|].
  apply process_file_not_true.
  intros (data' & content & out & bytes & Hfp' & _ & _ & _ & Ht & Hm & _)%process_file_true.
  rewrite Hfp in Hfp'. injection Hfp' as <-.
  unfold file_text in Ht. rewrite Hd in Ht. injection Ht as <-.
  unfold minified in Hm. rewrite Hext in Hm. done.
Qed.

End FileProcessorMore.

Lemma process_file_not_a_file_witness :
  process_file zero_of_literal zero_repr ascii_lower (str_of "d") world_d =
  (Ok false, World (files world_d) (trace world_d ++ [Printed (FileNotFound (str_of "d"))])).
Proof.
  exact (process_file_not_a_file zero_of_literal zero_repr ascii_lower
           (str_of "d") world_d eq_refl).
Defined.

Section FileProcessorCriterion.

Variable float_of_literal : str -> spec_float.
Variable float_repr : spec_float -> str.
Variable str_lower : str -> str.

Abbreviation process_file' := (process_file float_of_literal float_repr str_lower).
Abbreviation minified' := (minified float_of_literal float_repr str_lower).

Hypothesis float_text :
  forall text, float_ok float_of_literal float_repr (float_of_literal text) = true.


End FileProcessorCriterion.

Section InPlace.

Variable float_of_literal : str -> spec_float.
Variable float_repr : spec_float -> str.
Variable str_lower : str -> str.

Abbreviation process_file' := (process_file float_of_literal float_repr str_lower).
Abbreviation minified' := (minified float_of_literal float_repr str_lower).

Lemma output_path_skysheet (top name : str) :
  clean top = true -> mem SLASH name = false ->
  snd (splitext name) = str_of ".skysheet" ->
  output_path_of (join top name) = join top name.
Proof.
  intros Hc Hn Hext. unfold output_path_of.
  rewrite dirname_join_clean, basename_join by done.
  by rewrite <- Hext, splitext_app.
Qed.

(** X15. The output path of a file with the extension [.skysheet], given by a
    normalized directory and a name as the directory walker gives it, is
    the path of the file itself: when [process_file] succeeds on it, the
    input is overwritten with its minified text, and the bytes it had are
    in the backup only. *)
Theorem skysheet_is_rewritten_in_place (top name : str) (w : world) :
  clean top = true -> mem SLASH name = false ->
  snd (splitext name) = str_of ".skysheet" ->
  fst (process_file' (join top name) w) = Ok true ->
  output_path_of (join top name) = join top name
  /\ exists data content out bytes,
       files w !! join top name = Some (File data)
       /\ file_text (detected data) data = Some content
       /\ minified' (join top name) content = Some out
       /\ decode (detected data) bytes = Some out
       /\ files (snd (process_file' (join top name) w)) !! join top name
          = Some (File bytes)
       /\ files (snd (process_file' (join top name) w))
            !! copy_target (join top name) (files w) = Some (File data).
Proof.
  intros Hc Hn Hext (data & content & out & bytes & Hr)%process_file_true.
  pose proof (output_path_skysheet _ _ Hc Hn Hext) as Hout.
  split; [done|]. exists data, content, out, bytes.
  rewrite (process_file_ready _ _ _ _ _ _ _ _ _ Hr). cbn [snd files].
  destruct Hr as (Hfp & _ & _ & _ & Ht & Hm & He).
  split_and!; try done.
  - by apply decode_encode.
  - unfold processed_files. rewrite Hout. apply lookup_insert_eq.
  - unfold processed_files.
    rewrite lookup_insert_ne by (apply not_eq_sym, copy_target_not_output).
    apply lookup_insert_eq.
Qed.

End InPlace.


Lemma process_file_success_state_witness :
  exists bytes,
    decode UTF8 bytes = Some (str_of "a b")
    /\ files (snd (process_file zero_of_literal zero_repr ascii_lower
                     (str_of "t/a.TXT") world_tree))
       = processed_files (str_of "t/a.TXT") (bytes_of "a  b") bytes (files world_tree).
Proof.
  assert (fst (process_file zero_of_literal zero_repr ascii_lower
                 (str_of "t/a.TXT") world_tree) = Ok true) as H by (vm_compute; reflexivity).
  destruct (process_file_success_state zero_of_literal zero_repr ascii_lower
              (str_of "t/a.TXT") world_tree H)
    as (data & content & out & bytes & H1 & H2 & H3 & H4 & H5 & _).
  injection H1 as <-. injection H2 as <-. injection H3 as <-.
  exists bytes. split; [exact H4|exact H5].
Defined.

Lemma process_file_twice_witness :
  let w1 := snd (process_file zero_of_literal zero_repr ascii_lower
                   (str_of "t/a.TXT") world_tree) in
  fst (process_file zero_of_literal zero_repr ascii_lower (str_of "t/a.TXT") w1) = Ok true
  /\ files (snd (process_file zero_of_literal zero_repr ascii_lower (str_of "t/a.TXT") w1))
     = files w1.
Proof.
  assert (snd (splitext (basename (str_of "t/a.TXT"))) <> str_of ".skysheet") as H1
    by discriminate.
  assert (fst (process_file zero_of_literal zero_repr ascii_lower
                 (str_of "t/a.TXT") world_tree) = Ok true) as H2 by (vm_compute; reflexivity).
  exact (process_file_twice zero_of_literal zero_repr ascii_lower
           (str_of "t/a.TXT") world_tree H1 H2).
Defined.

Lemma process_file_undecodable_witness :
  fst (process_file zero_of_literal zero_repr ascii_lower (str_of "d/x.txt") world_binary)
  = Ok false
  /\ files (snd (process_file zero_of_literal zero_repr ascii_lower
                   (str_of "d/x.txt") world_binary)) !! output_path_of (str_of "d/x.txt")
     = None.
Proof.
  destruct (process_file_undecodable zero_of_literal zero_repr ascii_lower
              (str_of "d/x.txt") world_binary (map byte_of [255]) eq_refl eq_refl eq_refl)
    as (H1 & _ & H2).
  split; [exact H1|exact H2].
Defined.

Lemma json_with_bom_is_rejected_witness :
  decode (detected bom_bytes) bom_bytes = Some (BOM :: str_of "[]")
  /\ fst (process_file zero_of_literal zero_repr ascii_lower (str_of "d/b.json") world_bom)
     = Ok false.
Proof.
  split; [reflexivity|].
  exact (proj2 (json_with_bom_is_rejected zero_of_literal zero_repr ascii_lower
                  (str_of "d/b.json") world_bom bom_bytes (str_of "[]")
                  eq_refl eq_refl eq_refl)).
Defined.

Lemma skysheet_is_rewritten_in_place_witness :
  output_path_of (str_of "d/a.skysheet") = str_of "d/a.skysheet"
  /\ exists bytes,
       decode UTF8 bytes = Some (str_of "x y")
       /\ files (snd (process_file zero_of_literal zero_repr ascii_lower
                        (str_of "d/a.skysheet") world_sky)) !! str_of "d/a.skysheet"
          = Some (File bytes).
Proof.
  assert (fst (process_file zero_of_literal zero_repr ascii_lower
                 (join (str_of "d") (str_of "a.skysheet")) world_sky) = Ok true) as H
    by (vm_compute; reflexivity).
  destruct (skysheet_is_rewritten_in_place zero_of_literal zero_repr ascii_lower
              (str_of "d") (str_of "a.skysheet") world_sky eq_refl eq_refl eq_refl H)
    as (H1 & data & content & out & bytes & H2 & H3 & H4 & H5 & H6 & _).
  split; [exact H1|].
  injection H2 as <-. injection H3 as <-. injection H4 as <-.
  exists bytes. split; [exact H5|exact H6].
Defined.

Section Failures.

Variable float_of_literal : str -> spec_float.
Variable float_repr : spec_float -> str.
Variable str_lower : str -> str.

Abbreviation process_file' := (process_file float_of_literal float_repr str_lower).
Abbreviation minified' := (minified float_of_literal float_repr str_lower).

Hypothesis float_text :
  forall text, float_ok float_of_literal float_repr (float_of_literal text) = true.




End Failures.


(** ** Further properties of the directory walker *)

Lemma below_app top (r : str) : r <> [] -> below top (join top [] ++ r) = true.
Proof. intros Hr. apply below_iff. by exists r. Qed.

(** What [process_file] writes for an entry of [top] lies below [top]. *)
Lemma derived_paths_below top (f : str) :
  clean top = true -> mem SLASH f = false ->
  below top (backup_folder_of (join top f)) = true
  /\ below top (backup_path_of (join top f)) = true
  /\ below top (backup_inside_of (join top f)) = true
  /\ below top (output_path_of (join top f)) = true.
Proof.
  intros Hc Hf.
  rewrite backup_inside_shape, backup_path_shape, backup_folder_shape, output_path_shape.
  rewrite dirname_join_clean by done. rewrite <- !app_assoc.
  split_and!; apply below_app; try done.
  destruct (fst (splitext (basename (join top f)))); done.
Qed.

Section WalkFrame.

Variable float_of_literal : str -> spec_float.
Variable float_repr : spec_float -> str.
Variable str_lower : str -> str.

Abbreviation process_file' := (process_file float_of_literal float_repr str_lower).
Abbreviation process_files' := (process_files float_of_literal float_repr str_lower).
Abbreviation walk' := (walk float_of_literal float_repr str_lower).
Abbreviation process_directory' :=
  (process_directory float_of_literal float_repr str_lower).

Lemma keeps_listed_file (k : str) o top (f : str) :
  clean top = true -> mem SLASH f = false -> below top k = false ->
  keeps k o (process_file' (join top f)).
Proof.
  intros Hc Hf Hk.
  destruct (derived_paths_below top f Hc Hf) as (H1 & H2 & H3 & H4).
  apply keeps_process_file; try left; congruence.
Qed.

Lemma keeps_process_files (k : str) o top (names : list str) : forall acc,
  clean top = true -> Forall (fun f => mem SLASH f = false) names ->
  below top k = false ->
  keeps k o (process_files' top names acc).
Proof.
  induction names as [|f rest IH]; intros acc Hc Hn Hk; [apply keeps_ret|].
  apply Forall_cons in Hn as [Hf Hn]. cbn [process_files].
  destruct (is_supported str_lower f); [|by apply IH].
  apply keeps_bind; [by apply keeps_listed_file|intros ok].
  apply keeps_bind; [apply keeps_emit|intros _]. by apply IH.
Qed.

Lemma keeps_walk_dirs (k : str) o (walk_one : str -> nat * nat -> M (nat * nat))
    top (dirs : list str) :
  (forall d acc, d ∈ dirs -> keeps k o (walk_one (join top d) acc)) ->
  forall acc, keeps k o (walk_dirs walk_one top dirs acc).
Proof.
  induction dirs as [|d rest IH]; intros Hone acc; [apply keeps_ret|].
  cbn [walk_dirs]. apply keeps_bind.
  - apply Hone. by left.
  - intros acc'. apply IH. intros d' acc'' Hd'. apply Hone. by right.
Qed.

Lemma keeps_walk (k : str) o fuel : forall top acc,
  clean top = true -> below top k = false -> keeps k o (walk' fuel top acc).
Proof.
  induction fuel as [|fuel IH]; intros top acc Hc Hk; [apply keeps_raise|].
  intros w Hw. rewrite walk_S. unfold bind at 1. rewrite scandir_run.
  destruct (listing_of top (files w)) as [[dirs nondirs]|] eqn:El; [|done].
  apply listing_of_some in El as (_ & Hd & Hn).
  apply keeps_bind; [| |done].
  - apply keeps_process_files; [done| |done].
    apply Forall_forall. intros f Hf. subst nondirs.
    by apply (listed_file top (files w)).
  - intros acc'. apply keeps_walk_dirs. intros d acc'' Hin. subst dirs.
    apply listed_dir in Hin as (_ & H1 & H2).
    apply IH; [by apply clean_child|].
    apply not_true_is_false. intros Hb. apply (below_child top d k H1 H2) in Hb.
    congruence.
Qed.

(** X17. A walk of a directory, given as a normalized path, changes nothing
    outside it: every path that is not below the directory, the directory
    itself included, holds after the walk what it held before.  Inside,
    nothing is removed: directories stay directories and regular files stay
    regular files. *)
Theorem directory_walk_frame (directory : str) (w : world) :
  clean directory = true ->
  let w' := snd (process_directory' directory w) in
  (forall k, below directory k = false -> files w' !! k = files w !! k)
  /\ grows (files w) (files w').
Proof.
  intros Hc. cbv zeta. split.
  - intros k Hk. unfold process_directory, bind, print, emit. cbn [files trace].
    by apply keeps_walk.
  - destruct (process_directory_run float_of_literal float_repr str_lower directory w Hc)
      as (acc' & fs' & new & E & _ & _ & _ & _ & Hg & _).
    by rewrite E.
Qed.

(** X18. On a path that is missing or is a regular file the directory walker
    finds nothing to list: it returns the counts (0, 0), processes no file
    and leaves the file system as it is. *)
Theorem process_directory_not_a_directory (directory : str) (w : world) :
  is_dir_node (files w !! directory) = false ->
  process_directory' directory w =
  (Ok (0, 0)%nat,
   World (files w)
     (trace w ++ [Printed (ProcessingDirectory directory); Listed directory None])).
Proof.
  intros H. unfold process_directory, bind at 1, print, emit. cbn [files trace].
  rewrite walk_S. unfold bind. rewrite scandir_run. cbn [files trace].
  unfold listing_of. destruct (files w !! directory) as [[?|]|]; try done;
    by rewrite <- app_assoc.
Qed.

End WalkFrame.

Lemma directory_walk_frame_witness :
  files (snd (process_directory zero_of_literal zero_repr ascii_lower
                (str_of "t/sub") world_tree)) !! str_of "t/a.TXT"
  = Some (File (bytes_of "a  b")).
Proof.
  exact (proj1 (directory_walk_frame zero_of_literal zero_repr ascii_lower
                  (str_of "t/sub") world_tree eq_refl) (str_of "t/a.TXT") eq_refl).
Defined.

Lemma process_directory_not_a_directory_witness :
  process_directory zero_of_literal zero_repr ascii_lower (str_of "t/a.TXT") world_tree =
  (Ok (0, 0)%nat,
   World (files world_tree)
     (trace world_tree ++ [Printed (ProcessingDirectory (str_of "t/a.TXT"));
                           Listed (str_of "t/a.TXT") None])).
Proof.
  exact (process_directory_not_a_directory zero_of_literal zero_repr ascii_lower
           (str_of "t/a.TXT") world_tree eq_refl).
Defined.

(** ** Directories made during a walk are not walked *)

Section WalkOld.

Variable float_of_literal : str -> spec_float.
Variable float_repr : spec_float -> str.
Variable str_lower : str -> str.

Abbreviation walk' := (walk float_of_literal float_repr str_lower).
Abbreviation process_directory' :=
  (process_directory float_of_literal float_repr str_lower).
Abbreviation is_supported' := (is_supported str_lower).

Lemma run_inv {A} (a a' : A) (fs fs' : gmap str node) (t new new' : list event) :
  (Ok a, World fs (t ++ new)) = (Ok a', World fs' (t ++ new')) -> new = new'.
Proof. intros [= _ _ H]. by apply app_inv_head in H. Qed.

Lemma walk_dirs_lists_old (fs0 : gmap str node) fuel (top : str)
    (IH : forall (top : str) (acc : nat * nat) w,
        clean top = true -> (depth_bound fs0 top < fuel)%nat ->
        old_dirs fs0 (files w) top ->
        (files w !! top = Some Dir -> fs0 !! top = Some Dir) ->
        forall acc' fs' new,
          walk' fuel top acc w = (Ok acc', World fs' (trace w ++ new)) ->
          Forall (listed_old fs0) (listings new))
    (dirs : list str) : forall (acc : nat * nat) w,
  NoDup dirs ->
  Forall (fun d => d <> [] /\ mem SLASH d = false /\ fs0 !! join top d = Some Dir) dirs ->
  (forall d, d ∈ dirs -> old_dirs fs0 (files w) (join top d)) ->
  (depth_bound fs0 top <= fuel)%nat ->
  forall acc' fs' new,
    walk_dirs (walk' fuel) top dirs acc w = (Ok acc', World fs' (trace w ++ new)) ->
    Forall (listed_old fs0) (listings new).
Proof.
  induction dirs as [|d rest IHd]; intros acc w Hnd Hdirs Hold Hfuel acc' fs' new Heq.
  - cbn [walk_dirs] in Heq. unfold ret in Heq. destruct w as [fs t]. cbn [trace] in Heq.
    rewrite <- (app_nil_r t) in Heq at 1. apply run_inv in Heq as <-. constructor.
  - apply NoDup_cons in Hnd as [Hd Hnd].
    apply Forall_cons in Hdirs as [(Hd1 & Hd2 & Hd3) Hdirs].
    assert (depth_bound fs0 (join top d) < fuel)%nat as Hdepth
      by (pose proof (depth_child fs0 top d Hd1 Hd2 Hd3); lia).
    destruct (walk_run float_of_literal float_repr str_lower fs0 fuel (join top d) acc w)
      as (acc1 & fs1 & new1 & E1 & P1);
      [by apply clean_child|done|apply Hold; left|].
    pose proof (IH (join top d) acc w (clean_child top d Hd1 Hd2) Hdepth
                  (Hold d ltac:(left)) (fun _ => Hd3) acc1 fs1 new1 E1) as Hl1.
    destruct P1 as (_ & _ & _ & _ & _ & Hf1 & _).
    assert (forall d', d' ∈ rest ->
              old_dirs fs0 (files (World fs1 (trace w ++ new1))) (join top d')) as Hold'.
    { intros d' Hd' k Hk Hdir. cbn [files] in Hdir.
      assert (below (join top d) k = false) as Hnb.
      { apply not_true_is_false. intros Hb.
        apply (proj1 (Forall_forall _ _) Hdirs) in Hd' as Hd''.
        destruct Hd'' as (Hd1' & Hd2' & _).
        pose proof (below_children_disjoint top d d' k Hd1 Hd2 Hd1' Hd2' Hb Hk).
        by subst. }
      rewrite Hf1 in Hdir by done. apply (Hold d'); [by right|done|done]. }
    destruct (walk_dirs_run float_of_literal float_repr str_lower fs0 fuel top
                (walk_run float_of_literal float_repr str_lower fs0 fuel)
                rest acc1 (World fs1 (trace w ++ new1)) Hnd Hdirs Hold' Hfuel)
      as (acc2 & fs2 & new2 & E2 & _).
    pose proof (IHd acc1 (World fs1 (trace w ++ new1)) Hnd Hdirs Hold' Hfuel
                  acc2 fs2 new2 E2) as Hl2.
    cbn [walk_dirs] in Heq. unfold bind at 1 in Heq. rewrite E1 in Heq.
    fold (walk_dirs (walk' fuel) top) in Heq. rewrite E2 in Heq.
    cbn [trace] in Heq. rewrite <- app_assoc in Heq. apply run_inv in Heq as <-.
    rewrite listings_app. by apply Forall_app.
Qed.

Lemma walk_lists_old (fs0 : gmap str node) fuel : forall (top : str) (acc : nat * nat) w,
  clean top = true -> (depth_bound fs0 top < fuel)%nat ->
  old_dirs fs0 (files w) top ->
  (files w !! top = Some Dir -> fs0 !! top = Some Dir) ->
  forall acc' fs' new,
    walk' fuel top acc w = (Ok acc', World fs' (trace w ++ new)) ->
    Forall (listed_old fs0) (listings new).
Proof.
  induction fuel as [|fuel IH]; intros top acc w Hc Hfuel Hold Htop0 acc' fs' new Heq;
    [lia|].
  rewrite walk_S in Heq. unfold bind at 1 in Heq. rewrite scandir_run in Heq.
  destruct (listing_of top (files w)) as [[dirs nondirs]|] eqn:El.
  2:{ unfold ret in Heq. cbn [trace] in Heq. apply run_inv in Heq as <-.
      repeat constructor. by intros H. }
  destruct (listing_of_some _ _ _ _ El) as (Htop & Edirs & Enondirs).
  set (w1 := World (files w) (trace w ++ [Listed top (Some (dirs, nondirs))])) in *.
  destruct (process_files_run float_of_literal float_repr str_lower top nondirs acc w1 Hc)
    as (acc1 & fs1 & new1 & E1 & Hl1 & _ & _ & _ & Hf1).
  { apply Forall_forall. intros f Hf. rewrite Enondirs in Hf. by eapply listed_file. }
  cbn [files trace w1] in *.
  assert (forall d, d ∈ dirs ->
            d <> [] /\ mem SLASH d = false /\ files w !! join top d = Some Dir) as Hdirs.
  { intros d Hd. rewrite Edirs in Hd. by destruct (listed_dir _ _ _ Hd) as (? & ? & ?). }
  assert (NoDup dirs) as Hnd by (rewrite Edirs; apply listed_dirs_nodup).
  assert (Forall (fun d => d <> [] /\ mem SLASH d = false /\ fs0 !! join top d = Some Dir)
            dirs) as Hdirs0.
  { apply Forall_forall. intros d Hd. destruct (Hdirs d Hd) as (H1 & H2 & H3).
    split_and!; try done. apply is_dir_some. apply (Hold (join top d)).
    - by apply child_below.
    - by rewrite H3. }
  set (w2 := World fs1 ((trace w ++ [Listed top (Some (dirs, nondirs))]) ++ new1)) in *.
  assert (forall d, d ∈ dirs -> old_dirs fs0 (files w2) (join top d)) as Hold2.
  { intros d Hd k Hk Hdir. cbn [files w2] in Hdir.
    destruct (Hdirs d Hd) as (H1 & H2 & H3).
    rewrite Hf1 in Hdir.
    - apply Hold; [by eapply below_child|done].
    - intros ->. by rewrite backup_not_below_child in Hk. }
  destruct (walk_dirs_run float_of_literal float_repr str_lower fs0 fuel top
              (walk_run float_of_literal float_repr str_lower fs0 fuel)
              dirs acc1 w2 Hnd Hdirs0 Hold2 ltac:(lia))
    as (acc2 & fs2 & new2 & E2 & _).
  pose proof (walk_dirs_lists_old fs0 fuel top IH dirs acc1 w2 Hnd Hdirs0 Hold2
                ltac:(lia) acc2 fs2 new2 E2) as Hl2.
  unfold bind at 1 in Heq. rewrite E1 in Heq. fold w2 in Heq. rewrite E2 in Heq.
  cbn [trace w2] in Heq. rewrite <- !app_assoc in Heq. apply run_inv in Heq as <-.
  rewrite !listings_app, Hl1.
  change (listings [Listed top (Some (dirs, nondirs))]) with [(top, Some (dirs, nondirs))].
  cbn [app]. constructor; [|done]. intros _. cbn [fst]. by apply Htop0.
Qed.

(** X19. The walk lists only directories that were there when it started:
    every file handed to the file processor lies directly in a directory of
    the file system as it was before the walk.  A backup folder that the
    walk creates is not walked, so the copies in it are not minified in the
    same run. *)
Theorem directory_walk_skips_new_directories (directory : str) (w : world) :
  clean directory = true ->
  exists acc' fs' new,
    process_directory' directory w
    = (Ok acc', World fs' (trace w ++ Printed (ProcessingDirectory directory) :: new))
    /\ Forall (listed_old (files w)) (listings new)
    /\ forall path, path ∈ map fst (processed new) ->
         exists top name, path = join top name /\ files w !! top = Some Dir.
Proof.
  intros Hc.
  destruct (process_directory_run float_of_literal float_repr str_lower directory w Hc)
    as (acc' & fs' & new & E & _ & _ & Hp & _).
  exists acc', fs', new. split; [exact E|].
  assert (Forall (listed_old (files w)) (listings new)) as Hl.
  { unfold process_directory, bind, print, emit in E. cbn [files trace] in E.
    apply (walk_lists_old (files w) (S (size (files w))) directory (0, 0)%nat
             (World (files w) (trace w ++ [Printed (ProcessingDirectory directory)]))
             Hc) with (acc' := acc') (fs' := fs').
    - pose proof (depth_bound_size (files w) directory). lia.
    - apply old_dirs_refl.
    - done.
    - cbn [trace]. by rewrite <- app_assoc. }
  split; [exact Hl|].
  intros path Hin. rewrite Hp in Hin.
  apply list_elem_of_In, in_flat_map in Hin as ([top l] & Hl' & Hin).
  apply list_elem_of_In in Hl'.
  unfold selected in Hin. cbn [fst snd] in Hin.
  destruct l as [[dirs nondirs]|]; [|done].
  apply in_map_iff in Hin as (name & <- & _).
  exists top, name. split; [done|].
  by apply (proj1 (Forall_forall _ _) Hl (top, Some (dirs, nondirs)) Hl').
Qed.

End WalkOld.

Lemma directory_walk_skips_new_directories_witness :
  exists acc' fs' new,
    process_directory zero_of_literal zero_repr ascii_lower (str_of "t") world_tree
    = (Ok acc',
       World fs' (trace world_tree ++ Printed (ProcessingDirectory (str_of "t")) :: new))
    /\ Forall (listed_old (files world_tree)) (listings new).
Proof.
  destruct (directory_walk_skips_new_directories zero_of_literal zero_repr ascii_lower
              (str_of "t") world_tree eq_refl) as (acc' & fs' & new & E & H & _).
  exists acc', fs', new. split; [exact E|exact H].
Defined.

(** ** Further properties of the encoding detector *)

Lemma encode_utf16le_ascii (s : str) :
  forallb (fun c => c <? 128) s = true ->
  encode UTF16LE s = Some (flat_map (fun c => [byte_of c; byte_of 0]) s).
Proof.
  cbn [encode]. induction s as [|c s IH]; [done|]. cbn [forallb].
  intros [Hc%N.ltb_lt Hs]%andb_true_iff. cbn [encode_with flat_map].
  rewrite (IH Hs). unfold encode_utf16le_char.
  rewrite ltb_true by lia.
  assert (is_surrogate c = false) as ->.
  { unfold is_surrogate. rewrite leb_false by lia. done. }
  rewrite N.mod_small, N.div_small by lia. done.
Qed.

Lemma decode_utf8_nul_interleaved (s : str) :
  forallb (fun c => c <? 128) s = true ->
  decode UTF8 (flat_map (fun c => [byte_of c; byte_of 0]) s)
  = Some (flat_map (fun c => [c; 0]) s).
Proof.
  cbn [decode]. induction s as [|c s IH]; [done|]. cbn [forallb].
  intros [Hc%N.ltb_lt Hs]%andb_true_iff. cbn [flat_map].
  change ([byte_of c; byte_of 0] ++ ?r) with ([byte_of c] ++ [byte_of 0] ++ r).
  rewrite (decode_utf8_char c [byte_of c]).
  2:{ unfold encode_utf8_char. by rewrite ltb_true. }
  rewrite (decode_utf8_char 0 [byte_of 0]) by done.
  by rewrite (IH Hs).
Qed.

(** X20. UTF-16 little endian is found only when the bytes are not UTF-8: a
    text of ASCII characters stored in UTF-16 little endian without a byte
    order mark is valid UTF-8 as well, so the detector returns UTF-8 and
    the file is read as its characters with a NUL after each. *)
Theorem ascii_utf16_is_read_as_utf8 (file_path : str) (w : world) (s : str)
    (data : list byte) :
  forallb (fun c => c <? 128) s = true ->
  encode UTF16LE s = Some data ->
  files w !! file_path = Some (File data) ->
  fst (detect_encoding file_path w) = Ok UTF8
  /\ decode UTF8 data = Some (flat_map (fun c => [c; 0]) s).
Proof.
  intros Hs He Hfp. rewrite (encode_utf16le_ascii _ Hs) in He. injection He as <-.
  pose proof (decode_utf8_nul_interleaved _ Hs) as Hd.
  split; [|done]. rewrite (detect_encoding_run _ _ _ Hfp).
  unfold detected. by rewrite Hd.
Qed.

Lemma ascii_utf16_is_read_as_utf8_witness :
  fst (detect_encoding (str_of "le.txt") world_utf16_ascii) = Ok UTF8
  /\ decode UTF8 (map byte_of [104; 0; 105; 0]) = Some [104; 0; 105; 0].
Proof.
  exact (ascii_utf16_is_read_as_utf8 (str_of "le.txt") world_utf16_ascii (str_of "hi")
           (map byte_of [104; 0; 105; 0]) eq_refl eq_refl eq_refl).
Defined.

(** X21. The detector handles decoding errors only: on a path that is missing
    or is a directory the first probe raises [FileNotFoundError] or
    [IsADirectoryError], which leaves the detector; nothing is printed and
    the file system is as it was. *)
Theorem detect_encoding_not_a_file (file_path : str) (w : world) :
  is_file_node (files w !! file_path) = false ->
  detect_encoding file_path w =
  (Raised (if is_dir_node (files w !! file_path) then IsADirectoryError
           else FileNotFoundError) 0,
   World (files w) (trace w ++ [Probe file_path UTF8])).
Proof.
  intros H. unfold detect_encoding, bind at 1. cbn [detect_loop].
  unfold try_except, bind at 1, emit at 1. unfold bind at 1.
  unfold read_text, bind at 1. unfold read_bytes, bind at 1, lookup_node.
  cbn [files trace].
  by destruct (files w !! file_path) as [[?|]|].
Qed.

Lemma detect_encoding_not_a_file_witness :
  detect_encoding (str_of "d") world_d =
  (Raised IsADirectoryError 0, World (files world_d) [Probe (str_of "d") UTF8]).
Proof. exact (detect_encoding_not_a_file (str_of "d") world_d eq_refl). Defined.

(** ** Further properties of the JSON minifier *)

Section JsonMinifierMore.

Variable float_of_literal : str -> spec_float.
Variable float_repr : spec_float -> str.

Abbreviation minify_json' := (minify_json float_of_literal float_repr).

Hypothesis float_text :
  forall text, float_ok float_of_literal float_repr (float_of_literal text) = true.

(** X22. What the JSON minifier returns is made of printable ASCII characters
    only, whatever the characters of the input: every other character of a
    string is written as an escape. *)
Theorem minify_json_is_ascii (s out : str) (w : world) :
  unicode_text s = true ->
  fst (minify_json' s w) = Ok (Some out) ->
  forallb printable out = true.
Proof.
  intros Hu H. rewrite (minify_json_run float_of_literal float_repr s w) in H.
  destruct (loads float_of_literal s) as [v|] eqn:E; [|done].
  injection H as <-. apply (dumps_printable float_of_literal).
  by apply (loads_ok float_of_literal float_repr float_text s).
Qed.

(** X23. The JSON minifier leaves its own output as it is: minifying a
    minified text returns the same text, prints nothing and changes
    nothing. *)
Theorem minify_json_idempotent (s out : str) (w w' : world) :
  unicode_text s = true ->
  fst (minify_json' s w) = Ok (Some out) ->
  minify_json' out w' = (Ok (Some out), w').
Proof.
  intros Hu H. rewrite (minify_json_run float_of_literal float_repr s w) in H.
  rewrite (minify_json_run float_of_literal float_repr out w').
  destruct (loads float_of_literal s) as [v|] eqn:E; [|done].
  injection H as <-.
  rewrite (loads_dumps float_of_literal float_repr v); [done|].
  by apply (loads_ok float_of_literal float_repr float_text s).
Qed.

End JsonMinifierMore.

Lemma minify_json_is_ascii_witness :
  fst (minify_json zero_of_literal zero_repr accent_json (World ∅ []))
  = Ok (Some (LBRACKET :: DQUOTE :: str_of "\u00e9" ++ [DQUOTE; RBRACKET]))
  /\ forallb printable (LBRACKET :: DQUOTE :: str_of "\u00e9" ++ [DQUOTE; RBRACKET]) = true.
Proof.
  split; [reflexivity|].
  exact (minify_json_is_ascii zero_of_literal zero_repr zero_float_text accent_json _
           (World ∅ []) eq_refl eq_refl).
Defined.

Lemma minify_json_idempotent_witness :
  minify_json zero_of_literal zero_repr example_json_minified (World ∅ [])
  = (Ok (Some example_json_minified), World ∅ []).
Proof.
  exact (minify_json_idempotent zero_of_literal zero_repr zero_float_text
           example_json example_json_minified (World ∅ []) (World ∅ []) eq_refl eq_refl).
Defined.

(** ** Objects with a key that occurs more than once *)

Lemma value_of_none (d : list (str * json)) k : k ∉ map fst d -> value_of d k = None.
Proof.
  induction d as [|[k' v'] d IH]; [done|]. cbn [map fst value_of].
  intros [Hne Hk]%not_elem_of_cons. rewrite (IH Hk).
  unfold str_eqb. by rewrite bool_decide_eq_false_2 by done.
Qed.

Lemma value_of_dict_set (d : list (str * json)) k v k0 :
  NoDup (map fst d) ->
  value_of (dict_set d k v) k0 = if str_eqb k k0 then Some v else value_of d k0.
Proof.
  induction d as [|[k' v'] d IH]; intros Hnd; [done|].
  cbn [map fst] in Hnd. apply NoDup_cons in Hnd as [Hk' Hnd].
  cbn [dict_set value_of]. unfold str_eqb in *.
  destruct (decide (k' = k)) as [->|Hne].
  - rewrite bool_decide_eq_true_2 by done. cbn [value_of]. unfold str_eqb.
    destruct (decide (k = k0)) as [->|Hne0].
    + rewrite (value_of_none d k0 Hk').
      by rewrite !bool_decide_eq_true_2.
    + rewrite !(bool_decide_eq_false_2 (k = k0)) by done.
      by destruct (value_of d k0).
  - rewrite (bool_decide_eq_false_2 (k' = k)) by done. cbn [value_of]. unfold str_eqb.
    rewrite (IH Hnd).
    destruct (decide (k = k0)) as [->|Hne0].
    + by rewrite !bool_decide_eq_true_2.
    + by rewrite !(bool_decide_eq_false_2 (k = k0)).
Qed.

Lemma dict_set_nodup (d : list (str * json)) k v :
  NoDup (map fst d) -> NoDup (map fst (dict_set d k v)).
Proof.
  intros Hnd. rewrite dict_set_keys. case_bool_decide as Hin; [done|].
  apply NoDup_app. split_and!; [done| |apply NoDup_singleton].
  intros x Hx ->%list_elem_of_singleton. done.
Qed.

Lemma dict_of_pairs_values (pairs : list (str * json)) :
  NoDup (map fst (dict_of_pairs pairs))
  /\ forall k, value_of (dict_of_pairs pairs) k = value_of pairs k.
Proof.
  unfold dict_of_pairs.
  assert (forall acc : list (str * json), NoDup (map fst acc) ->
            let r := fold_left (fun d kv => dict_set d (fst kv) (snd kv)) pairs acc in
            NoDup (map fst r)
            /\ forall k, value_of r k =
                         match value_of pairs k with
                         | Some x => Some x
                         | None => value_of acc k
                         end) as H.
  { induction pairs as [|[k v] pairs IH]; intros acc Hnd; [done|].
    cbn [fold_left fst snd].
    destruct (IH (dict_set acc k v) (dict_set_nodup _ k v Hnd)) as [H1 H2].
    split; [exact H1|]. intros k0. cbv zeta in H2. rewrite H2.
    cbn [value_of]. destruct (value_of pairs k0); [done|].
    rewrite value_of_dict_set by done. by destruct (str_eqb k k0). }
  destruct (H [] (NoDup_nil_2)) as [H1 H2]. split; [exact H1|].
  intros k. cbv zeta in H2. rewrite H2. by destruct (value_of pairs k).
Qed.

Section DuplicateKeys.

Variable float_of_literal : str -> spec_float.
Variable float_repr : spec_float -> str.

Abbreviation minify_json' := (minify_json float_of_literal float_repr).
Abbreviation loads' := (loads float_of_literal).
Abbreviation dumps' := (dumps float_repr).
Abbreviation members_ok' := (members_ok float_of_literal float_repr).

(** The text of an object is read as a [dict] of its members. *)
Lemma loads_object (d : list (str * json)) :
  members_ok' d = true ->
  loads' (dumps' (JDict d)) = Some (JDict (dict_of_pairs d)).
Proof.
  intros Hok. destruct d as [|[k v] d]; [done|].
  unfold loads. rewrite dumps_dict.
  assert (forall t : str, starts_with [BOM] (LBRACE :: t) = false) as -> by done.
  rewrite skip_ws_head by done.
  assert (Forall (fun kv : str * json =>
                    reads_back float_of_literal float_repr (snd kv)) ((k, v) :: d)) as Hrb.
  { apply Forall_forall. intros y Hy. apply dumps_reads_back.
    apply list_elem_of_In in Hy.
    by apply (proj1 (forallb_forall _ _) Hok), andb_true_iff in Hy as [_ ?]. }
  cbn [length]. rewrite !length_app. cbn [length]. rewrite !length_app.
  cbn [scan_once].
  change (LBRACE =? DQUOTE) with false. change (LBRACE =? LBRACE) with true.
  cbv iota. rewrite skip_ws_head by done.
  change (DQUOTE =? RBRACE) with false. change (DQUOTE =? DQUOTE) with true.
  cbv iota.
  repeat (rewrite <- app_assoc || rewrite <- app_comm_cons). cbn [app].
  rewrite (object_loop_dumps float_of_literal float_repr d k v Hrb Hok);
    [done|cbn [length]; lia].
Qed.

(** X24. When a key occurs more than once among the members of an object,
    the JSON minifier keeps one member for it, with the value of the last:
    the compact text of any list of members is minified to the text of the
    members with distinct keys that [dict] makes of them. *)
Theorem minify_json_merges_duplicate_keys (d : list (str * json)) (w : world) :
  members_ok' d = true ->
  minify_json' (dumps' (JDict d)) w = (Ok (Some (dumps' (JDict (dict_of_pairs d)))), w)
  /\ NoDup (map fst (dict_of_pairs d))
  /\ forall k, value_of (dict_of_pairs d) k = value_of d k.
Proof.
  intros Hok. rewrite (minify_json_run float_of_literal float_repr).
  rewrite (loads_object d Hok). split; [done|]. apply dict_of_pairs_values.
Qed.

End DuplicateKeys.

Lemma minify_json_merges_duplicate_keys_witness :
  minify_json zero_of_literal zero_repr
    (str_of "{" ++ quoted "a" ++ str_of ":1," ++ quoted "b" ++ str_of ":null,"
     ++ quoted "a" ++ str_of ":2}") (World ∅ [])
  = (Ok (Some (str_of "{" ++ quoted "a" ++ str_of ":2," ++ quoted "b" ++ str_of ":null}")),
     World ∅ []).
Proof.
  exact (proj1 (minify_json_merges_duplicate_keys zero_of_literal zero_repr
                  [(str_of "a", JInt 1); (str_of "b", JNull); (str_of "a", JInt 2)]
                  (World ∅ []) eq_refl)).
Defined.

(** ** The output of a JSON file in UTF-16 *)

Lemma printable_ascii (s : str) :
  forallb printable s = true -> forallb (fun c => c <? 128) s = true.
Proof.
  intros H. apply forallb_forall. intros c Hc.
  apply (proj1 (forallb_forall _ _) H) in Hc. unfold printable in Hc.
  apply andb_true_iff in Hc as [_ H2%N.leb_le]. apply N.ltb_lt. lia.
Qed.

Section Utf16Json.

Variable float_of_literal : str -> spec_float.
Variable float_repr : spec_float -> str.
Variable str_lower : str -> str.

Abbreviation process_file' := (process_file float_of_literal float_repr str_lower).

Hypothesis float_text :
  forall text, float_ok float_of_literal float_repr (float_of_literal text) = true.

(** X25. The minified text of a JSON file is ASCII, and ASCII text in UTF-16
    little endian is valid UTF-8: when [process_file] succeeds on a [.json]
    file that was detected as UTF-16 little endian, the file it writes is
    in that encoding, yet the detector of this program finds it to be
    UTF-8 and reads it with a NUL after every character. *)
Theorem utf16_json_output_is_detected_as_utf8 (file_path : str) (w : world)
    (data : list byte) :
  files w !! file_path = Some (File data) ->
  str_lower (snd (splitext (basename file_path))) = str_of ".json" ->
  detected data = UTF16LE ->
  fst (process_file' file_path w) = Ok true ->
  exists out bytes,
    files (snd (process_file' file_path w)) !! output_path_of file_path = Some (File bytes)
    /\ decode UTF16LE bytes = Some out
    /\ decode UTF8 bytes = Some (flat_map (fun c => [c; 0]) out)
    /\ detected bytes = UTF8.
Proof.
  intros Hfp Hext Hdet (data' & content & out & bytes & Hr)%process_file_true.
  rewrite (process_file_ready _ _ _ _ _ _ _ _ _ Hr). cbn [snd files].
  destruct Hr as (Hfp' & _ & _ & _ & Ht & Hm & He).
  rewrite Hfp in Hfp'. injection Hfp' as <-. rewrite Hdet in *.
  assert (forallb (fun c => c <? 128) out = true) as Hascii.
  { unfold minified in Hm. rewrite Hext in Hm.
    destruct (loads float_of_literal content) as [v|] eqn:El; [|done].
    injection Hm as <-.
    apply printable_ascii, (dumps_printable float_of_literal).
    apply (loads_ok float_of_literal float_repr float_text content); [|done].
    by apply (file_text_unicode UTF16LE data). }
  rewrite (encode_utf16le_ascii _ Hascii) in He. injection He as <-.
  pose proof (decode_utf8_nul_interleaved _ Hascii) as H8.
  exists out, (flat_map (fun c => [byte_of c; byte_of 0]) out).
  split; [apply lookup_insert_eq|]. split; [|split; [done|]].
  - apply decode_encode. by apply encode_utf16le_ascii.
  - unfold detected. by rewrite H8.
Qed.

End Utf16Json.

Lemma utf16_json_output_is_detected_as_utf8_witness :
  exists out bytes,
    files (snd (process_file zero_of_literal zero_repr ascii_lower
                  (str_of "d/u.json") world_utf16_json)) !! str_of "d/u.skysheet"
    = Some (File bytes)
    /\ decode UTF16LE bytes = Some out
    /\ detected bytes = UTF8.
Proof.
  assert (fst (process_file zero_of_literal zero_repr ascii_lower
                 (str_of "d/u.json") world_utf16_json) = Ok true) as H
    by (vm_compute; reflexivity).
  destruct (utf16_json_output_is_detected_as_utf8 zero_of_literal zero_repr ascii_lower
              zero_float_text (str_of "d/u.json") world_utf16_json utf16_json_bytes
              eq_refl eq_refl eq_refl H) as (out & bytes & H1 & H2 & _ & H3).
  exists out, bytes. split; [exact H1|]. split; [exact H2|exact H3].
Defined.

(** ** The command line driver *)

Lemma mem_rev c (s : str) : mem c (rev s) = mem c s.
Proof.
  induction s as [|x s IH]; [done|]. cbn [rev]. rewrite mem_app, IH.
  unfold mem. cbn [existsb]. by rewrite orb_false_r, orb_comm.
Qed.

Lemma split_from_free (path cur : str) :
  mem SLASH cur = false ->
  Forall (fun c => mem SLASH c = false) (split_from cur path).
Proof.
  revert cur. induction path as [|c rest IH]; intros cur Hcur; cbn [split_from].
  - constructor; [|constructor]. by rewrite mem_rev.
  - destruct (N.eqb_spec c SLASH) as [->|Hc].
    + constructor; [|by apply IH]. by rewrite mem_rev.
    + apply IH. unfold mem in *. cbn [existsb]. rewrite Hcur, orb_false_r.
      apply N.eqb_neq. congruence.
Qed.

Lemma Forall_removelast {A} (P : A -> Prop) (l : list A) :
  Forall P l -> Forall P (removelast l).
Proof.
  induction 1 as [|x l Hx Hl IH]; [constructor|].
  cbn [removelast]. destruct l; [constructor|]. by constructor.
Qed.

Lemma norm_step_components k (new_comps : list str) (comp : str) :
  mem SLASH comp = false -> Forall component new_comps ->
  Forall component (norm_step k new_comps comp).
Proof.
  intros Hc Hn. unfold norm_step.
  destruct (str_eqb comp [] || _) eqn:E1; [done|].
  apply orb_false_iff in E1 as [E1%bool_decide_eq_false _].
  destruct (_ || _ || _).
  - apply Forall_app. split; [done|]. by repeat constructor.
  - destruct (negb _); [by apply Forall_removelast|done].
Qed.

Lemma fold_norm_components k (comps new_comps : list str) :
  Forall (fun c => mem SLASH c = false) comps -> Forall component new_comps ->
  Forall component (fold_left (norm_step k) comps new_comps).
Proof.
  revert new_comps. induction comps as [|c comps IH]; intros new_comps Hc Hn; [done|].
  apply Forall_cons in Hc as [Hc Hcs]. cbn [fold_left].
  apply IH; [done|]. by apply norm_step_components.
Qed.

Lemma join_components_last (comps : list str) :
  comps <> [] -> Forall component comps ->
  exists u x, join_with [SLASH] comps = u ++ [x] /\ x <> SLASH.
Proof.
  intros Hne Hall. induction Hall as [|c l [Hc1 Hc2] Hl IH]; [done|].
  destruct l as [|c' l].
  - destruct (exists_last Hc1) as (u & x & ->). exists u, x. split; [done|].
    by apply last_not_slash in Hc2.
  - destruct IH as (u & x & E & Hx); [done|].
    change (join_with [SLASH] (c :: c' :: l))
      with (c ++ [SLASH] ++ join_with [SLASH] (c' :: l)).
    rewrite E. exists (c ++ [SLASH] ++ u), x. by rewrite <- !app_assoc.
Qed.

Lemma all_slashes_repeat n : all_slashes (repeat SLASH n) = true.
Proof. induction n as [|n IH]; [done|]. cbn [repeat all_slashes forallb]. done. Qed.

(** What the driver hands to the walker is a normalized path. *)
Lemma normpath_clean (path : str) : clean (normpath path) = true.
Proof.
  unfold normpath. destruct (str_eqb path []); [done|]. cbv zeta.
  set (k := initial_slashes_of path).
  set (comps := fold_left (norm_step k) (split_slash path) []).
  assert (Forall component comps) as Hall.
  { apply fold_norm_components; [|constructor]. by apply split_from_free. }
  destruct (str_eqb (repeat SLASH k ++ join_with [SLASH] comps) []) eqn:E; [done|].
  destruct (decide (comps = [])) as [->|Hne].
  - cbn [join_with]. rewrite app_nil_r. unfold clean.
    by rewrite all_slashes_repeat, orb_true_r.
  - destruct (join_components_last comps Hne Hall) as (u & x & -> & Hx).
    unfold clean. rewrite app_assoc, ends_with_snoc.
    apply N.eqb_neq in Hx. by rewrite Hx, orb_true_r.
Qed.

Section DriverFacts.

Variable float_of_literal : str -> spec_float.
Variable float_repr : spec_float -> str.
Variable str_lower : str -> str.

Abbreviation main_loop' := (main_loop float_of_literal float_repr str_lower).
Abbreviation main' := (main float_of_literal float_repr str_lower).


End DriverFacts.

Section DriverMore.

Variable float_of_literal : str -> spec_float.
Variable float_repr : spec_float -> str.
Variable str_lower : str -> str.

Abbreviation main' := (main float_of_literal float_repr str_lower).


(** X27. An argument whose normalized path is not in the file system is
    reported as missing and counted as one error: it is not among the
    processed locations, nothing is probed or written, and the exit status
    is 0 all the same. *)
Theorem main_missing_path (path : str) (w : world) :
  files w !! normpath path = None ->
  main' [path] w =
  (Ok (0%nat,
       Driver 0 1 []
         [(length (trace w), Starting);
          (length (trace w), PathMissing (normpath path));
          (length (trace w), Summary [] 0 1)]), w).
Proof.
  intros H. unfold main, main_loop. cbv zeta.
  unfold bind, tell, path_exists, bind, lookup_node, ret. rewrite H. done.
Qed.

End DriverMore.

Lemma main_missing_path_witness :
  fst (main zero_of_literal zero_repr ascii_lower [str_of "d/../nothing"] world_d)
  = Ok (0%nat,
        Driver 0 1 []
          [(0%nat, Starting); (0%nat, PathMissing (str_of "nothing"));
           (0%nat, Summary [] 0 1)]).
Proof.
  exact (f_equal fst (main_missing_path zero_of_literal zero_repr ascii_lower
                        (str_of "d/../nothing") world_d eq_refl)).
Defined.

(** [mini.bat] run on the directory [t] and on a path that is not there. *)
Example main_tree :
  let r := main zero_of_literal zero_repr ascii_lower
             [str_of "t/"; str_of "./t/sub/../none"] world_tree in
  exists d,
    fst r = Ok (0%nat, d)
    /\ total_count d = 2%nat /\ total_errors d = 1%nat
    /\ processed_paths d = [str_of "t"]
    /\ map snd (console d) =
       [Starting; PathMissing (str_of "t/none"); Summary [str_of "t"] 2 1].
Proof. cbv zeta. eexists. split; [vm_compute; reflexivity|]. by vm_compute. Qed.

(** ** What the driver counts *)

Lemma grows_some (fs fs' : gmap str node) (p : str) :
  grows fs fs' -> is_Some (fs !! p) -> is_Some (fs' !! p).
Proof.
  intros Hg [n Hn]. specialize (Hg p). rewrite Hn in Hg.
  destruct n; [|by rewrite Hg]. by destruct (fs' !! p).
Qed.

Section DriverCounts.

Variable float_of_literal : str -> spec_float.
Variable float_repr : spec_float -> str.
Variable str_lower : str -> str.

Abbreviation main_loop' := (main_loop float_of_literal float_repr str_lower).
Abbreviation main' := (main float_of_literal float_repr str_lower).

Lemma counted_grows (n : nat) (d : driver) (fs fs' : gmap str node) :
  grows fs fs' -> counted n d fs -> counted n d fs'.
Proof.
  intros Hg (H1 & H2 & H3 & H4). split_and!; try done.
  eapply Forall_impl; [exact H3|]. intros p. by apply grows_some.
Qed.

Lemma main_loop_counts (args : list str) : forall n d w,
  counted n d (files w) ->
  exists d' w',
    main_loop' args d w = (Ok d', w') /\ counted (n + length args) d' (files w').
Proof.
  induction args as [|path rest IH]; intros n d w Hd.
  { exists d, w. split; [done|]. cbn [length]. by rewrite Nat.add_0_r. }
  cbn [main_loop length]. cbv zeta.
  replace (n + S (length rest))%nat with (S n + length rest)%nat by lia.
  destruct Hd as (H1 & H2 & H3 & H4).
  unfold bind at 1, path_exists, bind at 1, lookup_node, ret.
  destruct (files w !! normpath path) as [[data|]|] eqn:E; cbn [negb].
  - unfold bind at 1, isfile, bind at 1, lookup_node, ret. rewrite E.
    unfold bind at 1, tell. unfold bind at 1.
    destruct (steady_process_file float_of_literal float_repr str_lower
                (normpath path) w) as (ok & fs1 & new1 & E1 & _ & Hg1 & _).
    rewrite E1. apply IH. cbn [files].
    assert (Forall (fun p => is_Some (fs1 !! p)) (processed_paths d ++ [normpath path]))
      as H3'.
    { apply Forall_app. split.
      - eapply Forall_impl; [exact H3|]. intros p. by apply grows_some.
      - constructor; [|done]. apply (grows_some _ _ _ Hg1). by rewrite E. }
    unfold counted, missing_count in *.
    destruct ok; cbn [add_count add_errors add_path console processed_paths total_errors];
      rewrite !List.filter_app; cbn [List.filter is_missing is_unsupported snd];
      rewrite ?app_nil_r, ?length_app; cbn [length]; split_and!; try done; lia.
  - unfold bind at 1, isfile, bind at 1, lookup_node, ret. rewrite E.
    unfold bind at 1, isdir, bind at 1, lookup_node, ret. rewrite E.
    unfold bind at 1.
    destruct (process_directory_run float_of_literal float_repr str_lower
                (normpath path) w (normpath_clean path))
      as (acc' & fs1 & new1 & E1 & _ & _ & _ & _ & Hg1 & _).
    rewrite E1. apply IH. cbn [files].
    assert (Forall (fun p => is_Some (fs1 !! p)) (processed_paths d ++ [normpath path]))
      as H3'.
    { apply Forall_app. split.
      - eapply Forall_impl; [exact H3|]. intros p. by apply grows_some.
      - constructor; [|done]. apply (grows_some _ _ _ Hg1). by rewrite E. }
    unfold counted, missing_count in *.
    cbn [add_count add_errors add_path console processed_paths total_errors].
    rewrite ?length_app. cbn [length]. split_and!; try done; lia.
  - unfold bind at 1, tell. apply IH. cbn [files].
    unfold counted, missing_count in *.
    cbn [add_errors console processed_paths total_errors].
    rewrite !List.filter_app. cbn [List.filter is_missing is_unsupported snd].
    rewrite ?app_nil_r, ?length_app. cbn [length]. split_and!; try done; lia.
Qed.

(** X28. The driver accounts for every argument: each one is either reported
    as missing, and then counted as an error, or listed among the processed
    locations, and then its normalized path is in the file system when the
    driver ends.  In a file system of regular files and directories the
    message about an unsupported kind of path is never printed. *)
Theorem main_accounts_for_every_argument (args : list str) (w : world) :
  exists status d w',
    main' args w = (Ok (status, d), w')
    /\ (missing_count d + length (processed_paths d) = length args)%nat
    /\ (missing_count d <= total_errors d)%nat
    /\ Forall (fun p => is_Some (files w' !! p)) (processed_paths d)
    /\ List.filter is_unsupported (console d) = [].
Proof.
  destruct args as [|path rest].
  - eexists _, _, _. split; [reflexivity|]. by split_and!.
  - unfold main. unfold bind at 1, tell at 1. unfold bind at 1.
    match goal with
    | |- context [main_loop _ _ _ ?args ?d1 ?w1] =>
        destruct (main_loop_counts args 0 d1 w1) as (d' & w' & E & H1 & H2 & H3 & H4)
    end.
    { unfold counted, missing_count. cbn [console processed_paths total_errors].
      by split_and!. }
    rewrite E. unfold bind, tell, ret. eexists _, _, _. split; [reflexivity|].
    unfold missing_count in *. cbn [console processed_paths total_errors].
    rewrite !List.filter_app. cbn [List.filter is_missing is_unsupported snd].
    rewrite !app_nil_r. split_and!; [exact H1|exact H2|exact H3|exact H4].
Qed.

End DriverCounts.
